(* ===== verification/_CoqProject ===== *)
-Q . S2P
Prelude.v
NetBuffer.v
Http.v
Poller.v
PollerSpec.v
DefaultPoller.v
Timestamp.v
TimerQueue.v
TimerFacts.v
TcpConnection.v
TcpConnectionFacts.v
HttpService.v
EventLoop.v
EventLoopFacts.v
Calendar.v
TimeZone.v
TimeZoneFacts.v
ZoneFile.v
Monitor.v
Atomic.v
Mutex.v
Concurrency.v
LoopThreads.v
LoopThreadLife.v
LogStream.v
LogStreamFacts.v
Codec.v
CodecFacts.v
Streams.v
Connector.v
ConnectorFacts.v
TcpServer.v
TcpServerFacts.v
TcpClient.v
TcpClientFacts.v
AsyncLogging.v
FileUtil.v
GzipFile.v
Clock.v
LogFile.v
Logging.v
Thread.v
StackTrace.v
ThreadData.v
PoolThreads.v
ProcessInfo.v
ProcessInfoFacts.v
InetAddress.v
Inspector.v
InspectorFacts.v
StringPiece.v
Rpc.v
RpcFacts.v
