(* ===== verification/Prelude.v ===== *)
(** * Verification of the muduo reactor library

    The program under src/muduo is a C++ library for network servers: one event
    loop per thread, non-blocking sockets, callbacks, and the base library
    (time, logging, queues, thread pools) it stands on.  This development
    translates it into executable definitions and proves what makes each part
    correct.

    ** How the program fits together

    An [EventLoop] owns a [Poller] (epoll(4) or poll(2)), a [TimerQueue] on a
    timerfd and a queue of functors with an eventfd that wakes the loop up.  It
    waits in the poller, runs the callbacks of the active [Channel]s, then the
    queued functors.  A [TcpConnection] registers a channel, reads into an
    input [Buffer], writes from an output [Buffer] and calls the user back;
    [HttpServer], [ProtobufCodecLite] and [RpcChannel] above it are such users,
    and the [Inspector] is a user of the HTTP server.  A [Connector] opens
    connections for a [TcpClient], a [TcpServer] accepts them with its
    [Acceptor] and spreads them over loops; both find their peers by
    [InetAddress].  [EventLoopThread] and [EventLoopThreadPool] start loops in
    threads and hand them out; [ThreadPool], [BlockingQueue],
    [BoundedBlockingQueue] and [CountDownLatch] are monitors on a mutex and
    condition variables, and [Thread] starts the threads.  [Timestamp], [Date]
    and [TimeZone] are the arithmetic of time, [LogStream] formats numbers into a
    fixed buffer, [Logger] makes log lines with it, [AsyncLogging] carries them
    to a background thread and [LogFile] writes them through [FileUtil] and rolls
    the files.

    ** Conventions (this file)

    A function that can stop without returning gives an [outcome]: [Ok] or a
    [fault] (a failed [assert], an exception of the standard library, an
    access outside an object, signed overflow, [abort], a deadlock); sequencing
    is the monad of stdpp.  Integers are [Z] with their width written out: [u64],
    [u32], [i32], [i64] wrap around, [ck32] and [ck64] fault on overflow.  Memory
    is a list of bytes with [load] and [store]; a pointer into an object is an
    offset; heap objects that several parts share are entries of a [gmap].
    Everything the kernel, the network, the clock or the scheduler decides is
    an argument of the step it decides.  Threads are interleaved by explicit
    lists of steps.  The log lines are left out unless a result depends on them.

    ** Files of the network library

    - NetBuffer.v: net/Endian.h ([Module sockets]) and net/Buffer.h, Buffer.cc
      ([Module Buffer]).  The buffer refines a queue of bytes under every
      sequence of calls; integers survive the network between machines of
      either byte order; [readFd] appends what readv(2) delivered.
    - Poller.v: net/Channel, net/Poller.h and net/poller ([Module Channel],
      [ChannelOps], [EPollPoller], [PollPoller]; class [Poller] is the virtual
      interface).  PollerSpec.v: class [PollerSpec] is the contract of a poller;
      both are instances, and any client that follows the protocol of
      Channel.h keeps the kernel watching exactly what its channels ask for.
      DefaultPoller.v: net/poller/DefaultPoller.cc, which picks one of them, as a
      third instance.
    - TimerQueue.v: net/Timer, TimerId, TimerQueue.  TimerFacts.v: no
      assertion fails and no freed timer is touched, the timers run are the
      expired ones, the timerfd is armed early enough, [cancel] is exact.
    - EventLoop.v: net/EventLoop with its interleaved threads.
      EventLoopFacts.v: no lost wakeup, functors in order, iterations end.
    - TcpConnection.v: net/TcpConnection.  TcpConnectionFacts.v, against the
      contract of PollerSpec.v: safety, order of the bytes, order of the
      callbacks, teardown.
    - Connector.v, TcpServer.v, TcpClient.v: net/Connector, Acceptor, TcpServer,
      TcpClient.  ConnectorFacts.v, TcpServerFacts.v, TcpClientFacts.v:
      sockets are neither leaked nor closed twice, retries back off, the maps of
      connections are right under every interleaving of the loops, connections
      are destroyed once.
    - InetAddress.v: net/InetAddress and what SocketsOps.cc computes.  Addresses
      survive printing and parsing; the other functions case by case.
    - LoopThreads.v: net/EventLoopThread and EventLoopThreadPool.
      LoopThreadLife.v: the loop's thread and its owner to the end of the
      destructor, which joins a loop that runs and waits for ever for one
      that is about to.
    - Http.v: net/http.  The parser gives the same result however the
      bytes arrive, inverts a printer of requests and returns; the server's
      reaction to a read event, case by case; the response on the wire.
      HttpService.v: [HttpServer] as the user of a [TcpConnection].  Whatever
      the pieces in which bytes are read and written, a client gets the handler's
      responses in order, one for every read at most, and all of them if it
      sends one request at a time.
    - Codec.v: net/protobuf/ProtobufCodecLite.  CodecFacts.v: [onMessage]
      refines the reading of a byte stream, messages survive the network.
    - Streams.v: net/protobuf/BufferStream.h and net/ZlibStream.h over the
      buffer, for any zlib that does what zlib.h says.
    - Rpc.v: net/protorpc over the codec.  RpcFacts.v: of any number of
      outstanding calls each gets its own response or none, once, and the table of
      calls empties.
    - ProcessInfo.v, Inspector.v: base/ProcessInfo, net/inspect.
      ProcessInfoFacts.v: fields are found in /proc whatever the name of the
      process.  InspectorFacts.v: paths are split and commands registered, listed
      and answered as asked.

    ** Files of the base library

    - Timestamp.v, Clock.v: base/Timestamp, its formats read back.
    - Calendar.v, TimeZone.v: base/Date and base/TimeZone.  TimeZoneFacts.v and
      ZoneFile.v: conversions are inverse to each other, the reader of zone
      files inverts the format of RFC 8536.
    - Monitor.v: a machine for operations on a mutex and condition variables.
      Concurrency.v: base/BlockingQueue.h, BoundedBlockingQueue.h,
      CountDownLatch, ThreadPool on it, each correct for any number of threads.
      Mutex.v: base/Mutex.h and Condition.h step by step.  Atomic.v: base/Atomic.h.
    - PoolThreads.v: the threads of base/ThreadPool.cc.  [stop] returns, no
      thread outlives the pool, exceptions of tasks end the process.
    - Thread.v: base/Thread, CurrentThread.  StackTrace.v: its stack trace and
      base/Exception.  ThreadData.v: base/Singleton.h,
      ThreadLocal.h, ThreadLocalSingleton.h, objects made on first use.
    - LogStream.v: base/LogStream.  LogStreamFacts.v: numbers are converted
      correctly and nothing is written outside the buffer.
    - Logging.v: base/Logging.  A log line holds what was logged, and the
      cached time is the time.
    - AsyncLogging.v: base/AsyncLogging.  Lines are not reordered between the
      threads that log and the one that writes, which writes them at its next
      turn; which ones are dropped or left behind by [stop].
    - FileUtil.v, LogFile.v: base/FileUtil, base/LogFile.  Lines reach the files
      in order whatever fwrite(3) takes at a time, and files roll as configured.
    - GzipFile.v: base/GzipFile.h.  Files are owned by one object and closed once.
    - StringPiece.v: base/StringPiece.h.  Pieces compare as strings do and stay
      inside their objects.

    ** Bounds and fuel

    Loops that are not structural take fuel, and running out of it is the fault
    [OutOfFuel]; the theorems say that functions return [Ok], so the fuel
    given is enough: [HttpContext.parseRequest] one unit per line of the buffer
    and one more, [ProtobufCodecLite.onMessage] one per byte, [convert] 64 for
    a number below 2 ^ 64, [ZlibOutputStream] one per byte of output,
    [EventLoop] steps as many as the code of the callbacks.  Sizes are limited
    where the source relies on it: buffers to 2 ^ 63 - 1 bytes (the
    allocator's limit), lengths that pass through [int] to INT_MAX, the latch to
    as many calls as an [int] can count, RPC calls to 2 ^ 63, the connections of
    a client or server to INT_MAX, formatted years to 1970..9999 and uptimes to
    2 ^ 31 seconds.

    ** Findings

    Some theorems record behaviour that the code or its comments do not
    intend: connectors that cannot be started again, lines lost when
    asynchronous logging stops, servers started outside the thread of their loop,
    servers and clients destroyed too early, a loop thread whose [startLoop] or
    destructor may wait for ever, zone files of version 3 and the repeated hour
    after the last transition, a formatted quantity of six characters, a
    connection that reads again after the peer closed it, pipelined HTTP requests
    that wait for more bytes, functors that the loop's own thread queues before
    [loop] and that wait for an event, a compressed stream that
    cannot go from buffers to pieces and finishes with bytes it did not take,
    thread-local objects that outlive their owner, a negative wait that is not a
    time-out, addresses of IPv6 hosts that [resolve] does not store.

    ** Not modelled

    System calls themselves, and the wrappers that only make one (the options of
    Socket, some of SocketsOps); what zlib, the demangler and the code generated
    by protoc compute, and the two functions of ZlibInputStream that have no
    body; the inspector of gperftools; the other language utilities (Types,
    WeakCallback, noncopyable) and the annotations for the thread-safety analysis
    of the compiler; the setters that only pass a value on. *)

From stdpp Require Export base list gmap strings numbers.
From Stdlib Require Export ZArith Lia.
From coqutil Require Export Byte Word.LittleEndianList.

Local Open Scope Z_scope.

(** ** Outcomes: what a C++ function does besides returning *)

(** The ways a modelled function stops without returning: a failed [assert],
    a [std::length_error] from a vector, a [std::out_of_range] from [at], a
    [std::logic_error] thrown by the source, an access outside an object (undefined
    behaviour), signed overflow (undefined behaviour), a call of [abort] /
    [LOG_FATAL], a [std::bad_alloc] from [new], a loop that used up the fuel of
    the model, and a thread that waits for a mutex it holds. *)
Inductive fault :=
  | AssertFailed
  | LengthError
  | OutOfRange
  | LogicError
  | OutOfBounds
  | SignedOverflow
  | Aborted
  | BadAlloc
  | OutOfFuel
  | Deadlock.

#[export] Instance fault_eq_dec : EqDecision fault.
Proof. solve_decision. Defined.

Inductive outcome (A : Type) :=
  | Ok (a : A)
  | Fault (e : fault).
Arguments Ok {A} a.
Arguments Fault {A} e.

#[export] Instance outcome_ret : MRet outcome := fun A a => Ok a.
#[export] Instance outcome_bind : MBind outcome := fun A B f m =>
  match m with Ok a => f a | Fault e => Fault e end.
#[export] Instance outcome_fmap : FMap outcome := fun A B f m =>
  match m with Ok a => Ok (f a) | Fault e => Fault e end.

(** [assert(b)] with assertions compiled in. *)
Definition assert (b : bool) : outcome unit :=
  if b then Ok tt else Fault AssertFailed.

(** A computation returns when its outcome is [Ok]. *)
Definition returns {A} (m : outcome A) : Prop := exists a, m = Ok a.

(** ** Machine integers *)

(** Unsigned and two's-complement wrap-around at width [w]. *)
Definition wrap_u (w z : Z) : Z := z mod 2 ^ w.
Definition wrap_s (w z : Z) : Z := (z + 2 ^ (w - 1)) mod 2 ^ w - 2 ^ (w - 1).

Definition u64 (z : Z) : Z := wrap_u 64 z.
Definition u32 (z : Z) : Z := wrap_u 32 z.
Definition i32 (z : Z) : Z := wrap_s 32 z.
Definition i64 (z : Z) : Z := wrap_s 64 z.

Definition INT_MIN : Z := - 2 ^ 31.
Definition INT_MAX : Z := 2 ^ 31 - 1.
Definition INT64_MIN : Z := - 2 ^ 63.
Definition INT64_MAX : Z := 2 ^ 63 - 1.

(** The value of a signed expression of type [int] / [int64_t]: an
    unrepresentable value is undefined behaviour. *)
Definition ck32 (z : Z) : outcome Z :=
  if (INT_MIN <=? z) && (z <=? INT_MAX) then Ok z else Fault SignedOverflow.
Definition ck64 (z : Z) : outcome Z :=
  if (INT64_MIN <=? z) && (z <=? INT64_MAX) then Ok z else Fault SignedOverflow.

(** [size_t] addition and subtraction. *)
Declare Scope size_t_scope.
Delimit Scope size_t_scope with size_t.
Notation "x +! y" := (u64 (x + y)) (at level 50, left associativity) : size_t_scope.
Notation "x -! y" := (u64 (x - y)) (at level 50, left associativity) : size_t_scope.

(** ** Bytes and strings *)

Abbreviation byte := Init.Byte.byte.
Abbreviation bytes := (list byte).

#[export] Instance byte_eq_dec : EqDecision byte := Byte.byte_eq_dec.
#[export] Instance byte_countable : Countable byte :=
  inj_countable Byte.to_N Byte.of_N Byte.of_to_N.

(** A string literal of the source, without its terminating NUL. *)
Definition bs (s : string) : bytes := String.list_byte_of_string s.

Definition NUL : byte := Init.Byte.x00.
Definition LF : byte := Init.Byte.x0a.
Definition CR : byte := Init.Byte.x0d.

Definition zlen {A} (l : list A) : Z := Z.of_nat (length l).

(** [n] bytes of a memory object read from offset [i], and [d] written to it
    at offset [i]; both are undefined outside the object. *)
Definition load (m : bytes) (i n : Z) : outcome bytes :=
  if (0 <=? i) && (0 <=? n) && (i + n <=? zlen m)
  then Ok (take (Z.to_nat n) (drop (Z.to_nat i) m)) else Fault OutOfBounds.

Definition store (m : bytes) (i : Z) (d : bytes) : outcome bytes :=
  if (0 <=? i) && (i + zlen d <=? zlen m)
  then Ok (take (Z.to_nat i) m ++ d ++ drop (Z.to_nat i + length d) m)
  else Fault OutOfBounds.

(** [std::find(first, last, c)] as an offset from [first]; [length l] is [last]. *)
Fixpoint find_byte (c : byte) (l : bytes) : nat :=
  match l with
  | [] => 0%nat
  | x :: l' => if decide (x = c) then 0%nat else S (find_byte c l')
  end.

(** ** Tactics and hints *)

Create HintDb muduo.
Create Rewrite HintDb muduo.

(** Splits boolean comparisons that the goal or a hypothesis branches on. *)
Ltac case_cmp :=
  match goal with
  | |- context [Z.ltb ?a ?b] => destruct (Z.ltb_spec a b)
  | |- context [Z.leb ?a ?b] => destruct (Z.leb_spec a b)
  | |- context [Z.eqb ?a ?b] => destruct (Z.eqb_spec a b)
  end.

(** Inverts an equation [x ← m; k x = Ok r] into the steps that returned. *)
Ltac inv_bind H :=
  match type of H with
  | mbind _ ?m = Ok _ =>
      let E := fresh "E" in
      destruct m eqn:E; simpl in H; [| discriminate H]
  end.

(** ** Outcomes *)

Lemma assert_true b : b = true -> assert b = Ok tt.
Proof. by intros ->. Qed.

Lemma assert_Ok b u : assert b = Ok u -> b = true.
Proof. by destruct b. Qed.

Lemma bind_Ok {A B} (m : outcome A) (f : A -> outcome B) (r : B) :
  mbind f m = Ok r <-> exists a, m = Ok a /\ f a = Ok r.
Proof.
  destruct m as [a|e]; simpl; split; [eauto|by intros (? & [= ->] & ?)|done|by intros (? & ? & ?)].
Qed.

Lemma ck32_Ok z : INT_MIN <= z <= INT_MAX -> ck32 z = Ok z.
Proof. intros H. unfold ck32. by rewrite !(proj2 (Z.leb_le _ _)) by lia. Qed.

Lemma ck64_Ok z : INT64_MIN <= z <= INT64_MAX -> ck64 z = Ok z.
Proof. intros H. unfold ck64. by rewrite !(proj2 (Z.leb_le _ _)) by lia. Qed.

(** Inverts all the steps of a computation that returned. *)
Ltac inv_ok H :=
  lazymatch type of H with
  | mbind _ _ = Ok _ =>
      let x := fresh "x" in let H1 := fresh "E" in
      apply bind_Ok in H as (x & H1 & H); cbn beta in H; inv_ok H1; inv_ok H
  | assert _ = Ok _ => apply assert_Ok in H
  | Ok _ = Ok _ => injection H as H; subst
  | _ => idtac
  end.

(** ** Integers *)

Lemma u64_small z : 0 <= z < 2 ^ 64 -> u64 z = z.
Proof. apply Z.mod_small. Qed.

Lemma wrap_s_small w z : 0 < w -> - 2 ^ (w - 1) <= z < 2 ^ (w - 1) -> wrap_s w z = z.
Proof.
  intros Hw Hz. unfold wrap_s.
  assert (2 ^ w = 2 * 2 ^ (w - 1)).
  { rewrite <- Z.pow_succ_r by lia. f_equal. lia. }
  rewrite Z.mod_small; lia.
Qed.

Lemma wrap_s_mod w z : 0 < w -> wrap_s w (z mod 2 ^ w) = wrap_s w z.
Proof.
  intros Hw. unfold wrap_s. by rewrite Zplus_mod_idemp_l.
Qed.

Lemma i32_small z : INT_MIN <= z <= INT_MAX -> i32 z = z.
Proof. intros H. apply wrap_s_small; unfold INT_MIN, INT_MAX in *; lia. Qed.

Lemma i64_small z : INT64_MIN <= z <= INT64_MAX -> i64 z = z.
Proof. intros H. apply wrap_s_small; unfold INT64_MIN, INT64_MAX in *; lia. Qed.

(** Removes the wrap-around of [size_t] expressions that stay in range. *)
Ltac usimp :=
  repeat match goal with
  | |- context [u64 ?z] => rewrite (u64_small z) by lia
  | H : context [u64 ?z] |- _ => rewrite (u64_small z) in H by lia
  end.

(** ** Memory objects *)

Lemma zlen_nonneg {A} (l : list A) : 0 <= zlen l.
Proof. unfold zlen. lia. Qed.

Lemma zlen_app {A} (l k : list A) : zlen (l ++ k) = zlen l + zlen k.
Proof. unfold zlen. rewrite length_app. lia. Qed.

Lemma zlen_nil {A} : zlen (@nil A) = 0.
Proof. done. Qed.

#[export] Hint Rewrite @zlen_app @zlen_nil : muduo.

Lemma load_Ok m i n :
  0 <= i -> 0 <= n -> i + n <= zlen m ->
  load m i n = Ok (take (Z.to_nat n) (drop (Z.to_nat i) m)).
Proof. intros. unfold load. by rewrite !(proj2 (Z.leb_le _ _)) by lia. Qed.

Lemma store_Ok m i d :
  0 <= i -> i + zlen d <= zlen m ->
  store m i d = Ok (take (Z.to_nat i) m ++ d ++ drop (Z.to_nat i + length d) m).
Proof. intros. unfold store. by rewrite !(proj2 (Z.leb_le _ _)) by lia. Qed.

Lemma store_zlen m i d m' : store m i d = Ok m' -> zlen m' = zlen m.
Proof.
  unfold store, zlen. case_match eqn:E; [|done]. intros [= <-].
  apply andb_prop in E as [E1%Z.leb_le E2%Z.leb_le].
  rewrite !length_app, length_take, length_drop. lia.
Qed.

(** ** [find_byte] *)

Lemma find_byte_le c l : (find_byte c l <= length l)%nat.
Proof. induction l as [|x l IH]; simpl; [lia|]. case_decide; lia. Qed.

Lemma find_byte_lookup c l :
  (find_byte c l < length l)%nat -> l !! find_byte c l = Some c.
Proof.
  induction l as [|x l IH]; simpl; [lia|].
  case_decide; subst; [done|]. intros. simpl. apply IH. lia.
Qed.

Lemma find_byte_before c l i x :
  l !! i = Some x -> (i < find_byte c l)%nat -> x <> c.
Proof.
  revert i. induction l as [|y l IH]; intros [|i]; simpl; intros; try done.
  - case_decide; [lia|]. naive_solver.
  - case_decide; [lia|]. eapply IH; [done|lia].
Qed.

Lemma find_byte_not_in c l : c ∉ l -> find_byte c l = length l.
Proof.
  induction l as [|x l IH]; simpl; [done|]. intros H.
  apply not_elem_of_cons in H as [? ?]. case_decide; [congruence|].
  f_equal. auto.
Qed.

Lemma find_byte_app_r c l k : c ∉ l -> find_byte c (l ++ c :: k) = length l.
Proof.
  induction l as [|x l IH]; simpl.
  - by case_decide.
  - intros H. apply not_elem_of_cons in H as [? ?]. case_decide; [congruence|].
    f_equal. auto.
Qed.

(** Reading and overwriting the middle of an object. *)
Lemma load_mid (a x z : bytes) : load (a ++ x ++ z) (zlen a) (zlen x) = Ok x.
Proof.
  rewrite load_Ok; unfold zlen in *; rewrite ?length_app; try lia.
  rewrite !Nat2Z.id, drop_app_length, take_app_length. done.
Qed.

Lemma store_mid (a x z d : bytes) :
  length d = length x -> store (a ++ x ++ z) (zlen a) d = Ok (a ++ d ++ z).
Proof.
  intros Hd. rewrite store_Ok; unfold zlen in *; rewrite ?length_app; try lia.
  rewrite Nat2Z.id, take_app_length, Hd, <- drop_drop, !drop_app_length. done.
Qed.

Lemma list_split3 {A} (l : list A) (i j : Z) :
  0 <= i <= j -> j <= zlen l ->
  exists a z, l = a ++ take (Z.to_nat (j - i)) (drop (Z.to_nat i) l) ++ z /\
    zlen a = i /\ zlen (take (Z.to_nat (j - i)) (drop (Z.to_nat i) l)) = j - i.
Proof.
  intros Hi Hj. unfold zlen in *.
  exists (take (Z.to_nat i) l), (drop (Z.to_nat (j - i)) (drop (Z.to_nat i) l)).
  rewrite !take_drop. split; [done|].
  rewrite !length_take, length_drop. lia.
Qed.

Lemma zlen_replicate {A} n (x : A) : zlen (replicate (Z.to_nat n) x) = Z.max 0 n.
Proof. unfold zlen. rewrite length_replicate. lia. Qed.

Lemma zlen_pos {A} (l : list A) : l <> [] -> 0 < zlen l.
Proof. destruct l; [done|]. unfold zlen. simpl. lia. Qed.

Lemma to_nat_zlen {A} (l : list A) : Z.to_nat (zlen l) = length l.
Proof. unfold zlen. lia. Qed.

Lemma zlen_length {A} (l k : list A) : zlen l = zlen k -> length l = length k.
Proof. unfold zlen. lia. Qed.

(** A prefix of a given length of a list that is long enough. *)
Lemma list_prefix_exists {A} (l : list A) (n : nat) :
  (n <= length l)%nat -> exists y z, l = y ++ z /\ length y = n.
Proof.
  intros. exists (take n l), (drop n l). rewrite take_drop, length_take. split; [done|lia].
Qed.

(** ** Decimal numbers: printf's %d *)

(** The digits of a non-negative number in base [b], least significant first. *)
Fixpoint digits (fuel : nat) (b z : Z) : list Z :=
  match fuel with
  | O => []
  | S fuel' => if z <? b then [z] else z mod b :: digits fuel' b (z / b)
  end.

Definition digit_fuel (z : Z) : nat := S (Z.to_nat (Z.log2 z)).

(** The number that a digit sequence denotes. *)
Fixpoint undigits (b : Z) (l : list Z) : Z :=
  match l with [] => 0 | d :: l' => d + b * undigits b l' end.

Definition digit_char (d : Z) : byte := byte.of_Z (48 + d).

Definition dec (z : Z) : bytes :=
  (if z <? 0 then bs "-" else []) ++
  map digit_char (rev (digits (digit_fuel (Z.abs z)) 10 (Z.abs z))).

(** The number behind a digit, and behind a list of them. *)
Definition digit_val (c : byte) : Z := byte.unsigned c - 48.

Lemma digit_val_char d : 0 <= d < 10 -> digit_val (digit_char d) = d /\ digit_char d <> Init.Byte.x2d.
Proof.
  intros Hd. assert (d ∈ [0;1;2;3;4;5;6;7;8;9]) as Hin by (rewrite !elem_of_cons; lia).
  rewrite !elem_of_cons in Hin. destruct_or! Hin; try (subst; split; [reflexivity|discriminate]). by apply elem_of_nil in Hin.
Qed.

Lemma map_digit_val l : (forall d, d ∈ l -> 0 <= d < 10) -> map digit_val (map digit_char l) = l.
Proof.
  induction l as [|d l IH]; intros Hl; [done|]. cbn [map]. rewrite (proj1 (digit_val_char d ltac:(apply Hl; by left))).
  f_equal. apply IH. intros x Hx. apply Hl. by right.
Qed.

(** [fuel] digits are enough for a number below [2 ^ fuel]. *)
Lemma div_lt_pow2 b z fuel : 2 <= b -> 0 <= z < 2 ^ Z.of_nat (S fuel) -> 0 <= z / b < 2 ^ Z.of_nat fuel.
Proof.
  intros Hb [Hz Hlt]. split; [apply Z.div_pos; lia|].
  apply Z.div_lt_upper_bound; [lia|]. rewrite Nat2Z.inj_succ, Z.pow_succ_r in Hlt by lia.
  assert (0 < 2 ^ Z.of_nat fuel) by (apply Z.pow_pos_nonneg; lia). nia.
Qed.

Lemma digit_fuel_enough z : 0 <= z -> z < 2 ^ Z.of_nat (digit_fuel z).
Proof.
  intros Hz. unfold digit_fuel. rewrite Nat2Z.inj_succ, Z2Nat.id by apply Z.log2_nonneg.
  destruct (decide (z = 0)) as [->|]; [done|]. apply Z.log2_spec. lia.
Qed.

Lemma digits_fuel_irrel f1 f2 b z :
  2 <= b -> 0 <= z -> z < 2 ^ Z.of_nat f1 -> z < 2 ^ Z.of_nat f2 -> (0 < f1)%nat -> (0 < f2)%nat ->
  digits f1 b z = digits f2 b z.
Proof.
  intros Hb. revert f2 z. induction f1 as [|f1 IH]; intros [|f2] z Hz H1 H2 P1 P2; try lia.
  cbn [digits]. destruct (Z.ltb_spec z b); [done|]. f_equal.
  pose proof (div_lt_pow2 b z f1 Hb ltac:(lia)). pose proof (div_lt_pow2 b z f2 Hb ltac:(lia)).
  assert (0 < z / b) by (apply Z.div_str_pos; lia).
  apply IH; try lia.
  - destruct f1; [change (2 ^ Z.of_nat 0) with 1 in *|]; lia.
  - destruct f2; [change (2 ^ Z.of_nat 0) with 1 in *|]; lia.
Qed.

Lemma digits_nonempty fuel b z : (0 < fuel)%nat -> digits fuel b z <> [].
Proof. destruct fuel; [lia|]. cbn. case_cmp; done. Qed.

Lemma digits_range fuel b z d : 2 <= b -> 0 <= z -> d ∈ digits fuel b z -> 0 <= d < b.
Proof.
  intros Hb. revert z. induction fuel as [|fuel IH]; intros z Hz; [by intros ?%elem_of_nil|].
  cbn [digits]. destruct (Z.ltb_spec z b).
  - intros ->%list_elem_of_singleton. lia.
  - intros [->|Hd]%elem_of_cons; [apply Z.mod_pos_bound; lia|]. eapply IH; [|done]. apply Z.div_pos; lia.
Qed.

Lemma undigits_digits fuel b z :
  2 <= b -> 0 <= z < 2 ^ Z.of_nat fuel -> undigits b (digits fuel b z) = z.
Proof.
  intros Hb. revert z. induction fuel as [|fuel IH]; intros z Hz; [change (2 ^ Z.of_nat 0) with 1 in Hz; simpl; lia|].
  cbn [digits]. destruct (Z.ltb_spec z b); cbn [undigits]; [lia|].
  rewrite IH by (by apply div_lt_pow2). pose proof (Z.div_mod z b). lia.
Qed.

Lemma digits_length fuel b z k :
  2 <= b -> 0 <= z -> (0 < k)%nat -> z < b ^ Z.of_nat k -> (length (digits fuel b z) <= k)%nat.
Proof.
  intros Hb. revert z k. induction fuel as [|fuel IH]; intros z k Hz Hk Hlt; [simpl; lia|].
  cbn [digits]. destruct (Z.ltb_spec z b); cbn [length]; [lia|].
  destruct k as [|[|k]]; [lia|change (Z.of_nat 1) with 1 in Hlt; rewrite Z.pow_1_r in Hlt; lia|].
  apply le_n_S, IH; [apply Z.div_pos; lia|lia|].
  apply Z.div_lt_upper_bound; [lia|]. rewrite Nat2Z.inj_succ, Z.pow_succ_r in Hlt by lia. lia.
Qed.

Lemma dec_length z k : 0 <= z -> (0 < k)%nat -> z < 10 ^ Z.of_nat k -> (length (dec z) <= k)%nat.
Proof.
  intros Hz Hk Hlt. unfold dec. rewrite (proj2 (Z.ltb_ge _ _)) by lia. cbn [app].
  rewrite length_map, length_rev, Z.abs_eq by lia. apply digits_length; lia.
Qed.
