(* ===== verification/NetBuffer.v ===== *)
(** * Byte order and the network buffer

    [Module sockets] models src/muduo/net/Endian.h; [Module Buffer] models
    src/muduo/net/Buffer.h and Buffer.cc.  A pointer into the buffer's vector
    is its offset from [begin()]; [size_t] arithmetic wraps at 64 bits; an
    access outside the vector is a fault. *)

From S2P Require Import Prelude.

Local Open Scope Z_scope.

(** The byte order of the machine the program runs on. *)
Class Host := little_endian : bool.

Module sockets.
Section Endian.
Context {host : Host}.

(** The object representation of an [n]-byte integer, and the unsigned
    integer that [n] bytes of memory represent. *)
Definition mem_bytes (n : nat) (x : Z) : bytes :=
  if little_endian then le_split n x else rev (le_split n x).
Definition mem_int (l : bytes) : Z :=
  if little_endian then le_combine l else le_combine (rev l).

(** glibc's [htobe16/32/64] and [be16/32/64toh] on [8 * n] bits. *)
Definition bswap (n : nat) (x : Z) : Z := le_combine (rev (le_split n x)).
Definition htobe (n : nat) (x : Z) : Z :=
  if little_endian then bswap n x else wrap_u (8 * Z.of_nat n) x.

Definition hostToNetwork64 (host64 : Z) : Z := htobe 8 host64.
Definition hostToNetwork32 (host32 : Z) : Z := htobe 4 host32.
Definition hostToNetwork16 (host16 : Z) : Z := htobe 2 host16.
Definition networkToHost64 (net64 : Z) : Z := htobe 8 net64.
Definition networkToHost32 (net32 : Z) : Z := htobe 4 net32.
Definition networkToHost16 (net16 : Z) : Z := htobe 2 net16.

(** Big-endian representation: what goes over the wire. *)
Definition be_split (n : nat) (x : Z) : bytes := rev (le_split n x).
Definition be_combine (l : bytes) : Z := le_combine (rev l).

Lemma length_mem_bytes n x : length (mem_bytes n x) = n.
Proof.
  unfold mem_bytes. case_match; rewrite ?length_rev; apply length_le_split.
Qed.

Lemma length_be_split n x : length (be_split n x) = n.
Proof. unfold be_split. by rewrite length_rev, length_le_split. Qed.

Lemma le_split_bswap n x : le_split n (bswap n x) = rev (le_split n x).
Proof.
  unfold bswap. rewrite <- (length_le_split n x) at 1.
  rewrite <- length_rev. apply split_le_combine.
Qed.

Lemma le_split_wrap n x : le_split n (wrap_s (8 * Z.of_nat n) x) = le_split n x.
Proof.
  rewrite le_split_mod. symmetry. rewrite le_split_mod. f_equal.
  destruct n as [|n]; [by rewrite !Z.mod_1_r|]. unfold wrap_s.
  by rewrite (Z.mul_comm (Z.of_nat (S n))), Zminus_mod_idemp_l, Z.add_simpl_r.
Qed.

(** The bytes of [htobe x] in memory are the big-endian bytes of [x],
    whatever the byte order of the host. *)
Lemma mem_bytes_htobe n x : mem_bytes n (htobe n x) = be_split n x.
Proof.
  unfold mem_bytes, htobe, be_split. destruct little_endian.
  - apply le_split_bswap.
  - f_equal. rewrite (le_split_mod x). unfold wrap_u. by rewrite Z.mul_comm.
Qed.

Lemma mem_bytes_wrap_s n x : mem_bytes n (wrap_s (8 * Z.of_nat n) x) = mem_bytes n x.
Proof. unfold mem_bytes. by rewrite le_split_wrap. Qed.

(** Reading [n] bytes as an integer and converting to host order gives the
    big-endian value of the bytes. *)
Lemma htobe_mem_int l : htobe (length l) (mem_int l) = be_combine l.
Proof.
  unfold htobe, mem_int, be_combine. destruct little_endian.
  - unfold bswap. by rewrite split_le_combine.
  - unfold wrap_u. apply Z.mod_small.
    pose proof (le_combine_bound (rev l)). rewrite length_rev in *. lia.
Qed.

Lemma be_combine_split n x : be_combine (be_split n x) = x mod 2 ^ (8 * Z.of_nat n).
Proof.
  unfold be_combine, be_split. rewrite rev_involutive, le_combine_split.
  by rewrite Z.mul_comm.
Qed.

Lemma be_split_combine l : be_split (length l) (be_combine l) = l.
Proof.
  unfold be_combine, be_split. rewrite <- (length_rev l), split_le_combine.
  apply rev_involutive.
Qed.

Lemma wrap_s_be_combine_split n x :
  (0 < n)%nat ->
  - 2 ^ (8 * Z.of_nat n - 1) <= x < 2 ^ (8 * Z.of_nat n - 1) ->
  wrap_s (8 * Z.of_nat n) (be_combine (be_split n x)) = x.
Proof.
  intros Hn Hx. rewrite be_combine_split, wrap_s_mod by lia.
  apply wrap_s_small; lia.
Qed.

End Endian.
End sockets.

Module Buffer.

(** [std::vector<char> buffer_; size_t readerIndex_; size_t writerIndex_;] *)
Record t := mk {
  buffer_ : bytes;
  readerIndex_ : Z;
  writerIndex_ : Z;
}.

Local Open Scope size_t_scope.

Definition kCheapPrepend : Z := 8.
Definition kInitialSize : Z := 1024.
Definition kCRLF : bytes := [CR; LF].

(** [std::vector<char>::max_size()]. *)
Definition max_size : Z := 2 ^ 63 - 1.

(** [buffer_.resize(n)]: new elements are zero. *)
Definition resize (v : bytes) (n : Z) : outcome bytes :=
  if n <=? max_size
  then Ok (take (Z.to_nat n) v ++ replicate (Z.to_nat n - length v) NUL)
  else Fault LengthError.

Definition set_indices (b : t) (r w : Z) : t := mk (buffer_ b) r w.

Definition readableBytes (b : t) : Z := writerIndex_ b -! readerIndex_ b.
Definition writableBytes (b : t) : Z := zlen (buffer_ b) -! writerIndex_ b.
Definition prependableBytes (b : t) : Z := readerIndex_ b.

Definition peek (b : t) : Z := readerIndex_ b.
Definition beginWrite (b : t) : Z := writerIndex_ b.

(** [explicit Buffer(size_t initialSize = kInitialSize)] *)
Definition new (initialSize : Z) : outcome t :=
  v ← resize [] (kCheapPrepend +! initialSize);
  let b := mk v kCheapPrepend kCheapPrepend in
  _ ← assert (readableBytes b =? 0);
  _ ← assert (writableBytes b =? initialSize);
  _ ← assert (prependableBytes b =? kCheapPrepend);
  Ok b.

Definition swap (b rhs : t) : t * t := (rhs, b).

(** [std::search(first, last, kCRLF, kCRLF+2)] as an offset from [first]. *)
Fixpoint search (pat l : bytes) : nat :=
  match l with
  | [] => 0%nat
  | _ :: l' => if decide (take (length pat) l = pat) then 0%nat else S (search pat l')
  end.

(** The bytes of [start, beginWrite()) that the searches read. *)
Definition window (b : t) (start : Z) : outcome bytes :=
  load (buffer_ b) start (beginWrite b -! start).

(** [const char* findCRLF() const] *)
Definition findCRLF (b : t) : outcome (option Z) :=
  d ← window b (peek b);
  let crlf := peek b + Z.of_nat (search kCRLF d) in
  Ok (if crlf =? beginWrite b then None else Some crlf).

(** [const char* findCRLF(const char* start) const] *)
Definition findCRLF_from (b : t) (start : Z) : outcome (option Z) :=
  _ ← assert (peek b <=? start);
  _ ← assert (start <=? beginWrite b);
  d ← window b start;
  let crlf := start + Z.of_nat (search kCRLF d) in
  Ok (if crlf =? beginWrite b then None else Some crlf).

(** [memchr] over a window. *)
Definition memchr (start : Z) (d : bytes) : option Z :=
  let k := find_byte LF d in
  if decide (k = length d) then None else Some (start + Z.of_nat k).

(** [const char* findEOL() const] *)
Definition findEOL (b : t) : outcome (option Z) :=
  d ← load (buffer_ b) (peek b) (readableBytes b);
  Ok (memchr (peek b) d).

(** [const char* findEOL(const char* start) const] *)
Definition findEOL_from (b : t) (start : Z) : outcome (option Z) :=
  _ ← assert (peek b <=? start);
  _ ← assert (start <=? beginWrite b);
  d ← window b start;
  Ok (memchr start d).

Definition retrieveAll (b : t) : t := set_indices b kCheapPrepend kCheapPrepend.

Definition retrieve (b : t) (len : Z) : outcome t :=
  _ ← assert (len <=? readableBytes b);
  Ok (if len <? readableBytes b
      then set_indices b (readerIndex_ b +! len) (writerIndex_ b)
      else retrieveAll b).

Definition retrieveUntil (b : t) (end_ : Z) : outcome t :=
  _ ← assert (peek b <=? end_);
  _ ← assert (end_ <=? beginWrite b);
  retrieve b (end_ -! peek b).

Definition retrieveInt64 (b : t) : outcome t := retrieve b 8.
Definition retrieveInt32 (b : t) : outcome t := retrieve b 4.
Definition retrieveInt16 (b : t) : outcome t := retrieve b 2.
Definition retrieveInt8 (b : t) : outcome t := retrieve b 1.

Definition retrieveAsString (b : t) (len : Z) : outcome (bytes * t) :=
  _ ← assert (len <=? readableBytes b);
  result ← load (buffer_ b) (peek b) len;
  b' ← retrieve b len;
  Ok (result, b').

Definition retrieveAllAsString (b : t) : outcome (bytes * t) :=
  retrieveAsString b (readableBytes b).

(** [StringPiece(peek(), static_cast<int>(readableBytes()))]: pointer and length. *)
Definition toStringPiece (b : t) : Z * Z := (peek b, i32 (readableBytes b)).

Definition hasWritten (b : t) (len : Z) : outcome t :=
  _ ← assert (len <=? writableBytes b);
  Ok (set_indices b (readerIndex_ b) (writerIndex_ b +! len)).

Definition unwrite (b : t) (len : Z) : outcome t :=
  _ ← assert (len <=? readableBytes b);
  Ok (set_indices b (readerIndex_ b) (writerIndex_ b -! len)).

(** [void makeSpace(size_t len)] *)
Definition makeSpace (b : t) (len : Z) : outcome t :=
  if writableBytes b +! prependableBytes b <? len +! kCheapPrepend then
    v ← resize (buffer_ b) (writerIndex_ b +! len);
    Ok (mk v (readerIndex_ b) (writerIndex_ b))
  else
    _ ← assert (kCheapPrepend <? readerIndex_ b);
    let readable := readableBytes b in
    d ← load (buffer_ b) (readerIndex_ b) (writerIndex_ b - readerIndex_ b);
    v ← store (buffer_ b) kCheapPrepend d;
    let b' := mk v kCheapPrepend (kCheapPrepend +! readable) in
    _ ← assert (readable =? readableBytes b');
    Ok b'.

Definition ensureWritableBytes (b : t) (len : Z) : outcome t :=
  b' ← (if writableBytes b <? len then makeSpace b len else Ok b);
  _ ← assert (len <=? writableBytes b');
  Ok b'.

(** [append(data, len)] with [data] the offset [off] of the object [src]. *)
Definition append_at (b : t) (src : bytes) (off len : Z) : outcome t :=
  b1 ← ensureWritableBytes b len;
  d ← load src off len;
  v ← store (buffer_ b1) (beginWrite b1) d;
  hasWritten (mk v (readerIndex_ b1) (writerIndex_ b1)) len.

(** [append] of a whole object: a string, a literal, an integer. *)
Definition append (b : t) (data : bytes) : outcome t :=
  append_at b data 0 (zlen data).

Definition prepend (b : t) (data : bytes) : outcome t :=
  _ ← assert (zlen data <=? prependableBytes b);
  let r := readerIndex_ b -! zlen data in
  v ← store (buffer_ b) r data;
  Ok (mk v r (writerIndex_ b)).

Definition shrink (b : t) (reserve : Z) : outcome t :=
  other ← new kInitialSize;
  other ← ensureWritableBytes other (readableBytes b +! reserve);
  let '(ptr, len) := toStringPiece b in
  other ← append_at other (buffer_ b) ptr (u64 len);
  Ok (fst (swap b other)).

Section Integers.
Context {host : Host}.

Definition appendInt64 (b : t) (x : Z) : outcome t :=
  let be64 := i64 (sockets.hostToNetwork64 (u64 x)) in
  append b (sockets.mem_bytes 8 be64).
Definition appendInt32 (b : t) (x : Z) : outcome t :=
  let be32 := i32 (sockets.hostToNetwork32 (u32 x)) in
  append b (sockets.mem_bytes 4 be32).
Definition appendInt16 (b : t) (x : Z) : outcome t :=
  let be16 := wrap_s 16 (sockets.hostToNetwork16 (wrap_u 16 x)) in
  append b (sockets.mem_bytes 2 be16).
Definition appendInt8 (b : t) (x : Z) : outcome t :=
  append b (sockets.mem_bytes 1 x).

Definition peekInt64 (b : t) : outcome Z :=
  _ ← assert (8 <=? readableBytes b);
  d ← load (buffer_ b) (peek b) 8;
  Ok (i64 (sockets.networkToHost64 (sockets.mem_int d))).
Definition peekInt32 (b : t) : outcome Z :=
  _ ← assert (4 <=? readableBytes b);
  d ← load (buffer_ b) (peek b) 4;
  Ok (i32 (sockets.networkToHost32 (sockets.mem_int d))).
Definition peekInt16 (b : t) : outcome Z :=
  _ ← assert (2 <=? readableBytes b);
  d ← load (buffer_ b) (peek b) 2;
  Ok (wrap_s 16 (sockets.networkToHost16 (sockets.mem_int d))).
Definition peekInt8 (b : t) : outcome Z :=
  _ ← assert (1 <=? readableBytes b);
  d ← load (buffer_ b) (peek b) 1;
  Ok (wrap_s 8 (sockets.mem_int d)).

Definition readInt64 (b : t) : outcome (Z * t) :=
  result ← peekInt64 b; b' ← retrieveInt64 b; Ok (result, b').
Definition readInt32 (b : t) : outcome (Z * t) :=
  result ← peekInt32 b; b' ← retrieveInt32 b; Ok (result, b').
Definition readInt16 (b : t) : outcome (Z * t) :=
  result ← peekInt16 b; b' ← retrieveInt16 b; Ok (result, b').
Definition readInt8 (b : t) : outcome (Z * t) :=
  result ← peekInt8 b; b' ← retrieveInt8 b; Ok (result, b').

Definition prependInt64 (b : t) (x : Z) : outcome t :=
  let be64 := i64 (sockets.hostToNetwork64 (u64 x)) in
  prepend b (sockets.mem_bytes 8 be64).
Definition prependInt32 (b : t) (x : Z) : outcome t :=
  let be32 := i32 (sockets.hostToNetwork32 (u32 x)) in
  prepend b (sockets.mem_bytes 4 be32).
Definition prependInt16 (b : t) (x : Z) : outcome t :=
  let be16 := wrap_s 16 (sockets.hostToNetwork16 (wrap_u 16 x)) in
  prepend b (sockets.mem_bytes 2 be16).
Definition prependInt8 (b : t) (x : Z) : outcome t :=
  prepend b (sockets.mem_bytes 1 x).
End Integers.

(** [sockets::readv]: the answer of the kernel to a scatter read of at most
    [cap] bytes in all: an [errno], or the bytes it delivered. *)
Definition readv_call : Type := Z -> Z + bytes.

(** readv(2) never delivers more than the iovec holds. *)
Definition readv_bounded (readv : readv_call) : Prop :=
  forall cap d, readv cap = inr d -> zlen d <= cap.

Definition extrabuf_size : Z := 65536.

(** The total length of the iovec that [readFd] passes to [readv]. *)
Definition readFd_capacity (b : t) : Z :=
  let writable := writableBytes b in
  if writable <? extrabuf_size then writable + extrabuf_size else writable.

(** [ssize_t Buffer::readFd(int fd, int* savedErrno)]: the result of read(2),
    the [errno] saved on failure, and the buffer. *)
Definition readFd (readv : readv_call) (b : t) : outcome (Z * option Z * t) :=
  let writable := writableBytes b in
  match readv (readFd_capacity b) with
  | inl err => Ok (-1, Some err, b)
  | inr d =>
      let n := zlen d in
      (* the kernel fills vec[0] first, the rest goes to extrabuf *)
      let vec0 := take (Z.to_nat writable) d in
      let extrabuf := drop (Z.to_nat writable) d in
      v ← store (buffer_ b) (writerIndex_ b) vec0;
      let b0 := mk v (readerIndex_ b) (writerIndex_ b) in
      if n <=? writable then
        Ok (n, None, set_indices b0 (readerIndex_ b0) (writerIndex_ b0 +! n))
      else
        let b1 := set_indices b0 (readerIndex_ b0) (zlen (buffer_ b0)) in
        b2 ← append_at b1 extrabuf 0 (n - writable);
        Ok (n, None, b2)
  end.

(** ** The abstraction: a buffer is a queue of readable bytes *)

(** The readable bytes. *)
Definition contents (b : t) : bytes :=
  take (Z.to_nat (writerIndex_ b - readerIndex_ b))
       (drop (Z.to_nat (readerIndex_ b)) (buffer_ b)).

(** 0 <= readerIndex <= writerIndex <= size, as the class comment says; the
    vector always has room for the cheap prepend. *)
Definition wf (b : t) : Prop :=
  0 <= readerIndex_ b <= writerIndex_ b /\
  writerIndex_ b <= zlen (buffer_ b) <= max_size /\
  kCheapPrepend <= zlen (buffer_ b).

(** A buffer laid out as prependable bytes, contents and writable bytes. *)
Definition layout (b : t) (pre c post : bytes) : Prop :=
  buffer_ b = pre ++ c ++ post /\
  readerIndex_ b = zlen pre /\ writerIndex_ b = zlen pre + zlen c /\
  zlen (buffer_ b) <= max_size /\ kCheapPrepend <= zlen (buffer_ b).

Lemma wf_layout b : wf b -> exists pre post, layout b pre (contents b) post.
Proof.
  intros (Hr & Hw & Hk).
  destruct (list_split3 (buffer_ b) (readerIndex_ b) (writerIndex_ b))
    as (pre & post & E & Hpre & Hc); [lia..|].
  exists pre, post. unfold layout, contents.
  repeat split; [exact E|lia..].
Qed.

Lemma layout_contents b pre c post : layout b pre c post -> contents b = c.
Proof.
  intros (E & Hr & Hw & _). unfold contents. rewrite E, Hr, Hw.
  replace (zlen pre + zlen c - zlen pre) with (zlen c) by lia.
  unfold zlen. rewrite !Nat2Z.id, drop_app_length. apply take_app_length.
Qed.

Lemma layout_size b pre c post :
  layout b pre c post -> zlen (buffer_ b) = zlen pre + zlen c + zlen post.
Proof. intros (-> & _). rewrite !zlen_app. lia. Qed.

Lemma layout_wf b pre c post : layout b pre c post -> wf b.
Proof.
  intros H. pose proof (layout_size _ _ _ _ H). destruct H as (_ & Hr & Hw & Hm & Hk).
  pose proof (zlen_nonneg pre). pose proof (zlen_nonneg c). pose proof (zlen_nonneg post).
  unfold wf. lia.
Qed.

(** What the size accessors return on a laid-out buffer. *)
Lemma layout_bytes b pre c post :
  layout b pre c post ->
  readableBytes b = zlen c /\ writableBytes b = zlen post /\
  prependableBytes b = zlen pre /\ peek b = zlen pre /\
  beginWrite b = zlen pre + zlen c /\
  0 <= zlen pre /\ 0 <= zlen c /\ 0 <= zlen post /\
  kCheapPrepend <= zlen pre + zlen c + zlen post <= max_size.
Proof.
  intros H. pose proof (layout_size _ _ _ _ H) as Hs. destruct H as (_ & Hr & Hw & Hm & Hk).
  pose proof (zlen_nonneg pre). pose proof (zlen_nonneg c). pose proof (zlen_nonneg post).
  unfold readableBytes, writableBytes, prependableBytes, peek, beginWrite, max_size in *.
  rewrite Hr, Hw, Hs. usimp. lia.
Qed.

Ltac layout_facts H :=
  let F := fresh "F" in
  pose proof (layout_bytes _ _ _ _ H) as F;
  destruct F as (?Hread & ?Hwrit & ?Hprep & ?Hpeek & ?Hbw & ? & ? & ? & ?);
  unfold max_size, kCheapPrepend in *.

(** Consuming and truncating. *)
Lemma retrieve_layout b pre c1 c2 post :
  layout b pre (c1 ++ c2) post -> c2 <> [] ->
  exists b', retrieve b (zlen c1) = Ok b' /\ layout b' (pre ++ c1) c2 post.
Proof.
  intros H Hc2. layout_facts H. rewrite zlen_app in *.
  assert (0 < zlen c2) by (destruct c2; [done|unfold zlen; simpl; lia]).
  pose proof (zlen_nonneg c1).
  eexists. unfold retrieve. rewrite Hread, assert_true by lia. simpl.
  rewrite (proj2 (Z.ltb_lt _ _)) by lia. split; [done|].
  destruct H as (E & Hr & Hw & Hm & Hk). unfold layout. simpl.
  rewrite E, Hr, Hw in *. usimp. rewrite !zlen_app in *.
  repeat split; [by rewrite <- !app_assoc|lia..].
Qed.

Lemma retrieveAll_layout b : wf b ->
  exists pre post, layout (retrieveAll b) pre [] post /\ zlen pre = kCheapPrepend.
Proof.
  intros (Hr & Hw & Hk). unfold kCheapPrepend in *.
  destruct (list_split3 (buffer_ b) 8 8) as (pre & post & E & Hp & Hz); [lia..|].
  exists pre, post. replace (8 - 8) with 0 in * by lia. unfold layout, retrieveAll. simpl.
  rewrite zlen_nil. unfold kCheapPrepend. split; [|lia].
  repeat split; [exact E|lia..].
Qed.

(** Making room: either the vector grows at its end or the contents move to
    the front; the contents do not change. *)
Lemma resize_grow v n :
  zlen v <= n <= max_size ->
  resize v n = Ok (v ++ replicate (Z.to_nat (n - zlen v)) NUL).
Proof.
  intros H. unfold resize, zlen in *. rewrite (proj2 (Z.leb_le _ _)) by lia.
  rewrite take_ge by lia. do 3 f_equal. lia.
Qed.

Lemma makeSpace_grow b pre c post len :
  layout b pre c post -> zlen post < len -> zlen pre + zlen post < len + kCheapPrepend ->
  zlen pre + zlen c + len <= max_size ->
  exists b' post',
    makeSpace b len = Ok b' /\ layout b' pre c post' /\ zlen post' = len.
Proof.
  intros H Hlen Hsp Hmax. layout_facts H. pose proof H as (E & Hr & Hw & Hm & Hk).
  pose proof (layout_size _ _ _ _ H) as Hs.
  unfold makeSpace, kCheapPrepend. rewrite Hwrit, Hprep. usimp.
  rewrite (proj2 (Z.ltb_lt _ _)) by lia. rewrite Hw, Hr. usimp.
  rewrite resize_grow by (unfold max_size; lia). simpl.
  eexists _, (post ++ replicate (Z.to_nat (len - zlen post)) NUL). split; [done|].
  rewrite zlen_app, zlen_replicate. unfold layout. simpl.
  rewrite zlen_app, zlen_replicate, Hs. unfold max_size, kCheapPrepend.
  replace (zlen pre + zlen c + len - (zlen pre + zlen c + zlen post)) with (len - zlen post) by lia.
  rewrite E. repeat split; [by rewrite <- !app_assoc|lia..].
Qed.

Lemma makeSpace_move b pre c post len :
  layout b pre c post -> zlen post < len -> len + kCheapPrepend <= zlen pre + zlen post ->
  exists b' pre' post',
    makeSpace b len = Ok b' /\ layout b' pre' c post' /\ zlen pre' = kCheapPrepend /\
    zlen (buffer_ b') = zlen (buffer_ b).
Proof.
  intros H Hlen Hsp. layout_facts H. pose proof H as (E & Hr & Hw & Hm & Hk).
  pose proof (layout_size _ _ _ _ H) as Hs.
  unfold makeSpace, kCheapPrepend. rewrite Hwrit, Hprep. usimp.
  rewrite (proj2 (Z.ltb_ge _ _)) by lia. rewrite Hr, assert_true by lia. simpl.
  rewrite Hw, Hread, E. replace (zlen pre + zlen c - zlen pre) with (zlen c) by lia.
  rewrite load_mid. simpl.
  destruct (list_prefix_exists pre 8) as (p8 & x & -> & Hp8); [unfold zlen in *; lia|].
  destruct (list_prefix_exists (x ++ c ++ post) (length c)) as (y & z & Ey & Ly).
  { rewrite !length_app. lia. }
  rewrite <- app_assoc, Ey. replace 8 with (zlen p8) by (unfold zlen; lia).
  rewrite store_mid by done. simpl.
  eexists _, p8, z. rewrite assert_true; [simpl; split; [done|]|].
  2: { unfold readableBytes. simpl. rewrite zlen_app in *. usimp. lia. }
  apply (f_equal zlen) in Ey. unfold layout, max_size, kCheapPrepend. simpl.
  rewrite !zlen_app in *. unfold zlen in *. usimp. repeat split; lia.
Qed.

Lemma makeSpace_layout b pre c post len :
  layout b pre c post -> zlen post < len -> zlen pre + zlen c + len <= max_size ->
  exists b' pre' post',
    makeSpace b len = Ok b' /\ layout b' pre' c post' /\ len <= zlen post' /\
    zlen (buffer_ b') <= Z.max (zlen (buffer_ b)) (zlen pre + zlen c + len).
Proof.
  intros H Hlen Hmax.
  destruct (Z.lt_ge_cases (zlen pre + zlen post) (len + kCheapPrepend)) as [Hc|Hc].
  - destruct (makeSpace_grow _ _ _ _ _ H Hlen Hc Hmax) as (b' & post' & Hb & Hl & Hp).
    exists b', pre, post'. rewrite (layout_size _ _ _ _ Hl). split_and!; try done; lia.
  - destruct (makeSpace_move _ _ _ _ _ H Hlen Hc) as (b' & pre' & post' & Hb & Hl & Hp & Hz).
    exists b', pre', post'. pose proof (layout_size _ _ _ _ Hl). pose proof (layout_size _ _ _ _ H).
    split_and!; try done; lia.
Qed.

Lemma ensureWritableBytes_layout b pre c post len :
  layout b pre c post -> 0 <= len -> zlen pre + zlen c + len <= max_size ->
  exists b' pre' post',
    ensureWritableBytes b len = Ok b' /\ layout b' pre' c post' /\ len <= zlen post' /\
    zlen (buffer_ b') <= Z.max (zlen (buffer_ b)) (zlen pre + zlen c + len).
Proof.
  intros H Hlen Hmax. layout_facts H. unfold ensureWritableBytes. rewrite Hwrit.
  destruct (Z.ltb_spec (zlen post) len) as [Hc|Hc].
  - destruct (makeSpace_layout _ _ _ _ _ H Hc Hmax) as (b' & pre' & post' & -> & Hl & Hp & Hz).
    pose proof (layout_bytes _ _ _ _ Hl) as (_ & Hw' & _). simpl.
    exists b', pre', post'. rewrite Hw', assert_true by lia. done.
  - exists b, pre, post. simpl. rewrite Hwrit, assert_true by lia. split_and!; try done; lia.
Qed.

Lemma hasWritten_layout b pre c d post len :
  layout b pre c (d ++ post) -> zlen d = len ->
  exists b', hasWritten b len = Ok b' /\ layout b' pre (c ++ d) post /\
    buffer_ b' = buffer_ b.
Proof.
  intros H <-. layout_facts H. pose proof H as (E & Hr & Hw & Hm & Hk).
  rewrite zlen_app in *. pose proof (zlen_nonneg d). pose proof (zlen_nonneg post).
  unfold hasWritten. rewrite Hwrit, assert_true by lia.
  eexists. split; [done|]. split; [|done]. unfold layout. simpl.
  rewrite Hw, zlen_app. usimp. split_and!; [by rewrite E, <- !app_assoc|lia..].
Qed.

(** Copying into writable space that is already there. *)
Lemma append_at_fits b pre c post src off d :
  layout b pre c post -> load src off (zlen d) = Ok d -> zlen d <= zlen post ->
  exists b' post',
    append_at b src off (zlen d) = Ok b' /\ layout b' pre (c ++ d) post' /\
    zlen post' = zlen post - zlen d.
Proof.
  intros H Hload Hfit. layout_facts H. pose proof H as (E & Hr & Hw & Hm & Hk).
  unfold append_at, ensureWritableBytes. rewrite Hwrit, (proj2 (Z.ltb_ge _ _)) by lia. simpl.
  rewrite Hwrit, assert_true by lia. simpl. rewrite Hload. simpl.
  destruct (list_prefix_exists post (length d)) as (y & z & -> & Ly); [unfold zlen in *; lia|].
  rewrite Hbw, E, app_assoc, <- zlen_app, store_mid by done. simpl.
  assert (layout (mk ((pre ++ c) ++ d ++ z) (readerIndex_ b) (writerIndex_ b)) pre c (d ++ z)) as Hl2.
  { unfold layout. simpl. rewrite E in *. rewrite !zlen_app in *. unfold zlen in *.
    split_and!; [by rewrite <- !app_assoc|lia..]. }
  destruct (hasWritten_layout _ _ _ _ _ _ Hl2 eq_refl) as (b' & -> & H' & _).
  exists b', z. split_and!; [done|done|]. rewrite zlen_app. unfold zlen. lia.
Qed.

Lemma ensureWritableBytes_idem b len b1 :
  ensureWritableBytes b len = Ok b1 -> ensureWritableBytes b1 len = Ok b1.
Proof.
  unfold ensureWritableBytes. intros H. apply bind_Ok in H as (b2 & _ & H). inv_ok H.
  match goal with E : (_ <=? _) = true |- _ => pose proof (proj1 (Z.leb_le _ _) E) end.
  rewrite (proj2 (Z.ltb_ge _ _)) by lia. simpl. by rewrite assert_true.
Qed.

Lemma append_at_ensured b len b1 src off :
  ensureWritableBytes b len = Ok b1 -> append_at b src off len = append_at b1 src off len.
Proof.
  intros H. unfold append_at. by rewrite (ensureWritableBytes_idem _ _ _ H), H.
Qed.

Lemma append_at_layout b pre c post src off d :
  layout b pre c post -> load src off (zlen d) = Ok d ->
  zlen pre + zlen c + zlen d <= max_size ->
  exists b' pre' post',
    append_at b src off (zlen d) = Ok b' /\ layout b' pre' (c ++ d) post' /\
    zlen (buffer_ b') <= Z.max (zlen (buffer_ b)) (zlen pre + zlen c + zlen d).
Proof.
  intros H Hload Hmax.
  destruct (ensureWritableBytes_layout b pre c post (zlen d))
    as (b1 & pre1 & post1 & He & H1 & Hp1 & Hz1); [done|apply zlen_nonneg|done|].
  rewrite (append_at_ensured _ _ _ _ _ He).
  destruct (append_at_fits _ _ _ _ _ _ _ H1 Hload Hp1) as (b' & post' & -> & Hl' & Hz').
  exists b', pre1, post'. split_and!; [done|done|].
  rewrite (layout_size _ _ _ _ Hl'), zlen_app. rewrite (layout_size _ _ _ _ H1) in Hz1. lia.
Qed.

Lemma append_layout b pre c post d :
  layout b pre c post -> zlen pre + zlen c + zlen d <= max_size ->
  exists b' pre' post',
    append b d = Ok b' /\ layout b' pre' (c ++ d) post' /\
    zlen (buffer_ b') <= Z.max (zlen (buffer_ b)) (zlen pre + zlen c + zlen d).
Proof.
  intros H Hmax. apply (append_at_layout b pre c post d 0 d); [done| |done].
  pose proof (load_mid [] d []) as L. by rewrite app_nil_r in L.
Qed.

Lemma prepend_layout b pre d' c post d :
  layout b (pre ++ d') c post -> length d = length d' ->
  exists b', prepend b d = Ok b' /\ layout b' pre (d ++ c) post.
Proof.
  intros H Hd. layout_facts H. pose proof H as (E & Hr & Hw & Hm & Hk).
  assert (zlen d = zlen d') as Hzd by (unfold zlen; lia).
  rewrite zlen_app in *. pose proof (zlen_nonneg pre). pose proof (zlen_nonneg d').
  unfold prepend. rewrite Hprep, assert_true by lia. simpl. rewrite Hr. usimp.
  replace (zlen pre + zlen d' - zlen d) with (zlen pre) by lia.
  rewrite E, <- app_assoc, store_mid by done. eexists. split; [done|].
  unfold layout. simpl. rewrite E in *. rewrite !zlen_app in *.
  split_and!; [by rewrite <- app_assoc|lia..].
Qed.

Lemma unwrite_layout b pre c d post :
  layout b pre (c ++ d) post ->
  exists b', unwrite b (zlen d) = Ok b' /\ layout b' pre c (d ++ post).
Proof.
  intros H. layout_facts H. pose proof H as (E & Hr & Hw & Hm & Hk).
  rewrite zlen_app in *. pose proof (zlen_nonneg c). pose proof (zlen_nonneg d).
  unfold unwrite. rewrite Hread, assert_true by lia. eexists. split; [done|].
  unfold layout. simpl. rewrite Hw. usimp.
  split_and!; [by rewrite E, <- !app_assoc|lia..].
Qed.

(** *** Operations on the abstraction *)

Lemma contents_zlen b : wf b -> zlen (contents b) = readableBytes b.
Proof.
  intros (pre & post & H)%wf_layout. layout_facts H. lia.
Qed.

Lemma contents_le_size b : wf b -> zlen (contents b) <= zlen (buffer_ b).
Proof.
  intros (pre & post & H)%wf_layout. rewrite (layout_size _ _ _ _ H). layout_facts H. lia.
Qed.

Lemma append_contents b d :
  wf b -> zlen (buffer_ b) + zlen d <= max_size ->
  exists b', append b d = Ok b' /\ wf b' /\ contents b' = contents b ++ d /\
    zlen (buffer_ b') <= zlen (buffer_ b) + zlen d.
Proof.
  intros (pre & post & H)%wf_layout Hmax. rewrite (layout_size _ _ _ _ H) in *. layout_facts H.
  pose proof (zlen_nonneg d).
  destruct (append_layout _ _ _ _ d H) as (b' & pre' & post' & -> & H' & Hz); [unfold max_size; lia|].
  exists b'. rewrite (layout_contents _ _ _ _ H'). rewrite (layout_size _ _ _ _ H) in Hz.
  split_and!; [done|by eapply layout_wf|done|lia].
Qed.

(** Appending the tail of an object. *)
Lemma append_at_contents b src off :
  wf b -> 0 <= off <= zlen src -> zlen (buffer_ b) + zlen src <= max_size ->
  exists b', append_at b src off (zlen src - off) = Ok b' /\ wf b' /\
    contents b' = contents b ++ drop (Z.to_nat off) src /\
    zlen (buffer_ b') <= zlen (buffer_ b) + zlen src.
Proof.
  intros (pre & post & H)%wf_layout Hoff Hmax. rewrite (layout_size _ _ _ _ H) in *. layout_facts H.
  set (d := drop (Z.to_nat off) src).
  assert (zlen d = zlen src - off) as Hd by (subst d; unfold zlen in *; rewrite length_drop; lia).
  rewrite <- Hd.
  destruct (append_at_layout _ _ _ _ src off d H) as (b' & pre' & post' & -> & H' & Hz); [|unfold max_size; lia|].
  - rewrite load_Ok by lia. f_equal. apply take_ge. fold d. unfold zlen. lia.
  - exists b'. rewrite (layout_contents _ _ _ _ H'). rewrite (layout_size _ _ _ _ H) in Hz.
    split_and!; [done|by eapply layout_wf|done|lia].
Qed.

Lemma ensureWritableBytes_contents b len :
  wf b -> 0 <= len -> zlen (buffer_ b) + len <= max_size ->
  exists b', ensureWritableBytes b len = Ok b' /\ wf b' /\ contents b' = contents b /\
    len <= writableBytes b' /\ zlen (buffer_ b') <= zlen (buffer_ b) + len.
Proof.
  intros (pre & post & H)%wf_layout Hlen Hmax. rewrite (layout_size _ _ _ _ H) in *. layout_facts H.
  destruct (ensureWritableBytes_layout _ _ _ _ len H) as (b' & pre' & post' & -> & H' & Hp & Hz);
    [done|unfold max_size; lia|].
  exists b'. rewrite (layout_contents _ _ _ _ H'), (proj1 (proj2 (layout_bytes _ _ _ _ H'))).
  rewrite (layout_size _ _ _ _ H) in Hz.
  split_and!; [done|by eapply layout_wf|done|lia|lia].
Qed.

Lemma retrieveAll_contents b :
  wf b -> wf (retrieveAll b) /\ contents (retrieveAll b) = [].
Proof.
  intros (pre & post & H & _)%retrieveAll_layout.
  split; [by eapply layout_wf|by eapply layout_contents].
Qed.

Lemma retrieve_buffer b n b' : retrieve b n = Ok b' -> buffer_ b' = buffer_ b.
Proof. unfold retrieve. intros H. inv_bind H. injection H as <-. by case_match. Qed.

Lemma retrieve_contents b n :
  wf b -> (n <= length (contents b))%nat ->
  exists b', retrieve b (Z.of_nat n) = Ok b' /\ wf b' /\ contents b' = drop n (contents b).
Proof.
  intros Hwf Hn. destruct (decide (n = length (contents b))) as [->|Hne].
  - exists (retrieveAll b). rewrite drop_all. pose proof (retrieveAll_contents b Hwf).
    unfold retrieve. rewrite <- contents_zlen by done.
    unfold zlen. rewrite assert_true by lia. simpl. by rewrite Z.ltb_irrefl.
  - destruct (wf_layout b Hwf) as (pre & post & H).
    rewrite <- (take_drop n (contents b)) in H.
    apply retrieve_layout in H as (b' & Hb & H').
    2: { intros E. apply (f_equal length) in E. rewrite length_drop in E. simpl in E. lia. }
    exists b'. rewrite (layout_contents _ _ _ _ H'). rewrite <- Hb.
    split_and!; [|by eapply layout_wf|done].
    f_equal. unfold zlen. rewrite length_take. lia.
Qed.

Lemma retrieve_too_much b n :
  wf b -> (length (contents b) < n)%nat -> retrieve b (Z.of_nat n) = Fault AssertFailed.
Proof.
  intros Hwf Hn. unfold retrieve. rewrite <- contents_zlen by done. unfold zlen.
  by rewrite (proj2 (Z.leb_gt _ _)) by lia.
Qed.

Lemma load_contents b n :
  wf b -> (n <= length (contents b))%nat ->
  load (buffer_ b) (peek b) (Z.of_nat n) = Ok (take n (contents b)).
Proof.
  intros (pre & post & H)%wf_layout Hn. layout_facts H. destruct H as (E & _).
  rewrite Hpeek. rewrite E at 1. rewrite <- (take_drop n (contents b)) at 1.
  rewrite <- app_assoc. rewrite <- (load_mid pre _ (drop n (contents b) ++ post)).
  f_equal. unfold zlen. rewrite length_take. lia.
Qed.

Lemma unwrite_contents b n :
  wf b -> (n <= length (contents b))%nat ->
  exists b', unwrite b (Z.of_nat n) = Ok b' /\ wf b' /\
    contents b' = take (length (contents b) - n) (contents b).
Proof.
  intros Hwf Hn. destruct (wf_layout b Hwf) as (pre & post & H).
  rewrite <- (take_drop (length (contents b) - n) (contents b)) in H.
  apply unwrite_layout in H as (b' & Hb & H').
  exists b'. rewrite (layout_contents _ _ _ _ H'), <- Hb.
  split_and!; [|by eapply layout_wf|done].
  f_equal. unfold zlen. rewrite length_drop. lia.
Qed.

Lemma prepend_contents b d :
  wf b -> zlen d <= prependableBytes b ->
  exists b', prepend b d = Ok b' /\ wf b' /\ contents b' = d ++ contents b /\
    prependableBytes b' = prependableBytes b - zlen d.
Proof.
  intros (pre & post & H)%wf_layout Hd. layout_facts H. rewrite Hprep in Hd.
  destruct (list_prefix_exists pre (length pre - length d)) as (p & d' & -> & Lp); [lia|].
  unfold zlen in Hd. rewrite length_app in *.
  destruct (prepend_layout b p d' (contents b) post d H) as (b' & -> & H'); [lia|].
  exists b'. rewrite (layout_contents _ _ _ _ H').
  pose proof (layout_bytes _ _ _ _ H') as (_ & _ & -> & _). rewrite Hprep, zlen_app.
  split_and!; [done|by eapply layout_wf|done|unfold zlen; lia].
Qed.

(** *** A client's sequence of calls *)

Inductive op :=
  | OpAppend (d : bytes)
  | OpEnsureWritable (n : nat)
  | OpRetrieve (n : nat)
  | OpRetrieveAll
  | OpRetrieveAsString (n : nat)
  | OpUnwrite (n : nat).

(** The calls on the buffer, with the strings that they return. *)
Definition run_op (b : t) (o : op) : outcome (list bytes * t) :=
  match o with
  | OpAppend d => b' ← append b d; Ok ([], b')
  | OpEnsureWritable n => b' ← ensureWritableBytes b (Z.of_nat n); Ok ([], b')
  | OpRetrieve n => b' ← retrieve b (Z.of_nat n); Ok ([], b')
  | OpRetrieveAll => Ok ([], retrieveAll b)
  | OpRetrieveAsString n => '(s, b') ← retrieveAsString b (Z.of_nat n); Ok ([s], b')
  | OpUnwrite n => b' ← unwrite b (Z.of_nat n); Ok ([], b')
  end.

Fixpoint run_ops (b : t) (os : list op) : outcome (list bytes * t) :=
  match os with
  | [] => Ok ([], b)
  | o :: os' =>
      '(out, b1) ← run_op b o;
      '(outs, b2) ← run_ops b1 os';
      Ok (out ++ outs, b2)
  end.

(** The same calls on a byte queue; [None] where the class asserts. *)
Definition queue_op (c : bytes) (o : op) : option (list bytes * bytes) :=
  match o with
  | OpAppend d => Some ([], c ++ d)
  | OpEnsureWritable _ => Some ([], c)
  | OpRetrieve n => if decide (n <= length c)%nat then Some ([], drop n c) else None
  | OpRetrieveAll => Some ([], [])
  | OpRetrieveAsString n =>
      if decide (n <= length c)%nat then Some ([take n c], drop n c) else None
  | OpUnwrite n =>
      if decide (n <= length c)%nat then Some ([], take (length c - n) c) else None
  end.

Fixpoint queue_ops (c : bytes) (os : list op) : option (list bytes * bytes) :=
  match os with
  | [] => Some ([], c)
  | o :: os' =>
      '(out, c1) ← queue_op c o;
      '(outs, c2) ← queue_ops c1 os';
      Some (out ++ outs, c2)
  end.

(** How much one call may grow the vector. *)
Definition op_cost (o : op) : Z :=
  match o with OpAppend d => zlen d | OpEnsureWritable n => Z.of_nat n | _ => 0 end.
Definition ops_cost (os : list op) : Z := foldr (fun o n => op_cost o + n) 0 os.

Lemma op_cost_nonneg o : 0 <= op_cost o.
Proof. destruct o; simpl; try lia. apply zlen_nonneg. Qed.

Lemma ops_cost_nonneg os : 0 <= ops_cost os.
Proof. induction os as [|o os IH]; simpl; [lia|]. pose proof (op_cost_nonneg o). lia. Qed.

Lemma run_op_refines b o :
  wf b -> zlen (buffer_ b) + op_cost o <= max_size ->
  match queue_op (contents b) o with
  | Some (out, c) => exists b', run_op b o = Ok (out, b') /\ wf b' /\ contents b' = c /\
      zlen (buffer_ b') <= zlen (buffer_ b) + op_cost o
  | None => run_op b o = Fault AssertFailed
  end.
Proof.
  intros Hwf Hc. destruct o as [d|n|n| |n|n]; simpl in *.
  - destruct (append_contents b d Hwf Hc) as (b' & -> & ? & ? & ?). exists b'. done.
  - destruct (ensureWritableBytes_contents b (Z.of_nat n)) as (b' & -> & ? & ? & ? & ?); [done|lia|lia|].
    exists b'. done.
  - case_decide; [|by rewrite retrieve_too_much by (done || lia)].
    destruct (retrieve_contents b n) as (b' & Hb & ? & ?); [done..|].
    exists b'. rewrite Hb, (retrieve_buffer _ _ _ Hb). split_and!; try done. lia.
  - exists (retrieveAll b). destruct (retrieveAll_contents b Hwf). simpl. split_and!; try done. lia.
  - unfold retrieveAsString. rewrite <- contents_zlen by done. case_decide.
    + destruct (retrieve_contents b n) as (b' & Hb & ? & ?); [done..|].
      unfold zlen at 1. rewrite assert_true by lia. simpl. rewrite load_contents by done. simpl.
      exists b'. rewrite Hb, (retrieve_buffer _ _ _ Hb). split_and!; try done. lia.
    + unfold zlen at 1. by rewrite (proj2 (Z.leb_gt _ _)) by lia.
  - case_decide.
    + destruct (unwrite_contents b n) as (b' & Hb & ? & ?); [done..|].
      exists b'. rewrite Hb. split_and!; try done.
      unfold unwrite in Hb. inv_bind Hb. injection Hb as <-. simpl. lia.
    + unfold unwrite. rewrite <- contents_zlen by done. unfold zlen.
      by rewrite (proj2 (Z.leb_gt _ _)) by lia.
Qed.

(** C1: The buffer refines a byte queue.  From a well-formed buffer, any
    sequence of [append], [ensureWritableBytes], [retrieve], [retrieveAll],
    [retrieveAsString] and [unwrite] calls that the address space can hold
    returns the strings, and leaves the readable bytes, that the same calls
    on a plain byte sequence give; the representation stays well formed, no
    byte outside the vector is touched, and a call that asks for more than is
    readable stops at its assertion. *)
Theorem run_ops_refine_queue b os :
  wf b -> zlen (buffer_ b) + ops_cost os <= max_size ->
  match queue_ops (contents b) os with
  | Some (outs, c) => exists b', run_ops b os = Ok (outs, b') /\ wf b' /\ contents b' = c
  | None => run_ops b os = Fault AssertFailed
  end.
Proof.
  revert b. induction os as [|o os IH]; intros b Hwf Hc; simpl in *; [by exists b|].
  pose proof (ops_cost_nonneg os). pose proof (op_cost_nonneg o).
  pose proof (run_op_refines b o Hwf) as Ho.
  destruct (queue_op (contents b) o) as [[out c1]|]; simpl.
  - destruct Ho as (b1 & -> & Hwf1 & <- & Hz); [lia|]. simpl.
    specialize (IH b1 Hwf1). destruct (queue_ops (contents b1) os) as [[outs c2]|]; simpl.
    + destruct IH as (b2 & -> & ? & ?); [lia|]. by exists b2.
    + by rewrite IH by lia.
  - by rewrite Ho by lia.
Qed.

Lemma new_wf n : 0 <= n -> kCheapPrepend + n <= max_size ->
  exists b, new n = Ok b /\ wf b /\ contents b = [] /\
    zlen (buffer_ b) = kCheapPrepend + n /\ prependableBytes b = kCheapPrepend.
Proof.
  intros Hn Hm. unfold new, kCheapPrepend, max_size in *. usimp.
  rewrite resize_grow by (rewrite zlen_nil; unfold max_size; lia). simpl.
  rewrite zlen_nil. unfold readableBytes, writableBytes, prependableBytes. simpl.
  rewrite zlen_replicate. usimp. rewrite !assert_true by lia. simpl.
  eexists. split; [done|]. unfold wf, max_size, kCheapPrepend, contents. simpl.
  rewrite zlen_replicate. split_and!; try lia. done.
Qed.

Lemma run_ops_refine_queue_witness :
  exists b', run_ops (mk (replicate 16 NUL) 8 8)
    [OpAppend (bs "hello, world"); OpRetrieveAsString 7; OpAppend (bs "!"); OpUnwrite 1]
  = Ok ([bs "hello, "], b') /\ wf b' /\ contents b' = bs "world".
Proof.
  exact (run_ops_refine_queue (mk (replicate 16 NUL) 8 8)
    [OpAppend (bs "hello, world"); OpRetrieveAsString 7; OpAppend (bs "!"); OpUnwrite 1]
    ltac:(vm_compute; intuition discriminate) ltac:(vm_compute; discriminate)).
Defined.

(** *** Line search *)

(** The first line of a byte sequence and what follows its CRLF. *)
Fixpoint split_crlf (l : bytes) : option (bytes * bytes) :=
  match l with
  | [] => None
  | x :: l' =>
      if decide (take 2 l = kCRLF) then Some ([], drop 1 l')
      else '(line, rest) ← split_crlf l'; Some (x :: line, rest)
  end.

Definition has_crlf (l : bytes) : Prop := exists x y, l = x ++ kCRLF ++ y.

Lemma split_crlf_search l :
  match split_crlf l with
  | Some (line, rest) => l = line ++ kCRLF ++ rest /\ search kCRLF l = length line
  | None => search kCRLF l = length l
  end.
Proof.
  induction l as [|x l IH]; [done|]. cbn [split_crlf search].
  replace (length kCRLF) with 2%nat by done. case_decide as Hd.
  - destruct l as [|y l]; [done|]. simpl in Hd. injection Hd as -> ->. done.
  - destruct (split_crlf l) as [[line rest]|]; simpl.
    + destruct IH as [-> ->]. done.
    + by rewrite IH.
Qed.

Lemma split_crlf_app line rest :
  ~ has_crlf (line ++ [CR]) -> split_crlf (line ++ kCRLF ++ rest) = Some (line, rest).
Proof.
  induction line as [|x line IH]; intros Hn; [done|].
  cbn [app split_crlf]. rewrite IH.
  - rewrite decide_False; [done|]. intros E. apply Hn.
    destruct line as [|y line]; simpl in E; injection E as -> E.
    + done.
    + exists [], (line ++ [CR]). simpl. by rewrite E.
  - intros (a & c & E). apply Hn. exists (x :: a), c. simpl. by rewrite E.
Qed.

(** The line found is the first: no CRLF starts before it. *)
Lemma split_crlf_first l line rest :
  split_crlf l = Some (line, rest) -> ~ has_crlf (line ++ [CR]).
Proof.
  revert line rest. induction l as [|x l IH]; [done|]. cbn [split_crlf].
  intros line rest H. case_decide as Hd.
  - injection H as <- <-. intros (a & c & E).
    destruct a as [|? [|? ?]]; simpl in E; discriminate E.
  - destruct (split_crlf l) as [[line' rest']|] eqn:El; [|done].
    simpl in H. injection H as <- <-.
    intros (a & c & E). destruct a as [|z a]; simpl in E.
    + pose proof (split_crlf_search l) as Hs. rewrite El in Hs. destruct Hs as [-> _].
      destruct line' as [|y line']; simpl in E.
      * injection E as -> E. discriminate E.
      * injection E as -> -> E. by apply Hd.
    + injection E as -> E. eapply IH; [done|]. by exists a, c.
Qed.

Lemma split_crlf_None l : split_crlf l = None <-> ~ has_crlf l.
Proof.
  split.
  - revert l. induction l as [|x l IH]; intros H (a & c & E); [by destruct a|].
    cbn [split_crlf] in H. case_decide as Hd; [done|].
    destruct (split_crlf l) as [[? ?]|] eqn:El; [done|].
    destruct a as [|y a]; injection E as -> E.
    + subst l. by apply Hd.
    + apply IH; [done|]. by exists a, c.
  - intros Hn. destruct (split_crlf l) as [[line rest]|] eqn:El; [|done].
    pose proof (split_crlf_search l) as Hs. rewrite El in Hs. destruct Hs as [-> _].
    exfalso. apply Hn. by exists line, rest.
Qed.

Lemma split_crlf_app_r l line rest k :
  split_crlf l = Some (line, rest) -> split_crlf (l ++ k) = Some (line, rest ++ k).
Proof.
  intros H. pose proof (split_crlf_search l) as Hs. pose proof (split_crlf_first _ _ _ H).
  rewrite H in Hs. destruct Hs as [-> _]. rewrite <- !app_assoc. by apply split_crlf_app.
Qed.

Lemma split_crlf_shorter l line rest :
  split_crlf l = Some (line, rest) -> (length rest + 2 <= length l)%nat.
Proof.
  intros H. pose proof (split_crlf_search l) as Hs. rewrite H in Hs. destruct Hs as [-> _].
  rewrite !length_app. simpl. lia.
Qed.

Lemma findCRLF_split b :
  wf b ->
  findCRLF b = Ok (match split_crlf (contents b) with
                   | Some (line, _) => Some (peek b + zlen line) | None => None end).
Proof.
  intros Hwf. destruct (wf_layout b Hwf) as (pre & post & H). layout_facts H.
  unfold findCRLF, window. fold (readableBytes b). change (u64 (beginWrite b - peek b)) with (readableBytes b).
  rewrite Hread. unfold zlen at 1. rewrite load_contents, take_ge by (done || lia). simpl.
  pose proof (split_crlf_search (contents b)) as Hs.
  destruct (split_crlf (contents b)) as [[line rest]|].
  - destruct Hs as [E ->]. rewrite (proj2 (Z.eqb_neq _ _)); [done|].
    apply (f_equal zlen) in E. rewrite !zlen_app in E.
    assert (zlen kCRLF = 2) by done. pose proof (zlen_nonneg rest). unfold zlen in *. lia.
  - rewrite Hs, (proj2 (Z.eqb_eq _ _)); [done|]. unfold zlen in *. lia.
Qed.

(** Line search.  [findCRLF] returns the offset of the first CRLF of the
    readable bytes, and NULL exactly when there is none. *)
Theorem findCRLF_first b :
  wf b ->
  match findCRLF b with
  | Ok (Some p) => exists line rest,
      contents b = line ++ kCRLF ++ rest /\ p = peek b + zlen line /\
      ~ has_crlf (line ++ [CR])
  | Ok None => ~ has_crlf (contents b)
  | Fault _ => False
  end.
Proof.
  intros Hwf. rewrite findCRLF_split by done.
  pose proof (split_crlf_search (contents b)) as Hs.
  destruct (split_crlf (contents b)) as [[line rest]|] eqn:E.
  - exists line, rest. destruct Hs. split_and!; try done. by eapply split_crlf_first.
  - by apply split_crlf_None.
Qed.

Lemma findCRLF_first_witness :
  match findCRLF (mk (replicate 8 NUL ++ bs "a" ++ [CR; CR; LF; CR; LF]) 8 14) with
  | Ok (Some p) => exists line rest,
      contents (mk (replicate 8 NUL ++ bs "a" ++ [CR; CR; LF; CR; LF]) 8 14)
        = line ++ kCRLF ++ rest /\ p = 8 + zlen line /\ ~ has_crlf (line ++ [CR])
  | Ok None => ~ has_crlf (contents (mk (replicate 8 NUL ++ bs "a" ++ [CR; CR; LF; CR; LF]) 8 14))
  | Fault _ => False
  end.
Proof.
  exact (findCRLF_first (mk (replicate 8 NUL ++ bs "a" ++ [CR; CR; LF; CR; LF]) 8 14)
    ltac:(vm_compute; intuition discriminate)).
Defined.

(** *** Integers in network byte order *)

(** A value of one of the widths the class reads and writes. *)
Inductive fixed :=
  | I8 (x : Z)
  | I16 (x : Z)
  | I32 (x : Z)
  | I64 (x : Z).

Definition width (v : fixed) : nat :=
  match v with I8 _ => 1 | I16 _ => 2 | I32 _ => 4 | I64 _ => 8 end.
Definition value (v : fixed) : Z :=
  match v with I8 x | I16 x | I32 x | I64 x => x end.
Definition in_range (v : fixed) : Prop :=
  - 2 ^ (8 * Z.of_nat (width v) - 1) <= value v < 2 ^ (8 * Z.of_nat (width v) - 1).

Definition appendFixed {host : Host} (b : t) (v : fixed) : outcome t :=
  match v with
  | I8 x => appendInt8 b x | I16 x => appendInt16 b x
  | I32 x => appendInt32 b x | I64 x => appendInt64 b x
  end.

(** Reads a value of the width of [v]. *)
Definition readFixed {host : Host} (b : t) (v : fixed) : outcome (Z * t) :=
  match v with
  | I8 _ => readInt8 b | I16 _ => readInt16 b
  | I32 _ => readInt32 b | I64 _ => readInt64 b
  end.

Fixpoint appendAll {host : Host} (b : t) (vs : list fixed) : outcome t :=
  match vs with
  | [] => Ok b
  | v :: vs' => b1 ← appendFixed b v; appendAll b1 vs'
  end.

Fixpoint readAll {host : Host} (b : t) (vs : list fixed) : outcome (list Z * t) :=
  match vs with
  | [] => Ok ([], b)
  | v :: vs' => '(x, b1) ← readFixed b v; '(xs, b2) ← readAll b1 vs'; Ok (x :: xs, b2)
  end.

(** The wire format: each value big-endian at its width. *)
Definition wire (vs : list fixed) : bytes :=
  concat (map (fun v => sockets.be_split (width v) (value v)) vs).

Section IntegerLemmas.
Context {host : Host}.

Lemma appendFixed_bytes b v :
  appendFixed b v = append b (sockets.be_split (width v) (value v)).
Proof.
  destruct v as [x|x|x|x]; simpl.
  - unfold appendInt8. f_equal. unfold sockets.mem_bytes, sockets.be_split.
    by destruct little_endian.
  - unfold appendInt16. f_equal. unfold sockets.hostToNetwork16.
    rewrite (sockets.mem_bytes_wrap_s 2), sockets.mem_bytes_htobe.
    unfold sockets.be_split. f_equal. symmetry. apply (le_split_mod x 2).
  - unfold appendInt32. f_equal. unfold sockets.hostToNetwork32.
    rewrite (sockets.mem_bytes_wrap_s 4), sockets.mem_bytes_htobe.
    unfold sockets.be_split. f_equal. symmetry. apply (le_split_mod x 4).
  - unfold appendInt64. f_equal. unfold sockets.hostToNetwork64.
    rewrite (sockets.mem_bytes_wrap_s 8), sockets.mem_bytes_htobe.
    unfold sockets.be_split. f_equal. symmetry. apply (le_split_mod x 8).
Qed.

(** Reading [n] bytes off the front of the contents. *)
Lemma readFixed_bytes b v d rest :
  wf b -> contents b = d ++ rest -> length d = width v ->
  exists b', readFixed b v = Ok (wrap_s (8 * Z.of_nat (width v)) (sockets.be_combine d), b') /\
    wf b' /\ contents b' = rest.
Proof.
  intros Hwf Hc Hd.
  destruct (retrieve_contents b (width v)) as (b' & Hb & Hwf' & Hc').
  { done. } { rewrite Hc, length_app. lia. }
  rewrite Hc, <- Hd, drop_app_length in Hc'.
  exists b'. split; [|done].
  assert (Z.of_nat (width v) <= readableBytes b).
  { rewrite <- contents_zlen, Hc, zlen_app by done. unfold zlen. lia. }
  assert (load (buffer_ b) (peek b) (Z.of_nat (width v)) = Ok d) as Hl.
  { rewrite load_contents, Hc, <- Hd, take_app_length; [done|done|]. rewrite Hc, length_app. lia. }
  destruct v; cbn [width readFixed] in *;
    [change (Z.of_nat 1) with 1 in *; unfold readInt8, peekInt8, retrieveInt8
    |change (Z.of_nat 2) with 2 in *; unfold readInt16, peekInt16, retrieveInt16
    |change (Z.of_nat 4) with 4 in *; unfold readInt32, peekInt32, retrieveInt32
    |change (Z.of_nat 8) with 8 in *; unfold readInt64, peekInt64, retrieveInt64];
    rewrite assert_true by lia; simpl; rewrite Hl; simpl; rewrite Hb; simpl;
    try (rewrite <- sockets.htobe_mem_int, Hd; done).
  destruct d as [|y [|? ?]]; [done| |done].
  unfold sockets.mem_int. by destruct little_endian.
Qed.

Lemma appendAll_wire b vs :
  wf b -> zlen (buffer_ b) + zlen (wire vs) <= max_size ->
  exists b', appendAll b vs = Ok b' /\ wf b' /\ contents b' = contents b ++ wire vs.
Proof.
  revert b. induction vs as [|v vs IH]; intros b Hwf Hm.
  - exists b. by rewrite app_nil_r.
  - unfold wire in Hm. simpl in Hm. fold (wire vs) in Hm. rewrite zlen_app in Hm.
    pose proof (zlen_nonneg (wire vs)).
    cbn [appendAll]. rewrite appendFixed_bytes.
    destruct (append_contents b (sockets.be_split (width v) (value v))) as (b1 & -> & Hwf1 & Hc1 & Hz1);
      [done|lia|].
    simpl. destruct (IH b1) as (b' & -> & Hwf' & Hc'); [done|lia|].
    exists b'. split_and!; [done|done|]. rewrite Hc', Hc1. unfold wire. simpl. by rewrite app_assoc.
Qed.

Lemma readAll_wire b vs rest :
  wf b -> Forall in_range vs -> contents b = wire vs ++ rest ->
  exists b', readAll b vs = Ok (map value vs, b') /\ wf b' /\ contents b' = rest.
Proof.
  revert b. induction vs as [|v vs IH]; intros b Hwf Hr Hc; [by exists b|].
  apply Forall_cons_1 in Hr as [Hv Hr].
  unfold wire in Hc. simpl in Hc. fold (wire vs) in Hc. rewrite <- app_assoc in Hc.
  destruct (readFixed_bytes b v (sockets.be_split (width v) (value v)) (wire vs ++ rest))
    as (b1 & Hb1 & Hwf1 & Hc1); [done|done|apply sockets.length_be_split|].
  cbn [readAll]. rewrite Hb1. simpl.
  destruct (IH b1) as (b2 & -> & Hwf2 & Hc2); [done..|].
  exists b2. simpl. rewrite sockets.wrap_s_be_combine_split; [done| |apply Hv].
  destruct v; simpl; lia.
Qed.

End IntegerLemmas.

(** Integers survive the network.  Values written with
    [appendInt8/16/32/64] on one machine extend the readable bytes by their
    big-endian representation, and a machine of either byte order that
    receives those bytes reads back the same values with [readInt8/16/32/64],
    leaving whatever follows them. *)
Theorem appendInt_readInt (sender receiver : Host) b b2 vs rest :
  wf b -> Forall in_range vs -> zlen (buffer_ b) + zlen (wire vs) <= max_size ->
  wf b2 -> contents b2 = wire vs ++ rest ->
  (exists b', appendAll (host := sender) b vs = Ok b' /\ wf b' /\
     contents b' = contents b ++ wire vs) /\
  (exists b3, readAll (host := receiver) b2 vs = Ok (map value vs, b3) /\ wf b3 /\
     contents b3 = rest).
Proof. intros. split; [by apply appendAll_wire|by apply readAll_wire]. Qed.

Lemma appendInt_readInt_witness :
  let b := mk (replicate 8 NUL) 8 8 in
  let vs := [I32 (-2); I8 7; I16 (-32768); I64 81985529216486895] in
  let b2 := mk (wire vs) 0 15 in
  (exists b', appendAll (host := true) b vs = Ok b' /\ wf b' /\
     contents b' = contents b ++ wire vs) /\
  (exists b3, readAll (host := false) b2 vs = Ok (map value vs, b3) /\ wf b3 /\
     contents b3 = []).
Proof.
  apply (appendInt_readInt true false (mk (replicate 8 NUL) 8 8)
    (mk (wire [I32 (-2); I8 7; I16 (-32768); I64 81985529216486895]) 0 15)
    [I32 (-2); I8 7; I16 (-32768); I64 81985529216486895] []).
  - vm_compute. intuition discriminate.
  - repeat constructor; vm_compute; intuition discriminate.
  - vm_compute. discriminate.
  - vm_compute. intuition discriminate.
  - reflexivity.
Defined.

(** *** Reading from a descriptor, shrinking, growing in place *)

(** The first part of [readFd]: the kernel fills the writable area. *)
Lemma readFd_vec0 b pre post d :
  layout b pre (contents b) post -> 
  let d0 := take (length post) d in
  exists z, store (buffer_ b) (writerIndex_ b) d0 = Ok ((pre ++ contents b) ++ d0 ++ z) /\
    zlen ((pre ++ contents b) ++ d0 ++ z) = zlen (buffer_ b) /\
    layout (mk ((pre ++ contents b) ++ d0 ++ z) (readerIndex_ b) (zlen pre + zlen (contents b) + zlen d0))
            pre (contents b ++ d0) z /\
    (zlen post <= zlen d -> z = []).
Proof.
  intros H d0. layout_facts H. pose proof H as (E & Hr & Hw & _ & Hk). pose proof (layout_size _ _ _ _ H) as Hsz.
  destruct (list_prefix_exists post (length d0)) as (y & z & Ep & Ly).
  { subst d0. rewrite length_take. lia. }
  assert (zlen ((pre ++ contents b) ++ d0 ++ z) = zlen (buffer_ b)) as Hz.
  { rewrite E, Ep, !zlen_app. unfold zlen. lia. }
  exists z. split_and!; [|done| |].
  - rewrite E, Ep, Hw, app_assoc, <- zlen_app. by apply store_mid.
  - unfold layout. simpl. rewrite Hz. unfold max_size, kCheapPrepend. rewrite zlen_app.
    split_and!; [by rewrite <- !app_assoc|lia..].
  - intros Hle. apply length_zero_iff_nil. apply (f_equal length) in Ep. rewrite length_app in Ep.
    subst d0. rewrite length_take in *. unfold zlen in *. lia.
Qed.

Lemma readFd_contents readv b :
  wf b -> readv_bounded readv -> zlen (buffer_ b) + extrabuf_size <= max_size ->
  match readv (readFd_capacity b) with
  | inl err => readFd readv b = Ok (-1, Some err, b)
  | inr d => exists b', readFd readv b = Ok (zlen d, None, b') /\ wf b' /\
      contents b' = contents b ++ d
  end.
Proof.
  intros Hwf Hrv Hm. unfold readFd.
  destruct (readv (readFd_capacity b)) as [err|d] eqn:Er; [done|].
  apply Hrv in Er. unfold readFd_capacity, extrabuf_size in *.
  destruct (wf_layout b Hwf) as (pre & post & H). layout_facts H.
  rewrite Hwrit in *. replace (Z.to_nat (zlen post)) with (length post) by (unfold zlen; lia).
  pose proof H as (E & Hr & Hw & _ & Hk). pose proof (layout_size _ _ _ _ H) as Hsz.
  destruct (readFd_vec0 b pre post d H) as (z & -> & Hz & Hl & Hfull).
  set (d0 := take (length post) d) in *. set (dx := drop (length post) d).
  assert (d = d0 ++ dx) as Ed by (symmetry; apply take_drop).
  simpl. destruct (Z.leb_spec (zlen d) (zlen post)).
  - assert (dx = []) as Hdx by (apply drop_ge; unfold zlen in *; lia).
    rewrite Hdx, app_nil_r in Ed. rewrite <- Ed in *. eexists. split; [done|].
    unfold set_indices. simpl. rewrite Hw. pose proof (zlen_nonneg d). usimp.
    split; [eapply layout_wf, Hl|eapply layout_contents, Hl].
  - rewrite Hfull in * by lia.
    assert (zlen d = zlen d0 + zlen dx) as Hzd by (by rewrite Ed at 1; rewrite zlen_app).
    assert (zlen d0 = zlen post) as Hd0 by (subst d0; unfold zlen in *; rewrite length_take; lia).
    replace (zlen d - zlen post) with (zlen dx) by lia.
    unfold set_indices. simpl. rewrite Hz, (layout_size _ _ _ _ H), <- Hd0.
    destruct (append_layout _ _ _ _ dx Hl) as (b' & pre' & post' & Hb & Hl' & _).
    { rewrite zlen_app, !Hd0. unfold max_size. revert Er. case_cmp; lia. }
    unfold append in Hb. rewrite Hb. simpl. exists b'.
    rewrite (layout_contents _ _ _ _ Hl'), <- app_assoc, <- Ed.
    split_and!; [done|by eapply layout_wf|done].
Qed.

(** [readFd].  When readv(2) fails the buffer is untouched, the errno is
    saved and -1 returned; when it delivers bytes, whether they fit in the
    writable area or spill into the 64 KiB stack buffer, exactly those bytes
    are appended to the contents and their number is returned. *)
Theorem readFd_appends readv b :
  wf b -> readv_bounded readv -> zlen (buffer_ b) + extrabuf_size <= max_size ->
  match readv (readFd_capacity b) with
  | inl err => readFd readv b = Ok (-1, Some err, b)
  | inr d => exists b', readFd readv b = Ok (zlen d, None, b') /\ wf b' /\
      contents b' = contents b ++ d
  end.
Proof. apply readFd_contents. Qed.

Lemma readFd_appends_witness :
  exists b', readFd (fun _ => inr (bs "abcde")) (mk (replicate 10 NUL) 8 8) = Ok (5, None, b') /\
    wf b' /\ contents b' = [] ++ bs "abcde".
Proof.
  apply (readFd_appends (fun cap => if 5 <=? cap then inr (bs "abcde") else inl 11)
           (mk (replicate 10 NUL) 8 8)).
  - vm_compute. intuition discriminate.
  - intros cap d. case_cmp; [|done]. intros [= <-]. vm_compute in H |- *. done.
  - vm_compute. discriminate.
Defined.

(** The vector grows only when it must.  If the writable bytes and the
    prependable bytes beyond the cheap prepend can hold the data, [append]
    keeps the vector's size (it moves the contents to the front at most);
    otherwise the vector ends exactly at the last byte written. *)
Theorem append_grows_minimally b d :
  wf b -> zlen (buffer_ b) + zlen d <= max_size ->
  exists b', append b d = Ok b' /\ wf b' /\ contents b' = contents b ++ d /\
    ((zlen d <= writableBytes b \/
      zlen d + kCheapPrepend <= writableBytes b + prependableBytes b) ->
     zlen (buffer_ b') = zlen (buffer_ b)) /\
    (writableBytes b < zlen d ->
     writableBytes b + prependableBytes b < zlen d + kCheapPrepend ->
     writerIndex_ b' = zlen (buffer_ b') /\ readerIndex_ b' = readerIndex_ b).
Proof.
  intros Hwf Hm. pose proof (append_contents b d Hwf Hm) as (b' & Hb & Hwf' & Hc & _).
  exists b'. split_and!; [done..| |]; revert Hb; unfold append, append_at, ensureWritableBytes;
    destruct (wf_layout b Hwf) as (pre & post & H); layout_facts H;
    rewrite (layout_size _ _ _ _ H) in Hm; pose proof (zlen_nonneg d);
    rewrite Hwrit, Hprep; unfold kCheapPrepend.
  - intros Hb Hcase. destruct (Z.ltb_spec (zlen post) (zlen d)) as [Hlt|Hge].
    + destruct (makeSpace_move b pre (contents b) post (zlen d))
        as (b1 & pre1 & post1 & Hb1 & Hl1 & Hp1 & Hz1); [done|lia|unfold kCheapPrepend; lia|].
      rewrite Hb1 in Hb. unfold hasWritten in Hb. inv_ok Hb. simpl.
      match goal with E : store _ _ _ = Ok _ |- _ => apply store_zlen in E; simpl in E end. lia.
    + unfold hasWritten in Hb. inv_ok Hb. simpl.
      match goal with E : store _ _ _ = Ok _ |- _ => apply store_zlen in E; simpl in E end. lia.
  - intros Hb Hlt Hsp. rewrite (proj2 (Z.ltb_lt _ _)) in Hb by lia.
    destruct (makeSpace_grow b pre (contents b) post (zlen d)) as (b1 & post1 & Hb1 & Hl1 & Hp1);
      [done|lia|unfold kCheapPrepend; lia|unfold max_size; lia|].
    rewrite Hb1 in Hb. unfold hasWritten in Hb. inv_ok Hb. simpl.
    match goal with E : store _ _ _ = Ok _ |- _ => apply store_zlen in E; simpl in E end.
    pose proof (layout_size _ _ _ _ Hl1). destruct Hl1 as (_ & Hr1 & Hw1 & _).
    destruct H as (_ & Hr & _). rewrite Hr1, Hr, Hw1. split; [|done].
    rewrite u64_small by lia. lia.
Qed.

Lemma append_grows_minimally_witness :
  exists b', append (mk (replicate 24 NUL) 14 20) (bs "12345678") = Ok b' /\ wf b' /\
    contents b' = replicate 6 NUL ++ bs "12345678" /\
    ((8 <= 4 \/ 8 + kCheapPrepend <= 4 + 14) -> zlen (buffer_ b') = 24) /\
    (4 < 8 -> 4 + 14 < 8 + kCheapPrepend ->
     writerIndex_ b' = zlen (buffer_ b') /\ readerIndex_ b' = 14).
Proof.
  apply (append_grows_minimally (mk (replicate 24 NUL) 14 20) (bs "12345678")).
  - vm_compute. intuition discriminate.
  - vm_compute. discriminate.
Defined.

(** [shrink] keeps the contents.  For at most INT_MAX readable bytes (the
    length of a [StringPiece] is an [int]), [shrink(reserve)] leaves the same
    readable bytes in a fresh vector that starts at the cheap prepend and has
    at least [reserve] writable bytes. *)
Theorem shrink_keeps_contents b reserve :
  wf b -> zlen (contents b) <= INT_MAX -> 0 <= reserve <= 2 ^ 62 ->
  exists b', shrink b reserve = Ok b' /\ wf b' /\ contents b' = contents b /\
    reserve <= writableBytes b' /\
    zlen (buffer_ b') <= kCheapPrepend + kInitialSize + zlen (contents b) + reserve.
Proof.
  intros Hwf Hc Hr. unfold shrink, INT_MAX in *. pose proof (zlen_nonneg (contents b)) as Hn.
  destruct (new_wf kInitialSize) as (o & -> & Hwf0 & Hc0 & Hz0 & Hp0);
    [unfold kInitialSize; lia|unfold kCheapPrepend, kInitialSize, max_size; lia|].
  cbn [mbind outcome_bind]. unfold kCheapPrepend, kInitialSize in *.
  rewrite <- (contents_zlen b) by done. usimp.
  destruct (wf_layout o Hwf0) as (pre & post & Hl0). rewrite Hc0 in Hl0.
  pose proof (layout_bytes _ _ _ _ Hl0) as (_ & _ & Hpre & _). rewrite Hp0 in Hpre.
  pose proof (layout_size _ _ _ _ Hl0) as Hs0. rewrite zlen_nil in *.
  destruct (ensureWritableBytes_layout _ _ _ _ (zlen (contents b) + reserve) Hl0)
    as (o1 & pre1 & post1 & -> & Hl1 & Hp1 & Hz1); [lia|rewrite zlen_nil; unfold max_size; lia|].
  unfold toStringPiece. cbn [mbind outcome_bind].
  rewrite <- (contents_zlen b), i32_small by (done || unfold INT_MIN, INT_MAX; lia). usimp.
  pose proof (layout_size _ _ _ _ Hl1) as Hs1. rewrite zlen_nil in Hs1.
  destruct (append_at_fits o1 pre1 [] post1 (buffer_ b) (peek b) (contents b))
    as (b' & post' & -> & Hl' & Hz'); [done| |lia|].
  { unfold zlen. rewrite load_contents, take_ge by (done || lia). done. }
  exists b'. cbn. rewrite (layout_contents _ _ _ _ Hl').
  destruct (layout_bytes _ _ _ _ Hl') as (_ & -> & _). pose proof (layout_size _ _ _ _ Hl') as Hs'.
  rewrite zlen_nil in *. split_and!; [done|eapply layout_wf, Hl'|done| |]; simpl in *; lia.
Qed.

Lemma shrink_keeps_contents_witness :
  exists b', shrink (mk (replicate 8 NUL ++ bs "payload" ++ replicate 2000 NUL) 8 15) 100 = Ok b' /\
    wf b' /\ contents b' = bs "payload" /\ 100 <= writableBytes b' /\
    zlen (buffer_ b') <= kCheapPrepend + kInitialSize + 7 + 100.
Proof.
  apply (shrink_keeps_contents (mk (replicate 8 NUL ++ bs "payload" ++ replicate 2000 NUL) 8 15) 100).
  - vm_compute. intuition discriminate.
  - vm_compute. discriminate.
  - lia.
Defined.

End Buffer.
