(* ===== verification/Http.v ===== *)
(** * The HTTP server

    src/muduo/net/http: [Module HttpRequest], [Module HttpContext] (the
    incremental request parser), [Module HttpResponse] and [Module HttpServer].
    The connection is seen through the two calls the server makes on it,
    [send] and [shutdown]; the user's handler is a parameter. *)

From S2P Require Import Prelude NetBuffer.
From stdpp Require Import sorting.

Local Open Scope Z_scope.

Definition SP : byte := Init.Byte.x20.
Definition QUESTION : byte := Init.Byte.x3f.
Definition COLON : byte := Init.Byte.x3a.

(** [isspace] in the C locale. *)
Definition isspace (c : byte) : bool :=
  bool_decide (c ∈ [Init.Byte.x20; Init.Byte.x09; Init.Byte.x0a; Init.Byte.x0b;
                    Init.Byte.x0c; Init.Byte.x0d]).

Module HttpRequest.

Inductive Method := kInvalid | kGet | kPost | kHead | kPut | kDelete.
Inductive Version := kUnknown | kHttp10 | kHttp11.

#[global] Instance Method_eq_dec : EqDecision Method.
Proof. solve_decision. Defined.
#[global] Instance Version_eq_dec : EqDecision Version.
Proof. solve_decision. Defined.

Record t := mk {
  method_ : Method;
  version_ : Version;
  path_ : bytes;
  query_ : bytes;
  receiveTime_ : Z;
  headers_ : gmap bytes bytes;
}.

Definition new : t := mk kInvalid kUnknown [] [] 0 ∅.

Definition setVersion (r : t) (v : Version) : t :=
  mk (method_ r) v (path_ r) (query_ r) (receiveTime_ r) (headers_ r).

Definition with_method (r : t) (m : Method) : t :=
  mk m (version_ r) (path_ r) (query_ r) (receiveTime_ r) (headers_ r).

(** The method that a token names. *)
Definition method_of (m : bytes) : Method :=
  if decide (m = bs "GET") then kGet
  else if decide (m = bs "POST") then kPost
  else if decide (m = bs "HEAD") then kHead
  else if decide (m = bs "PUT") then kPut
  else if decide (m = bs "DELETE") then kDelete
  else kInvalid.

(** [bool setMethod(const char* start, const char* end)] *)
Definition setMethod (r : t) (m : bytes) : outcome (bool * t) :=
  _ ← assert (bool_decide (method_ r = kInvalid));
  let r' := with_method r (method_of m) in
  Ok (bool_decide (method_ r' <> kInvalid), r').

Definition methodString (r : t) : bytes :=
  match method_ r with
  | kGet => bs "GET"
  | kPost => bs "POST"
  | kHead => bs "HEAD"
  | kPut => bs "PUT"
  | kDelete => bs "DELETE"
  | kInvalid => bs "UNKNOWN"
  end.

Definition setPath (r : t) (p : bytes) : t :=
  mk (method_ r) (version_ r) p (query_ r) (receiveTime_ r) (headers_ r).
Definition setQuery (r : t) (q : bytes) : t :=
  mk (method_ r) (version_ r) (path_ r) q (receiveTime_ r) (headers_ r).
Definition setReceiveTime (r : t) (tm : Z) : t :=
  mk (method_ r) (version_ r) (path_ r) (query_ r) tm (headers_ r).

(** The two loops of [addHeader]: spaces after the colon, spaces at the end. *)
Fixpoint skip_spaces (l : bytes) : bytes :=
  match l with
  | c :: l' => if isspace c then skip_spaces l' else l
  | [] => []
  end.
Definition trim_end (l : bytes) : bytes := rev (skip_spaces (rev l)).

(** [addHeader(start, colon, end)] with [line] the bytes of [start, end) and
    [colon] an offset into it. *)
Definition addHeader (r : t) (line : bytes) (colon : nat) : t :=
  let field := take colon line in
  let value := trim_end (skip_spaces (drop (S colon) line)) in
  mk (method_ r) (version_ r) (path_ r) (query_ r) (receiveTime_ r)
     (<[field := value]> (headers_ r)).

Definition getHeader (r : t) (field : bytes) : bytes :=
  match headers_ r !! field with Some v => v | None => [] end.

Definition swap (r that : t) : t * t := (that, r).

End HttpRequest.

Module HttpContext.

Inductive HttpRequestParseState :=
  | kExpectRequestLine | kExpectHeaders | kExpectBody | kGotAll.

#[global] Instance state_eq_dec : EqDecision HttpRequestParseState.
Proof. solve_decision. Defined.

Record t := mk {
  state_ : HttpRequestParseState;
  request_ : HttpRequest.t;
}.

Definition new : t := mk kExpectRequestLine HttpRequest.new.

Definition gotAll (c : t) : bool := bool_decide (state_ c = kGotAll).

(** [void reset()] *)
Definition reset (c : t) : t :=
  mk kExpectRequestLine (fst (HttpRequest.swap (request_ c) HttpRequest.new)).

(** The tail of [processRequestLine] after the second space: "HTTP/1.x". *)
Definition processVersion (r : HttpRequest.t) (start : bytes) : bool * HttpRequest.t :=
  if bool_decide (length start = 8%nat) && bool_decide (take 7 start = bs "HTTP/1.") then
    if decide (start !! 7%nat = Some Init.Byte.x31) then (true, HttpRequest.setVersion r HttpRequest.kHttp11)
    else if decide (start !! 7%nat = Some Init.Byte.x30) then (true, HttpRequest.setVersion r HttpRequest.kHttp10)
    else (false, r)
  else (false, r).

(** The request target between the two spaces. *)
Definition processTarget (r : HttpRequest.t) (target : bytes) : HttpRequest.t :=
  let question := find_byte QUESTION target in
  if decide (question <> length target)
  then HttpRequest.setQuery (HttpRequest.setPath r (take question target)) (drop question target)
  else HttpRequest.setPath r target.

(** [bool processRequestLine(const char *begin, const char *end)] *)
Definition processRequestLine (r : HttpRequest.t) (line : bytes) : outcome (bool * HttpRequest.t) :=
  let space := find_byte SP line in
  if decide (space <> length line) then
    '(okMethod, r1) ← HttpRequest.setMethod r (take space line);
    if (okMethod : bool) then
      let rest := drop (S space) line in
      let space2 := find_byte SP rest in
      if decide (space2 <> length rest) then
        Ok (processVersion (processTarget r1 (take space2 rest)) (drop (S space2) rest))
      else Ok (false, r1)
    else Ok (false, r1)
  else Ok (false, r).

(** [bool parseRequest(Buffer *buf, Timestamp receiveTime)]: the result, the
    context and the buffer; [fuel] bounds the iterations of the loop. *)
Fixpoint parseRequest (fuel : nat) (c : t) (buf : Buffer.t) (receiveTime : Z)
    : outcome (bool * t * Buffer.t) :=
  match fuel with
  | O => Fault OutOfFuel
  | S fuel' =>
      match state_ c with
      | kExpectRequestLine =>
          found ← Buffer.findCRLF buf;
          match found with
          | Some crlf =>
              line ← load (Buffer.buffer_ buf) (Buffer.peek buf) (crlf - Buffer.peek buf);
              '(ok, r) ← processRequestLine (request_ c) line;
              if (ok : bool) then
                let r' := HttpRequest.setReceiveTime r receiveTime in
                buf' ← Buffer.retrieveUntil buf (crlf + 2);
                parseRequest fuel' (mk kExpectHeaders r') buf' receiveTime
              else Ok (false, mk (state_ c) r, buf)
          | None => Ok (true, c, buf)
          end
      | kExpectHeaders =>
          found ← Buffer.findCRLF buf;
          match found with
          | Some crlf =>
              line ← load (Buffer.buffer_ buf) (Buffer.peek buf) (crlf - Buffer.peek buf);
              let colon := find_byte COLON line in
              buf' ← Buffer.retrieveUntil buf (crlf + 2);
              if decide (colon <> length line) then
                parseRequest fuel' (mk kExpectHeaders (HttpRequest.addHeader (request_ c) line colon))
                  buf' receiveTime
              else Ok (true, mk kGotAll (request_ c), buf')
          | None => Ok (true, c, buf)
          end
      | kExpectBody | kGotAll => parseRequest fuel' c buf receiveTime
      end
  end.

(** One iteration per line of the buffer, and one that finds no line. *)
Definition parse_fuel (buf : Buffer.t) : nat := S (S (length (Buffer.contents buf))).
#[global] Arguments parse_fuel : simpl never.

End HttpContext.

(** [snprintf(buf, size, ...)] into a char array read back as a C string. *)
Definition snprintf (size : nat) (s : bytes) : bytes := take (size - 1) s.

Module HttpResponse.

(** [enum HttpStatusCode] with the values of the source. *)
Inductive HttpStatusCode := kUnknown | k200Ok | k301MovedPermanently | k400BadRequest | k404NotFound.

Definition code (s : HttpStatusCode) : Z :=
  match s with
  | kUnknown => 0 | k200Ok => 200 | k301MovedPermanently => 301
  | k400BadRequest => 400 | k404NotFound => 404
  end.

Record t := mk {
  headers_ : gmap bytes bytes;
  statusCode_ : HttpStatusCode;
  statusMessage_ : bytes;
  closeConnection_ : bool;
  body_ : bytes;
}.

Definition new (close : bool) : t := mk ∅ kUnknown [] close [].

Definition setStatusCode (r : t) (c : HttpStatusCode) : t :=
  mk (headers_ r) c (statusMessage_ r) (closeConnection_ r) (body_ r).
Definition setStatusMessage (r : t) (m : bytes) : t :=
  mk (headers_ r) (statusCode_ r) m (closeConnection_ r) (body_ r).
Definition setCloseConnection (r : t) (on : bool) : t :=
  mk (headers_ r) (statusCode_ r) (statusMessage_ r) on (body_ r).
Definition addHeader (r : t) (key value : bytes) : t :=
  mk (<[key := value]> (headers_ r)) (statusCode_ r) (statusMessage_ r) (closeConnection_ r) (body_ r).
Definition setContentType (r : t) (contentType : bytes) : t :=
  addHeader r (bs "Content-Type") contentType.
Definition setBody (r : t) (body : bytes) : t :=
  mk (headers_ r) (statusCode_ r) (statusMessage_ r) (closeConnection_ r) body.

(** The order of [std::map<string, string>]: bytes compared as unsigned. *)
Fixpoint bytes_le (a b : bytes) : bool :=
  match a, b with
  | [], _ => true
  | _ :: _, [] => false
  | x :: a', y :: b' =>
      let (m, n) := (Byte.to_N x, Byte.to_N y) in
      if N.ltb m n then true else if N.ltb n m then false else bytes_le a' b'
  end.
Definition key_le (a b : bytes * bytes) : Prop := bytes_le (fst a) (fst b) = true.
#[global] Instance key_le_dec : RelDecision key_le.
Proof. intros a b. unfold key_le. apply _. Defined.

(** Iteration over the headers. *)
Definition header_list (r : t) : list (bytes * bytes) :=
  merge_sort key_le (map_to_list (headers_ r)).

(** The calls [output->append(...)] in order. *)
Definition status_pieces (r : t) : list bytes :=
  [snprintf 32 (bs "HTTP/1.1 " ++ dec (code (statusCode_ r)) ++ bs " ");
   statusMessage_ r; Buffer.kCRLF] ++
  (if closeConnection_ r then [bs "Connection: close" ++ Buffer.kCRLF]
   else [snprintf 32 (bs "Content-Length: " ++ dec (zlen (body_ r)) ++ Buffer.kCRLF);
         bs "Connection: Keep-Alive" ++ Buffer.kCRLF]).
Definition header_pieces (h : bytes * bytes) : list bytes :=
  [fst h; bs ": "; snd h; Buffer.kCRLF].
Definition pieces (r : t) : list bytes :=
  status_pieces r ++ concat (map header_pieces (header_list r)) ++ [Buffer.kCRLF; body_ r].

(** [append(const StringPiece&)] of a string: its length goes through [int]. *)
Definition append_piece (b : Buffer.t) (s : bytes) : outcome Buffer.t :=
  Buffer.append_at b s 0 (u64 (i32 (zlen s))).

Fixpoint append_pieces (b : Buffer.t) (ps : list bytes) : outcome Buffer.t :=
  match ps with
  | [] => Ok b
  | p :: ps' => b' ← append_piece b p; append_pieces b' ps'
  end.

(** [void appendToBuffer(Buffer* output) const] *)
Definition appendToBuffer (r : t) (output : Buffer.t) : outcome Buffer.t :=
  append_pieces output (pieces r).

End HttpResponse.

Module HttpServer.

(** What the server asks of the connection. *)
Inductive action :=
  | Send (data : bytes)
  | Shutdown.

Definition HttpCallback : Type := HttpRequest.t -> HttpResponse.t -> HttpResponse.t.

Definition defaultHttpCallback : HttpCallback := fun _ resp =>
  HttpResponse.setCloseConnection
    (HttpResponse.setStatusMessage
       (HttpResponse.setStatusCode resp HttpResponse.k404NotFound) (bs "Not Found")) true.

Section Server.
Variable httpCallback_ : HttpCallback.

(** [void onConnection(conn)]: a fresh context when the connection is up. *)
Definition onConnection (connected : bool) (context : HttpContext.t) : HttpContext.t :=
  if connected then HttpContext.new else context.

Definition wants_close (req : HttpRequest.t) : bool :=
  let connection := HttpRequest.getHeader req (bs "Connection") in
  bool_decide (connection = bs "close") ||
  (bool_decide (HttpRequest.version_ req = HttpRequest.kHttp10) &&
   negb (bool_decide (connection = bs "Keep-Alive"))).

(** [void onRequest(conn, req)] *)
Definition onRequest (req : HttpRequest.t) : outcome (list action) :=
  let response := httpCallback_ req (HttpResponse.new (wants_close req)) in
  buf ← Buffer.new Buffer.kInitialSize;
  buf ← HttpResponse.appendToBuffer response buf;
  '(data, _) ← Buffer.retrieveAllAsString buf;
  Ok (Send data :: (if HttpResponse.closeConnection_ response then [Shutdown] else [])).

(** [void onMessage(conn, buf, receiveTime)] *)
Definition onMessage (context : HttpContext.t) (buf : Buffer.t) (receiveTime : Z)
    : outcome (list action * HttpContext.t * Buffer.t) :=
  '(ok, context, buf) ← HttpContext.parseRequest (HttpContext.parse_fuel buf) context buf receiveTime;
  let bad := if (ok : bool) then [] else [Send (bs "HTTP/1.1 400 Bad Request" ++ Buffer.kCRLF ++ Buffer.kCRLF); Shutdown] in
  if HttpContext.gotAll context then
    acts ← onRequest (HttpContext.request_ context);
    Ok (bad ++ acts, HttpContext.reset context, buf)
  else Ok (bad, context, buf).

End Server.
End HttpServer.

(** ** The parser on byte sequences *)

Module HttpParser.
Import HttpContext.

(** [parseRequest] with the buffer replaced by its readable bytes. *)
Fixpoint parse_bytes (fuel : nat) (c : t) (d : bytes) (tm : Z) : outcome (bool * t * bytes) :=
  match fuel with
  | O => Fault OutOfFuel
  | S fuel' =>
      match state_ c with
      | kExpectRequestLine =>
          match Buffer.split_crlf d with
          | Some (line, rest) =>
              '(ok, r) ← processRequestLine (request_ c) line;
              if (ok : bool)
              then parse_bytes fuel' (mk kExpectHeaders (HttpRequest.setReceiveTime r tm)) rest tm
              else Ok (false, mk (state_ c) r, d)
          | None => Ok (true, c, d)
          end
      | kExpectHeaders =>
          match Buffer.split_crlf d with
          | Some (line, rest) =>
              let colon := find_byte COLON line in
              if decide (colon <> length line)
              then parse_bytes fuel' (mk kExpectHeaders (HttpRequest.addHeader (request_ c) line colon)) rest tm
              else Ok (true, mk kGotAll (request_ c), rest)
          | None => Ok (true, c, d)
          end
      | kExpectBody | kGotAll => parse_bytes fuel' c d tm
      end
  end.

(** A context that [parseRequest] may be called on. *)
Definition ready (c : t) : Prop :=
  (state_ c = kExpectRequestLine /\ HttpRequest.method_ (request_ c) = HttpRequest.kInvalid) \/
  state_ c = kExpectHeaders.

(** A context up to the time stamp of the request. *)
Definition forget (c : t) : t := mk (state_ c) (HttpRequest.setReceiveTime (request_ c) 0).

(** A peer's data arriving in several reads: append, parse, until the parser
    reports an error or a complete request. *)
Fixpoint feed (c : t) (buf : Buffer.t) (chunks : list (bytes * Z))
    : outcome (bool * t * Buffer.t * list (bytes * Z)) :=
  match chunks with
  | [] => Ok (true, c, buf, [])
  | (d, tm) :: chunks' =>
      buf1 ← Buffer.append buf d;
      '(ok, c1, buf2) ← parseRequest (parse_fuel buf1) c buf1 tm;
      if negb ok || gotAll c1 then Ok (ok, c1, buf2, chunks')
      else feed c1 buf2 chunks'
  end.

(** Reading one line off the buffer. *)
Lemma take_line buf line rest :
  Buffer.wf buf -> Buffer.split_crlf (Buffer.contents buf) = Some (line, rest) ->
  load (Buffer.buffer_ buf) (Buffer.peek buf) (zlen line) = Ok line /\
  exists buf', Buffer.retrieveUntil buf (Buffer.peek buf + zlen line + 2) = Ok buf' /\
    Buffer.wf buf' /\ Buffer.contents buf' = rest.
Proof.
  intros Hwf Hs. pose proof (Buffer.split_crlf_search (Buffer.contents buf)) as H.
  rewrite Hs in H. destruct H as [Hc _].
  assert (length (Buffer.contents buf) = (length line + 2 + length rest)%nat) as Hlen.
  { rewrite Hc, !length_app. simpl. lia. }
  split.
  - unfold zlen. rewrite Buffer.load_contents, Hc, take_app_length by (done || lia). done.
  - destruct (Buffer.wf_layout buf Hwf) as (pre & post & Hl).
    pose proof (Buffer.layout_bytes _ _ _ _ Hl) as (_ & _ & _ & Hp & Hb & ? & ? & ? & ?).
    destruct (Buffer.retrieve_contents buf (length line + 2)) as (buf' & Hb' & Hwf' & Hc'); [done|lia|].
    exists buf'. unfold Buffer.retrieveUntil, Buffer.max_size in *.
    assert (zlen (Buffer.contents buf) = zlen line + 2 + zlen rest) by (unfold zlen; lia).
    pose proof (zlen_nonneg line). pose proof (zlen_nonneg rest).
    rewrite Hp, Hb, !assert_true by lia. simpl. usimp.
    replace (zlen pre + zlen line + 2 - zlen pre) with (Z.of_nat (length line + 2)) by (unfold zlen; lia).
    split_and!; [done|done|]. rewrite Hc', Hc.
    replace (length line + 2)%nat with (length (line ++ Buffer.kCRLF)) by (rewrite length_app; done).
    rewrite app_assoc. apply drop_app_length.
Qed.

Lemma parseRequest_bytes fuel c buf tm :
  Buffer.wf buf ->
  match parse_bytes fuel c (Buffer.contents buf) tm with
  | Ok (ok, c', rest) => exists buf', parseRequest fuel c buf tm = Ok (ok, c', buf') /\
      Buffer.wf buf' /\ Buffer.contents buf' = rest
  | Fault e => parseRequest fuel c buf tm = Fault e
  end.
Proof.
  revert c buf. induction fuel as [|fuel IH]; intros c buf Hwf; [done|].
  cbn [parse_bytes parseRequest].
  destruct (state_ c) eqn:Es; [| |by apply IH|by apply IH];
    rewrite Buffer.findCRLF_split by done; cbn [mbind outcome_bind];
    destruct (Buffer.split_crlf (Buffer.contents buf)) as [[line rest]|] eqn:El; try by exists buf.
  - destruct (take_line buf line rest Hwf El) as (Hload & buf' & Hret & Hwf' & Hc').
    replace (Buffer.peek buf + zlen line - Buffer.peek buf) with (zlen line) by lia.
    rewrite Hload. cbn [mbind outcome_bind].
    destruct (processRequestLine (request_ c) line) as [[[] r]|e]; cbn [mbind outcome_bind]; [|by exists buf|done].
    rewrite Hret. cbn [mbind outcome_bind]. rewrite <- Hc'. by apply IH.
  - destruct (take_line buf line rest Hwf El) as (Hload & buf' & Hret & Hwf' & Hc').
    replace (Buffer.peek buf + zlen line - Buffer.peek buf) with (zlen line) by lia.
    rewrite Hload. cbn [mbind outcome_bind]. rewrite Hret. cbn [mbind outcome_bind].
    case_decide; [rewrite <- Hc'; by apply IH|by exists buf'].
Qed.

Lemma setMethod_invalid r m :
  HttpRequest.method_ r = HttpRequest.kInvalid ->
  HttpRequest.setMethod r m =
  Ok (bool_decide (HttpRequest.method_of m <> HttpRequest.kInvalid),
      HttpRequest.with_method r (HttpRequest.method_of m)).
Proof. intros Hm. unfold HttpRequest.setMethod. by rewrite Hm. Qed.

Lemma processRequestLine_total r line :
  HttpRequest.method_ r = HttpRequest.kInvalid ->
  exists ok r', processRequestLine r line = Ok (ok, r').
Proof.
  intros Hm. unfold processRequestLine. case_decide; [|eauto].
  rewrite setMethod_invalid by done. cbn [mbind outcome_bind].
  destruct (bool_decide _); [|eauto]. case_decide; [|eauto]. destruct (processVersion _ _). eauto.
Qed.

(** Parsing returns, and says why it stopped: an error, a complete request,
    or no complete line left. *)
Lemma parse_bytes_total fuel c d tm :
  ready c -> (length d < fuel)%nat ->
  exists ok c' rest, parse_bytes fuel c d tm = Ok (ok, c', rest) /\
    ((ok = false /\ state_ c' = kExpectRequestLine) \/ (ok = true /\ state_ c' = kGotAll) \/
     (ok = true /\ ready c' /\ Buffer.split_crlf rest = None)).
Proof.
  revert c d. induction fuel as [|fuel IH]; intros c d Hr Hf; [lia|].
  cbn [parse_bytes]. destruct Hr as [[Hs Hm]|Hs]; rewrite Hs;
    destruct (Buffer.split_crlf d) as [[line rest]|] eqn:El.
  - destruct (processRequestLine_total _ line Hm) as (ok & r' & ->). simpl.
    apply Buffer.split_crlf_shorter in El.
    destruct ok; [|eexists _, _, _; split; [done|by left]].
    apply IH; [by right|lia].
  - eexists _, _, _. split; [done|]. right. right. split_and!; [done|by left|done].
  - apply Buffer.split_crlf_shorter in El. case_decide; [apply IH; [by right|lia]|].
    eexists _, _, _. split; [done|]. by right; left.
  - eexists _, _, _. split; [done|]. right. right. split_and!; [done|by right|done].
Qed.

(** More fuel than needed does not change the result. *)
Lemma parse_bytes_fuel fuel k c d tm r :
  parse_bytes fuel c d tm = Ok r -> parse_bytes (fuel + k) c d tm = Ok r.
Proof.
  revert c d. induction fuel as [|fuel IH]; intros c d; [done|]. cbn [parse_bytes Nat.add].
  destruct (state_ c); eauto; destruct (Buffer.split_crlf d) as [[line rest]|]; auto.
  - destruct (processRequestLine _ _) as [[[] ?]|]; simpl; auto.
  - case_decide; auto.
Qed.

Lemma parse_bytes_det f1 f2 c d tm r1 r2 :
  parse_bytes f1 c d tm = Ok r1 -> parse_bytes f2 c d tm = Ok r2 -> r1 = r2.
Proof.
  intros H1%(parse_bytes_fuel _ f2) H2%(parse_bytes_fuel _ f1).
  rewrite Nat.add_comm in H2. congruence.
Qed.

(** Data that arrives after a parse stopped: kept behind what is left over
    when the parse is over, parsed from where it stopped otherwise. *)
Lemma parse_bytes_app fuel c d tm ok c1 rest e :
  parse_bytes fuel c d tm = Ok (ok, c1, rest) ->
  (ok = false \/ state_ c1 = kGotAll -> parse_bytes fuel c (d ++ e) tm = Ok (ok, c1, rest ++ e)) /\
  (ok = true -> state_ c1 <> kGotAll -> forall f r,
     parse_bytes f c1 (rest ++ e) tm = Ok r -> parse_bytes (fuel + f) c (d ++ e) tm = Ok r).
Proof.
  revert c d. induction fuel as [|fuel IH]; intros c d; [done|].
  cbn [parse_bytes Nat.add]. destruct (state_ c) eqn:Es; [| |apply IH|apply IH];
    destruct (Buffer.split_crlf d) as [[line rest']|] eqn:El.
  - rewrite (Buffer.split_crlf_app_r _ _ _ e El).
    destruct (processRequestLine _ _) as [[[] ?]|]; simpl; [apply IH| |done].
    intros [= <- <- <-]. split; [done|]. by intros ?.
  - intros [= <- <- <-]. split; [intros [?|?]; congruence|].
    intros _ _ f r Hr. rewrite <- Es.
    apply (parse_bytes_fuel _ (S fuel)) in Hr. rewrite Nat.add_comm in Hr. cbn [parse_bytes Nat.add] in Hr.
    by rewrite Es in *.
  - rewrite (Buffer.split_crlf_app_r _ _ _ e El). case_decide; [apply IH|].
    intros [= <- <- <-]. done.
  - intros [= <- <- <-]. split; [intros [?|?]; congruence|].
    intros _ _ f r Hr.
    apply (parse_bytes_fuel _ (S fuel)) in Hr. rewrite Nat.add_comm in Hr. cbn [parse_bytes Nat.add] in Hr.
    by rewrite Es in *.
Qed.

(** Parsing commutes with forgetting the time stamp. *)
Lemma processRequestLine_time r line tm :
  processRequestLine (HttpRequest.setReceiveTime r tm) line =
  (fun '(ok, r') => (ok, HttpRequest.setReceiveTime r' tm)) <$> processRequestLine r line.
Proof.
  unfold processRequestLine, HttpRequest.setMethod, processTarget, processVersion.
  repeat first [case_decide|case_match|progress simpl in *]; try done.
Qed.

Lemma parse_bytes_forget fuel c d tm :
  (fun '(ok, c', rest) => (ok, forget c', rest)) <$> parse_bytes fuel c d tm =
  (fun '(ok, c', rest) => (ok, forget c', rest)) <$> parse_bytes fuel (forget c) d 0.
Proof.
  revert c d tm. induction fuel as [|fuel IH]; intros c d tm; [done|].
  cbn [parse_bytes]. change (state_ (forget c)) with (state_ c).
  destruct (state_ c); [| |apply IH|apply IH];
    destruct (Buffer.split_crlf d) as [[line rest]|]; try done.
  - cbn [forget request_]. rewrite processRequestLine_time.
    destruct (processRequestLine _ _) as [[[] ?]|]; simpl; [|done|done].
    rewrite (IH _ _ tm), (IH _ _ 0). done.
  - case_decide; [|done]. rewrite (IH _ _ tm), (IH _ _ 0). done.
Qed.

Lemma parse_bytes_same f c1 c2 d t1 t2 ok c1' rest :
  forget c1 = forget c2 -> parse_bytes f c1 d t1 = Ok (ok, c1', rest) ->
  exists c2', parse_bytes f c2 d t2 = Ok (ok, c2', rest) /\ forget c1' = forget c2'.
Proof.
  intros Hc H. pose proof (parse_bytes_forget f c1 d t1) as H1.
  rewrite Hc, <- (parse_bytes_forget f c2 d t2), H in H1.
  destruct (parse_bytes f c2 d t2) as [[[ok2 c2'] rest2]|]; [|done]. cbn in H1.
  assert ((ok, forget c1', rest) = (ok2, forget c2', rest2)) as E by congruence.
  exists c2'. pose proof (f_equal (fun x => x.1.1) E) as E1.
  pose proof (f_equal (fun x => x.1.2) E) as E2. pose proof (f_equal snd E) as E3.
  cbn in E1, E2, E3. by subst.
Qed.

(** Parsing never reallocates the buffer. *)
Lemma parseRequest_buffer fuel c buf tm ok c' buf' :
  parseRequest fuel c buf tm = Ok (ok, c', buf') -> Buffer.buffer_ buf' = Buffer.buffer_ buf.
Proof.
  assert (forall b p b', Buffer.retrieveUntil b p = Ok b' -> Buffer.buffer_ b' = Buffer.buffer_ b) as Hru.
  { intros b p b' H. unfold Buffer.retrieveUntil in H. inv_ok H. by eapply Buffer.retrieve_buffer. }
  revert c buf. induction fuel as [|fuel IH]; intros c buf; [done|]. cbn [parseRequest].
  destruct (state_ c); [| |apply IH|apply IH]; intros H; apply bind_Ok in H as ([p|] & _ & H);
    try (injection H as <- <- <-; done); apply bind_Ok in H as (line & _ & H).
  - apply bind_Ok in H as ([[] r] & _ & H); [|by injection H as <- <- <-].
    apply bind_Ok in H as (b1 & Hb1%Hru & H). apply IH in H. congruence.
  - apply bind_Ok in H as (b1 & Hb1%Hru & H). case_decide; [apply IH in H; congruence|].
    by injection H as <- <- <-.
Qed.

(** A parse that runs on the buffer returns and refines the parse of its bytes. *)
Lemma parseRequest_total c buf tm :
  Buffer.wf buf -> ready c ->
  exists ok c' buf', parseRequest (parse_fuel buf) c buf tm = Ok (ok, c', buf') /\
    Buffer.wf buf' /\ Buffer.buffer_ buf' = Buffer.buffer_ buf /\
    parse_bytes (parse_fuel buf) c (Buffer.contents buf) tm = Ok (ok, c', Buffer.contents buf') /\
    ((ok = false /\ state_ c' = kExpectRequestLine) \/ (ok = true /\ state_ c' = kGotAll) \/
     (ok = true /\ ready c' /\ Buffer.split_crlf (Buffer.contents buf') = None)).
Proof.
  intros Hwf Hr.
  destruct (parse_bytes_total (parse_fuel buf) c (Buffer.contents buf) tm) as (ok & c' & rest & Hp & Hk);
    [done|unfold parse_fuel; lia|].
  pose proof (parseRequest_bytes (parse_fuel buf) c buf tm Hwf) as H. rewrite Hp in H.
  destruct H as (buf' & Hb & Hwf' & <-).
  exists ok, c', buf'. split_and!; try done. by eapply parseRequest_buffer.
Qed.

Definition total_size (chunks : list (bytes * Z)) : Z := zlen (concat (map fst chunks)).

Lemma feed_parse c buf chunks tm :
  ready c -> Buffer.wf buf -> Buffer.split_crlf (Buffer.contents buf) = None ->
  zlen (Buffer.buffer_ buf) + total_size chunks <= Buffer.max_size ->
  exists ok c1 c2 buf' left fuel,
    feed c buf chunks = Ok (ok, c1, buf', left) /\
    parse_bytes fuel c (Buffer.contents buf ++ concat (map fst chunks)) tm =
      Ok (ok, c2, Buffer.contents buf' ++ concat (map fst left)) /\
    forget c1 = forget c2.
Proof.
  revert c buf. induction chunks as [|[d t1] chunks IH]; intros c buf Hr Hwf Hs Hm; cbn [feed].
  - exists true, c, c, buf, [], 1%nat. split_and!; [done| |done]. simpl. rewrite app_nil_r.
    destruct Hr as [[-> _]| ->]; by rewrite Hs.
  - unfold total_size in *. cbn [map concat fst] in *. rewrite zlen_app in Hm.
    pose proof (zlen_nonneg (concat (map fst chunks))).
    destruct (Buffer.append_contents buf d) as (buf1 & -> & Hwf1 & Hc1 & Hz1); [done|lia|].
    cbn [mbind outcome_bind].
    destruct (parseRequest_total c buf1 t1 Hwf1 Hr) as (ok & c1 & buf2 & -> & Hwf2 & Hb2 & Hp & Hk).
    cbn [mbind outcome_bind].
    set (F := parse_fuel buf1) in *. clearbody F.
    destruct (parse_bytes_same F c c _ t1 tm _ _ _ eq_refl Hp) as (c2 & Hp2 & Hfc).
    assert (state_ c2 = state_ c1) as Hst by exact (f_equal state_ (eq_sym Hfc)).
    rewrite app_assoc, <- Hc1.
    pose proof (parse_bytes_app F c _ tm ok c2 _ (concat (map fst chunks)) Hp2) as [Ha Hb].
    destruct Hk as [[-> Hk]|[[-> Hk]|(-> & Hk & Hn)]].
    + exists false, c1, c2, buf2, chunks, F. rewrite Ha by auto. done.
    + exists true, c1, c2, buf2, chunks, F. unfold gotAll. rewrite Hk.
      rewrite Ha by (right; congruence). done.
    + assert (state_ c1 <> kGotAll) as Hng by (destruct Hk as [[-> _]| ->]; done).
      unfold gotAll. rewrite bool_decide_eq_false_2 by done. simpl.
      destruct (IH c1 buf2) as (ok & c3 & c4 & buf' & left & fuel & Hfe & Hpa & Hfo);
        [done|done|done|rewrite Hb2; lia|].
      destruct (parse_bytes_same fuel c1 c2 _ tm tm _ _ _ Hfc Hpa) as (c5 & Hp5 & Hfo2).
      apply Hb in Hp5; [|done|congruence].
      exists ok, c3, c5, buf', left, (F + fuel)%nat. split_and!; [done|done|congruence].
Qed.

(** C16: Parsing does not depend on how the bytes arrive.  Feeding a fresh
    context from a connection's buffer one read at a time (each read appended
    and parsed, until the parser reports an error or a complete request) ends
    with the same verdict, the same request up to its time stamp, and the same
    unparsed bytes as parsing everything at once. *)
Theorem feed_chunks_independent buf chunks tm :
  Buffer.wf buf -> Buffer.contents buf = [] ->
  zlen (Buffer.buffer_ buf) + total_size chunks <= Buffer.max_size ->
  exists ok c1 c2 buf1 whole buf2 unread,
    feed HttpContext.new buf chunks = Ok (ok, c1, buf1, unread) /\
    Buffer.append buf (concat (map fst chunks)) = Ok whole /\
    parseRequest (parse_fuel whole) HttpContext.new whole tm = Ok (ok, c2, buf2) /\
    forget c1 = forget c2 /\
    Buffer.contents buf2 = Buffer.contents buf1 ++ concat (map fst unread).
Proof.
  intros Hwf Hc Hm.
  destruct (feed_parse HttpContext.new buf chunks tm) as (ok & c1 & c2 & buf1 & unread & fuel & Hf & Hp & Hfo);
    [by left|done|by rewrite Hc|done|].
  destruct (Buffer.append_contents buf (concat (map fst chunks)) Hwf Hm) as (whole & Ha & Hwfw & Hcw & _).
  destruct (parseRequest_total HttpContext.new whole tm Hwfw) as (ok' & c2' & buf2 & Hpr & _ & _ & Hpb & _);
    [by left|].
  rewrite Hcw in Hpb. pose proof (parse_bytes_det _ _ _ _ _ _ _ Hp Hpb) as E.
  pose proof (f_equal snd E) as E1. pose proof (f_equal (fun x => x.1.1) E) as E2.
  pose proof (f_equal (fun x => x.1.2) E) as E3. cbn in E1, E2, E3. subst ok' c2'.
  exists ok, c1, c2, buf1, whole, buf2, unread. by split_and!.
Qed.

Lemma feed_chunks_independent_witness :
  let buf := Buffer.mk (replicate 8 NUL) 8 8 in
  let chunks := [(bs "GET /a?b HT", 1); (bs "TP/1.1" ++ [CR], 2); ([LF] ++ bs "A: b", 3);
                 (Buffer.kCRLF ++ Buffer.kCRLF ++ bs "next", 4)] in
  exists ok c1 c2 buf1 whole buf2 unread,
    feed HttpContext.new buf chunks = Ok (ok, c1, buf1, unread) /\
    Buffer.append buf (concat (map fst chunks)) = Ok whole /\
    parseRequest (parse_fuel whole) HttpContext.new whole 4 = Ok (ok, c2, buf2) /\
    forget c1 = forget c2 /\
    Buffer.contents buf2 = Buffer.contents buf1 ++ concat (map fst unread).
Proof.
  apply feed_chunks_independent.
  - vm_compute. intuition discriminate.
  - reflexivity.
  - vm_compute. discriminate.
Defined.

(** C17: The parser's loop.  In the states the server calls it in it returns
    without a failed assertion, having stopped at a bad request line, at the
    end of the headers, or at the last complete line; it keeps the buffer well
    formed. *)
Theorem parseRequest_returns c buf tm :
  Buffer.wf buf -> ready c ->
  exists ok c' buf', parseRequest (parse_fuel buf) c buf tm = Ok (ok, c', buf') /\
    Buffer.wf buf' /\
    (exists consumed, Buffer.contents buf = consumed ++ Buffer.contents buf') /\
    ((ok = false /\ state_ c' = kExpectRequestLine) \/ (ok = true /\ state_ c' = kGotAll) \/
     (ok = true /\ ready c' /\ ~ Buffer.has_crlf (Buffer.contents buf'))).
Proof.
  intros Hwf Hr. destruct (parseRequest_total c buf tm Hwf Hr) as (ok & c' & buf' & Hp & Hwf' & _ & Hb & Hk).
  exists ok, c', buf'. rewrite <- Buffer.split_crlf_None. split_and!; try done.
  revert Hb. generalize (parse_fuel buf) (Buffer.contents buf) (Buffer.contents buf').
  clear. intros f d rest. revert c d. induction f as [|f IH]; intros c d; [done|]. cbn [parse_bytes].
  pose proof (Buffer.split_crlf_search d) as Hs.
  destruct (state_ c); [| |apply IH|apply IH]; destruct (Buffer.split_crlf d) as [[line r]|];
    try (intros [= <- <- <-]; by exists []).
  - destruct Hs as [-> _]. destruct (processRequestLine _ _) as [[[] ?]|]; cbn; [|by intros [= <- <- <-]; exists []|done].
    intros (k & ->)%IH. exists (line ++ Buffer.kCRLF ++ k). by rewrite <- !app_assoc.
  - destruct Hs as [-> _]. case_decide.
    + intros (k & ->)%IH. exists (line ++ Buffer.kCRLF ++ k). by rewrite <- !app_assoc.
    + intros [= <- <- <-]. exists (line ++ Buffer.kCRLF). by rewrite <- app_assoc.
Qed.

Lemma parseRequest_returns_witness :
  let buf := Buffer.mk (replicate 8 NUL ++ bs "GET / HTTP/1.1" ++ Buffer.kCRLF ++ bs "Ho") 8 26 in
  exists ok c' buf', parseRequest (parse_fuel buf) HttpContext.new buf 7 = Ok (ok, c', buf') /\
    Buffer.wf buf' /\
    (exists consumed, Buffer.contents buf = consumed ++ Buffer.contents buf') /\
    ((ok = false /\ state_ c' = kExpectRequestLine) \/ (ok = true /\ state_ c' = kGotAll) \/
     (ok = true /\ ready c' /\ ~ Buffer.has_crlf (Buffer.contents buf'))).
Proof.
  apply parseRequest_returns; [vm_compute; intuition discriminate|by left].
Defined.

(** The parser must not be re-entered after a complete request: in the
    states [kGotAll] and [kExpectBody] no iteration of the loop of
    [parseRequest] changes anything, so the call never returns. *)
Theorem parseRequest_spins fuel c buf tm :
  state_ c = kGotAll \/ state_ c = kExpectBody ->
  parseRequest fuel c buf tm = Fault OutOfFuel.
Proof.
  intros Hs. induction fuel as [|fuel IH]; [done|]. cbn [parseRequest].
  destruct Hs as [-> | ->]; exact IH.
Qed.

Lemma parseRequest_spins_witness :
  parseRequest 1000 (mk kGotAll HttpRequest.new) (Buffer.mk (replicate 8 NUL) 8 8) 0 = Fault OutOfFuel.
Proof. apply parseRequest_spins. left. reflexivity. Defined.

End HttpParser.

(** ** Requests and responses as text *)

Module HttpText.
Import HttpContext HttpParser.

Definition method_text (m : HttpRequest.Method) : bytes :=
  HttpRequest.methodString (HttpRequest.with_method HttpRequest.new m).

Definition version_text (v : HttpRequest.Version) : bytes :=
  match v with HttpRequest.kHttp10 => bs "HTTP/1.0" | _ => bs "HTTP/1.1" end.

Definition header_line (h : bytes * bytes) : bytes :=
  fst h ++ bs ": " ++ snd h ++ Buffer.kCRLF.

(** A request as a client writes it. *)
Definition render (m : HttpRequest.Method) (v : HttpRequest.Version) (path query : bytes)
    (hs : list (bytes * bytes)) : bytes :=
  (method_text m ++ [SP] ++ path ++ query ++ [SP] ++ version_text v) ++ Buffer.kCRLF ++
  concat (map header_line hs) ++ Buffer.kCRLF.

(** A request line whose parts are separated as the grammar says. *)
Definition good_target (path query : bytes) : Prop :=
  (SP ∉ path) /\ (QUESTION ∉ path) /\ (CR ∉ path) /\ (SP ∉ query) /\ (CR ∉ query) /\
  (query = [] \/ head query = Some QUESTION).

(** A header field name without a colon and a trimmed value. *)
Definition good_header (h : bytes * bytes) : Prop :=
  (COLON ∉ fst h) /\ (CR ∉ fst h) /\ (CR ∉ snd h) /\
  (forall c, head (snd h) = Some c -> isspace c = false) /\
  (forall c, last (snd h) = Some c -> isspace c = false).

Definition add_headers (hs : list (bytes * bytes)) (m : gmap bytes bytes) : gmap bytes bytes :=
  foldl (fun m h => <[fst h := snd h]> m) m hs.

Lemma no_crlf_without_cr l : CR ∉ l -> ~ Buffer.has_crlf (l ++ [CR]).
Proof.
  revert l. induction l as [|x l IH]; intros Hn (a & c & E).
  - destruct a as [|? [|? ?]]; discriminate E.
  - apply not_elem_of_cons in Hn as [Hx Hn].
    destruct a as [|y a]; injection E as -> E; [done|].
    apply IH; [done|]. by exists a, c.
Qed.

Lemma skip_spaces_id l :
  (forall c, head l = Some c -> isspace c = false) -> HttpRequest.skip_spaces l = l.
Proof. destruct l as [|c l]; [done|]. intros H. simpl. by rewrite (H c). Qed.

Lemma trim_end_id l :
  (forall c, last l = Some c -> isspace c = false) -> HttpRequest.trim_end l = l.
Proof.
  intros H. unfold HttpRequest.trim_end. rewrite skip_spaces_id; [apply rev_involutive|].
  intros c Hc. apply H. rewrite <- head_reverse. unfold reverse. by rewrite <- rev_alt.
Qed.

Lemma find_byte_ne_length c l k : c ∉ l -> find_byte c (l ++ c :: k) <> length (l ++ c :: k).
Proof. intros H. rewrite find_byte_app_r, length_app by done. simpl. lia. Qed.

Lemma version_parsed r v :
  v <> HttpRequest.kUnknown -> processVersion r (version_text v) = (true, HttpRequest.setVersion r v).
Proof. by destruct v. Qed.

Lemma target_parsed r path query :
  good_target path query ->
  processTarget r (path ++ query) = HttpRequest.setQuery (HttpRequest.setPath r path)
     (if decide (query = []) then HttpRequest.query_ r else query).
Proof.
  intros (_ & Hq & _ & _ & _ & Hcase). unfold processTarget. destruct Hcase as [->|Hh].
  - rewrite app_nil_r, find_byte_not_in by done.
    rewrite decide_False, decide_True by (done || intros H; by apply H). by destruct r.
  - destruct query as [|c query]; [done|]. injection Hh as ->.
    rewrite decide_True by (by apply find_byte_ne_length).
    rewrite find_byte_app_r, take_app_length, drop_app_length by done. done.
Qed.

Lemma not_elem_method m : (SP ∉ method_text m) /\ (CR ∉ method_text m).
Proof. destruct m; split; apply (bool_decide_unpack _); by vm_compute. Qed.

Lemma request_line_parsed m v path query :
  m <> HttpRequest.kInvalid -> v <> HttpRequest.kUnknown -> good_target path query ->
  processRequestLine HttpRequest.new (method_text m ++ SP :: path ++ query ++ SP :: version_text v) =
  Ok (true, HttpRequest.mk m v path query 0 ∅).
Proof.
  intros Hm Hv Hg. pose proof (not_elem_method m) as [Hsp _]. unfold processRequestLine.
  assert (HttpRequest.method_of (method_text m) = m) as Emt by (by destruct m).
  rewrite decide_True by (by apply find_byte_ne_length).
  rewrite find_byte_app_r, take_app_length, setMethod_invalid, Emt by done.
  rewrite bool_decide_eq_true_2 by done. cbn [mbind outcome_bind].
  rewrite <- Nat.add_1_r, <- drop_drop, drop_app_length. cbn [drop].
  assert (SP ∉ path ++ query) as Hsp2 by (destruct Hg as (? & _ & _ & ? & _); set_solver).
  rewrite app_assoc, decide_True by (by apply find_byte_ne_length).
  rewrite !drop_0, find_byte_app_r, take_app_length, <- Nat.add_1_r, <- drop_drop, drop_app_length by done.
  cbn [drop]. rewrite ?drop_0, target_parsed, version_parsed by done. case_decide; by subst.
Qed.

Lemma header_parsed r h :
  good_header h ->
  find_byte COLON (fst h ++ bs ": " ++ snd h) <> length (fst h ++ bs ": " ++ snd h) /\
  HttpRequest.addHeader r (fst h ++ bs ": " ++ snd h) (find_byte COLON (fst h ++ bs ": " ++ snd h)) =
  HttpRequest.mk (HttpRequest.method_ r) (HttpRequest.version_ r) (HttpRequest.path_ r)
    (HttpRequest.query_ r) (HttpRequest.receiveTime_ r) (<[fst h := snd h]> (HttpRequest.headers_ r)).
Proof.
  destruct h as [field value]. intros (Hc & _ & _ & Hhd & Hlst). cbn [fst snd] in *.
  change (bs ": " ++ value) with (COLON :: SP :: value). split; [by apply find_byte_ne_length|].
  unfold HttpRequest.addHeader. rewrite find_byte_app_r, take_app_length by done.
  rewrite <- Nat.add_1_r, <- drop_drop, drop_app_length. cbn [drop].
  rewrite ?drop_0. change (HttpRequest.skip_spaces (SP :: value)) with (HttpRequest.skip_spaces value).
  by rewrite skip_spaces_id, trim_end_id.
Qed.

Lemma parse_bytes_headers f r d tm :
  parse_bytes (S f) (mk kExpectHeaders r) d tm =
  match Buffer.split_crlf d with
  | Some (line, rest) =>
      let colon := find_byte COLON line in
      if decide (colon <> length line)
      then parse_bytes f (mk kExpectHeaders (HttpRequest.addHeader r line colon)) rest tm
      else Ok (true, mk kGotAll r, rest)
  | None => Ok (true, mk kExpectHeaders r, d)
  end.
Proof. done. Qed.

Lemma headers_parsed hs r rest tm :
  Forall good_header hs ->
  parse_bytes (S (length hs)) (mk kExpectHeaders r) (concat (map header_line hs) ++ Buffer.kCRLF ++ rest) tm =
  Ok (true, mk kGotAll (HttpRequest.mk (HttpRequest.method_ r) (HttpRequest.version_ r) (HttpRequest.path_ r)
       (HttpRequest.query_ r) (HttpRequest.receiveTime_ r) (add_headers hs (HttpRequest.headers_ r))), rest).
Proof.
  revert r. induction hs as [|h hs IH]; intros r Hg; [by destruct r|].
  apply Forall_cons_1 in Hg as [Hh Hg]. destruct (header_parsed r h Hh) as [Hcol Hadd].
  cbn [map concat length]. unfold header_line at 1.
  replace (((fst h ++ bs ": " ++ snd h ++ Buffer.kCRLF) ++ concat (map header_line hs)) ++ Buffer.kCRLF ++ rest)
    with ((fst h ++ bs ": " ++ snd h) ++ Buffer.kCRLF ++ (concat (map header_line hs) ++ Buffer.kCRLF ++ rest))
    by (by rewrite <- !app_assoc).
  rewrite parse_bytes_headers, Buffer.split_crlf_app.
  - cbv zeta. rewrite decide_True, Hadd by done. by rewrite IH.
  - apply no_crlf_without_cr. destruct Hh as (_ & ? & ? & _).
    assert (CR ∉ bs ": ") by (apply (bool_decide_unpack _); by vm_compute). set_solver.
Qed.

Lemma render_parsed m v path query hs rest tm :
  m <> HttpRequest.kInvalid -> v <> HttpRequest.kUnknown -> good_target path query ->
  Forall good_header hs ->
  parse_bytes (S (S (length hs))) HttpContext.new (render m v path query hs ++ rest) tm =
  Ok (true, mk kGotAll (HttpRequest.mk m v path query tm (add_headers hs ∅)), rest).
Proof.
  intros Hm Hv Hg Hh.
  set (line := method_text m ++ SP :: path ++ query ++ SP :: version_text v).
  set (tl := concat (map header_line hs) ++ Buffer.kCRLF ++ rest).
  assert (render m v path query hs ++ rest = line ++ Buffer.kCRLF ++ tl) as ->.
  { unfold render, tl. change (method_text m ++ [SP] ++ _) with line. by rewrite <- !(app_assoc line), <- !app_assoc. }
  change (parse_bytes (S (S (length hs))) HttpContext.new ?d tm) with
    (match Buffer.split_crlf d with
     | Some (line, rest0) =>
         '(ok, r) ← processRequestLine HttpRequest.new line;
         if (ok : bool)
         then parse_bytes (S (length hs)) (mk kExpectHeaders (HttpRequest.setReceiveTime r tm)) rest0 tm
         else Ok (false, mk kExpectRequestLine r, d)
     | None => Ok (true, HttpContext.new, d)
     end).
  rewrite Buffer.split_crlf_app.
  - unfold line. rewrite request_line_parsed by done. cbn [mbind outcome_bind]. subst tl.
    by rewrite headers_parsed.
  - apply no_crlf_without_cr. destruct Hg as (_ & _ & Hp & _ & Hq & _).
    pose proof (not_elem_method m) as [_ ?].
    assert (CR ∉ version_text v) by (destruct v; apply (bool_decide_unpack _); by vm_compute).
    assert (CR <> SP) by done. set_solver.
Qed.

(** C32: Requests round-trip.  A request written as
    "METHOD path[?query] HTTP/1.x CRLF (field: value CRLF)* CRLF" with a known
    method, parts free of the separators and trimmed header values parses, from a
    fresh context, to exactly that method, version, path, query and headers (a
    repeated field keeps its last value); the bytes that follow stay in the buffer. *)
Theorem request_round_trip m v path query hs rest tm buf :
  m <> HttpRequest.kInvalid -> v <> HttpRequest.kUnknown -> good_target path query ->
  Forall good_header hs ->
  Buffer.wf buf -> Buffer.contents buf = render m v path query hs ++ rest ->
  exists buf', parseRequest (parse_fuel buf) HttpContext.new buf tm =
    Ok (true, mk kGotAll (HttpRequest.mk m v path query tm (add_headers hs ∅)), buf') /\
    Buffer.wf buf' /\ Buffer.contents buf' = rest.
Proof.
  intros Hm Hv Hg Hh Hwf Hc.
  pose proof (render_parsed m v path query hs rest tm Hm Hv Hg Hh) as Hp.
  destruct (parseRequest_total HttpContext.new buf tm Hwf) as (ok & c' & buf' & Hpr & Hwf' & _ & Hb & _); [by left|].
  rewrite Hc in Hb. pose proof (parse_bytes_det _ _ _ _ _ _ _ Hp Hb) as E.
  pose proof (f_equal snd E) as E1. pose proof (f_equal (fun x => x.1.1) E) as E2.
  pose proof (f_equal (fun x => x.1.2) E) as E3. cbn in E1, E2, E3. subst ok c'.
  by exists buf'.
Qed.

Lemma request_round_trip_witness :
  let buf := Buffer.mk (replicate 8 NUL ++
    render HttpRequest.kGet HttpRequest.kHttp11 (bs "/index.html") (bs "?a=1") [(bs "Host", bs "www.chenshuo.com")]
    ++ bs "tail") 8 68 in
  exists buf', parseRequest (parse_fuel buf) HttpContext.new buf 5 =
    Ok (true, mk kGotAll (HttpRequest.mk HttpRequest.kGet HttpRequest.kHttp11 (bs "/index.html") (bs "?a=1") 5
         (add_headers [(bs "Host", bs "www.chenshuo.com")] ∅)), buf') /\
    Buffer.wf buf' /\ Buffer.contents buf' = bs "tail".
Proof.
  apply request_round_trip; try discriminate.
  - unfold good_target. split_and!; try (apply (bool_decide_unpack _); by vm_compute).
  - constructor; [|constructor].
    split_and!; try (apply (bool_decide_unpack _); by vm_compute); by intros c [= <-].
  - vm_compute. intuition discriminate.
  - reflexivity.
Defined.

End HttpText.

(** ** Responses and the server *)

Module HttpServerFacts.
Import HttpContext HttpParser HttpServer.

(** A response small enough for the [int] lengths of [StringPiece]. *)
Definition fits (r : HttpResponse.t) : Prop :=
  Forall (fun p => zlen p <= INT_MAX) (HttpResponse.pieces r) /\
  zlen (concat (HttpResponse.pieces r)) <= 2 ^ 61.

Lemma append_piece_append b p :
  zlen p <= INT_MAX -> HttpResponse.append_piece b p = Buffer.append b p.
Proof.
  intros H. pose proof (zlen_nonneg p). unfold HttpResponse.append_piece, Buffer.append.
  rewrite i32_small by (unfold INT_MIN, INT_MAX in *; lia).
  rewrite u64_small by (unfold INT_MAX in *; lia). done.
Qed.

Lemma append_pieces_contents ps b :
  Forall (fun p => zlen p <= INT_MAX) ps -> Buffer.wf b ->
  zlen (Buffer.buffer_ b) + zlen (concat ps) <= Buffer.max_size ->
  exists b', HttpResponse.append_pieces b ps = Ok b' /\ Buffer.wf b' /\
    Buffer.contents b' = Buffer.contents b ++ concat ps.
Proof.
  revert b. induction ps as [|p ps IH]; intros b Hp Hwf Hm.
  - exists b. by rewrite app_nil_r.
  - apply Forall_cons_1 in Hp as [Hp Hps]. cbn [concat HttpResponse.append_pieces] in *.
    rewrite zlen_app in Hm. pose proof (zlen_nonneg (concat ps)).
    rewrite append_piece_append by done.
    destruct (Buffer.append_contents b p) as (b1 & -> & Hwf1 & Hc1 & Hz1); [done|lia|].
    cbn [mbind outcome_bind]. destruct (IH b1) as (b' & -> & Hwf' & Hc'); [done|done|lia|].
    exists b'. rewrite Hc', Hc1, app_assoc. done.
Qed.

Lemma pieces_concat r :
  concat (HttpResponse.pieces r) =
  concat (HttpResponse.status_pieces r) ++
  concat (map HttpText.header_line (HttpResponse.header_list r)) ++ Buffer.kCRLF ++ HttpResponse.body_ r.
Proof.
  unfold HttpResponse.pieces. rewrite !concat_app. do 2 f_equal; [|cbn; by rewrite app_nil_r].
  induction (HttpResponse.header_list r) as [|h hs IH]; [done|].
  cbn [map concat]. rewrite concat_app, IH. by f_equal.
Qed.

#[local] Instance key_le_total : Total HttpResponse.key_le.
Proof.
  intros [a va] [b vb]. unfold HttpResponse.key_le. cbn [fst].
  revert b. induction a as [|x a IH]; intros [|y b]; cbn; auto.
  destruct (N.ltb_spec (Byte.to_N x) (Byte.to_N y)), (N.ltb_spec (Byte.to_N y) (Byte.to_N x)); auto.
Qed.

Lemma snprintf_short n s : (length s < n)%nat -> snprintf n s = s.
Proof. intros H. unfold snprintf. apply take_ge. lia. Qed.

Lemma status_pieces_text r :
  zlen (HttpResponse.body_ r) < 10 ^ 13 ->
  concat (HttpResponse.status_pieces r) =
  (bs "HTTP/1.1 " ++ dec (HttpResponse.code (HttpResponse.statusCode_ r)) ++ bs " " ++
   HttpResponse.statusMessage_ r ++ Buffer.kCRLF) ++
  (if HttpResponse.closeConnection_ r then bs "Connection: close" ++ Buffer.kCRLF
   else (bs "Content-Length: " ++ dec (zlen (HttpResponse.body_ r)) ++ Buffer.kCRLF) ++
        bs "Connection: Keep-Alive" ++ Buffer.kCRLF).
Proof.
  intros Hb. unfold HttpResponse.status_pieces. rewrite concat_app. f_equal.
  - rewrite snprintf_short by (by destruct (HttpResponse.statusCode_ r); vm_compute; lia).
    cbn [concat]. by rewrite app_nil_r, <- !app_assoc.
  - destruct (HttpResponse.closeConnection_ r); [done|].
    rewrite snprintf_short; [done|]. rewrite !length_app.
    pose proof (dec_length (zlen (HttpResponse.body_ r)) 13 (zlen_nonneg _) ltac:(lia) Hb).
    change (length (bs "Content-Length: ")) with 16%nat. change (length Buffer.kCRLF) with 2%nat. lia.
Qed.

(** The response on the wire.  [appendToBuffer] appends the status line,
    "Connection: close" or else the exact Content-Length with "Connection:
    Keep-Alive", every header of the response once and in key order as
    "key: value", an empty line and the body. *)
Theorem appendToBuffer_format r b :
  fits r -> zlen (HttpResponse.body_ r) < 10 ^ 13 ->
  Buffer.wf b -> zlen (Buffer.buffer_ b) <= 2 ^ 62 ->
  exists b', HttpResponse.appendToBuffer r b = Ok b' /\ Buffer.wf b' /\
    Buffer.contents b' = Buffer.contents b ++
      (bs "HTTP/1.1 " ++ dec (HttpResponse.code (HttpResponse.statusCode_ r)) ++ bs " " ++
       HttpResponse.statusMessage_ r ++ Buffer.kCRLF) ++
      (if HttpResponse.closeConnection_ r then bs "Connection: close" ++ Buffer.kCRLF
       else (bs "Content-Length: " ++ dec (zlen (HttpResponse.body_ r)) ++ Buffer.kCRLF) ++
            bs "Connection: Keep-Alive" ++ Buffer.kCRLF) ++
      concat (map HttpText.header_line (HttpResponse.header_list r)) ++
      Buffer.kCRLF ++ HttpResponse.body_ r /\
    HttpResponse.header_list r ≡ₚ map_to_list (HttpResponse.headers_ r) /\
    Sorted HttpResponse.key_le (HttpResponse.header_list r).
Proof.
  intros [Hf Hz] Hb Hwf Hs.
  destruct (append_pieces_contents (HttpResponse.pieces r) b) as (b' & Ha & Hwf' & Hc');
    [done|done|unfold Buffer.max_size; lia|].
  exists b'. unfold HttpResponse.appendToBuffer. split_and!; [done|done| | |].
  - rewrite Hc', pieces_concat, status_pieces_text by done. by rewrite <- (app_assoc (_ ++ _)).
  - apply merge_sort_Permutation.
  - apply Sorted_merge_sort, _.
Qed.

Lemma appendToBuffer_format_witness :
  let r := HttpResponse.setContentType (HttpResponse.addHeader (HttpResponse.setBody
             (HttpResponse.new false) (bs "hi")) (bs "Server") (bs "Muduo")) (bs "text/plain") in
  exists b', HttpResponse.appendToBuffer r (Buffer.mk (replicate 8 NUL) 8 8) = Ok b' /\ Buffer.wf b' /\
    Buffer.contents b' = [] ++
      (bs "HTTP/1.1 " ++ dec 0 ++ bs " " ++ [] ++ Buffer.kCRLF) ++
      ((bs "Content-Length: " ++ dec 2 ++ Buffer.kCRLF) ++
       bs "Connection: Keep-Alive" ++ Buffer.kCRLF) ++
      concat (map HttpText.header_line (HttpResponse.header_list r)) ++
      Buffer.kCRLF ++ bs "hi" /\
    HttpResponse.header_list r ≡ₚ map_to_list (HttpResponse.headers_ r) /\
    Sorted HttpResponse.key_le (HttpResponse.header_list r).
Proof.
  apply (appendToBuffer_format (HttpResponse.setContentType (HttpResponse.addHeader (HttpResponse.setBody
             (HttpResponse.new false) (bs "hi")) (bs "Server") (bs "Muduo")) (bs "text/plain"))
             (Buffer.mk (replicate 8 NUL) 8 8)).
  - split; [|by vm_compute]. apply (bool_decide_unpack _). by vm_compute.
  - by vm_compute.
  - vm_compute. intuition discriminate.
  - by vm_compute.
Defined.

Lemma onRequest_sends cb req :
  let resp := cb req (HttpResponse.new (wants_close req)) in
  fits resp ->
  onRequest cb req = Ok (Send (concat (HttpResponse.pieces resp)) ::
    (if HttpResponse.closeConnection_ resp then [Shutdown] else [])).
Proof.
  intros resp [Hf Hz]. unfold onRequest. fold resp.
  destruct (Buffer.new_wf Buffer.kInitialSize) as (b0 & -> & Hwf0 & Hc0 & Hz0 & _);
    [unfold Buffer.kInitialSize; lia|unfold Buffer.kInitialSize, Buffer.kCheapPrepend, Buffer.max_size; lia|].
  cbn [mbind outcome_bind]. unfold HttpResponse.appendToBuffer.
  destruct (append_pieces_contents (HttpResponse.pieces resp) b0) as (b1 & -> & Hwf1 & Hc1);
    [done|done|rewrite Hz0; unfold Buffer.kInitialSize, Buffer.kCheapPrepend, Buffer.max_size; lia|].
  cbn [mbind outcome_bind]. rewrite Hc0 in Hc1. cbn [app] in Hc1.
  pose proof (Buffer.run_op_refines b1 (Buffer.OpRetrieveAsString (length (Buffer.contents b1))) Hwf1) as Hr.
  cbn [Buffer.queue_op Buffer.op_cost Buffer.run_op] in Hr. rewrite decide_True in Hr by lia.
  destruct Hr as (b2 & Hr & _); [destruct Hwf1 as (_ & ? & _); lia|].
  unfold Buffer.retrieveAllAsString. rewrite <- Buffer.contents_zlen by done. unfold zlen.
  destruct (Buffer.retrieveAsString b1 _) as [[s b3]|]; [|done]. cbn in Hr. injection Hr as -> ->.
  cbn [mbind outcome_bind]. by rewrite take_ge, Hc1 by lia.
Qed.

Definition bad_request : list action :=
  [Send (bs "HTTP/1.1 400 Bad Request" ++ Buffer.kCRLF ++ Buffer.kCRLF); Shutdown].

(** One read event on an HTTP connection.  For handlers whose responses
    fit, [onMessage] from a context it left behind earlier returns, and does
    one of three things: nothing yet (no complete line is left unparsed and the
    context can be resumed), a 400 response and a shutdown, or exactly one
    response from the handler, followed by a shutdown iff the response says
    so, with a fresh context. *)
Theorem onMessage_cases cb context buf tm :
  Buffer.wf buf -> ready context ->
  (forall req, fits (cb req (HttpResponse.new (wants_close req)))) ->
  exists acts context' buf', onMessage cb context buf tm = Ok (acts, context', buf') /\ Buffer.wf buf' /\
    ((acts = [] /\ ready context' /\ ~ Buffer.has_crlf (Buffer.contents buf')) \/
     (acts = bad_request /\ state_ context' = kExpectRequestLine) \/
     (exists req, context' = HttpContext.new /\
        let resp := cb req (HttpResponse.new (wants_close req)) in
        acts = Send (concat (HttpResponse.pieces resp)) ::
               (if HttpResponse.closeConnection_ resp then [Shutdown] else []))).
Proof.
  intros Hwf Hr Hcb.
  destruct (parseRequest_total context buf tm Hwf Hr) as (ok & c' & buf' & Hp & Hwf' & _ & _ & Hk).
  unfold onMessage. rewrite Hp. cbn [mbind outcome_bind]. unfold gotAll.
  destruct Hk as [[-> Hk]|[[-> Hk]|(-> & Hk & Hn)]].
  - rewrite bool_decide_eq_false_2 by congruence. exists bad_request, c', buf'. split_and!; auto.
  - rewrite bool_decide_eq_true_2, onRequest_sends by auto. cbn [mbind outcome_bind app].
    eexists _, _, buf'. split_and!; [done|done|]. right. right. by exists (request_ c').
  - rewrite bool_decide_eq_false_2 by (destruct Hk as [[-> _]| ->]; done).
    exists [], c', buf'. rewrite <- Buffer.split_crlf_None. split_and!; auto.
Qed.

Lemma fits_default req : fits (defaultHttpCallback req (HttpResponse.new (wants_close req))).
Proof.
  unfold defaultHttpCallback, fits. destruct (wants_close req);
    (split; [apply (bool_decide_unpack _); by vm_compute|by vm_compute]).
Qed.

Lemma onMessage_cases_witness :
  let buf := Buffer.mk (replicate 8 NUL ++ bs "GET / HTTP/1.0" ++ Buffer.kCRLF ++ Buffer.kCRLF) 8 26 in
  exists acts context' buf', onMessage defaultHttpCallback HttpContext.new buf 3 = Ok (acts, context', buf') /\
    Buffer.wf buf' /\
    ((acts = [] /\ ready context' /\ ~ Buffer.has_crlf (Buffer.contents buf')) \/
     (acts = bad_request /\ state_ context' = kExpectRequestLine) \/
     (exists req, context' = HttpContext.new /\
        let resp := defaultHttpCallback req (HttpResponse.new (wants_close req)) in
        acts = Send (concat (HttpResponse.pieces resp)) ::
               (if HttpResponse.closeConnection_ resp then [Shutdown] else []))).
Proof.
  apply onMessage_cases; [vm_compute; intuition discriminate|by left|apply fits_default].
Defined.

(** C40: Data after a refused request line stops the server.  When a request
    line with a valid method is refused (a bad version, no second space), the
    server answers 400 and shuts down its side, but leaves the line in the
    buffer and the method in the request; the next bytes that the peer sends
    make [onMessage] parse the same line again, and the assertion of [setMethod]
    that no method is set fails. *)
Theorem onMessage_after_bad_line cb buf line rest r tm more buf2 tm2 :
  Buffer.wf buf -> Buffer.contents buf = line ++ Buffer.kCRLF ++ rest -> CR ∉ line ->
  processRequestLine HttpRequest.new line = Ok (false, r) ->
  HttpRequest.method_ r <> HttpRequest.kInvalid ->
  Buffer.append buf more = Ok buf2 -> zlen (Buffer.buffer_ buf) + zlen more <= Buffer.max_size ->
  onMessage cb HttpContext.new buf tm = Ok (bad_request, mk kExpectRequestLine r, buf) /\
  onMessage cb (mk kExpectRequestLine r) buf2 tm2 = Fault AssertFailed.
Proof.
  intros Hwf Hc Hcr Hp Hm Ha Hz.
  assert (Buffer.split_crlf (line ++ Buffer.kCRLF ++ rest) = Some (line, rest)) as Hs
    by (by apply Buffer.split_crlf_app, HttpText.no_crlf_without_cr).
  destruct (Buffer.append_contents buf more Hwf Hz) as (b2 & Hb2 & Hwf2 & Hc2 & _).
  rewrite Ha in Hb2. injection Hb2 as <-.
  split; unfold onMessage, parse_fuel.
  - cbn [parseRequest HttpContext.new state_ request_]. rewrite Buffer.findCRLF_split, Hc, Hs by done.
    cbn [mbind outcome_bind]. rewrite <- Hc in Hs.
    destruct (take_line buf line rest Hwf Hs) as (Hl & _).
    replace (Buffer.peek buf + zlen line - Buffer.peek buf) with (zlen line) by lia.
    rewrite Hl. cbn [mbind outcome_bind]. rewrite Hp. done.
  - cbn [parseRequest state_ request_]. rewrite Hc in Hc2.
    apply (Buffer.split_crlf_app_r _ _ _ more) in Hs. rewrite <- Hc2 in Hs.
    rewrite Buffer.findCRLF_split, Hs by done. cbn [mbind outcome_bind].
    destruct (take_line buf2 line (rest ++ more) Hwf2 Hs) as (Hl & _).
    replace (Buffer.peek buf2 + zlen line - Buffer.peek buf2) with (zlen line) by lia.
    rewrite Hl. cbn [mbind outcome_bind].
    unfold processRequestLine in *. case_decide; [|by injection Hp as <-].
    unfold HttpRequest.setMethod at 1.
    by rewrite (bool_decide_eq_false_2 (HttpRequest.method_ r = HttpRequest.kInvalid)).
Qed.

Lemma onMessage_after_bad_line_witness :
  let buf := Buffer.mk (replicate 8 NUL ++ bs "GET / HTTP/2.0" ++ Buffer.kCRLF ++ replicate 8 NUL) 8 24 in
  let buf2 := Buffer.mk (replicate 8 NUL ++ bs "GET / HTTP/2.0" ++ Buffer.kCRLF ++ Buffer.kCRLF ++ replicate 6 NUL) 8 26 in
  let r := HttpRequest.mk HttpRequest.kGet HttpRequest.kUnknown (bs "/") [] 0 ∅ in
  onMessage defaultHttpCallback HttpContext.new buf 1 = Ok (bad_request, mk kExpectRequestLine r, buf) /\
  onMessage defaultHttpCallback (mk kExpectRequestLine r) buf2 2 = Fault AssertFailed.
Proof.
  apply (onMessage_after_bad_line defaultHttpCallback _ (bs "GET / HTTP/2.0") [] _ 1 Buffer.kCRLF _ 2).
  - vm_compute. intuition discriminate.
  - reflexivity.
  - apply (bool_decide_unpack _). by vm_compute.
  - reflexivity.
  - discriminate.
  - reflexivity.
  - vm_compute. discriminate.
Defined.

End HttpServerFacts.
