(* ===== verification/Poller.v ===== *)
(** * Channels and the two pollers

    [Module Channel] models src/muduo/net/Channel.h and Channel.cc,
    [Module EPollPoller] and [Module PollPoller] model
    src/muduo/net/poller/EPollPoller.cc and PollPoller.cc.  Channels are
    objects of a heap and pointers to them are keys of it, since the pollers
    and the owner of a channel share it.  The class [Poller] is the virtual
    interface of src/muduo/net/Poller.h; the class [PollerSpec] states what a
    poller promises to the event loop, and both pollers are instances.  The
    calls of [assertInLoopThread] and the log lines are left out: everything
    in this file runs in the loop's own thread. *)

From S2P Require Import Prelude.

Local Open Scope Z_scope.

(** poll.h on Linux. *)
Definition POLLIN : Z := 1.
Definition POLLPRI : Z := 2.
Definition POLLOUT : Z := 4.
Definition POLLERR : Z := 8.
Definition POLLHUP : Z := 16.
Definition POLLNVAL : Z := 32.
Definition POLLRDHUP : Z := 8192.

(** [(x & mask)] as a condition. *)
Definition has (x mask : Z) : bool := negb (Z.land x mask =? 0).

Abbreviation ptr := nat.

Module Channel.

Definition kNoneEvent : Z := 0.
Definition kReadEvent : Z := Z.lor POLLIN POLLPRI.
Definition kWriteEvent : Z := POLLOUT.

(** The callbacks are [std::function]s: the fields say whether one is set;
    what it does is an argument of [handleEventWithGuard]. *)
Record t := mk {
  fd_ : Z;
  events_ : Z;
  revents_ : Z;
  index_ : Z;
  logHup_ : bool;
  tie_ : option nat;
  tied_ : bool;
  eventHandling_ : bool;
  addedToLoop_ : bool;
  readCallback_ : bool;
  writeCallback_ : bool;
  closeCallback_ : bool;
  errorCallback_ : bool;
}.

(** The constructor: no callback, no tie. *)
Definition new (fd : Z) : t :=
  mk fd 0 0 (-1) true None false false false false false false false.

Definition with_events (v : Z) (c : t) : t :=
  mk (fd_ c) v (revents_ c) (index_ c) (logHup_ c) (tie_ c) (tied_ c) (eventHandling_ c)
     (addedToLoop_ c) (readCallback_ c) (writeCallback_ c) (closeCallback_ c) (errorCallback_ c).
Definition set_revents (v : Z) (c : t) : t :=
  mk (fd_ c) (events_ c) v (index_ c) (logHup_ c) (tie_ c) (tied_ c) (eventHandling_ c)
     (addedToLoop_ c) (readCallback_ c) (writeCallback_ c) (closeCallback_ c) (errorCallback_ c).
Definition set_index (v : Z) (c : t) : t :=
  mk (fd_ c) (events_ c) (revents_ c) v (logHup_ c) (tie_ c) (tied_ c) (eventHandling_ c)
     (addedToLoop_ c) (readCallback_ c) (writeCallback_ c) (closeCallback_ c) (errorCallback_ c).
Definition doNotLogHup (c : t) : t :=
  mk (fd_ c) (events_ c) (revents_ c) (index_ c) false (tie_ c) (tied_ c) (eventHandling_ c)
     (addedToLoop_ c) (readCallback_ c) (writeCallback_ c) (closeCallback_ c) (errorCallback_ c).
Definition tie (obj : nat) (c : t) : t :=
  mk (fd_ c) (events_ c) (revents_ c) (index_ c) (logHup_ c) (Some obj) true (eventHandling_ c)
     (addedToLoop_ c) (readCallback_ c) (writeCallback_ c) (closeCallback_ c) (errorCallback_ c).
Definition with_eventHandling (v : bool) (c : t) : t :=
  mk (fd_ c) (events_ c) (revents_ c) (index_ c) (logHup_ c) (tie_ c) (tied_ c) v
     (addedToLoop_ c) (readCallback_ c) (writeCallback_ c) (closeCallback_ c) (errorCallback_ c).
Definition with_addedToLoop (v : bool) (c : t) : t :=
  mk (fd_ c) (events_ c) (revents_ c) (index_ c) (logHup_ c) (tie_ c) (tied_ c) (eventHandling_ c)
     v (readCallback_ c) (writeCallback_ c) (closeCallback_ c) (errorCallback_ c).
Definition setReadCallback (cb : bool) (c : t) : t :=
  mk (fd_ c) (events_ c) (revents_ c) (index_ c) (logHup_ c) (tie_ c) (tied_ c) (eventHandling_ c)
     (addedToLoop_ c) cb (writeCallback_ c) (closeCallback_ c) (errorCallback_ c).
Definition setWriteCallback (cb : bool) (c : t) : t :=
  mk (fd_ c) (events_ c) (revents_ c) (index_ c) (logHup_ c) (tie_ c) (tied_ c) (eventHandling_ c)
     (addedToLoop_ c) (readCallback_ c) cb (closeCallback_ c) (errorCallback_ c).
Definition setCloseCallback (cb : bool) (c : t) : t :=
  mk (fd_ c) (events_ c) (revents_ c) (index_ c) (logHup_ c) (tie_ c) (tied_ c) (eventHandling_ c)
     (addedToLoop_ c) (readCallback_ c) (writeCallback_ c) cb (errorCallback_ c).
Definition setErrorCallback (cb : bool) (c : t) : t :=
  mk (fd_ c) (events_ c) (revents_ c) (index_ c) (logHup_ c) (tie_ c) (tied_ c) (eventHandling_ c)
     (addedToLoop_ c) (readCallback_ c) (writeCallback_ c) (closeCallback_ c) cb.

Definition isNoneEvent (c : t) : bool := events_ c =? kNoneEvent.
Definition isWriting (c : t) : bool := has (events_ c) kWriteEvent.
Definition isReading (c : t) : bool := has (events_ c) kReadEvent.

Definition eventsToString (fd ev : Z) : bytes :=
  dec fd ++ bs ": "
  ++ (if has ev POLLIN then bs "IN " else [])
  ++ (if has ev POLLPRI then bs "PRI " else [])
  ++ (if has ev POLLOUT then bs "OUT " else [])
  ++ (if has ev POLLHUP then bs "HUP " else [])
  ++ (if has ev POLLRDHUP then bs "RDHUP " else [])
  ++ (if has ev POLLERR then bs "ERR " else [])
  ++ (if has ev POLLNVAL then bs "NVAL " else []).
Definition reventsToString (c : t) : bytes := eventsToString (fd_ c) (revents_ c).

(** ** The heap of channels *)

Abbreviation heap := (gmap ptr t).

Definition deref (h : heap) (p : ptr) : outcome t :=
  match h !! p with Some c => Ok c | None => Fault OutOfBounds end.

Definition modify (p : ptr) (f : t -> t) (h : heap) : outcome heap :=
  c ← deref h p; Ok (<[p := f c]> h).

(** ** Event dispatch *)

Inductive callback :=
  | CloseCb
  | ErrorCb
  | ReadCb (receiveTime : Z)
  | WriteCb.

Section Handle.
Context {X : Type}.
(** What a callback of the channel at a pointer does to the world, and
    whether the object of a [weak_ptr] is still alive. *)
Variable call : callback -> ptr -> heap * X -> outcome (heap * X).
Variable alive : X -> nat -> bool.

(** [if (cond(revents_)) { if (cb) cb(); }] *)
Definition fire (p : ptr) (cond : Z -> bool) (is_set : t -> bool) (cb : callback)
    (w : heap * X) : outcome (heap * X) :=
  c ← deref (w.1) p;
  if cond (revents_ c) then
    if is_set c then call cb p w else Ok w
  else Ok w.

Definition on_hup (r : Z) : bool := has r POLLHUP && negb (has r POLLIN).
Definition on_error (r : Z) : bool := has r (Z.lor POLLERR POLLNVAL).
Definition on_read (r : Z) : bool := has r (Z.lor (Z.lor POLLIN POLLPRI) POLLRDHUP).
Definition on_write (r : Z) : bool := has r POLLOUT.

Definition handleEventWithGuard (p : ptr) (receiveTime : Z) (w : heap * X) : outcome (heap * X) :=
  h ← modify p (with_eventHandling true) (w.1);
  let w := (h, w.2) in
  w ← fire p on_hup closeCallback_ CloseCb w;
  w ← fire p on_error errorCallback_ ErrorCb w;
  w ← fire p on_read readCallback_ (ReadCb receiveTime) w;
  w ← fire p on_write writeCallback_ WriteCb w;
  h ← modify p (with_eventHandling false) (w.1);
  Ok (h, w.2).

Definition handleEvent (p : ptr) (receiveTime : Z) (w : heap * X) : outcome (heap * X) :=
  c ← deref (w.1) p;
  if tied_ c then
    match tie_ c with
    | Some obj => if alive (w.2) obj then handleEventWithGuard p receiveTime w else Ok w
    | None => Ok w
    end
  else handleEventWithGuard p receiveTime w.

End Handle.

End Channel.

(** ** The poller interface *)

(** The virtual functions of [Poller], and what it keeps: the map from
    descriptors to channels, and the events the kernel watches for each
    descriptor on the poller's behalf. *)
Class Poller (P : Type) := {
  updateChannel : ptr -> Channel.heap -> P -> outcome (Channel.heap * P);
  removeChannel : ptr -> Channel.heap -> P -> outcome (Channel.heap * P);
  channels : P -> gmap Z ptr;
  interest : P -> gmap Z Z;
}.

(** [Poller::hasChannel] *)
Definition hasChannel `{Poller P} (c : Channel.t) (p : ptr) (P0 : P) : bool :=
  bool_decide (channels P0 !! Channel.fd_ c = Some p).

Module ChannelOps.
Section Ops.
Context `{Poller P}.
Local Abbreviation world := (Channel.heap * P)%type.

Definition update (p : ptr) (w : world) : outcome world :=
  h ← Channel.modify p (Channel.with_addedToLoop true) (w.1);
  updateChannel p h (w.2).

Definition change_events (f : Z -> Z) (p : ptr) (w : world) : outcome world :=
  h ← Channel.modify p (fun c => Channel.with_events (f (Channel.events_ c)) c) (w.1);
  update p (h, w.2).

Definition enableReading : ptr -> world -> outcome world :=
  change_events (fun e => Z.lor e Channel.kReadEvent).
Definition disableReading : ptr -> world -> outcome world :=
  change_events (fun e => Z.land e (Z.lnot Channel.kReadEvent)).
Definition enableWriting : ptr -> world -> outcome world :=
  change_events (fun e => Z.lor e Channel.kWriteEvent).
Definition disableWriting : ptr -> world -> outcome world :=
  change_events (fun e => Z.land e (Z.lnot Channel.kWriteEvent)).
Definition disableAll : ptr -> world -> outcome world :=
  change_events (fun _ => Channel.kNoneEvent).

Definition remove (p : ptr) (w : world) : outcome world :=
  c ← Channel.deref (w.1) p;
  _ ← assert (Channel.isNoneEvent c);
  h ← Channel.modify p (Channel.with_addedToLoop false) (w.1);
  removeChannel p h (w.2).

(** The destructor, called in the loop's thread. *)
Definition destroy (p : ptr) (w : world) : outcome world :=
  c ← Channel.deref (w.1) p;
  _ ← assert (negb (Channel.eventHandling_ c));
  _ ← assert (negb (Channel.addedToLoop_ c));
  _ ← assert (negb (hasChannel c p (w.2)));
  Ok (delete p (w.1), w.2).

End Ops.
End ChannelOps.

(** ** epoll *)

Module EPollPoller.

Definition kNew : Z := -1.
Definition kAdded : Z := 1.
Definition kDeleted : Z := 2.
Definition kInitEventListSize : Z := 16.

Inductive ctl_op := EPOLL_CTL_ADD | EPOLL_CTL_DEL | EPOLL_CTL_MOD.

(** [channels_], the size of the vector [events_] and the interest list of
    [epollfd_], which the kernel keeps: for each descriptor the events and
    the [data.ptr] it was registered with. *)
Record t := mk {
  channels_ : gmap Z ptr;
  events_size : Z;
  interest_list : gmap Z (Z * ptr);
}.

Definition new : t := mk ∅ kInitEventListSize ∅.

Definition with_channels (m : gmap Z ptr) (e : t) : t := mk m (events_size e) (interest_list e).
Definition with_interest (k : gmap Z (Z * ptr)) (e : t) : t := mk (channels_ e) (events_size e) k.

(** Whether epoll_ctl(2) fails for a reason other than the interest list
    (EBADF, ENOMEM, ENOSPC, EPERM). *)
Class Kernel := ctl_error : ctl_op -> Z -> bool.

Section EPoll.
Context {kernel : Kernel}.

(** epoll_ctl(2): [None] is a failure; EEXIST and ENOENT are those of the
    interest list. *)
Definition epoll_ctl (op : ctl_op) (fd : Z) (event : Z * ptr) (k : gmap Z (Z * ptr)) :
    option (gmap Z (Z * ptr)) :=
  if ctl_error op fd then None else
  match op, k !! fd with
  | EPOLL_CTL_ADD, None => Some (<[fd := event]> k)
  | EPOLL_CTL_MOD, Some _ => Some (<[fd := event]> k)
  | EPOLL_CTL_DEL, Some _ => Some (delete fd k)
  | _, _ => None
  end.

(** A failing DEL is logged; a failing ADD or MOD is [LOG_SYSFATAL]. *)
Definition update (op : ctl_op) (p : ptr) (h : Channel.heap) (e : t) : outcome t :=
  c ← Channel.deref h p;
  match epoll_ctl op (Channel.fd_ c) (Channel.events_ c, p) (interest_list e), op with
  | Some k, _ => Ok (with_interest k e)
  | None, EPOLL_CTL_DEL => Ok e
  | None, _ => Fault Aborted
  end.

Definition updateChannel (p : ptr) (h : Channel.heap) (e : t) : outcome (Channel.heap * t) :=
  c ← Channel.deref h p;
  let index := Channel.index_ c in
  let fd := Channel.fd_ c in
  if (index =? kNew) || (index =? kDeleted) then
    e ← (if index =? kNew then
           _ ← assert (bool_decide (channels_ e !! fd = None));
           Ok (with_channels (<[fd := p]> (channels_ e)) e)
         else
           _ ← assert (negb (bool_decide (channels_ e !! fd = None)));
           _ ← assert (bool_decide (channels_ e !! fd = Some p));
           Ok e);
    h ← Channel.modify p (Channel.set_index kAdded) h;
    e ← update EPOLL_CTL_ADD p h e;
    Ok (h, e)
  else
    _ ← assert (negb (bool_decide (channels_ e !! fd = None)));
    _ ← assert (bool_decide (channels_ e !! fd = Some p));
    _ ← assert (index =? kAdded);
    if Channel.isNoneEvent c then
      e ← update EPOLL_CTL_DEL p h e;
      h ← Channel.modify p (Channel.set_index kDeleted) h;
      Ok (h, e)
    else
      e ← update EPOLL_CTL_MOD p h e;
      Ok (h, e).

Definition removeChannel (p : ptr) (h : Channel.heap) (e : t) : outcome (Channel.heap * t) :=
  c ← Channel.deref h p;
  let fd := Channel.fd_ c in
  _ ← assert (negb (bool_decide (channels_ e !! fd = None)));
  _ ← assert (bool_decide (channels_ e !! fd = Some p));
  _ ← assert (Channel.isNoneEvent c);
  let index := Channel.index_ c in
  _ ← assert ((index =? kAdded) || (index =? kDeleted));
  let e := with_channels (delete fd (channels_ e)) e in
  e ← (if index =? kAdded then update EPOLL_CTL_DEL p h e else Ok e);
  h ← Channel.modify p (Channel.set_index kNew) h;
  Ok (h, e).

(** [fillActiveChannels] on the [numEvents] entries that epoll_wait(2) wrote
    at the start of [events_]; it returns what it appends to
    [activeChannels]. *)
Fixpoint fill_loop (evs : list (Z * ptr)) (h : Channel.heap) (e : t) : outcome (Channel.heap * list ptr) :=
  match evs with
  | [] => Ok (h, [])
  | (events, p) :: evs' =>
      c ← Channel.deref h p;
      let it := channels_ e !! Channel.fd_ c in
      _ ← assert (negb (bool_decide (it = None)));
      _ ← assert (bool_decide (it = Some p));
      h ← Channel.modify p (Channel.set_revents (i32 events)) h;
      r ← fill_loop evs' h e;
      Ok (r.1, p :: r.2)
  end.

Definition fillActiveChannels (evs : list (Z * ptr)) (h : Channel.heap) (e : t) :
    outcome (Channel.heap * list ptr) :=
  _ ← assert (zlen evs <=? events_size e);
  fill_loop evs h e.

(** [poll]: [res] is what epoll_wait(2) delivered, [None] for an error. *)
Definition poll (res : option (list (Z * ptr))) (activeChannels : list ptr)
    (h : Channel.heap) (e : t) : outcome (Channel.heap * t * list ptr) :=
  match res with
  | None => Ok (h, e, activeChannels)
  | Some evs =>
      if 0 <? zlen evs then
        r ← fillActiveChannels evs h e;
        let e := if zlen evs =? events_size e
                 then mk (channels_ e) (u64 (events_size e * 2)) (interest_list e) else e in
        Ok (r.1, e, activeChannels ++ r.2)
      else Ok (h, e, activeChannels)
  end.

#[global] Instance poller : Poller t := {
  updateChannel := updateChannel;
  removeChannel := removeChannel;
  channels := channels_;
  interest := fun e => fst <$> interest_list e;
}.

End EPoll.
End EPollPoller.

(** ** poll *)

Module PollPoller.

Record pollfd := mkPollfd { fd : Z; events : Z; revents : Z }.

Record t := mk {
  channels_ : gmap Z ptr;
  pollfds_ : list pollfd;
}.

Definition new : t := mk ∅ [].

Definition pop_back {A} (l : list A) : list A := take (length l - 1) l.

Definition size (pp : t) : Z := i32 (zlen (pollfds_ pp)).

Definition updateChannel (p : ptr) (h : Channel.heap) (pp : t) : outcome (Channel.heap * t) :=
  c ← Channel.deref h p;
  let cfd := Channel.fd_ c in
  if Channel.index_ c <? 0 then
    _ ← assert (bool_decide (channels_ pp !! cfd = None));
    let pfd := mkPollfd cfd (wrap_s 16 (Channel.events_ c)) 0 in
    let pollfds := pollfds_ pp ++ [pfd] in
    idx ← ck32 (i32 (zlen pollfds) - 1);
    h ← Channel.modify p (Channel.set_index idx) h;
    Ok (h, mk (<[fd pfd := p]> (channels_ pp)) pollfds)
  else
    _ ← assert (negb (bool_decide (channels_ pp !! cfd = None)));
    _ ← assert (bool_decide (channels_ pp !! cfd = Some p));
    let idx := Channel.index_ c in
    _ ← assert ((0 <=? idx) && (idx <? size pp));
    match pollfds_ pp !! Z.to_nat idx with
    | None => Fault OutOfBounds
    | Some pfd =>
        neg ← ck32 (- cfd - 1);
        _ ← assert ((fd pfd =? cfd) || (fd pfd =? neg));
        let pfd := mkPollfd cfd (wrap_s 16 (Channel.events_ c)) 0 in
        let pfd := if Channel.isNoneEvent c then mkPollfd neg (events pfd) (revents pfd) else pfd in
        Ok (h, mk (channels_ pp) (<[Z.to_nat idx := pfd]> (pollfds_ pp)))
    end.

Definition removeChannel (p : ptr) (h : Channel.heap) (pp : t) : outcome (Channel.heap * t) :=
  c ← Channel.deref h p;
  let cfd := Channel.fd_ c in
  _ ← assert (negb (bool_decide (channels_ pp !! cfd = None)));
  _ ← assert (bool_decide (channels_ pp !! cfd = Some p));
  _ ← assert (Channel.isNoneEvent c);
  let idx := Channel.index_ c in
  _ ← assert ((0 <=? idx) && (idx <? size pp));
  match pollfds_ pp !! Z.to_nat idx, pollfds_ pp !! (length (pollfds_ pp) - 1)%nat with
  | Some pfd, Some back =>
      neg ← ck32 (- cfd - 1);
      _ ← assert ((fd pfd =? neg) && (events pfd =? Channel.events_ c));
      let channels := delete cfd (channels_ pp) in
      if idx =? zlen (pollfds_ pp) - 1 then
        Ok (h, mk channels (pop_back (pollfds_ pp)))
      else
        let swapped := <[length (pollfds_ pp) - 1 := pfd]>%nat (<[Z.to_nat idx := back]> (pollfds_ pp)) in
        channelAtEnd ← (if fd back <? 0 then ck32 (- fd back - 1) else Ok (fd back));
        match channels !! channelAtEnd with
        | None => Fault OutOfBounds
        | Some q =>
            h ← Channel.modify q (Channel.set_index idx) h;
            Ok (h, mk channels (pop_back swapped))
        end
  | _, _ => Fault OutOfBounds
  end.

(** [fillActiveChannels], as a loop over the rest of [pollfds_]. *)
Fixpoint fillActiveChannels (numEvents : Z) (pfds : list pollfd) (h : Channel.heap) (pp : t) :
    outcome (Channel.heap * list ptr) :=
  match pfds with
  | [] => Ok (h, [])
  | pfd :: pfds' =>
      if 0 <? numEvents then
        if 0 <? revents pfd then
          match channels_ pp !! fd pfd with
          | None => Fault AssertFailed
          | Some p =>
              c ← Channel.deref h p;
              _ ← assert (Channel.fd_ c =? fd pfd);
              h ← Channel.modify p (Channel.set_revents (revents pfd)) h;
              r ← fillActiveChannels (numEvents - 1) pfds' h pp;
              Ok (r.1, p :: r.2)
          end
        else fillActiveChannels numEvents pfds' h pp
      else Ok (h, [])
  end.

(** What poll(2) writes: the [revents] of every element. *)
Definition write_revents (pfds : list pollfd) (rs : list Z) : list pollfd :=
  zip_with (fun pfd r => mkPollfd (fd pfd) (events pfd) r) pfds rs.

(** [poll]: [res] is the return value of poll(2) and the [revents] it wrote,
    [None] for an error. *)
Definition poll (res : option (Z * list Z)) (activeChannels : list ptr)
    (h : Channel.heap) (pp : t) : outcome (Channel.heap * t * list ptr) :=
  match res with
  | None => Ok (h, pp, activeChannels)
  | Some (numEvents, rs) =>
      let pp := mk (channels_ pp) (write_revents (pollfds_ pp) rs) in
      if 0 <? numEvents then
        r ← fillActiveChannels numEvents (pollfds_ pp) h pp;
        Ok (r.1, pp, activeChannels ++ r.2)
      else Ok (h, pp, activeChannels)
  end.

(** poll(2) ignores the elements with a negative descriptor. *)
Definition watched (pfds : list pollfd) : gmap Z Z :=
  list_to_map (omap (fun pfd => if 0 <=? fd pfd then Some (fd pfd, events pfd) else None) pfds).

#[global] Instance poller : Poller t := {
  updateChannel := updateChannel;
  removeChannel := removeChannel;
  channels := channels_;
  interest := fun pp => watched (pollfds_ pp);
}.

End PollPoller.
