(* ===== verification/PollerSpec.v ===== *)
(** * What the pollers promise

    [Module Dispatch]: which callbacks [Channel::handleEvent] runs.
    [PollerSpec] is the contract between a poller and its clients, proved of
    [EPollPoller] and [PollPoller] (Poller.v); [Module Interest] proves, against
    the contract only, that any use of channels that follows the protocol of
    src/muduo/net/Channel.h keeps the kernel watching exactly what the
    channels ask for. *)

From S2P Require Import Prelude Poller.

Local Open Scope Z_scope.

(** ** Heap lemmas *)

Lemma deref_Some h p c : h !! p = Some c -> Channel.deref h p = Ok c.
Proof. unfold Channel.deref. by intros ->. Qed.

Lemma modify_Some h p c f :
  h !! p = Some c -> Channel.modify p f h = Ok (<[p := f c]> h).
Proof. unfold Channel.modify. by intros ->%deref_Some. Qed.

(** ** Event dispatch *)

Module Dispatch.
Import Channel.
Section Dispatch.
Context {X : Type} (call : callback -> ptr -> heap * X -> outcome (heap * X)) (alive : X -> nat -> bool).

(** The callbacks for the events of [c], in order. *)
Definition fired (c : t) (receiveTime : Z) : list callback :=
  (if on_hup (revents_ c) && closeCallback_ c then [CloseCb] else []) ++
  (if on_error (revents_ c) && errorCallback_ c then [ErrorCb] else []) ++
  (if on_read (revents_ c) && readCallback_ c then [ReadCb receiveTime] else []) ++
  (if on_write (revents_ c) && writeCallback_ c then [WriteCb] else []).

Fixpoint call_all (p : ptr) (cbs : list callback) (w : heap * X) : outcome (heap * X) :=
  match cbs with
  | [] => Ok w
  | cb :: cbs' => w ← call cb p w; call_all p cbs' w
  end.

(** What decides about the dispatch: the received events and which
    callbacks are set. *)
Definition dispatch_view (c : t) : Z * bool * bool * bool * bool :=
  (revents_ c, closeCallback_ c, errorCallback_ c, readCallback_ c, writeCallback_ c).

Definition keeps (p : ptr) : Prop := forall cb w w' c,
  (w.1) !! p = Some c -> call cb p w = Ok w' ->
  exists c', (w'.1) !! p = Some c' /\ dispatch_view c' = dispatch_view c.

Lemma fire_call_all p c cond is_set cb w (k : heap * X -> outcome (heap * X)) :
  (w.1) !! p = Some c ->
  (w' ← fire call p cond is_set cb w; k w') =
  (w' ← call_all p (if cond (revents_ c) && is_set c then [cb] else []) w; k w').
Proof.
  intros Hc. unfold fire. rewrite (deref_Some _ _ _ Hc). cbn [mbind outcome_bind].
  destruct (cond (revents_ c)), (is_set c); cbn; try done.
  by destruct (call cb p w).
Qed.

Lemma call_all_app p l1 l2 w : call_all p (l1 ++ l2) w = (w ← call_all p l1 w; call_all p l2 w).
Proof.
  revert w. induction l1 as [|cb l1 IH]; intros w; [done|]. cbn.
  destruct (call cb p w); cbn; [apply IH|done].
Qed.

Lemma call_all_keeps p l w w' c :
  keeps p -> (w.1) !! p = Some c -> call_all p l w = Ok w' ->
  exists c', (w'.1) !! p = Some c' /\ dispatch_view c' = dispatch_view c.
Proof.
  intros Hk. revert w c. induction l as [|cb l IH]; intros w c Hc H; cbn in H.
  - injection H as <-. eauto.
  - destruct (call cb p w) as [w1|] eqn:E; cbn in H; [|done].
    destruct (Hk _ _ _ _ Hc E) as (c1 & Hc1 & <-). eauto.
Qed.

(** One step of [handleEventWithGuard] after some callbacks have run. *)
Lemma fire_after p c l cond is_set cb w (k : heap * X -> outcome (heap * X)) :
  keeps p -> (w.1) !! p = Some c ->
  (forall c', dispatch_view c' = dispatch_view c -> is_set c' = is_set c) ->
  (w' ← call_all p l w; w' ← fire call p cond is_set cb w'; k w') =
  (w' ← call_all p (l ++ if cond (revents_ c) && is_set c then [cb] else []) w; k w').
Proof.
  intros Hk Hc Hs. rewrite call_all_app. destruct (call_all p l w) as [w1|e] eqn:E; [|done].
  cbn [mbind outcome_bind].
  destruct (call_all_keeps _ _ _ _ _ Hk Hc E) as (c1 & Hc1 & Hv).
  rewrite (fire_call_all _ _ _ _ _ _ _ Hc1), (Hs _ Hv). by injection Hv as ->.
Qed.

Lemma handleEventWithGuard_calls p receiveTime w c :
  keeps p -> (w.1) !! p = Some c ->
  handleEventWithGuard call p receiveTime w =
  (w' ← call_all p (fired c receiveTime) (<[p := with_eventHandling true c]> (w.1), w.2);
   h ← modify p (with_eventHandling false) (w'.1); Ok (h, w'.2)).
Proof.
  intros Hk Hc. unfold handleEventWithGuard. rewrite (modify_Some _ _ _ _ Hc). cbn [mbind outcome_bind].
  set (w1 := (_, _)). assert ((w1.1) !! p = Some (with_eventHandling true c)) as Hc1 by apply lookup_insert_eq.
  change (fired c receiveTime) with (fired (with_eventHandling true c) receiveTime).
  set (c1 := with_eventHandling true c) in *. clearbody c1. unfold fired.
  rewrite (fire_call_all p c1) by done.
  rewrite !(fire_after p c1) by (done || (intros c' Hv; by injection Hv)).
  by rewrite <- !(assoc_L (++)).
Qed.

(** Handling the events of a live channel runs exactly the callbacks
    selected by the received events, in the order close, error, read, write
    (close only for a hang-up without readable data; only callbacks that
    are set), with [eventHandling_] set during the calls and cleared after
    them; a channel tied to an object that is gone runs none. The callbacks
    may do anything to the world that leaves the channel alive with its
    received events and its callbacks. *)
Theorem handleEvent_dispatch p receiveTime w c :
  keeps p -> (w.1) !! p = Some c ->
  handleEvent call alive p receiveTime w =
  if negb (tied_ c) || match tie_ c with Some obj => alive (w.2) obj | None => false end then
    w' ← call_all p (fired c receiveTime) (<[p := with_eventHandling true c]> (w.1), w.2);
    h ← modify p (with_eventHandling false) (w'.1); Ok (h, w'.2)
  else Ok w.
Proof.
  intros Hk Hc. unfold handleEvent. rewrite (deref_Some _ _ _ Hc). cbn [mbind outcome_bind].
  destruct (tied_ c), (tie_ c) as [obj|]; cbn; try destruct (alive _ obj); try done;
    by apply handleEventWithGuard_calls.
Qed.

End Dispatch.

(** A hang-up that comes with urgent data runs the close callback and then
    the read callback. *)
Lemma handleEvent_dispatch_witness :
  let c := setCloseCallback true (setReadCallback true (set_revents (POLLHUP + POLLPRI) (new 5))) in
  let log cb (p : ptr) (w : heap * list callback) := Ok (w.1, w.2 ++ [cb]) in
  handleEvent log (fun _ _ => true) 1%nat 42 ({[1%nat := c]}, []) =
  Ok ({[1%nat := c]}, [CloseCb; ReadCb 42]).
Proof.
  intros c log. rewrite (handleEvent_dispatch log (fun _ _ => true) 1%nat 42 _ c).
  - vm_compute. reflexivity.
  - intros cb w w' c0 H [= <-]. eauto.
  - reflexivity.
Defined.

End Dispatch.

(** ** The contract of a poller *)

(** What a poller knows of a registered channel. *)
Definition registration (c : Channel.t) : option (Z * Z * Z) :=
  if Channel.addedToLoop_ c
  then Some (Channel.fd_ c, Channel.events_ c, Channel.index_ c) else None.
Definition regs (h : Channel.heap) : gmap ptr (Z * Z * Z) := omap registration h.

Definition valid_fd (fd : Z) : Prop := 0 <= fd < INT_MAX.
Definition valid_events (ev : Z) : Prop := 0 <= ev < 8.

(** The channel as [Channel::update] hands it to the poller. *)
Definition updated (ev : Z) (c : Channel.t) : Channel.t :=
  Channel.with_addedToLoop true (Channel.with_events ev c).

Definition same_but_index (h h' : Channel.heap) : Prop := forall q,
  Channel.set_index 0 <$> h !! q = Channel.set_index 0 <$> h' !! q.

Class PollerSpec (P : Type) `{Poller P} := {
  (** the representation invariant, and which channels may be removed *)
  inv : gmap ptr (Z * Z * Z) -> P -> Prop;
  idle : gmap ptr (Z * Z * Z) -> P -> ptr -> Prop;
  inv_channels : forall R P0 fd p, inv R P0 ->
    channels P0 !! fd = Some p <-> exists ev ix, R !! p = Some (fd, ev, ix);
  inv_sound : forall R P0 fd ev, inv R P0 -> interest P0 !! fd = Some ev ->
    exists p ix, R !! p = Some (fd, ev, ix);
  inv_complete : forall R P0 p fd ev ix, inv R P0 -> R !! p = Some (fd, ev, ix) -> ev <> 0 ->
    interest P0 !! fd = Some ev;
  update_new : forall h P0 p c ev, inv (regs h) P0 -> h !! p = Some c ->
    Channel.addedToLoop_ c = false -> Channel.index_ c = -1 ->
    channels P0 !! Channel.fd_ c = None -> valid_fd (Channel.fd_ c) -> valid_events ev ->
    exists ix P',
      updateChannel p (<[p := updated ev c]> h) P0 = Ok (<[p := Channel.set_index ix (updated ev c)]> h, P') /\
      inv (<[p := (Channel.fd_ c, ev, ix)]> (regs h)) P' /\
      (forall q, q <> p -> idle (regs h) P0 q -> idle (<[p := (Channel.fd_ c, ev, ix)]> (regs h)) P' q);
  update_old : forall h P0 p c ev, inv (regs h) P0 -> h !! p = Some c ->
    Channel.addedToLoop_ c = true -> valid_events ev ->
    exists ix P',
      updateChannel p (<[p := updated ev c]> h) P0 = Ok (<[p := Channel.set_index ix (updated ev c)]> h, P') /\
      inv (<[p := (Channel.fd_ c, ev, ix)]> (regs h)) P' /\
      (ev = 0 -> idle (<[p := (Channel.fd_ c, ev, ix)]> (regs h)) P' p) /\
      (forall q, q <> p -> idle (regs h) P0 q -> idle (<[p := (Channel.fd_ c, ev, ix)]> (regs h)) P' q);
  remove_idle : forall h P0 p c, inv (regs h) P0 -> h !! p = Some c ->
    Channel.addedToLoop_ c = true -> Channel.events_ c = 0 -> idle (regs h) P0 p ->
    exists h' P',
      removeChannel p (<[p := Channel.with_addedToLoop false c]> h) P0 = Ok (h', P') /\
      same_but_index (<[p := Channel.with_addedToLoop false c]> h) h' /\
      (forall q, q <> p -> regs h !! q = None -> h' !! q = h !! q) /\
      inv (regs h') P' /\
      (forall q, q <> p -> idle (regs h) P0 q -> idle (regs h') P' q);
}.

(** The rest of a channel: what registration and its changes leave alone. *)
Definition core (c : Channel.t) : Channel.t :=
  Channel.set_index 0 (Channel.with_events 0 (Channel.with_addedToLoop false c)).
Definition same_core (h h' : Channel.heap) : Prop := forall q, core <$> h' !! q = core <$> h !! q.

Lemma same_core_refl h : same_core h h.
Proof. done. Qed.

Lemma same_core_trans h1 h2 h3 : same_core h1 h2 -> same_core h2 h3 -> same_core h1 h3.
Proof. intros H1 H2 q. by rewrite H2, H1. Qed.

Lemma same_core_insert h p c c' : h !! p = Some c -> core c' = core c -> same_core h (<[p := c']> h).
Proof.
  intros Hc E q. destruct (decide (q = p)) as [->|]; [by rewrite lookup_insert_eq, Hc; cbn; rewrite E|by rewrite lookup_insert_ne].
Qed.

Lemma same_core_index h p c h' :
  h !! p = Some c -> same_but_index (<[p := Channel.with_addedToLoop false c]> h) h' -> same_core h h'.
Proof.
  intros Hc Hs q. specialize (Hs q).
  assert (forall o o' : option Channel.t, Channel.set_index 0 <$> o = Channel.set_index 0 <$> o' -> core <$> o' = core <$> o) as Hx.
  { intros [c1|] [c2|] E; try done. cbn in *. injection E as E. f_equal. destruct c1, c2. cbn in *. by simplify_eq. }
  rewrite (Hx _ _ Hs). apply (same_core_insert h p c); done.
Qed.

Lemma regs_lookup h p c : h !! p = Some c -> regs h !! p = registration c.
Proof. intros Hc. unfold regs. by rewrite lookup_omap, Hc. Qed.

Lemma regs_added h p c :
  h !! p = Some c -> Channel.addedToLoop_ c = true ->
  regs h !! p = Some (Channel.fd_ c, Channel.events_ c, Channel.index_ c).
Proof. intros Hc Ha. rewrite (regs_lookup _ _ _ Hc). unfold registration. by rewrite Ha. Qed.

Lemma regs_Some h p fd ev ix :
  regs h !! p = Some (fd, ev, ix) ->
  exists c, h !! p = Some c /\ Channel.addedToLoop_ c = true /\
    Channel.fd_ c = fd /\ Channel.events_ c = ev /\ Channel.index_ c = ix.
Proof.
  unfold regs. rewrite lookup_omap. intros (c & Hc & Hr)%bind_Some. exists c. split; [done|].
  unfold registration in Hr. destruct (Channel.addedToLoop_ c) eqn:?; [|done]. by injection Hr as <- <- <-.
Qed.

Lemma regs_insert_added h p c :
  Channel.addedToLoop_ c = true ->
  regs (<[p := c]> h) = <[p := (Channel.fd_ c, Channel.events_ c, Channel.index_ c)]> (regs h).
Proof.
  intros Ha. unfold regs.
  rewrite (omap_insert_Some _ _ _ _ (Channel.fd_ c, Channel.events_ c, Channel.index_ c)); [done|].
  unfold registration. by rewrite Ha.
Qed.

Lemma regs_insert_none h p c :
  Channel.addedToLoop_ c = false -> regs (<[p := c]> h) = delete p (regs h).
Proof.
  intros Ha. unfold regs. rewrite omap_insert_None; [done|]. unfold registration. by rewrite Ha.
Qed.

Lemma regs_delete h p : regs (delete p h) = delete p (regs h).
Proof. apply omap_delete. Qed.

Lemma same_but_index_Some h h' p c :
  same_but_index h h' -> h !! p = Some c -> exists ix, h' !! p = Some (Channel.set_index ix c).
Proof.
  intros Hs Hc. specialize (Hs p). rewrite Hc in Hs. destruct (h' !! p) as [c'|]; [|done].
  exists (Channel.index_ c'). destruct c, c'. by injection Hs as -> -> -> -> -> -> -> -> -> -> -> ->.
Qed.

Lemma same_but_index_None h h' p : same_but_index h h' -> h !! p = None -> h' !! p = None.
Proof. intros Hs Hc. specialize (Hs p). rewrite Hc in Hs. by destruct (h' !! p). Qed.

(** ** Clients of a poller *)

Module Interest.

Inductive mask_op := EnableReading | DisableReading | EnableWriting | DisableWriting | DisableAll.

(** The life of channels: created, their interest changed, removed from the
    loop and destroyed. *)
Inductive op :=
  | New (p : ptr) (fd : Z)
  | Change (m : mask_op) (p : ptr)
  | Remove (p : ptr)
  | Destroy (p : ptr).

(** *** The specification: a table of what each channel asks for *)

(** [live]: the descriptor of each channel and whether it was never
    registered; [asked]: the events each registered channel asks for and
    whether it was switched off after it had been registered. *)
Record table := mkTable {
  live : gmap ptr (Z * bool);
  asked : gmap ptr (Z * bool);
}.

Definition empty_table : table := mkTable ∅ ∅.

Definition spec_mask (m : mask_op) (ev : Z) : Z :=
  match m with
  | EnableReading => Z.lor ev Channel.kReadEvent
  | DisableReading => Z.land ev (Z.lnot Channel.kReadEvent)
  | EnableWriting => Z.lor ev Channel.kWriteEvent
  | DisableWriting => Z.land ev (Z.lnot Channel.kWriteEvent)
  | DisableAll => 0
  end.

(** Whether a registered channel uses [fd]. *)
Definition fd_free (T : table) (fd : Z) : bool :=
  bool_decide (map_Forall (fun q _ => fst <$> live T !! q <> Some fd) (asked T)).

(** A step the protocol allows, and its effect on the table. *)
Definition spec_step (o : op) (T : table) : option table :=
  match o with
  | New p fd =>
      match live T !! p with
      | Some _ => None
      | None => if bool_decide (0 <= fd < INT_MAX)
                then Some (mkTable (<[p := (fd, true)]> (live T)) (asked T)) else None
      end
  | Change m p =>
      match asked T !! p, live T !! p with
      | Some (ev, _), Some _ =>
          let ev' := spec_mask m ev in
          Some (mkTable (live T) (<[p := (ev', ev' =? 0)]> (asked T)))
      | None, Some (fd, true) =>
          if fd_free T fd
          then Some (mkTable (live T) (<[p := (spec_mask m 0, false)]> (asked T))) else None
      | _, _ => None
      end
  | Remove p =>
      match live T !! p, asked T !! p with
      | Some (fd, _), Some (ev, true) =>
          if ev =? 0
          then Some (mkTable (<[p := (fd, false)]> (live T)) (delete p (asked T))) else None
      | _, _ => None
      end
  | Destroy p =>
      match live T !! p, asked T !! p with
      | Some _, None => Some (mkTable (delete p (live T)) (asked T))
      | _, _ => None
      end
  end.

Fixpoint spec_run (ops : list op) (T : table) : option table :=
  match ops with
  | [] => Some T
  | o :: ops' => T' ← spec_step o T; spec_run ops' T'
  end.

Section Client.
Context {P : Type} `{Poller P}.
Local Abbreviation world := (Channel.heap * P)%type.

(** *** The program *)

Definition step (o : op) (w : world) : outcome world :=
  match o with
  | New p fd => Ok (<[p := Channel.new fd]> (w.1), w.2)
  | Change EnableReading p => ChannelOps.enableReading p w
  | Change DisableReading p => ChannelOps.disableReading p w
  | Change EnableWriting p => ChannelOps.enableWriting p w
  | Change DisableWriting p => ChannelOps.disableWriting p w
  | Change DisableAll p => ChannelOps.disableAll p w
  | Remove p => ChannelOps.remove p w
  | Destroy p => ChannelOps.destroy p w
  end.

Fixpoint run (ops : list op) (w : world) : outcome world :=
  match ops with
  | [] => Ok w
  | o :: ops' => w ← step o w; run ops' w
  end.

Context `{!PollerSpec P}.

Section Busy.
(** The channels whose events may be being handled. *)
Variable busy : ptr -> Prop.

(** One channel against its entries in the table. *)
Definition agrees (R : gmap ptr (Z * Z * Z)) (P0 : P) (p : ptr) (c : option Channel.t)
    (l : option (Z * bool)) (a : option (Z * bool)) : Prop :=
  match c, l with
  | None, None => a = None
  | Some c, Some (fd, fresh) =>
      Channel.fd_ c = fd /\ valid_fd fd /\ (Channel.eventHandling_ c = true -> busy p) /\
      match a with
      | Some (ev, off) =>
          Channel.addedToLoop_ c = true /\ Channel.events_ c = ev /\ valid_events ev /\
          (off = true -> idle R P0 p)
      | None =>
          Channel.addedToLoop_ c = false /\ Channel.events_ c = 0 /\
          (fresh = true -> Channel.index_ c = -1)
      end
  | _, _ => False
  end.

Definition refines (T : table) (w : world) : Prop :=
  inv (regs (w.1)) (w.2) /\
  forall p, agrees (regs (w.1)) (w.2) p ((w.1) !! p) (live T !! p) (asked T !! p).

Lemma valid_mask m ev : valid_events ev -> valid_events (spec_mask m ev).
Proof.
  unfold valid_events. intros Hev.
  assert (ev ∈ [0;1;2;3;4;5;6;7]) as Hin.
  { rewrite !elem_of_cons. lia. }
  rewrite !elem_of_cons in Hin. destruct m; destruct_or! Hin; subst;
    first [by apply elem_of_nil in Hin | vm_compute; intuition discriminate].
Qed.

(** What a channel and its entries must satisfy does not depend on the
    registrations of the others. *)
Lemma agrees_other R R' P0 P' p c l a :
  (idle R P0 p -> idle R' P' p) -> agrees R P0 p c l a -> agrees R' P' p c l a.
Proof. unfold agrees. repeat case_match; naive_solver. Qed.

Lemma agrees_index R R' P0 P' p c l a ix :
  (idle R P0 p -> idle R' P' p) -> is_Some a -> agrees R P0 p (Some c) l a ->
  agrees R' P' p (Some (Channel.set_index ix c)) l a.
Proof. unfold agrees. intros ? [? ->]. repeat case_match; naive_solver. Qed.

Lemma agrees_asked R P0 p c l ev off :
  agrees R P0 p c l (Some (ev, off)) ->
  exists c' fd fresh, c = Some c' /\ l = Some (fd, fresh) /\ Channel.addedToLoop_ c' = true /\
    Channel.fd_ c' = fd /\ Channel.events_ c' = ev /\ valid_events ev /\ valid_fd fd /\
    (Channel.eventHandling_ c' = true -> busy p) /\ (off = true -> idle R P0 p).
Proof. unfold agrees. destruct c as [c|], l as [[fd fresh]|]; try done. naive_solver. Qed.

Lemma agrees_unasked R P0 p c fd fresh :
  agrees R P0 p c (Some (fd, fresh)) None ->
  exists c', c = Some c' /\ Channel.addedToLoop_ c' = false /\ Channel.fd_ c' = fd /\
    Channel.events_ c' = 0 /\ valid_fd fd /\ (Channel.eventHandling_ c' = true -> busy p) /\
    (fresh = true -> Channel.index_ c' = -1).
Proof. unfold agrees. destruct c as [c|]; try done. naive_solver. Qed.

(** A registered descriptor belongs to a channel of the table. *)
Lemma refines_channel T h P0 fd p :
  refines T (h, P0) ->
  channels P0 !! fd = Some p <-> exists fresh e, live T !! p = Some (fd, fresh) /\ asked T !! p = Some e.
Proof.
  intros [Hi Ha]. cbn in *. rewrite (inv_channels (regs h)) by done. specialize (Ha p). split.
  - intros (ev & ix & (c & Hc & Hadd & <- & _)%regs_Some). rewrite Hc in Ha.
    destruct (live T !! p) as [[fd fresh]|]; [|done]. destruct Ha as (<- & ? & ? & Ha).
    destruct (asked T !! p); [by eauto|]. naive_solver congruence.
  - intros (fresh & [ev off] & Hl & Hk). rewrite Hl, Hk in Ha.
    apply agrees_asked in Ha as (c & fd' & fr & Hc & [= <- <-] & Hadd & Hfd & _).
    rewrite (regs_added _ _ _ Hc Hadd), Hfd. eauto.
Qed.

Lemma change_events_step f p h P0 c :
  h !! p = Some c ->
  ChannelOps.change_events f p (h, P0) = updateChannel p (<[p := updated (f (Channel.events_ c)) c]> h) P0.
Proof.
  intros Hc. unfold ChannelOps.change_events, ChannelOps.update. cbn [fst snd].
  rewrite (modify_Some _ _ _ _ Hc). cbn [mbind outcome_bind fst snd].
  rewrite (modify_Some _ _ (Channel.with_events (f (Channel.events_ c)) c) _) by apply lookup_insert_eq. cbn [mbind outcome_bind].
  by rewrite insert_insert_eq.
Qed.

Lemma step_change m p h P0 c :
  h !! p = Some c ->
  step (Change m p) (h, P0) = updateChannel p (<[p := updated (spec_mask m (Channel.events_ c)) c]> h) P0.
Proof. intros Hc. destruct m; by apply change_events_step. Qed.

Lemma refines_new T h P0 p fd :
  refines T (h, P0) -> live T !! p = None -> valid_fd fd ->
  refines (mkTable (<[p := (fd, true)]> (live T)) (asked T)) (<[p := Channel.new fd]> h, P0).
Proof.
  intros [Hi Ha] Hl Hfd. unfold refines in *. cbn [fst snd live asked] in *.
  assert (h !! p = None /\ asked T !! p = None) as [Hh Hk].
  { specialize (Ha p). rewrite Hl in Ha. by destruct (h !! p). }
  assert (regs (<[p := Channel.new fd]> h) = regs h) as ->.
  { rewrite regs_insert_none by done. apply delete_id. unfold regs. by rewrite lookup_omap, Hh. }
  split; [done|]. intros q. destruct (decide (q = p)) as [->|Hq].
  - rewrite !lookup_insert_eq, Hk. done.
  - rewrite !lookup_insert_ne by done. apply Ha.
Qed.

Lemma refines_change_entry T h P0 P' p c ev ix fd fresh off :
  let R' := <[p := (Channel.fd_ c, ev, ix)]> (regs h) in
  refines T (h, P0) -> live T !! p = Some (fd, fresh) -> Channel.fd_ c = fd -> valid_fd fd ->
  (Channel.eventHandling_ c = true -> busy p) -> valid_events ev -> inv R' P' -> (off = true -> idle R' P' p) ->
  (forall q, q <> p -> idle (regs h) P0 q -> idle R' P' q) ->
  refines (mkTable (live T) (<[p := (ev, off)]> (asked T))) (<[p := Channel.set_index ix (updated ev c)]> h, P').
Proof.
  intros R' [Hi Ha] Hl Hfd Hv Hh Hev Hi' Hp Hq. unfold refines. cbn [fst snd live asked] in *.
  rewrite regs_insert_added by done. cbn. fold R'. split; [done|].
  intros q. destruct (decide (q = p)) as [->|Hne].
  - rewrite !lookup_insert_eq, Hl. cbn. naive_solver.
  - rewrite !lookup_insert_ne by done. eapply agrees_other; [|apply Ha]. auto.
Qed.

Lemma refines_change T T' h P0 m p :
  refines T (h, P0) -> spec_step (Change m p) T = Some T' ->
  exists w', step (Change m p) (h, P0) = Ok w' /\ refines T' w' /\ same_core h (w'.1).
Proof.
  intros HR Hs. pose proof HR as [Hi Ha]. unfold spec_step in Hs. cbn [fst snd] in *. specialize (Ha p).
  destruct (live T !! p) as [[fd fresh]|] eqn:Hl; [|by destruct (asked T !! p) as [[]|]].
  destruct (asked T !! p) as [[ev off]|] eqn:Hk.
  - apply agrees_asked in Ha as (c & ? & ? & Hc & [= <- <-] & Hadd & Hfd & <- & Hev & Hvfd & Heh & _).
    pose proof (valid_mask m _ Hev) as Hm.
    destruct (update_old h P0 p c _ Hi Hc Hadd Hm) as (ix & P' & Hu & Hi' & Hid & Hoth).
    injection Hs as <-. eexists. rewrite (step_change m p h P0 c Hc). split; [apply Hu|].
    split; [|by apply (same_core_insert _ _ c)].
    eapply refines_change_entry; try done. by intros ?%Z.eqb_eq; auto.
  - apply agrees_unasked in Ha as (c & Hc & Hadd & Hfd & Hev & Hvfd & Heh & Hix).
    destruct fresh; [|done]. destruct (fd_free T fd) eqn:Hfree; [|done]. injection Hs as <-.
    assert (channels P0 !! Channel.fd_ c = None) as Hch.
    { destruct (channels P0 !! _) as [q|] eqn:E; [|done]. exfalso. rewrite Hfd in E.
      apply (refines_channel _ _ _ _ _ HR) in E as (fr & e & Hlq & Hkq).
      apply bool_decide_eq_true in Hfree. by apply (Hfree _ _ Hkq); rewrite Hlq. }
    assert (valid_events (spec_mask m 0)) as Hm by (by apply valid_mask).
    rewrite <- Hfd in Hvfd.
    destruct (update_new h P0 p c _ Hi Hc Hadd (Hix eq_refl) Hch Hvfd Hm) as (ix & P' & Hu & Hi' & Hoth).
    eexists. rewrite (step_change m p h P0 c Hc), Hev. split; [apply Hu|].
    split; [|by apply (same_core_insert _ _ c)].
    eapply refines_change_entry; try done. by rewrite <- Hfd.
Qed.

Lemma refines_remove T T' h P0 p :
  refines T (h, P0) -> spec_step (Remove p) T = Some T' ->
  exists w', step (Remove p) (h, P0) = Ok w' /\ refines T' w' /\ same_core h (w'.1).
Proof.
  intros [Hi Ha]. cbn in *. pose proof (Ha p) as Hp.
  destruct (live T !! p) as [[fd fresh]|] eqn:Hl; [|done].
  destruct (asked T !! p) as [[ev [|]]|] eqn:Hk; [|done..].
  apply agrees_asked in Hp as (c & ? & ? & Hc & [= <- <-] & Hadd & Hfd & <- & Hev & Hvfd & Heh & Hid).
  destruct (Z.eqb_spec (Channel.events_ c) 0) as [He|]; [|done]. intros [= <-].
  destruct (remove_idle h P0 p c Hi Hc Hadd He (Hid eq_refl)) as (h' & P' & Hr & Hs & Hun & Hi' & Hoth).
  unfold ChannelOps.remove. cbn [fst snd]. rewrite (deref_Some _ _ _ Hc), (modify_Some _ _ _ _ Hc).
  cbn [mbind outcome_bind]. unfold Channel.isNoneEvent. rewrite He. cbn [Z.eqb Channel.kNoneEvent assert mbind outcome_bind].
  eexists. split; [apply Hr|]. split; [|by eapply same_core_index]. split; [done|].
  cbn. intros q. destruct (decide (q = p)) as [->|Hq].
  - destruct (same_but_index_Some _ _ p _ Hs ltac:(by rewrite lookup_insert_eq)) as [ix ->].
    rewrite lookup_insert_eq, lookup_delete_eq. cbn. naive_solver.
  - rewrite lookup_insert_ne, lookup_delete_ne by done. specialize (Ha q).
    destruct (asked T !! q) as [e|] eqn:Hkq.
    + destruct (h !! q) as [cq|] eqn:Hcq; [|by destruct (live T !! q)].
      destruct (same_but_index_Some _ _ q cq Hs ltac:(by rewrite lookup_insert_ne by done)) as [ix ->].
      eapply agrees_index; [|by eauto|apply Ha]. auto.
    + rewrite Hun; [eapply agrees_other; [|apply Ha]; auto|done|].
      unfold regs. rewrite lookup_omap. destruct (h !! q) as [cq|], (live T !! q) as [[fq fr]|]; try done.
      unfold registration. cbn. by destruct Ha as (_ & _ & _ & -> & _).
Qed.

Lemma refines_destroy T T' h P0 p :
  refines T (h, P0) -> ~ busy p -> spec_step (Destroy p) T = Some T' ->
  exists w', step (Destroy p) (h, P0) = Ok w' /\ refines T' w'.
Proof.
  intros HR Hb. pose proof HR as [Hi Ha]. cbn in *. pose proof (Ha p) as Hp.
  destruct (live T !! p) as [[fd fresh]|] eqn:Hl; [|done].
  destruct (asked T !! p) as [e|] eqn:Hk; [done|]. intros [= <-].
  apply agrees_unasked in Hp as (c & Hc & Hadd & Hfd & _ & _ & Heh & _).
  assert (hasChannel c p P0 = false) as Hch.
  { apply bool_decide_eq_false. intros Hx. apply (refines_channel _ _ _ _ _ HR) in Hx as (? & ? & ? & ?). congruence. }
  unfold ChannelOps.destroy. cbn [fst snd]. rewrite (deref_Some _ _ _ Hc). cbn [mbind outcome_bind].
  assert (Channel.eventHandling_ c = false) as -> by (destruct (Channel.eventHandling_ c); naive_solver).
  rewrite Hadd, Hch. cbn. eexists. split; [done|].
  assert (regs (delete p h) = regs h) as Hregs.
  { rewrite regs_delete. apply delete_id. rewrite (regs_lookup _ _ _ Hc). unfold registration. by rewrite Hadd. }
  unfold refines. cbn [fst snd live asked]. rewrite Hregs. split; [done|].
  intros q. destruct (decide (q = p)) as [->|Hq].
  - by rewrite !lookup_delete_eq, Hk.
  - rewrite !lookup_delete_ne by done. apply Ha.
Qed.

Lemma refines_step o T T' w :
  refines T w -> (forall p, o = Destroy p -> ~ busy p) -> spec_step o T = Some T' ->
  exists w', step o w = Ok w' /\ refines T' w' /\
    match o with Change _ _ | Remove _ => same_core (w.1) (w'.1) | _ => True end.
Proof.
  destruct w as [h P0], o as [p fd|m p|p|p]; intros HR Hb Hs.
  - cbn in Hs. destruct (live T !! p) eqn:Hl; [done|]. case_bool_decide; [|done].
    injection Hs as <-. eexists. split; [done|]. split; [by apply refines_new|done].
  - by eapply refines_change.
  - by eapply refines_remove.
  - destruct (refines_destroy T T' h P0 p HR (Hb p eq_refl) Hs) as (w' & ? & ?). eauto.
Qed.

(** A change of a channel that the poller does not look at. *)
Lemma refines_touch T h P0 p c f :
  refines T (h, P0) -> h !! p = Some c ->
  Channel.fd_ (f c) = Channel.fd_ c -> Channel.events_ (f c) = Channel.events_ c ->
  Channel.index_ (f c) = Channel.index_ c -> Channel.addedToLoop_ (f c) = Channel.addedToLoop_ c ->
  (Channel.eventHandling_ (f c) = true -> busy p) ->
  refines T (<[p := f c]> h, P0).
Proof.
  intros [Hi Ha] Hc E1 E2 E3 E4 Hb. unfold refines. cbn [fst snd] in *.
  assert (regs (<[p := f c]> h) = regs h) as Hregs.
  { apply map_eq. intros q. unfold regs. rewrite !lookup_omap. destruct (decide (q = p)) as [->|].
    - rewrite lookup_insert_eq, Hc. cbn. unfold registration. by rewrite E1, E2, E3, E4.
    - by rewrite lookup_insert_ne. }
  rewrite Hregs. split; [done|]. intros q. destruct (decide (q = p)) as [->|].
  - rewrite lookup_insert_eq. specialize (Ha p). rewrite Hc in Ha. unfold agrees in *.
    rewrite E1, E2, E3, E4. destruct (live T !! p) as [[]|]; naive_solver.
  - by rewrite lookup_insert_ne.
Qed.

(** What the kernel watches for a poller whose clients asked for [T]. *)
Definition watches (T : table) (P0 : P) : Prop :=
  (forall p fd fresh ev off, live T !! p = Some (fd, fresh) -> asked T !! p = Some (ev, off) ->
    ev <> 0 -> interest P0 !! fd = Some ev) /\
  (forall fd ev, interest P0 !! fd = Some ev ->
    exists p fresh off, live T !! p = Some (fd, fresh) /\ asked T !! p = Some (ev, off)) /\
  (forall fd p, channels P0 !! fd = Some p <->
    exists fresh e, live T !! p = Some (fd, fresh) /\ asked T !! p = Some e).

Lemma refines_watches T h P0 : refines T (h, P0) -> watches T P0.
Proof.
  intros HR. pose proof HR as [Hi Ha]. cbn in *. split_and!.
  - intros p fd fresh ev off Hl Hk Hev. specialize (Ha p). rewrite Hl, Hk in Ha.
    apply agrees_asked in Ha as (c & ? & ? & Hc & [= <- <-] & Hadd & Hfd & <- & _).
    pose proof (regs_added _ _ _ Hc Hadd) as Hr. rewrite Hfd in Hr. by eapply inv_complete.
  - intros fd ev Hin. destruct (inv_sound _ _ _ _ Hi Hin) as (p & ix & Hr).
    apply regs_Some in Hr as (c & Hc & Hadd & <- & <- & _). specialize (Ha p). rewrite Hc in Ha.
    exists p. destruct (live T !! p) as [[fd fr]|]; [|done]. cbn in Ha.
    destruct (asked T !! p) as [[ev off]|]; naive_solver congruence.
  - intros fd p. by eapply refines_channel.
Qed.

End Busy.

Lemma refines_run ops T T' w :
  refines (fun _ => False) T w -> spec_run ops T = Some T' ->
  exists w', run ops w = Ok w' /\ refines (fun _ => False) T' w'.
Proof.
  revert T w. induction ops as [|o ops IH]; intros T w HR Hs; cbn in *.
  - injection Hs as <-. eauto.
  - apply bind_Some in Hs as (T1 & H1 & H2).
    destruct (refines_step (fun _ => False) o T T1 w HR ltac:(by intros ? ? ?) H1) as (w1 & -> & HR1 & _). cbn. eauto.
Qed.

Lemma run_watches ops T P0 :
  inv ∅ P0 -> spec_run ops empty_table = Some T ->
  exists h P', run ops (∅, P0) = Ok (h, P') /\ watches T P'.
Proof.
  intros Hi Hs. destruct (refines_run ops empty_table T (∅, P0)) as ([h P'] & Hr & HR); [|done|].
  - split; [by replace (regs _) with (∅ : gmap ptr (Z * Z * Z)) by (symmetry; apply omap_empty)|].
    intros p. cbn. by rewrite !lookup_empty.
  - exists h, P'. split; [done|]. by eapply refines_watches.
Qed.

End Client.
End Interest.

(** ** The map from descriptors to channels, common to both pollers *)

(** [m] finds each registered channel by its descriptor. *)
Definition indexed (R : gmap ptr (Z * Z * Z)) (m : gmap Z ptr) : Prop :=
  forall fd p, m !! fd = Some p <-> exists ev ix, R !! p = Some (fd, ev, ix).

Lemma indexed_inj R m p q fd ev ix ev' ix' :
  indexed R m -> R !! p = Some (fd, ev, ix) -> R !! q = Some (fd, ev', ix') -> p = q.
Proof.
  intros Hch Hp Hq.
  assert (m !! fd = Some p) by (apply Hch; eauto).
  assert (m !! fd = Some q) by (apply Hch; eauto). congruence.
Qed.

(** [p] may be registered with [fd]: nothing else is. *)
Lemma indexed_mine R m p q fd ev ix :
  indexed R m ->
  (m !! fd = None /\ R !! p = None \/ exists ev0 ix0, R !! p = Some (fd, ev0, ix0)) ->
  R !! q = Some (fd, ev, ix) -> q = p.
Proof.
  intros Hm Hp Hr. destruct Hp as [[Hc _]|(v0 & i0 & Hr0)]; [|by eapply indexed_inj].
  assert (m !! fd = Some q) by (apply Hm; eauto). congruence.
Qed.

Lemma indexed_insert R m p fd ev ix :
  indexed R m ->
  (m !! fd = None /\ R !! p = None \/ exists ev0 ix0, R !! p = Some (fd, ev0, ix0)) ->
  indexed (<[p := (fd, ev, ix)]> R) (<[fd := p]> m).
Proof.
  intros Hm Hp f q.
  assert ((exists v i, <[p := (fd, ev, ix)]> R !! q = Some (f, v, i)) <->
    (q = p /\ f = fd \/ q <> p /\ exists v i, R !! q = Some (f, v, i))) as ->.
  { destruct (decide (q = p)) as [->|]; [rewrite lookup_insert_eq|rewrite lookup_insert_ne by done]; naive_solver. }
  destruct (decide (f = fd)) as [->|Hf].
  - rewrite lookup_insert_eq. split; [intros [= ->]; auto|]. intros [[-> _]|(Hne & v & i & Hr)]; [done|].
    by destruct Hne; eapply indexed_mine.
  - rewrite lookup_insert_ne by done. rewrite (Hm f q). split; [|naive_solver].
    intros (v & i & Hr). right. split; [|eauto]. intros ->.
    destruct Hp as [[_ ?]|(? & ? & ?)]; congruence.
Qed.

Lemma indexed_update R m p fd ev0 ix0 ev ix :
  indexed R m -> R !! p = Some (fd, ev0, ix0) -> indexed (<[p := (fd, ev, ix)]> R) m.
Proof.
  intros Hm Hp. replace m with (<[fd := p]> m) by (apply insert_id, Hm; eauto).
  apply indexed_insert; eauto.
Qed.

Lemma indexed_delete R m p fd ev ix :
  indexed R m -> R !! p = Some (fd, ev, ix) -> indexed (delete p R) (delete fd m).
Proof.
  intros Hm Hp f q. destruct (decide (f = fd)) as [->|Hf].
  - rewrite lookup_delete_eq. split; [done|]. intros (v & i & [Hne Hr]%lookup_delete_Some).
    by destruct Hne; eapply indexed_inj.
  - rewrite lookup_delete_ne by done. rewrite (Hm f q). split; intros (v & i & Hr); exists v, i.
    + apply lookup_delete_Some. split; [|done]. congruence.
    + by apply lookup_delete_Some in Hr as [_ Hr].
Qed.

Lemma bool_decide_Some_None {A} `{EqDecision A} (o : option A) x :
  o = Some x -> bool_decide (o = None) = false /\ bool_decide (o = Some x) = true.
Proof. intros ->. split; [by apply bool_decide_eq_false_2|by apply bool_decide_eq_true_2]. Qed.

Lemma same_but_index_insert h p c ix : same_but_index (<[p := c]> h) (<[p := Channel.set_index ix c]> h).
Proof. intros q. destruct (decide (q = p)) as [->|]; by simplify_map_eq. Qed.

(** ** Reporting events *)

(** [h'] is [h] after the received events [evs] were stored in the channels;
    nothing else changed. *)
Definition reported (evs : list (ptr * Z)) (h h' : Channel.heap) : Prop :=
  (forall p r, (p, r) ∈ evs -> h' !! p = Channel.set_revents r <$> h !! p) /\
  (forall p, p ∉ evs.*1 -> h' !! p = h !! p).

Lemma reported_nil h : reported [] h h.
Proof. split; [|done]. intros p r Hin. by apply elem_of_nil in Hin. Qed.

Lemma reported_cons p r evs h h' c :
  h !! p = Some c -> p ∉ evs.*1 ->
  reported evs (<[p := Channel.set_revents r c]> h) h' -> reported ((p, r) :: evs) h h'.
Proof.
  intros Hc Hp [H1 H2]. split.
  - intros q v [Heq|Hin]%elem_of_cons.
    + injection Heq as -> ->. rewrite H2 by done. by rewrite lookup_insert_eq, Hc.
    + rewrite (H1 q v Hin). rewrite lookup_insert_ne; [done|]. intros <-. apply Hp.
      apply list_elem_of_fmap. by exists (p, v).
  - intros q [Hq1 Hq2]%not_elem_of_cons. rewrite H2 by done. by rewrite lookup_insert_ne.
Qed.

Lemma regs_reported evs h h' : NoDup evs.*1 -> reported evs h h' -> regs h' = regs h.
Proof.
  intros Hnd [H1 H2]. apply map_eq. intros p. unfold regs. rewrite !lookup_omap.
  destruct (decide (p ∈ evs.*1)) as [Hin|Hin].
  - apply list_elem_of_fmap in Hin as ([q r] & -> & Hin). cbn [fst].
    rewrite (H1 _ _ Hin). by destruct (h !! q).
  - by rewrite H2.
Qed.

(** ** EPollPoller meets the contract *)

Module EPollFacts.
Import EPollPoller.

Section Facts.
Context {kernel : Kernel}.

(** The kernel refuses nothing that the interest list allows. *)
Definition no_ctl_error : Prop := forall op fd, ctl_error op fd = false.

(** [channels_] holds the registered channels by descriptor; a channel is on
    the interest list with its events exactly when its index is [kAdded];
    one with index [kDeleted] asks for nothing. *)
Definition epoll_inv (R : gmap ptr (Z * Z * Z)) (e : t) : Prop :=
  indexed R (channels_ e) /\
  (forall p fd ev ix, R !! p = Some (fd, ev, ix) ->
    (ix = kAdded /\ interest_list e !! fd = Some (ev, p)) \/
    (ix = kDeleted /\ ev = 0 /\ interest_list e !! fd = None)) /\
  (forall fd x, interest_list e !! fd = Some x -> is_Some (channels_ e !! fd)).

(** Registering or re-registering [p] with index [ix]. *)
Lemma inv_insert R e p fd ev ix il :
  epoll_inv R e ->
  (channels_ e !! fd = None /\ R !! p = None \/ exists ev0 ix0, R !! p = Some (fd, ev0, ix0)) ->
  (ix = kAdded /\ il = <[fd := (ev, p)]> (interest_list e) \/
   ix = kDeleted /\ ev = 0 /\ il = delete fd (interest_list e)) ->
  epoll_inv (<[p := (fd, ev, ix)]> R) (mk (<[fd := p]> (channels_ e)) (events_size e) il).
Proof.
  intros Hi Hp Hil. pose proof Hi as (Hch & Hin & Hsub).
  split_and!; cbn; [by apply indexed_insert|..].
  - intros q f v i. destruct (decide (q = p)) as [->|Hne].
    + rewrite lookup_insert_eq. intros [= <- <- <-].
      destruct Hil as [[-> ->]|(-> & -> & ->)]; [left|right]; by simplify_map_eq.
    + rewrite lookup_insert_ne by done. intros Hr. assert (f <> fd) by (intros ->; destruct Hne; by eapply indexed_mine).
      destruct Hil as [[-> ->]|(-> & -> & ->)]; simplify_map_eq; eauto.
  - intros f x Hx. destruct (decide (f = fd)) as [->|Hf]; [by simplify_map_eq|].
    rewrite lookup_insert_ne by done. apply (Hsub f x).
    destruct Hil as [[-> ->]|(-> & -> & ->)]; by simplify_map_eq.
Qed.

Lemma inv_insert_old R e p fd ev ix ev0 ix0 il :
  epoll_inv R e -> R !! p = Some (fd, ev0, ix0) ->
  (ix = kAdded /\ il = <[fd := (ev, p)]> (interest_list e) \/
   ix = kDeleted /\ ev = 0 /\ il = delete fd (interest_list e)) ->
  epoll_inv (<[p := (fd, ev, ix)]> R) (with_interest il e).
Proof.
  intros Hi Hp Hil. unfold with_interest.
  replace (channels_ e) with (<[fd := p]> (channels_ e)) by (apply insert_id, Hi; eauto).
  apply inv_insert; eauto.
Qed.

Lemma inv_delete R e p fd ev ix il :
  epoll_inv R e -> R !! p = Some (fd, ev, ix) -> il = delete fd (interest_list e) ->
  epoll_inv (delete p R) (mk (delete fd (channels_ e)) (events_size e) il).
Proof.
  intros Hi Hp ->. pose proof Hi as (Hch & Hin & Hsub). split_and!; cbn; [by eapply indexed_delete|..].
  - intros q f v i [Hne Hr]%lookup_delete_Some.
    assert (f <> fd) by (intros ->; destruct Hne; by eapply indexed_inj). rewrite lookup_delete_ne by done. eauto.
  - intros f x [Hne Hx]%lookup_delete_Some. rewrite lookup_delete_ne by done. eauto.
Qed.

Lemma inv_sound_epoll R e fd ev :
  epoll_inv R e -> (fst <$> interest_list e) !! fd = Some ev -> exists p ix, R !! p = Some (fd, ev, ix).
Proof.
  intros (Hch & Hin & Hsub). rewrite lookup_fmap. intros ([v q] & Hv & ->)%fmap_Some.
  destruct (Hsub _ _ Hv) as [p Hp]. apply Hch in Hp as (ev & ix & Hr).
  destruct (Hin _ _ _ _ Hr) as [(-> & Hil)|(_ & _ & Hil)]; [|congruence]. cbn. rewrite Hv in Hil.
  injection Hil as -> ->. eauto.
Qed.

Lemma inv_complete_epoll R e p fd ev ix :
  epoll_inv R e -> R !! p = Some (fd, ev, ix) -> ev <> 0 -> (fst <$> interest_list e) !! fd = Some ev.
Proof.
  intros (Hch & Hin & Hsub) Hr Hev. rewrite lookup_fmap.
  destruct (Hin _ _ _ _ Hr) as [(-> & ->)|(_ & ? & _)]; [done|lia].
Qed.

Hypothesis Hctl : no_ctl_error.

Lemma update_add h p c e :
  h !! p = Some c -> interest_list e !! Channel.fd_ c = None ->
  update EPOLL_CTL_ADD p h e =
  Ok (with_interest (<[Channel.fd_ c := (Channel.events_ c, p)]> (interest_list e)) e).
Proof. intros Hc Hl. unfold update, epoll_ctl. rewrite (deref_Some _ _ _ Hc). cbn [mbind outcome_bind]. by rewrite Hctl, Hl. Qed.

Lemma update_mod h p c e x :
  h !! p = Some c -> interest_list e !! Channel.fd_ c = Some x ->
  update EPOLL_CTL_MOD p h e =
  Ok (with_interest (<[Channel.fd_ c := (Channel.events_ c, p)]> (interest_list e)) e).
Proof. intros Hc Hl. unfold update, epoll_ctl. rewrite (deref_Some _ _ _ Hc). cbn [mbind outcome_bind]. by rewrite Hctl, Hl. Qed.

Lemma update_del h p c e x :
  h !! p = Some c -> interest_list e !! Channel.fd_ c = Some x ->
  update EPOLL_CTL_DEL p h e = Ok (with_interest (delete (Channel.fd_ c) (interest_list e)) e).
Proof. intros Hc Hl. unfold update, epoll_ctl. rewrite (deref_Some _ _ _ Hc). cbn [mbind outcome_bind]. by rewrite Hctl, Hl. Qed.

Lemma epoll_update_new h e p c ev :
  epoll_inv (regs h) e -> h !! p = Some c -> Channel.addedToLoop_ c = false -> Channel.index_ c = -1 ->
  channels_ e !! Channel.fd_ c = None ->
  exists e', updateChannel p (<[p := updated ev c]> h) e = Ok (<[p := Channel.set_index kAdded (updated ev c)]> h, e') /\
    epoll_inv (<[p := (Channel.fd_ c, ev, kAdded)]> (regs h)) e'.
Proof.
  intros Hi Hc Hadd Hix Hch. unfold updateChannel.
  rewrite (deref_Some _ p (updated ev c)) by apply lookup_insert_eq. cbn [mbind outcome_bind].
  change (Channel.index_ (updated ev c)) with (Channel.index_ c). rewrite Hix. cbn [Z.eqb orb kNew Pos.eqb].
  change (Channel.fd_ (updated ev c)) with (Channel.fd_ c).
  rewrite (bool_decide_eq_true_2 (channels_ e !! Channel.fd_ c = None)) by done. cbn [assert mbind outcome_bind].
  rewrite (modify_Some _ p (updated ev c)) by apply lookup_insert_eq. rewrite insert_insert_eq. cbn [mbind outcome_bind].
  rewrite (update_add _ p (Channel.set_index kAdded (updated ev c))); [|apply lookup_insert_eq|].
  - eexists. split; [done|]. apply (inv_insert _ e); [done| |by left].
    left. split; [done|]. rewrite (regs_lookup _ _ _ Hc). unfold registration. by rewrite Hadd.
  - cbn. destruct (interest_list e !! Channel.fd_ c) eqn:E; [|done].
    apply (proj2 (proj2 Hi)) in E as [? E]. congruence.
Qed.

Lemma epoll_update_old h e p c ev :
  epoll_inv (regs h) e -> h !! p = Some c -> Channel.addedToLoop_ c = true ->
  exists ix e', updateChannel p (<[p := updated ev c]> h) e = Ok (<[p := Channel.set_index ix (updated ev c)]> h, e') /\
    epoll_inv (<[p := (Channel.fd_ c, ev, ix)]> (regs h)) e'.
Proof.
  intros Hi Hc Hadd. pose proof (regs_added _ _ _ Hc Hadd) as Hr. pose proof Hi as (Hch & Hin & _).
  assert (channels_ e !! Channel.fd_ c = Some p) as Hp by (apply Hch; eauto).
  destruct (bool_decide_Some_None _ _ Hp) as [Hb1 Hb2].
  unfold updateChannel. rewrite (deref_Some _ p (updated ev c)) by apply lookup_insert_eq. cbn [mbind outcome_bind].
  change (Channel.index_ (updated ev c)) with (Channel.index_ c).
  change (Channel.fd_ (updated ev c)) with (Channel.fd_ c). rewrite Hb1, Hb2.
  destruct (Hin _ _ _ _ Hr) as [(Hix & Hil)|(Hix & Hev & Hil)]; rewrite Hix; cbn [Z.eqb orb negb kNew kDeleted kAdded Pos.eqb assert mbind outcome_bind].
  - unfold Channel.isNoneEvent, Channel.kNoneEvent. cbn [Channel.events_ updated Channel.with_addedToLoop Channel.with_events].
    destruct (Z.eqb_spec ev 0) as [->|Hne].
    + rewrite (update_del _ p (updated 0 c) _ (Channel.events_ c, p)); [|apply lookup_insert_eq|done]. cbn [mbind outcome_bind].
      rewrite (modify_Some _ p (updated 0 c)) by apply lookup_insert_eq. rewrite insert_insert_eq. cbn [mbind outcome_bind].
      eexists kDeleted, _. split; [done|]. eapply inv_insert_old; eauto.
    + rewrite (update_mod _ p (updated ev c) _ (Channel.events_ c, p)); [|apply lookup_insert_eq|done]. cbn [mbind outcome_bind].
      eexists kAdded, _. split; [|eapply inv_insert_old; eauto].
      do 2 f_equal. unfold updated. destruct c. cbn in *. by subst.
  - rewrite (modify_Some _ p (updated ev c)) by apply lookup_insert_eq. rewrite insert_insert_eq. cbn [mbind outcome_bind].
    rewrite (update_add _ p (Channel.set_index 1 (updated ev c))); [|apply lookup_insert_eq|done]. cbn [mbind outcome_bind].
    eexists kAdded, _. split; [done|]. eapply inv_insert_old; eauto.
Qed.

(** Removing succeeds for every registered channel without events. *)
Lemma epoll_remove h e p c :
  epoll_inv (regs h) e -> h !! p = Some c -> Channel.addedToLoop_ c = true -> Channel.events_ c = 0 ->
  let c' := Channel.with_addedToLoop false c in
  exists e', removeChannel p (<[p := c']> h) e = Ok (<[p := Channel.set_index kNew c']> h, e') /\
    epoll_inv (delete p (regs h)) e'.
Proof.
  intros Hi Hc Hadd Hev c'. pose proof (regs_added _ _ _ Hc Hadd) as Hr. pose proof Hi as (Hch & Hin & _).
  assert (channels_ e !! Channel.fd_ c = Some p) as Hp by (apply Hch; eauto).
  destruct (bool_decide_Some_None _ _ Hp) as [Hb1 Hb2].
  unfold removeChannel. rewrite (deref_Some _ p c') by apply lookup_insert_eq. cbn [mbind outcome_bind].
  change (Channel.fd_ c') with (Channel.fd_ c). change (Channel.index_ c') with (Channel.index_ c).
  change (Channel.isNoneEvent c') with (Channel.events_ c =? 0). rewrite Hb1, Hb2, Hev.
  destruct (Hin _ _ _ _ Hr) as [(Hix & Hil)|(Hix & _ & Hil)]; rewrite Hix; cbn [Z.eqb orb negb kNew kDeleted kAdded Pos.eqb assert mbind outcome_bind].
  - erewrite (update_del _ p c'); [|apply lookup_insert_eq|apply Hil]. cbn [mbind outcome_bind].
    rewrite (modify_Some _ p c') by apply lookup_insert_eq. rewrite insert_insert_eq. cbn [mbind outcome_bind].
    eexists. split; [done|]. by eapply (inv_delete _ e).
  - rewrite (modify_Some _ p c') by apply lookup_insert_eq. rewrite insert_insert_eq. cbn [mbind outcome_bind].
    eexists. split; [done|]. eapply (inv_delete _ e); [done..|]. symmetry. by apply delete_id.
Qed.

#[local] Instance epoll_spec : PollerSpec t.
Proof.
  refine {| inv := epoll_inv; idle := fun _ _ _ => True |}.
  - intros R e fd p (Hch & _). apply Hch.
  - intros. by eapply inv_sound_epoll.
  - intros. by eapply inv_complete_epoll.
  - intros h e p c ev Hi Hc Ha Hix Hch _ _.
    destruct (epoll_update_new h e p c ev Hi Hc Ha Hix Hch) as (e' & ? & ?). eauto.
  - intros h e p c ev Hi Hc Ha _.
    destruct (epoll_update_old h e p c ev Hi Hc Ha) as (ix & e' & ? & ?). eauto 6.
  - intros h e p c Hi Hc Ha Hev _. destruct (epoll_remove h e p c Hi Hc Ha Hev) as (e' & Hr & Hi').
    eexists _, e'. split; [apply Hr|]. split_and!; [apply same_but_index_insert| |by rewrite regs_insert_none|done].
    intros q Hq _. by rewrite lookup_insert_ne.
Defined.

Lemma epoll_new_inv : epoll_inv ∅ new.
Proof. split_and!; cbn; intros *; rewrite ?lookup_empty; [|done..]. split; [done|]. by intros (? & ? & ?). Qed.

(** C7: Epoll(4): for every sequence of channel creations, interest changes,
    removals and destructions that follows the protocol, no assertion fails,
    the kernel watches every descriptor whose channel asks for events for
    exactly those events, whatever it watches belongs to a registered
    channel and has that channel's events, and [hasChannel] holds of exactly
    the registered channels. *)
Theorem epoll_run_watches ops T :
  Interest.spec_run ops Interest.empty_table = Some T ->
  exists h e, Interest.run ops (∅, new) = Ok (h, e) /\ Interest.watches T e.
Proof.
  intros Hs. apply (Interest.run_watches (P := t)); [|done].
  apply epoll_new_inv.
Qed.

(** Switching off a channel that is switched off already (for instance
    [disableAll] when a connection that stopped reading is closed) puts its
    descriptor back on the epoll interest list with no events, so that the
    kernel reports hang-ups and errors of it again. *)
Theorem epoll_disable_again h e p c :
  epoll_inv (regs h) e -> h !! p = Some c -> Channel.addedToLoop_ c = true -> Channel.index_ c = kDeleted ->
  interest e !! Channel.fd_ c = None /\
  exists h' e', ChannelOps.disableAll p (h, e) = Ok (h', e') /\ interest e' !! Channel.fd_ c = Some 0.
Proof.
  intros Hi Hc Hadd Hix. pose proof (regs_added _ _ _ Hc Hadd) as Hr. pose proof Hi as (Hch & Hin & _).
  destruct (Hin _ _ _ _ Hr) as [(Hix' & _)|(_ & _ & Hil)]; [rewrite Hix in Hix'; discriminate|].
  assert (channels_ e !! Channel.fd_ c = Some p) as Hp by (apply Hch; eauto).
  destruct (bool_decide_Some_None _ _ Hp) as [Hb1 Hb2].
  split; [cbn; by rewrite lookup_fmap, Hil|].
  unfold ChannelOps.disableAll. rewrite (Interest.change_events_step _ _ _ _ _ Hc).
  cbn [Poller.updateChannel poller]. unfold updateChannel, Channel.kNoneEvent.
  rewrite (deref_Some _ p (updated 0 c)) by apply lookup_insert_eq. cbn [mbind outcome_bind].
  change (Channel.index_ (updated 0 c)) with (Channel.index_ c).
  change (Channel.fd_ (updated 0 c)) with (Channel.fd_ c). rewrite Hb1, Hb2, Hix.
  cbn [Z.eqb orb negb kNew kDeleted kAdded Pos.eqb assert mbind outcome_bind].
  rewrite (modify_Some _ p (updated 0 c)) by apply lookup_insert_eq. rewrite insert_insert_eq. cbn [mbind outcome_bind].
  rewrite (update_add _ p (Channel.set_index kAdded (updated 0 c))); [|apply lookup_insert_eq|done]. cbn [mbind outcome_bind].
  eexists _, _. split; [done|]. cbn. by rewrite lookup_fmap, lookup_insert_eq.
Qed.

End Facts.

Lemma epoll_disable_again_witness :
  let kernel : Kernel := fun _ _ => false in
  let c := Channel.set_index kDeleted (Channel.with_addedToLoop true (Channel.new 5)) in
  let e := mk {[5 := 1%nat]} 16 ∅ in
  exists h' e', ChannelOps.disableAll 1%nat ({[1%nat := c]}, e) = Ok (h', e') /\ interest e' !! 5 = Some 0.
Proof.
  intros kernel c e. apply (epoll_disable_again (kernel := kernel)) with (p := 1%nat) (c := c) (h := {[1%nat := c]}).
  - intros op fd. reflexivity.
  - split_and!.
    + intros fd p. unfold regs. cbn [channels_ e]. rewrite lookup_omap, lookup_singleton_Some. split.
      * intros [<- <-]. exists 0, kDeleted. reflexivity.
      * intros (ev & ix & Hr). destruct (decide (p = 1%nat)) as [->|]; [|by rewrite lookup_singleton_ne in Hr].
        rewrite lookup_singleton_eq in Hr. by injection Hr as <- <- <-.
    + intros p fd ev ix Hr. unfold regs in Hr. rewrite lookup_omap in Hr.
      destruct (decide (p = 1%nat)) as [->|]; [|by rewrite lookup_singleton_ne in Hr].
      rewrite lookup_singleton_eq in Hr. injection Hr as <- <- <-. right. split_and!; reflexivity.
    + intros fd x Hx. cbn in Hx. by rewrite lookup_empty in Hx.
  - reflexivity.
  - reflexivity.
  - reflexivity.
Defined.

(** *** poll *)

Section Poll.
Context {kernel : Kernel}.

(** The entries that epoll_wait(2) delivered, as (channel, events). *)
Definition received (evs : list (Z * ptr)) : list (ptr * Z) := map (fun x => (x.2, i32 (x.1))) evs.

Lemma received_ptrs evs : (received evs).*1 = map snd evs.
Proof. unfold received. by rewrite <- list_fmap_compose. Qed.

Lemma fill_loop_reports evs h e :
  NoDup (map snd evs) ->
  (forall ev p, (ev, p) ∈ evs -> exists c, h !! p = Some c /\ channels_ e !! Channel.fd_ c = Some p) ->
  exists h', fill_loop evs h e = Ok (h', map snd evs) /\ reported (received evs) h h'.
Proof.
  revert h. induction evs as [|[ev p] evs IH]; intros h Hnd Hevs; cbn [fill_loop].
  - exists h. split; [done|]. apply reported_nil.
  - cbn in Hnd. apply list.NoDup_cons in Hnd as [Hp Hnd].
    destruct (Hevs ev p ltac:(by left)) as (c & Hc & Hch).
    rewrite (deref_Some _ _ _ Hc). cbn [mbind outcome_bind].
    destruct (bool_decide_Some_None _ _ Hch) as [-> ->]. cbn [assert negb mbind outcome_bind].
    rewrite (modify_Some _ _ _ _ Hc). cbn [mbind outcome_bind].
    destruct (IH (<[p := Channel.set_revents (i32 ev) c]> h) Hnd) as (h' & -> & Hr).
    + intros v q Hq. destruct (Hevs v q ltac:(by right)) as (cq & Hcq & Hchq). exists cq. split; [|done].
      rewrite lookup_insert_ne; [done|]. intros <-. apply Hp. apply list_elem_of_fmap. by exists (v, p).
    + exists h'. split; [done|]. eapply reported_cons; [done| |done]. by rewrite received_ptrs.
Qed.

(** [EPollPoller::poll] with whatever epoll_wait(2) delivers (entries of
    the interest list, each at most once, at most as many as [events_]
    holds): no assertion fails, exactly the channels of the entries are
    appended to the active list, in order, each with its received events
    stored and nothing else changed, and [events_] is doubled exactly when
    it was filled. *)
Theorem epoll_poll_reports evs act h e :
  epoll_inv (regs h) e -> NoDup (map snd evs) -> zlen evs <= events_size e -> 0 < events_size e < 2 ^ 31 ->
  (forall ev p, (ev, p) ∈ evs -> exists fd asked, interest_list e !! fd = Some (asked, p)) ->
  exists h' e', poll (Some evs) act h e = Ok (h', e', act ++ map snd evs) /\
    reported (received evs) h h' /\ epoll_inv (regs h') e' /\
    events_size e' = (if zlen evs =? events_size e then 2 * events_size e else events_size e).
Proof.
  intros Hi Hnd Hlen Hsz Hevs. pose proof Hi as (Hm & Hin & Hsub).
  destruct (fill_loop_reports evs h e Hnd) as (h' & Hf & Hr).
  { intros ev p (fd & asked & Hil)%Hevs. destruct (Hsub _ _ Hil) as [q Hq].
    pose proof (proj1 (Hm _ _) Hq) as (v & ix & Hrq).
    destruct (Hin _ _ _ _ Hrq) as [[_ Hil']|(_ & _ & Hil')]; rewrite Hil in Hil'; [|done].
    injection Hil' as <- <-. apply regs_Some in Hrq as (c & Hc & _ & Hfd & _). exists c. by rewrite Hfd. }
  assert (epoll_inv (regs h') e) as Hi'.
  { erewrite regs_reported; [done| |done]. by rewrite received_ptrs. }
  unfold poll. destruct evs as [|x evs].
  { exists h, e. cbn. rewrite app_nil_r. rewrite (proj2 (Z.eqb_neq _ _)) by (change (zlen []) with 0; lia).
    split_and!; [done|apply reported_nil|done..]. }
  rewrite (proj2 (Z.ltb_lt _ _)) by (by apply zlen_pos).
  unfold fillActiveChannels. rewrite assert_true by lia. cbn [mbind outcome_bind]. rewrite Hf. cbn [mbind outcome_bind fst snd].
  eexists h', _. split; [done|]. split; [done|].
  destruct (zlen (x :: evs) =? events_size e); [|done]. split; [done|]. cbn.
  change (2 ^ 31) with 2147483648 in Hsz. rewrite u64_small by lia. lia.
Qed.

End Poll.

Lemma epoll_poll_reports_witness :
  let kernel : Kernel := fun _ _ => false in
  let c := Channel.set_index kAdded (Channel.with_addedToLoop true (Channel.with_events 3 (Channel.new 5))) in
  let e := mk {[5 := 1%nat]} 1 {[5 := (3, 1%nat)]} in
  exists h' e', poll (Some [(POLLIN, 1%nat)]) [] {[1%nat := c]} e = Ok (h', e', [1%nat]) /\
    reported [(1%nat, POLLIN)] {[1%nat := c]} h' /\ epoll_inv (regs h') e' /\ events_size e' = 2.
Proof.
  intros kernel c e. apply (epoll_poll_reports [(POLLIN, 1%nat)] [] {[1%nat := c]} e).
  - split_and!.
    + intros fd p. unfold regs, e. cbn [channels_]. rewrite lookup_omap.
      rewrite lookup_singleton_Some. split.
      * intros [<- <-]. exists 3, kAdded. reflexivity.
      * intros (ev & ix & Hr). destruct (decide (p = 1%nat)) as [->|]; [|by rewrite lookup_singleton_ne in Hr].
        rewrite lookup_singleton_eq in Hr. by injection Hr as <- <- <-.
    + intros p fd ev ix Hr. unfold regs in Hr. rewrite lookup_omap in Hr.
      destruct (decide (p = 1%nat)) as [->|]; [|by rewrite lookup_singleton_ne in Hr].
      rewrite lookup_singleton_eq in Hr. injection Hr as <- <- <-. left. split; reflexivity.
    + intros fd x Hx. cbn in Hx. apply lookup_singleton_Some in Hx as [<- <-]. by exists 1%nat.
  - apply NoDup_singleton.
  - vm_compute. discriminate.
  - vm_compute. split; reflexivity.
  - intros ev p [[= -> ->]|Hin]%elem_of_cons; [|by apply elem_of_nil in Hin]. by exists 5, 3.
Defined.

Lemma epoll_run_watches_witness :
  let kernel : Kernel := fun _ _ => false in
  let ops := [Interest.New 1 5; Interest.Change Interest.EnableReading 1;
              Interest.New 2 7; Interest.Change Interest.EnableWriting 2;
              Interest.Change Interest.DisableAll 1; Interest.Remove 1; Interest.Destroy 1]%nat in
  exists h e, Interest.run ops (∅, new) = Ok (h, e) /\
    Interest.watches (Interest.mkTable {[2%nat := (7, true)]} {[2%nat := (4, false)]}) e.
Proof.
  intros kernel ops. apply (epoll_run_watches (kernel := kernel)).
  - intros op fd. reflexivity.
  - vm_compute. reflexivity.
Defined.

End EPollFacts.

(** ** PollPoller meets the contract *)

Module PollFacts.
Import PollPoller.

(** The descriptor an element of [pollfds_] stands for; a negative one is
    switched off. *)
Definition slot (pfd : pollfd) : Z := if fd pfd <? 0 then - fd pfd - 1 else fd pfd.

(** [channels_] holds the registered channels by descriptor; the index of
    each is the position of its element in [pollfds_], which has its
    events and is switched off only if there are none; every element
    belongs to a channel. *)
Definition poll_inv (R : gmap ptr (Z * Z * Z)) (pp : t) : Prop :=
  indexed R (channels_ pp) /\
  (forall p f ev ix, R !! p = Some (f, ev, ix) ->
    valid_fd f /\ valid_events ev /\ 0 <= ix /\
    exists pfd, pollfds_ pp !! Z.to_nat ix = Some pfd /\ slot pfd = f /\ events pfd = ev /\
      (fd pfd < 0 -> ev = 0)) /\
  (forall i pfd, pollfds_ pp !! i = Some pfd ->
    exists p ev, R !! p = Some (slot pfd, ev, Z.of_nat i)).

(** Channel [p] is switched off. *)
Definition poll_idle (R : gmap ptr (Z * Z * Z)) (pp : t) (p : ptr) : Prop :=
  exists f ev ix pfd, R !! p = Some (f, ev, ix) /\ pollfds_ pp !! Z.to_nat ix = Some pfd /\ fd pfd = - f - 1.

Lemma slot_nonneg f ev r : 0 <= f -> slot (mkPollfd f ev r) = f.
Proof. intros. unfold slot. cbn. by rewrite (proj2 (Z.ltb_ge _ _)) by lia. Qed.

Lemma slot_off f ev r : 0 <= f -> slot (mkPollfd (- f - 1) ev r) = f.
Proof. intros. unfold slot. cbn. rewrite (proj2 (Z.ltb_lt _ _)) by lia. lia. Qed.

Lemma poll_inv_slots R pp : poll_inv R pp -> NoDup (map slot (pollfds_ pp)).
Proof.
  intros (Hm & Hr & Hb). apply NoDup_alt. intros i j f Hi Hj.
  rewrite list_lookup_fmap in Hi, Hj.
  apply fmap_Some in Hi as (pi & Hi & ->), Hj as (pj & Hj & Hs).
  apply Hb in Hi as (p & ev & Hp), Hj as (q & ev' & Hq). rewrite <- Hs in Hq.
  pose proof (indexed_inj _ _ _ _ _ _ _ _ _ Hm Hp Hq) as <-. rewrite Hp in Hq. injection Hq. lia.
Qed.

(** There are not more elements than descriptors, so sizes fit an [int]. *)
Lemma poll_inv_size R pp : poll_inv R pp -> zlen (pollfds_ pp) <= INT_MAX.
Proof.
  intros Hi. assert (map slot (pollfds_ pp) ⊆+ seqZ 0 INT_MAX) as Hsub.
  { apply NoDup_submseteq; [by eapply poll_inv_slots|]. intros f Hf.
    apply list_elem_of_lookup in Hf as [i Hf]. rewrite list_lookup_fmap in Hf.
    apply fmap_Some in Hf as (pfd & Hl & ->). destruct Hi as (_ & Hr & Hb).
    apply Hb in Hl as (p & ev & Hp). apply Hr in Hp as [Hv _]. apply elem_of_seqZ. unfold valid_fd in Hv. lia. }
  apply submseteq_length in Hsub. rewrite length_map, length_seqZ in Hsub. unfold zlen, INT_MAX in *. lia.
Qed.

Lemma poll_inv_ix R pp p f ev ix : poll_inv R pp -> R !! p = Some (f, ev, ix) -> 0 <= ix < zlen (pollfds_ pp).
Proof.
  intros (_ & Hr & _) Hp. apply Hr in Hp as (_ & _ & Hix & pfd & Hl & _). apply lookup_lt_Some in Hl.
  unfold zlen. lia.
Qed.

(** Two channels never share an element. *)
Lemma poll_inv_ix_inj R pp p q f ev f' ev' ix :
  poll_inv R pp -> R !! p = Some (f, ev, ix) -> R !! q = Some (f', ev', ix) -> p = q.
Proof.
  intros (Hm & Hr & _) Hp Hq. pose proof (Hr _ _ _ _ Hp) as (_ & _ & _ & a & Ha & <- & _).
  pose proof (Hr _ _ _ _ Hq) as (_ & _ & _ & b & Hb & <- & _). rewrite Ha in Hb. injection Hb as <-.
  by eapply indexed_inj.
Qed.

(** *** The operations on the representation *)

Lemma poll_inv_push R pp p f ev :
  poll_inv R pp -> R !! p = None -> channels_ pp !! f = None -> valid_fd f -> valid_events ev ->
  poll_inv (<[p := (f, ev, zlen (pollfds_ pp))]> R)
    (mk (<[f := p]> (channels_ pp)) (pollfds_ pp ++ [mkPollfd f ev 0])).
Proof.
  intros Hi Hp Hf Hvf Hve. pose proof Hi as (Hm & Hr & Hb). unfold poll_inv. cbn. split_and!.
  - apply indexed_insert; auto.
  - intros q g v i. destruct (decide (q = p)) as [->|Hne].
    + rewrite lookup_insert_eq. intros [= <- <- <-]. split_and!; [done..|apply zlen_nonneg|].
      exists (mkPollfd f ev 0). unfold zlen. rewrite Nat2Z.id. split_and!; [by apply list_lookup_middle| |done|].
      * apply slot_nonneg. unfold valid_fd in *. lia.
      * cbn. unfold valid_fd in *. lia.
    + rewrite lookup_insert_ne by done. intros Hq. apply Hr in Hq as (? & ? & ? & pfd & Hl & ?).
      split_and!; [done..|]. exists pfd. split; [|done]. by apply lookup_app_l_Some.
  - intros i pfd. destruct (decide (i < length (pollfds_ pp))%nat) as [Hlt|Hge].
    + rewrite lookup_app_l by done. intros Hl. apply Hb in Hl as (q & v & Hq). exists q, v.
      rewrite lookup_insert_ne; [done|]. congruence.
    + rewrite lookup_app_r by lia. intros Hl. apply list_lookup_singleton_Some in Hl as [Hi0 <-].
      exists p, ev. rewrite slot_nonneg by (unfold valid_fd in *; lia).
      replace i with (length (pollfds_ pp)) by lia. apply lookup_insert_eq.
Qed.

Lemma poll_inv_set R pp p f ev0 ix ev pfd :
  poll_inv R pp -> R !! p = Some (f, ev0, ix) -> valid_events ev ->
  slot pfd = f -> events pfd = ev -> (fd pfd < 0 -> ev = 0) ->
  poll_inv (<[p := (f, ev, ix)]> R) (mk (channels_ pp) (<[Z.to_nat ix := pfd]> (pollfds_ pp))).
Proof.
  intros Hi Hp Hve Hs He Hoff. pose proof Hi as (Hm & Hr & Hb). unfold poll_inv. cbn. split_and!.
  - by eapply indexed_update.
  - pose proof (poll_inv_ix _ _ _ _ _ _ Hi Hp) as Hix. unfold zlen in Hix.
    intros q g v i. destruct (decide (q = p)) as [->|Hne].
    + rewrite lookup_insert_eq. intros [= <- <- <-]. split_and!; [by eapply Hr|done|lia|].
      exists pfd. rewrite list_lookup_insert_eq by lia. done.
    + rewrite lookup_insert_ne by done. intros Hq. pose proof (Hr _ _ _ _ Hq) as (? & ? & Hi0 & a & Hl & ?).
      split_and!; [done..|]. exists a. split; [|done]. rewrite list_lookup_insert_ne; [done|].
      intros Heq. apply Z2Nat.inj in Heq; [|lia..]. subst i. destruct Hne. by eapply poll_inv_ix_inj.
  - intros i a. destruct (decide (i = Z.to_nat ix)) as [->|Hne].
    + pose proof (poll_inv_ix _ _ _ _ _ _ Hi Hp) as Hix. unfold zlen in Hix.
      rewrite list_lookup_insert_eq by lia. intros [= <-]. exists p, ev. rewrite lookup_insert_eq, Z2Nat.id, Hs by lia. done.
    + rewrite list_lookup_insert_ne by done. intros Hl. apply Hb in Hl as (q & v & Hq). exists q, v.
      rewrite lookup_insert_ne; [done|]. intros ->. rewrite Hp in Hq. injection Hq. lia.
Qed.

Lemma poll_inv_pop R pp p f ev ix :
  poll_inv R pp -> R !! p = Some (f, ev, ix) -> ix = zlen (pollfds_ pp) - 1 ->
  poll_inv (delete p R) (mk (delete f (channels_ pp)) (pop_back (pollfds_ pp))).
Proof.
  intros Hi Hp Hix. pose proof Hi as (Hm & Hr & Hb). unfold poll_inv, pop_back. cbn. split_and!.
  - by eapply indexed_delete.
  - intros q g v i [Hne Hq]%lookup_delete_Some. pose proof (Hr _ _ _ _ Hq) as (? & ? & Hi0 & a & Hl & ?).
    split_and!; [done..|]. exists a. split; [|done]. rewrite lookup_take_lt; [done|].
    pose proof (poll_inv_ix _ _ _ _ _ _ Hi Hq) as Hlt. unfold zlen in *.
    enough (i <> ix) by lia. intros ->. destruct Hne. by eapply poll_inv_ix_inj.
  - intros i a [Hl Hlt]%lookup_take_Some. apply Hb in Hl as (q & v & Hq). exists q, v.
    apply lookup_delete_Some. split; [|done]. intros <-. rewrite Hp in Hq. injection Hq. unfold zlen in *. lia.
Qed.

Lemma pop_swapped (l : list pollfd) (i : nat) a b j :
  (i < length l - 1)%nat ->
  pop_back (<[(length l - 1)%nat := a]> (<[i := b]> l)) !! j =
  if decide (j < length l - 1)%nat then if decide (j = i) then Some b else l !! j else None.
Proof.
  intros Hi. unfold pop_back. rewrite !length_insert. case_decide.
  - rewrite lookup_take_lt by done. rewrite list_lookup_insert_ne by lia. case_decide; subst.
    + by rewrite list_lookup_insert_eq by lia.
    + by rewrite list_lookup_insert_ne.
  - by rewrite lookup_take_ge by lia.
Qed.

Lemma poll_inv_swap R pp p f ev ix q ev' pfd back :
  let n := length (pollfds_ pp) in
  poll_inv R pp -> R !! p = Some (f, ev, ix) -> 0 <= ix < zlen (pollfds_ pp) - 1 ->
  pollfds_ pp !! (n - 1)%nat = Some back -> R !! q = Some (slot back, ev', zlen (pollfds_ pp) - 1) ->
  poll_inv (<[q := (slot back, ev', ix)]> (delete p R))
    (mk (delete f (channels_ pp))
        (pop_back (<[(n - 1)%nat := pfd]> (<[Z.to_nat ix := back]> (pollfds_ pp))))).
Proof.
  intros n Hi Hp Hix Hback Hq. pose proof Hi as (Hm & Hr & Hb). unfold zlen in *. fold n in Hix, Hq.
  assert (p <> q) as Hpq by (intros ->; rewrite Hp in Hq; injection Hq; lia).
  unfold poll_inv. cbn. split_and!.
  - eapply indexed_update; [by eapply indexed_delete|]. by rewrite lookup_delete_ne.
  - intros r g v i. destruct (decide (r = q)) as [->|Hne].
    + rewrite lookup_insert_eq. intros [= <- <- <-].
      pose proof (Hr _ _ _ _ Hq) as (? & ? & _ & a & Hl & ?).
      replace (Z.to_nat (Z.of_nat n - 1)) with (n - 1)%nat in Hl by lia. rewrite Hback in Hl. injection Hl as <-.
      split_and!; [done..|lia|]. exists back. unfold n. rewrite pop_swapped by lia.
      rewrite decide_True by lia. by rewrite decide_True.
    + rewrite lookup_insert_ne by done. intros [Hrp Hrr]%lookup_delete_Some.
      pose proof (poll_inv_ix _ _ _ _ _ _ Hi Hrr) as Hlt. unfold zlen in Hlt. fold n in Hlt.
      pose proof (Hr _ _ _ _ Hrr) as (? & ? & Hi0 & a & Hl & ?).
      split_and!; [done..|]. exists a. split; [|done]. unfold n. rewrite pop_swapped by lia. fold n.
      assert (i <> Z.of_nat n - 1) by (intros ->; destruct Hne; by eapply poll_inv_ix_inj).
      assert (i <> ix) by (intros ->; destruct Hrp; by eapply poll_inv_ix_inj).
      rewrite decide_True by lia. by rewrite decide_False by lia.
  - intros j a. unfold n. rewrite pop_swapped by lia. fold n. case_decide as Hj; [|done]. case_decide as Hji.
    + intros [= <-]. exists q, ev'. subst j. by rewrite lookup_insert_eq, Z2Nat.id by lia.
    + intros Hl. apply Hb in Hl as (r & v & Hrr). exists r, v.
      rewrite lookup_insert_ne; [rewrite lookup_delete_ne; [done|]|]; intros ->; [rewrite Hp in Hrr|rewrite Hq in Hrr];
        injection Hrr; lia.
Qed.



(** *** The contract *)

Lemma poll_inv_sound R pp f ev :
  poll_inv R pp -> watched (pollfds_ pp) !! f = Some ev -> exists p ix, R !! p = Some (f, ev, ix).
Proof.
  intros (Hm & Hr & Hb) Hw. apply elem_of_list_to_map_2, list_elem_of_omap in Hw as (pfd & Hin & Hs).
  destruct (Z.leb_spec 0 (fd pfd)); [|done]. injection Hs as <- <-.
  apply list_elem_of_lookup in Hin as [i Hl]. pose proof (Hb _ _ Hl) as (p & v & Hp).
  pose proof (Hr _ _ _ _ Hp) as (_ & _ & _ & a & Ha & _ & <- & _).
  rewrite Nat2Z.id, Hl in Ha. injection Ha as <-. unfold slot in Hp.
  rewrite (proj2 (Z.ltb_ge _ _)) in Hp by lia. eauto.
Qed.

Lemma poll_inv_complete R pp p f ev ix :
  poll_inv R pp -> R !! p = Some (f, ev, ix) -> ev <> 0 -> watched (pollfds_ pp) !! f = Some ev.
Proof.
  intros Hi Hp Hev. pose proof Hi as (Hm & Hr & Hb).
  assert ((f, ev) ∈ omap (fun pfd => if 0 <=? fd pfd then Some (fd pfd, events pfd) else None) (pollfds_ pp)) as Hin.
  { pose proof (Hr _ _ _ _ Hp) as (_ & _ & _ & a & Ha & Hs & <- & Hoff).
    apply list_elem_of_omap. exists a. split; [by eapply list_elem_of_lookup_2|].
    unfold slot in Hs. destruct (Z.leb_spec 0 (fd a)) as [Ha0|Ha0]; [|lia].
    rewrite (proj2 (Z.ltb_ge _ _)) in Hs by lia. by rewrite Hs. }
  destruct (watched (pollfds_ pp) !! f) as [ev'|] eqn:E.
  - apply (poll_inv_sound _ _ _ _ Hi) in E as (q & ix' & Hq).
    pose proof (indexed_inj _ _ _ _ _ _ _ _ _ Hm Hp Hq) as ->. congruence.
  - exfalso. apply not_elem_of_list_to_map_2 in E. apply E. apply list_elem_of_fmap. by exists (f, ev).
Qed.

Lemma valid_events_short ev : valid_events ev -> wrap_s 16 ev = ev.
Proof. unfold valid_events. intros. apply wrap_s_small; lia. Qed.

Lemma poll_update_new h pp p c ev :
  poll_inv (regs h) pp -> h !! p = Some c -> Channel.addedToLoop_ c = false -> Channel.index_ c = -1 ->
  channels_ pp !! Channel.fd_ c = None -> valid_fd (Channel.fd_ c) -> valid_events ev ->
  let ix := zlen (pollfds_ pp) in
  let pp' := mk (<[Channel.fd_ c := p]> (channels_ pp)) (pollfds_ pp ++ [mkPollfd (Channel.fd_ c) ev 0]) in
  updateChannel p (<[p := updated ev c]> h) pp = Ok (<[p := Channel.set_index ix (updated ev c)]> h, pp') /\
  poll_inv (<[p := (Channel.fd_ c, ev, ix)]> (regs h)) pp'.
Proof.
  intros Hi Hc Hadd Hix Hch Hvf Hve ix pp'.
  assert (poll_inv (<[p := (Channel.fd_ c, ev, ix)]> (regs h)) pp') as Hi'.
  { apply poll_inv_push; try done. rewrite (regs_lookup _ _ _ Hc). unfold registration. by rewrite Hadd. }
  split; [|done]. pose proof (poll_inv_size _ _ Hi') as Hsz. cbn in Hsz. pose proof (zlen_nonneg (pollfds_ pp)).
  unfold updateChannel. rewrite (deref_Some _ p (updated ev c)) by apply lookup_insert_eq. cbn [mbind outcome_bind].
  change (Channel.index_ (updated ev c)) with (Channel.index_ c). rewrite Hix. cbn [Z.ltb Z.compare].
  change (Channel.fd_ (updated ev c)) with (Channel.fd_ c). change (Channel.events_ (updated ev c)) with ev.
  rewrite (bool_decide_eq_true_2 (channels_ pp !! Channel.fd_ c = None)) by done. cbn [assert mbind outcome_bind fd].
  rewrite zlen_app in *. change (zlen [_]) with 1 in *. rewrite valid_events_short, i32_small by (done || unfold INT_MIN, INT_MAX in *; lia).
  rewrite Z.add_simpl_r, ck32_Ok by (unfold INT_MIN, INT_MAX in *; lia). cbn [mbind outcome_bind].
  rewrite (modify_Some _ p (updated ev c)) by apply lookup_insert_eq. by rewrite insert_insert_eq.
Qed.

Lemma poll_update_old h pp p c ev :
  poll_inv (regs h) pp -> h !! p = Some c -> Channel.addedToLoop_ c = true -> valid_events ev ->
  let f := Channel.fd_ c in
  let pfd := mkPollfd (if ev =? 0 then - f - 1 else f) ev 0 in
  let pp' := mk (channels_ pp) (<[Z.to_nat (Channel.index_ c) := pfd]> (pollfds_ pp)) in
  updateChannel p (<[p := updated ev c]> h) pp = Ok (<[p := updated ev c]> h, pp') /\
  poll_inv (<[p := (f, ev, Channel.index_ c)]> (regs h)) pp'.
Proof.
  intros Hi Hc Hadd Hve f pfd pp'. pose proof (regs_added _ _ _ Hc Hadd) as Hp. fold f in Hp.
  pose proof Hi as (Hm & Hr & _). pose proof (Hr _ _ _ _ Hp) as (Hvf & _ & Hix & a & Ha & Hs & _).
  pose proof (poll_inv_ix _ _ _ _ _ _ Hi Hp) as Hlt. pose proof (poll_inv_size _ _ Hi) as Hsz.
  unfold valid_fd in Hvf. assert (channels_ pp !! f = Some p) as Hch by (apply Hm; eauto).
  destruct (bool_decide_Some_None _ _ Hch) as [Hb1 Hb2]. split.
  - unfold updateChannel. rewrite (deref_Some _ p (updated ev c)) by apply lookup_insert_eq. cbn [mbind outcome_bind].
    change (Channel.index_ (updated ev c)) with (Channel.index_ c). change (Channel.events_ (updated ev c)) with ev.
    change (Channel.fd_ (updated ev c)) with f. change (Channel.isNoneEvent (updated ev c)) with (ev =? 0).
    rewrite (proj2 (Z.ltb_ge _ _)), Hb1, Hb2 by lia. cbn [assert negb mbind outcome_bind].
    unfold size. rewrite i32_small, (proj2 (Z.leb_le 0 _)), (proj2 (Z.ltb_lt _ _)) by (unfold INT_MIN, INT_MAX in *; lia).
    cbn [assert andb mbind outcome_bind]. rewrite Ha. rewrite ck32_Ok by (unfold INT_MIN, INT_MAX in *; lia).
    cbn [mbind outcome_bind]. rewrite assert_true.
    + cbn [mbind outcome_bind]. rewrite valid_events_short by done. unfold pp', pfd. by destruct (ev =? 0).
    + unfold slot in Hs. destruct (Z.ltb_spec (fd a) 0); [rewrite orb_true_iff; right|rewrite orb_true_iff; left]; lia.
  - apply poll_inv_set with (Channel.events_ c); try done.
    + unfold pfd. destruct (ev =? 0); [apply slot_off|apply slot_nonneg]; lia.
    + unfold pfd. cbn. destruct (Z.eqb_spec ev 0); lia.
Qed.

(** [removeChannel] after its assertions, which hold. *)
Lemma poll_removeChannel_body h pp p c a back :
  let h1 := <[p := Channel.with_addedToLoop false c]> h in
  let n := length (pollfds_ pp) in
  channels_ pp !! Channel.fd_ c = Some p -> Channel.events_ c = 0 -> valid_fd (Channel.fd_ c) ->
  0 <= Channel.index_ c < zlen (pollfds_ pp) -> zlen (pollfds_ pp) <= INT_MAX ->
  pollfds_ pp !! Z.to_nat (Channel.index_ c) = Some a -> pollfds_ pp !! (n - 1)%nat = Some back ->
  fd a = - Channel.fd_ c - 1 -> events a = 0 ->
  removeChannel p h1 pp =
  if Channel.index_ c =? zlen (pollfds_ pp) - 1
  then Ok (h1, mk (delete (Channel.fd_ c) (channels_ pp)) (pop_back (pollfds_ pp)))
  else channelAtEnd ← (if fd back <? 0 then ck32 (- fd back - 1) else Ok (fd back));
    match delete (Channel.fd_ c) (channels_ pp) !! channelAtEnd with
    | None => Fault OutOfBounds
    | Some q =>
        h ← Channel.modify q (Channel.set_index (Channel.index_ c)) h1;
        Ok (h, mk (delete (Channel.fd_ c) (channels_ pp))
          (pop_back (<[(n - 1)%nat := a]> (<[Z.to_nat (Channel.index_ c) := back]> (pollfds_ pp)))))
    end.
Proof.
  intros h1 n Hch Hev Hvf Hlt Hsz Ha Hback Hoff Hae. unfold valid_fd in Hvf.
  destruct (bool_decide_Some_None _ _ Hch) as [Hb1 Hb2].
  unfold removeChannel. rewrite (deref_Some _ p (Channel.with_addedToLoop false c)) by apply lookup_insert_eq.
  cbn [mbind outcome_bind]. change (Channel.isNoneEvent _) with (Channel.events_ c =? 0). rewrite Hev.
  cbn [Channel.fd_ Channel.index_ Channel.events_ Channel.with_addedToLoop].
  rewrite Hb1, Hb2. cbn [assert negb Z.eqb mbind outcome_bind].
  unfold size. rewrite i32_small, (proj2 (Z.leb_le 0 _)), (proj2 (Z.ltb_lt _ _)) by (unfold INT_MIN, INT_MAX in *; lia).
  cbn [assert andb mbind outcome_bind]. fold n. rewrite Ha, Hback. rewrite (ck32_Ok (- Channel.fd_ c - 1)) by (unfold INT_MIN, INT_MAX in *; lia).
  cbn [mbind outcome_bind]. by rewrite assert_true by (rewrite andb_true_iff; lia).
Qed.

Lemma poll_remove h pp p c :
  poll_inv (regs h) pp -> h !! p = Some c -> Channel.addedToLoop_ c = true -> Channel.events_ c = 0 ->
  poll_idle (regs h) pp p ->
  let h1 := <[p := Channel.with_addedToLoop false c]> h in
  let n := length (pollfds_ pp) in
  (Channel.index_ c = zlen (pollfds_ pp) - 1 /\
   removeChannel p h1 pp = Ok (h1, mk (delete (Channel.fd_ c) (channels_ pp)) (pop_back (pollfds_ pp)))) \/
  (exists pfd back q cq, 0 <= Channel.index_ c < zlen (pollfds_ pp) - 1 /\
   pollfds_ pp !! (n - 1)%nat = Some back /\ h !! q = Some cq /\ p <> q /\
   regs h !! q = Some (slot back, Channel.events_ cq, zlen (pollfds_ pp) - 1) /\
   removeChannel p h1 pp = Ok (<[q := Channel.set_index (Channel.index_ c) cq]> h1,
     mk (delete (Channel.fd_ c) (channels_ pp))
        (pop_back (<[(n - 1)%nat := pfd]> (<[Z.to_nat (Channel.index_ c) := back]> (pollfds_ pp)))))).
Proof.
  intros Hi Hc Hadd Hev Hid h1 n. pose proof (regs_added _ _ _ Hc Hadd) as Hp.
  pose proof Hi as (Hm & Hr & Hb). pose proof (Hr _ _ _ _ Hp) as (Hvf & _ & Hix & a & Ha & Hs & Hae & _).
  pose proof (poll_inv_ix _ _ _ _ _ _ Hi Hp) as Hlt. pose proof (poll_inv_size _ _ Hi) as Hsz. unfold valid_fd in Hvf.
  assert (fd a = - Channel.fd_ c - 1) as Hoff.
  { destruct Hid as (f & ev & ix & pfd & Hp' & Hl & Hf). rewrite Hp in Hp'. injection Hp' as <- <- <-. congruence. }
  assert (channels_ pp !! Channel.fd_ c = Some p) as Hch by (apply Hm; eauto).
  destruct (lookup_lt_is_Some_2 (pollfds_ pp) (n - 1)) as [back Hback]; [unfold zlen, n in *; lia|].
  unfold h1. rewrite (poll_removeChannel_body h pp p c a back) by (done || congruence). fold h1.
  destruct (Z.eqb_spec (Channel.index_ c) (zlen (pollfds_ pp) - 1)) as [He|Hne]; [by left|right].
  pose proof (Hb _ _ Hback) as (q & ev & Hq). pose proof (Hr _ _ _ _ Hq) as (Hvq & _). unfold valid_fd in Hvq.
  replace (Z.of_nat (n - 1)) with (zlen (pollfds_ pp) - 1) in Hq by (unfold n, zlen in *; lia).
  assert (p <> q) as Hpq by (intros ->; rewrite Hp in Hq; injection Hq; lia).
  pose proof (regs_Some _ _ _ _ _ Hq) as (cq & Hcq & _ & _ & Hevq & _).
  exists a, back, q, cq. rewrite Hevq. split_and!; [lia..|done|done|done|done|].
  assert ((if fd back <? 0 then ck32 (- fd back - 1) else Ok (fd back)) = Ok (slot back)) as ->.
  { unfold slot in *. destruct (Z.ltb_spec (fd back) 0); [|done]. apply ck32_Ok. unfold INT_MIN, INT_MAX in *. lia. }
  cbn [mbind outcome_bind]. rewrite lookup_delete_ne.
  - rewrite (proj2 (Hm (slot back) q)) by eauto. rewrite (modify_Some _ q cq); [done|].
    unfold h1. by rewrite lookup_insert_ne.
  - intros Hfd. rewrite Hfd in Hp. apply Hpq. by eapply indexed_inj.
Qed.

Lemma poll_idle_insert R pp pp' p q x :
  p <> q -> poll_idle R pp q ->
  (forall f ev ix pfd, R !! q = Some (f, ev, ix) -> pollfds_ pp !! Z.to_nat ix = Some pfd ->
    pollfds_ pp' !! Z.to_nat ix = Some pfd) ->
  poll_idle (<[p := x]> R) pp' q.
Proof.
  intros Hne (f & ev & ix & pfd & Hq & Hl & Hf) Hpp. exists f, ev, ix, pfd.
  rewrite lookup_insert_ne by done. eauto.
Qed.

Lemma poll_remove_contract h pp p c :
  poll_inv (regs h) pp -> h !! p = Some c -> Channel.addedToLoop_ c = true -> Channel.events_ c = 0 ->
  poll_idle (regs h) pp p ->
  exists h' pp',
    removeChannel p (<[p := Channel.with_addedToLoop false c]> h) pp = Ok (h', pp') /\
    same_but_index (<[p := Channel.with_addedToLoop false c]> h) h' /\
    (forall q, q <> p -> regs h !! q = None -> h' !! q = h !! q) /\
    poll_inv (regs h') pp' /\
    (forall q, q <> p -> poll_idle (regs h) pp q -> poll_idle (regs h') pp' q).
Proof.
  intros Hi Hc Ha Hev Hid. pose proof (regs_added _ _ _ Hc Ha) as Hp.
  destruct (poll_remove h pp p c Hi Hc Ha Hev Hid) as [[Hix Hr]|(pfd & back & q & cq & Hix & Hback & Hcq & Hpq & Hq & Hr)];
    (eexists _, _; split; [apply Hr|]).
  + split_and!; [done|by intros q Hq _; rewrite lookup_insert_ne| |]; rewrite regs_insert_none by done.
    * by eapply poll_inv_pop.
    * intros q Hq (f & v & i & a & Hrq & Hl & Hf). exists f, v, i, a. rewrite lookup_delete_ne by done.
      split_and!; [done| |done]. cbn. unfold pop_back. rewrite lookup_take_lt; [done|].
      pose proof (poll_inv_ix _ _ _ _ _ _ Hi Hrq) as Hlt. unfold zlen in *.
      enough (i <> Channel.index_ c) by lia. intros ->. apply Hq. by eapply (poll_inv_ix_inj _ _ _ _ _ _ _ _ _ Hi).
  + pose proof (regs_Some _ _ _ _ _ Hq) as (cq' & Hcq' & Haq & Hfq & _ & Hiq).
    rewrite Hcq in Hcq'. injection Hcq' as <-.
    rewrite regs_insert_added by done. cbn [Channel.fd_ Channel.events_ Channel.index_ Channel.set_index].
    rewrite regs_insert_none, Hfq by done. split_and!.
    * intros r. destruct (decide (r = q)) as [->|].
      -- by rewrite lookup_insert_eq, lookup_insert_ne, Hcq by done.
      -- by rewrite (lookup_insert_ne _ q) by done.
    * intros r Hr1 Hr2. rewrite !lookup_insert_ne; congruence.
    * by eapply poll_inv_swap.
    * intros r Hrp (f & v & i & a & Hrr & Hl & Hf). unfold zlen in *.
      pose proof (poll_inv_ix _ _ _ _ _ _ Hi Hrr) as Hlt. unfold zlen in Hlt.
      assert (i <> Channel.index_ c) by (intros ->; apply Hrp; by eapply poll_inv_ix_inj).
      destruct (decide (r = q)) as [->|Hrq].
      -- rewrite Hq in Hrr. injection Hrr as <- <- <-. exists (slot back), (Channel.events_ cq), (Channel.index_ c), back.
         rewrite lookup_insert_eq. cbn. rewrite pop_swapped, decide_True, decide_True by lia.
         replace (Z.to_nat (Z.of_nat (length (pollfds_ pp)) - 1)) with (length (pollfds_ pp) - 1)%nat in Hl by lia. naive_solver congruence.
      -- exists f, v, i, a. rewrite lookup_insert_ne, lookup_delete_ne by done. cbn.
         assert (i <> Z.of_nat (length (pollfds_ pp)) - 1) by (intros ->; apply Hrq; by eapply poll_inv_ix_inj).
         rewrite pop_swapped, decide_True, decide_False by lia. done.
Qed.

#[global] Instance poll_spec : PollerSpec t.
Proof.
  refine {| inv := poll_inv; idle := poll_idle |}.
  - intros R pp f p (Hm & _). apply Hm.
  - intros. by eapply poll_inv_sound.
  - intros. by eapply poll_inv_complete.
  - intros h pp p c ev Hi Hc Ha Hix Hch Hvf Hve.
    destruct (poll_update_new h pp p c ev Hi Hc Ha Hix Hch Hvf Hve) as [Hu Hi'].
    eexists _, _. split; [apply Hu|]. split; [done|]. intros q Hq Hid. eapply poll_idle_insert; [done..|].
    intros f v ix pfd _ Hl. cbn. by apply lookup_app_l_Some.
  - intros h pp p c ev Hi Hc Ha Hve. destruct (poll_update_old h pp p c ev Hi Hc Ha Hve) as [Hu Hi'].
    pose proof (regs_added _ _ _ Hc Ha) as Hp. pose proof (poll_inv_ix _ _ _ _ _ _ Hi Hp) as Hix. unfold zlen in Hix.
    exists (Channel.index_ c). eexists.
    replace (Channel.set_index (Channel.index_ c) (updated ev c)) with (updated ev c) by (by destruct c).
    split; [apply Hu|]. split_and!; [done| |].
    + intros ->. eexists _, _, _, _. rewrite lookup_insert_eq. split; [done|]. cbn.
      rewrite list_lookup_insert_eq by lia. done.
    + intros q Hq Hid. eapply poll_idle_insert; [done..|]. intros f v ix pfd Hr Hl. cbn.
      rewrite list_lookup_insert_ne; [done|]. intros Heq.
      pose proof (poll_inv_ix _ _ _ _ _ _ Hi Hr). apply Z2Nat.inj in Heq; [|lia..]. subst ix.
      apply Hq. by eapply (poll_inv_ix_inj _ _ _ _ _ _ _ _ _ Hi).
  - apply poll_remove_contract.
Defined.

Lemma poll_new_inv : poll_inv ∅ new.
Proof. split_and!; cbn; intros *; rewrite ?lookup_empty; [|done..]. split; [done|]. by intros (? & ? & ?). Qed.

(** C6: Poll(2): for every sequence of channel creations, interest changes,
    removals and destructions that follows the protocol, no assertion fails
    and no [int] overflows, poll(2) watches every descriptor whose channel asks
    for events for exactly those events, whatever it watches belongs to a
    registered channel and has that channel's events, and [hasChannel]
    holds of exactly the registered channels: removing an element by
    swapping it with the last keeps every index right. *)
Theorem poll_run_watches ops T :
  Interest.spec_run ops Interest.empty_table = Some T ->
  exists h pp, Interest.run ops (∅, new) = Ok (h, pp) /\ Interest.watches T pp.
Proof.
  intros Hs. apply (Interest.run_watches (P := t)); [|done].
  apply poll_new_inv.
Qed.

(** Three channels; the first is removed, which moves the last. *)
Lemma poll_run_watches_witness :
  let ops := [Interest.New 1 5; Interest.Change Interest.EnableReading 1;
              Interest.New 2 7; Interest.Change Interest.EnableWriting 2;
              Interest.New 3 9; Interest.Change Interest.EnableReading 3;
              Interest.Change Interest.DisableAll 1; Interest.Remove 1; Interest.Destroy 1;
              Interest.Change Interest.EnableWriting 3]%nat in
  exists h pp, Interest.run ops (∅, new) = Ok (h, pp) /\
    Interest.watches (Interest.mkTable {[2%nat := (7, true); 3%nat := (9, true)]}
                        {[2%nat := (4, false); 3%nat := (7, false)]}) pp.
Proof. intros ops. apply poll_run_watches. vm_compute. reflexivity. Defined.

(** A channel whose first registration asks for nothing cannot be removed
    again with poll(2): [updateChannel] leaves its element switched on, and
    [removeChannel] asserts that it is switched off. This is what happens to
    the channel of an [Acceptor] that is destroyed before [listen()]; with
    epoll(4) the same sequence succeeds. *)
Theorem poll_remove_never_enabled p f :
  0 <= f < INT_MAX ->
  Interest.run [Interest.New p f; Interest.Change Interest.DisableAll p; Interest.Remove p] (∅, new)
    = Fault AssertFailed /\
  forall kernel : EPollPoller.Kernel, EPollFacts.no_ctl_error ->
  exists h e,
    Interest.run [Interest.New p f; Interest.Change Interest.DisableAll p; Interest.Remove p] (∅, EPollPoller.new)
    = Ok (h, e) /\ channels e !! f = None /\ interest e !! f = None.
Proof.
  intros Hf. assert (valid_fd f) as Hvf by done.
  assert (regs (<[p := Channel.new f]> ∅) = ∅) as Hregs.
  { rewrite regs_insert_none by done. by apply delete_id. }
  assert (forall (P : Type) (HP : Poller P) (P0 : P), Interest.run [Interest.New p f; Interest.Change Interest.DisableAll p; Interest.Remove p] (∅, P0)
    = (w ← Poller.updateChannel p (<[p := updated 0 (Channel.new f)]> (<[p := Channel.new f]> ∅)) P0; w ← ChannelOps.remove p w; Ok w)) as Hrun.
  { intros P HP P0.
    change (Interest.run _ _) with (w ← Interest.step (Interest.Change Interest.DisableAll p) (<[p := Channel.new f]> ∅, P0);
      w ← Interest.step (Interest.Remove p) w; Ok w).
    by rewrite (Interest.step_change Interest.DisableAll p _ P0 (Channel.new f)) by apply lookup_insert_eq. }
  rewrite Hrun. split.
  - cbn [Poller.updateChannel poller].
    destruct (poll_update_new (<[p := Channel.new f]> ∅) new p (Channel.new f) 0) as [-> _];
      [rewrite Hregs; apply poll_new_inv|apply lookup_insert_eq|done..|].
    cbn [mbind outcome_bind]. unfold ChannelOps.remove. cbn [fst snd].
    rewrite (deref_Some _ p (Channel.set_index 0 (updated 0 (Channel.new f)))) by apply lookup_insert_eq.
    cbn [mbind outcome_bind]. rewrite assert_true by done. cbn [mbind outcome_bind].
    rewrite (modify_Some _ p (Channel.set_index 0 (updated 0 (Channel.new f)))) by apply lookup_insert_eq.
    cbn [mbind outcome_bind Poller.removeChannel poller]. unfold removeChannel.
    erewrite deref_Some by apply lookup_insert_eq. cbn. rewrite lookup_insert_eq.
    rewrite (bool_decide_eq_false_2 (Some p = None)), (bool_decide_eq_true_2 (Some p = Some p)) by done. cbn.
    rewrite (assert_true (0 <? size _)) by done. cbn [mbind outcome_bind].
    change (_ !! Z.to_nat 0) with (Some (mkPollfd f 0 0)). cbn beta iota.
    rewrite (ck32_Ok (- f - 1)) by (unfold INT_MIN, INT_MAX in *; lia). cbn [mbind outcome_bind fd events].
    by rewrite (proj2 (Z.eqb_neq f (- f - 1))) by lia.
  - intros kernel Hctl. rewrite Hrun.
    destruct (EPollFacts.epoll_update_new Hctl (<[p := Channel.new f]> ∅) EPollPoller.new p (Channel.new f) 0) as (e & Hu & Hi);
      [rewrite Hregs; apply EPollFacts.epoll_new_inv|apply lookup_insert_eq|done..|].
    cbn [Poller.updateChannel EPollPoller.poller]. rewrite Hu. cbn [mbind outcome_bind].
    set (c := Channel.set_index _ _) in *. rewrite insert_insert_eq.
    destruct (EPollFacts.epoll_remove Hctl (<[p := c]> ∅) e p c) as (e' & Hr & Hi').
    + rewrite regs_insert_added by done. rewrite Hregs in Hi. by rewrite (eq_refl : regs ∅ = ∅).
    + apply lookup_insert_eq.
    + done.
    + done.
    + unfold ChannelOps.remove. cbn [fst snd]. rewrite (deref_Some _ p c) by apply lookup_insert_eq.
      cbn [mbind outcome_bind]. rewrite assert_true by done. cbn [mbind outcome_bind].
      rewrite (modify_Some _ p c) by apply lookup_insert_eq. cbn [mbind outcome_bind Poller.removeChannel EPollPoller.poller].
      rewrite Hr. eexists _, _. split; [done|].
      rewrite regs_insert_added, delete_insert_eq in Hi' by done.
      replace (delete p (regs ∅)) with (∅ : gmap ptr (Z * Z * Z)) in Hi' by done.
      cbn. destruct (EPollPoller.channels_ e' !! f) eqn:E1; [apply Hi' in E1 as (? & ? & ?); done|].
      split; [done|]. rewrite lookup_fmap. destruct (EPollPoller.interest_list e' !! f) eqn:E2; [|done].
      apply Hi' in E2 as [? ?]. congruence.
Qed.

Lemma poll_remove_never_enabled_witness :
  Interest.run [Interest.New 1 9; Interest.Change Interest.DisableAll 1; Interest.Remove 1]%nat (∅, new)
    = Fault AssertFailed.
Proof. apply (poll_remove_never_enabled 1 9). unfold INT_MAX. lia. Defined.

(** *** poll *)

(** The channels of the elements that poll(2) marked, with their events. *)
Definition marked (m : gmap Z ptr) (pfds : list pollfd) : list (ptr * Z) :=
  omap (fun pfd => if 0 <? revents pfd then (fun p => (p, revents pfd)) <$> m !! fd pfd else None) pfds.

Definition count_marked (pfds : list pollfd) : Z := zlen (List.filter (fun pfd => 0 <? revents pfd) pfds).

Lemma fill_reports pfds h pp :
  (forall pfd, pfd ∈ pfds -> 0 < revents pfd ->
    exists p c, channels_ pp !! fd pfd = Some p /\ h !! p = Some c /\ Channel.fd_ c = fd pfd) ->
  NoDup (marked (channels_ pp) pfds).*1 ->
  exists h', fillActiveChannels (count_marked pfds) pfds h pp = Ok (h', (marked (channels_ pp) pfds).*1) /\
    reported (marked (channels_ pp) pfds) h h'.
Proof.
  revert h. induction pfds as [|pfd pfds IH]; intros h Hch Hnd.
  { exists h. split; [done|]. apply reported_nil. }
  cbn [fillActiveChannels]. unfold count_marked. cbn [List.filter]. cbn in Hnd |- *.
  destruct (Z.ltb_spec 0 (revents pfd)) as [Hpos|Hneg].
  - destruct (Hch pfd ltac:(by left) Hpos) as (p & c & Hp & Hc & Hfd). rewrite Hp in *. cbn in Hnd |- *.
    apply list.NoDup_cons in Hnd as [Hnin Hnd].
    rewrite (proj2 (Z.ltb_lt _ _)) by (by apply zlen_pos).
    rewrite (deref_Some _ _ _ Hc). cbn [mbind outcome_bind]. rewrite assert_true by lia. cbn [mbind outcome_bind].
    rewrite (modify_Some _ _ _ _ Hc). cbn [mbind outcome_bind].
    destruct (IH (<[p := Channel.set_revents (revents pfd) c]> h)) as (h' & Hf & Hr).
    + intros a Ha Hpa. destruct (Hch a ltac:(by right) Hpa) as (q & cq & Hq & Hcq & Hfq).
      destruct (decide (q = p)) as [->|Hne].
      * exists p, (Channel.set_revents (revents pfd) c). rewrite lookup_insert_eq. naive_solver congruence.
      * exists q, cq. by rewrite lookup_insert_ne.
    + done.
    + unfold count_marked in Hf. replace (zlen (pfd :: _) - 1) with (zlen (List.filter (fun pfd => 0 <? revents pfd) pfds))
        by (unfold zlen; cbn [length]; lia).
      rewrite Hf. exists h'. split; [done|]. by eapply reported_cons.
  - destruct (IH h) as (h' & Hf & Hr); [intros a Ha; apply Hch; by right|done|].
    exists h'. split; [|done]. destruct (Z.ltb_spec 0 (zlen (List.filter (fun pfd => 0 <? revents pfd) pfds))) as [Hz|Hz].
    + apply Hf.
    + unfold count_marked in Hf. destruct pfds; cbn [fillActiveChannels] in Hf; [done|].
      by rewrite (proj2 (Z.ltb_ge _ _)) in Hf by lia.
Qed.

Lemma write_revents_lookup pfds rs i pfd :
  write_revents pfds rs !! i = Some pfd ->
  exists a r, pfds !! i = Some a /\ rs !! i = Some r /\ pfd = mkPollfd (fd a) (events a) r.
Proof. unfold write_revents. rewrite lookup_zip_with_Some. intros (a & r & -> & ? & ?). eauto. Qed.

(** What poll(2) writes does not concern the invariant. *)
Lemma poll_inv_revents R pp rs :
  length rs = length (pollfds_ pp) -> poll_inv R pp ->
  poll_inv R (mk (channels_ pp) (write_revents (pollfds_ pp) rs)).
Proof.
  intros Hlen (Hm & Hr & Hb). split_and!; cbn; [done|..].
  - intros p f ev ix Hp. apply Hr in Hp as (? & ? & ? & pfd & Hl & ?). split_and!; [done..|].
    destruct (lookup_lt_is_Some_2 rs (Z.to_nat ix)) as [r Hrs]; [rewrite Hlen; by eapply lookup_lt_Some|].
    exists (mkPollfd (fd pfd) (events pfd) r). split; [|done]. apply lookup_zip_with_Some. eauto.
  - intros i pfd (a & r & Ha & _ & ->)%write_revents_lookup. by apply Hb in Ha.
Qed.

(** Distinct elements belong to distinct channels. *)
Lemma marked_NoDup R m pfds :
  indexed R m -> NoDup (map slot pfds) -> (forall pfd, pfd ∈ pfds -> 0 < revents pfd -> 0 <= fd pfd) ->
  NoDup (marked m pfds).*1.
Proof.
  intros Hm. induction pfds as [|pfd pfds IH]; intros Hnd Hpos; [constructor|].
  cbn in Hnd |- *. apply list.NoDup_cons in Hnd as [Hnin Hnd].
  assert (NoDup (marked m pfds).*1) as Hrest by (apply IH; [done|]; intros; apply Hpos; [by right|done]).
  destruct (Z.ltb_spec 0 (revents pfd)) as [Hp|]; [|done].
  destruct (m !! fd pfd) as [p|] eqn:E; [|done]. cbn. apply list.NoDup_cons. split; [|done].
  intros Hin. apply Hnin. apply list_elem_of_fmap in Hin as ([q r] & -> & Hin). cbn in E.
  apply list_elem_of_omap in Hin as (a & Ha & Hs). destruct (Z.ltb_spec 0 (revents a)) as [Hpa|]; [|done].
  apply fmap_Some in Hs as (q' & Hq & [= <- ->]).
  apply Hm in E as (v & i & E), Hq as (v' & i' & Hq). rewrite E in Hq. injection Hq as Hfd _ _.
  apply list_elem_of_fmap. exists a. split; [|done]. unfold slot.
  pose proof (Hpos pfd ltac:(by left) Hp). pose proof (Hpos a ltac:(by right) Hpa).
  rewrite !(proj2 (Z.ltb_ge _ _)) by lia. done.
Qed.

Lemma poll_inv_find R pp i pfd :
  poll_inv R pp -> pollfds_ pp !! i = Some pfd -> 0 <= fd pfd ->
  exists p ev, R !! p = Some (fd pfd, ev, Z.of_nat i).
Proof.
  intros (_ & _ & Hb) Hl Hp. destruct (Hb _ _ Hl) as (p & ev & Hrp). unfold slot in Hrp.
  rewrite (proj2 (Z.ltb_ge _ _)) in Hrp by lia. eauto.
Qed.

Lemma fill_none pfds n h pp : n <= 0 -> fillActiveChannels n pfds h pp = Ok (h, []).
Proof. intros Hn. destruct pfds; [done|]. cbn [fillActiveChannels]. by rewrite (proj2 (Z.ltb_ge _ _)) by lia. Qed.

(** The marked channels are those whose element has events. *)
Lemma marked_spec R pp rs :
  let pfds := write_revents (pollfds_ pp) rs in
  poll_inv R (mk (channels_ pp) pfds) ->
  (forall pfd, pfd ∈ pfds -> 0 < revents pfd -> 0 <= fd pfd) ->
  forall p r, (p, r) ∈ marked (channels_ pp) pfds <->
    exists f ev ix, R !! p = Some (f, ev, ix) /\ rs !! Z.to_nat ix = Some r /\ 0 < r.
Proof.
  intros pfds Hi1 Hpos. pose proof Hi1 as (Hm & Hr & Hb). cbn in Hm, Hr, Hb.
  intros p r. unfold marked. rewrite list_elem_of_omap. split.
  + intros (a & Hin & Hs). destruct (Z.ltb_spec 0 (revents a)) as [Hp|]; [|done].
    apply fmap_Some in Hs as (q & Hq & [= -> ->]). pose proof (Hpos _ Hin Hp) as Hp0.
    apply list_elem_of_lookup in Hin as [i Hl]. destruct (poll_inv_find _ _ _ _ Hi1 Hl Hp0) as (p' & ev & Hrp).
    apply Hm in Hq as (v & ix & Hq). pose proof (indexed_inj _ _ _ _ _ _ _ _ _ Hm Hrp Hq) as <-.
    apply write_revents_lookup in Hl as (b & r' & _ & Hrs & ->). cbn in *.
    exists (fd b), ev, (Z.of_nat i). rewrite Nat2Z.id. done.
  + intros (f & ev & ix & Hrp & Hrs & Hp). destruct (Hr _ _ _ _ Hrp) as (_ & _ & _ & a & Ha & Hs & _).
    exists a. split; [by eapply list_elem_of_lookup_2|].
    assert (revents a = r) as Hra.
    { apply write_revents_lookup in Ha as (b & r' & _ & Hrs' & ->). rewrite Hrs in Hrs'. by injection Hrs' as <-. }
    rewrite Hra, (proj2 (Z.ltb_lt _ _)) by lia.
    assert (0 <= fd a) by (apply Hpos; [by eapply list_elem_of_lookup_2|lia]).
    unfold slot in Hs. rewrite (proj2 (Z.ltb_ge _ _)) in Hs by lia. rewrite Hs, (proj2 (Hm f p)) by eauto. done.
Qed.

(** [PollPoller::poll] with whatever poll(2) writes (a non-negative event
    set per element, nothing for elements that are switched off; its return
    value the number of elements marked): no assertion fails, exactly the
    channels of the marked elements are appended to the active list, in
    the order of [pollfds_], each with its received events stored and
    nothing else changed. *)
Theorem poll_poll_reports rs act h pp :
  let pfds := write_revents (pollfds_ pp) rs in
  poll_inv (regs h) pp -> length rs = length (pollfds_ pp) ->
  (forall pfd, pfd ∈ pfds -> fd pfd < 0 -> revents pfd = 0) ->
  exists h', poll (Some (count_marked pfds, rs)) act h pp =
      Ok (h', mk (channels_ pp) pfds, act ++ (marked (channels_ pp) pfds).*1) /\
    reported (marked (channels_ pp) pfds) h h' /\ poll_inv (regs h') (mk (channels_ pp) pfds) /\
    (forall p r, (p, r) ∈ marked (channels_ pp) pfds <->
      exists f ev ix, regs h !! p = Some (f, ev, ix) /\ rs !! Z.to_nat ix = Some r /\ 0 < r).
Proof.
  intros pfds Hi Hlen Hoff. pose proof (poll_inv_revents _ _ _ Hlen Hi) as Hi1. fold pfds in Hi1.
  pose proof Hi1 as (Hm & Hr & Hb). cbn in Hm, Hr, Hb.
  assert (forall pfd, pfd ∈ pfds -> 0 < revents pfd -> 0 <= fd pfd) as Hpos.
  { intros pfd Hin Hp. destruct (Z.le_gt_cases 0 (fd pfd)); [done|]. rewrite Hoff in Hp by done. lia. }
  pose proof (marked_NoDup _ _ _ Hm (poll_inv_slots _ _ Hi1) Hpos) as Hnd.
  destruct (fill_reports pfds h (mk (channels_ pp) pfds)) as (h' & Hf & Hrep); [|done|].
  { intros pfd Hin Hp. pose proof (Hpos _ Hin Hp) as Hp0. apply list_elem_of_lookup in Hin as [i Hl].
    destruct (poll_inv_find _ _ _ _ Hi1 Hl Hp0) as (p & ev & Hrp). cbn. pose proof (regs_Some _ _ _ _ _ Hrp) as (c & Hc & _ & Hfd & _).
    exists p, c. split_and!; [|done..]. apply Hm. eauto. }
  exists h'. cbn in Hf. unfold poll. cbn [channels_ pollfds_]. fold pfds. split_and!.
  - destruct (Z.ltb_spec 0 (count_marked pfds)) as [Hc|Hc]; [by rewrite Hf|].
    rewrite fill_none in Hf by done. injection Hf as <- Hn. by rewrite <- Hn, app_nil_r.
  - done.
  - by rewrite (regs_reported _ _ _ Hnd Hrep).
  - intros p r. by apply (marked_spec (regs h)).
Qed.

Lemma poll_poll_reports_witness :
  let c1 := Channel.set_index 0 (Channel.with_addedToLoop true (Channel.with_events 3 (Channel.new 5))) in
  let pp := mk {[5 := 1%nat]} [mkPollfd 5 3 0] in
  let h : Channel.heap := {[1%nat := c1]} in
  exists h', poll (Some (1, [POLLIN])) [] h pp = Ok (h', mk {[5 := 1%nat]} [mkPollfd 5 3 POLLIN], [1%nat]) /\
    reported [(1%nat, POLLIN)] h h'.
Proof.
  intros c1 pp h. destruct (poll_poll_reports [POLLIN] [] h pp) as (h' & H1 & H2 & _).
  - split_and!.
    + intros f p. unfold regs, h. rewrite lookup_omap. cbn [channels_ pp]. rewrite lookup_singleton_Some. split.
      * intros [<- <-]. exists 3, 0. reflexivity.
      * intros (ev & ix & Hr). destruct (decide (p = 1%nat)) as [->|]; [|by rewrite lookup_singleton_ne in Hr].
        rewrite lookup_singleton_eq in Hr. by injection Hr as <- <- <-.
    + intros p f ev ix Hr. unfold regs, h in Hr. rewrite lookup_omap in Hr.
      destruct (decide (p = 1%nat)) as [->|]; [|by rewrite lookup_singleton_ne in Hr].
      rewrite lookup_singleton_eq in Hr. injection Hr as <- <- <-.
      split_and!; [vm_compute; split; [discriminate|reflexivity]..|vm_compute; discriminate|].
      exists (mkPollfd 5 3 0). split_and!; try reflexivity. cbn. lia.
    + intros [|i] pfd Hl; [|done]. injection Hl as <-. exists 1%nat, 3. reflexivity.
  - reflexivity.
  - intros pfd [->|Hin]%elem_of_cons; [cbn; lia|by apply elem_of_nil in Hin].
  - exists h'. split; [exact H1|exact H2].
Defined.

End PollFacts.
