(* ===== verification/DefaultPoller.v ===== *)
(** * The default poller

    net/poller/DefaultPoller.cc: the environment variable MUDUO_USE_POLL
    selects poll(2) instead of epoll(4).  The poller it makes is one of two
    subclasses of [Poller]; calls go to the virtual functions of whichever it
    is, and the contract of PollerSpec.v holds of both. *)

From S2P Require Import Prelude Poller PollerSpec.

Local Open Scope Z_scope.

Module DefaultPoller.
Section Default.
Context {kernel : EPollPoller.Kernel}.

(** A [Poller*] with the object it points to *)
Inductive t :=
  | PollPoller (pp : PollPoller.t)
  | EPollPoller (e : EPollPoller.t).

(** [Poller::newDefaultPoller(loop)]; getenv(3) gives the value of the
    variable, if it is set. *)
Definition newDefaultPoller (getenv : string -> option bytes) : t :=
  match getenv "MUDUO_USE_POLL"%string with
  | Some _ => PollPoller PollPoller.new
  | None => EPollPoller EPollPoller.new
  end.

(** Virtual calls *)
Definition virtual (fp : Channel.heap -> PollPoller.t -> outcome (Channel.heap * PollPoller.t))
    (fe : Channel.heap -> EPollPoller.t -> outcome (Channel.heap * EPollPoller.t)) (h : Channel.heap) (p : t) : outcome (Channel.heap * t) :=
  match p with
  | PollPoller pp => '(h, pp) ← fp h pp; Ok (h, PollPoller pp)
  | EPollPoller e => '(h, e) ← fe h e; Ok (h, EPollPoller e)
  end.

#[global] Instance poller : Poller t := {
  updateChannel p := virtual (updateChannel p) (updateChannel p);
  removeChannel p := virtual (removeChannel p) (removeChannel p);
  channels p := match p with PollPoller pp => channels pp | EPollPoller e => channels e end;
  interest p := match p with PollPoller pp => interest pp | EPollPoller e => interest e end;
}.

Hypothesis no_error : EPollFacts.no_ctl_error.

#[global] Instance default_spec : PollerSpec t.
Proof.
  pose proof (EPollFacts.epoll_spec no_error) as es.
  refine {|
    inv R p := match p with PollPoller pp => inv R pp | EPollPoller e => inv R e end;
    idle R p q := match p with PollPoller pp => idle R pp q | EPollPoller e => idle R e q end;
  |}.
  - intros R [pp|e] fd p; [apply (inv_channels (P := PollPoller.t) R pp)|apply (inv_channels (P := EPollPoller.t) R e)].
  - intros R [pp|e] fd ev; [apply (inv_sound (P := PollPoller.t) R pp)|apply (inv_sound (P := EPollPoller.t) R e)].
  - intros R [pp|e] p fd ev ix; [apply (inv_complete (P := PollPoller.t) R pp)|apply (inv_complete (P := EPollPoller.t) R e)].
  - intros h [pp|e] p c ev; intros Hi Hc Ha Hix Hch Hfd Hev;
    [destruct (update_new (P := PollPoller.t) h pp p c ev Hi Hc Ha Hix Hch Hfd Hev) as (ix & P' & Hu & Hx); exists ix; eexists; (split; [cbn [updateChannel removeChannel poller virtual]; rewrite Hu; reflexivity|exact Hx])
    |destruct (update_new (P := EPollPoller.t) h e p c ev Hi Hc Ha Hix Hch Hfd Hev) as (ix & P' & Hu & Hx); exists ix; eexists; (split; [cbn [updateChannel removeChannel poller virtual]; rewrite Hu; reflexivity|exact Hx])].
  - intros h [pp|e] p c ev; intros Hi Hc Ha Hev;
    [destruct (update_old (P := PollPoller.t) h pp p c ev Hi Hc Ha Hev) as (ix & P' & Hu & Hx); exists ix; eexists; (split; [cbn [updateChannel removeChannel poller virtual]; rewrite Hu; reflexivity|exact Hx])
    |destruct (update_old (P := EPollPoller.t) h e p c ev Hi Hc Ha Hev) as (ix & P' & Hu & Hx); exists ix; eexists; (split; [cbn [updateChannel removeChannel poller virtual]; rewrite Hu; reflexivity|exact Hx])].
  - intros h [pp|e] p c; intros Hi Hc Ha Hev Hid;
    [destruct (remove_idle (P := PollPoller.t) h pp p c Hi Hc Ha Hev Hid) as (h' & P' & Hr & Hx); exists h'; eexists; (split; [cbn [updateChannel removeChannel poller virtual]; rewrite Hr; reflexivity|exact Hx])
    |destruct (remove_idle (P := EPollPoller.t) h e p c Hi Hc Ha Hev Hid) as (h' & P' & Hr & Hx); exists h'; eexists; (split; [cbn [updateChannel removeChannel poller virtual]; rewrite Hr; reflexivity|exact Hx])].
Defined.

(** Whatever the environment says, channels that follow the protocol of
    Channel.h are watched by the default poller for exactly what they ask
    for, and no assertion fails. *)
Theorem default_poller_watches getenv ops T :
  Interest.spec_run ops Interest.empty_table = Some T ->
  exists h p, Interest.run ops (∅, newDefaultPoller getenv) = Ok (h, p) /\ Interest.watches T p.
Proof.
  intros Hs. apply (Interest.run_watches (P := t)); [|done]. unfold newDefaultPoller.
  destruct (getenv _); [apply PollFacts.poll_new_inv|apply EPollFacts.epoll_new_inv].
Qed.

End Default.

Lemma default_poller_watches_witness :
  let kernel : EPollPoller.Kernel := fun _ _ => false in
  let ops := [Interest.New 1 5; Interest.Change Interest.EnableReading 1; Interest.New 2 7; Interest.Change Interest.EnableWriting 2;
              Interest.Change Interest.DisableAll 1; Interest.Remove 1; Interest.Destroy 1]%nat in
  exists h p, Interest.run ops (∅, newDefaultPoller (fun _ => Some (bs "1"))) = Ok (h, p) /\
    Interest.watches (Interest.mkTable {[2%nat := (7, true)]} {[2%nat := (4, false)]}) p.
Proof.
  intros kernel ops. apply (default_poller_watches (kernel := kernel)).
  - intros op fd. reflexivity.
  - vm_compute. reflexivity.
Defined.

End DefaultPoller.
