(* ===== verification/Timestamp.v ===== *)
(** * Time stamps

    [Module Timestamp] models src/muduo/base/Timestamp.h and Timestamp.cc: a
    time stamp is its number of microseconds, an [int64_t] whose arithmetic is
    undefined when it overflows.  [double] is IEEE 754 binary64 as the Standard
    Library specifies it ([SpecFloat]: 53 bits of precision, exponents below
    1024).  [toFormattedString], which needs the calendar of the C library, is
    in Clock.v. *)

From Stdlib Require Import SpecFloat.
From S2P Require Import Prelude.

Local Open Scope Z_scope.

(** ** double *)

Definition double : Type := spec_float.

Definition d_zero : double := S754_zero false.
Definition d_of_Z (z : Z) : double := binary_normalize 53 1024 z 0 false.
Definition d_mul : double -> double -> double := SFmul 53 1024.
Definition d_div : double -> double -> double := SFdiv 53 1024.
Definition d_lt : double -> double -> bool := SFltb.

(** [static_cast<int64_t>(x)]: towards zero, undefined for values that do not
    fit. *)
Definition d_to_int64 (x : double) : outcome Z :=
  match x with
  | S754_zero _ => Ok 0
  | S754_finite s m e =>
      let v := if 0 <=? e then Z.pos m * 2 ^ e else Z.pos m / 2 ^ (- e) in
      ck64 (if s then - v else v)
  | _ => Fault SignedOverflow
  end.

Module Timestamp.

(** [microSecondsSinceEpoch_] *)
Abbreviation t := Z.

Definition kMicroSecondsPerSecond : Z := 1000 * 1000.

Definition invalid : t := 0.
Definition valid (ts : t) : bool := 0 <? ts.
Definition secondsSinceEpoch (ts : t) : Z := Z.quot ts kMicroSecondsPerSecond.

Definition fromUnixTime (s microseconds : Z) : outcome t :=
  us ← ck64 (s * kMicroSecondsPerSecond); ck64 (us + microseconds).

(** [now]: [tv] is what gettimeofday(2) stored. *)
Definition now (tv_sec tv_usec : Z) : outcome t :=
  us ← ck64 (tv_sec * kMicroSecondsPerSecond); ck64 (us + tv_usec).

Definition timeDifference (high low : t) : outcome double :=
  diff ← ck64 (high - low);
  Ok (d_div (d_of_Z diff) (d_of_Z kMicroSecondsPerSecond)).

Definition addTime (timestamp : t) (seconds : double) : outcome t :=
  delta ← d_to_int64 (d_mul seconds (d_of_Z kMicroSecondsPerSecond));
  ck64 (timestamp + delta).

(** printf's [%0wd] *)
Definition dec0 (w : nat) (z : Z) : bytes :=
  let s := map digit_char (rev (digits (digit_fuel (Z.abs z)) 10 (Z.abs z))) in
  let sign := if z <? 0 then bs "-" else [] in
  sign ++ replicate (w - length sign - length s) (digit_char 0) ++ s.

(** [snprintf(buf, cap, ...)] keeps what fits, with the terminating NUL. *)
Definition snprintf (cap : nat) (s : bytes) : bytes := take (cap - 1) s.

Definition toString (ts : t) : bytes :=
  let seconds := Z.quot ts kMicroSecondsPerSecond in
  let microseconds := Z.rem ts kMicroSecondsPerSecond in
  snprintf 32 (dec seconds ++ bs "." ++ dec0 6 microseconds).

(** A positive number of seconds never takes a time stamp back. *)
Lemma d_mul_positive x y :
  d_lt d_zero x = true -> d_lt d_zero y = true -> d_lt (d_mul x y) d_zero = false.
Proof.
  unfold d_lt, d_zero, SFltb, d_mul. destruct x as [s|[]| |[] m e], y as [s'|[]| |[] m' e'];
    cbn; try discriminate; try done; intros _ _.
  unfold binary_round_aux. destruct (shr_fexp _ _ _ _ _) as [mrs e1].
  destruct (shr_fexp _ _ _ e1 _) as [mrs2 e2]. destruct (shr_m mrs2); [done| |done].
  by destruct (e2 <=? _).
Qed.

Lemma d_to_int64_nonneg x v : d_lt x d_zero = false -> d_to_int64 x = Ok v -> 0 <= v.
Proof.
  unfold d_lt, d_zero, SFltb, d_to_int64. destruct x as [s|[]| |[] m e]; cbn; try discriminate.
  - intros _ [= <-]. lia.
  - intros _. unfold ck64. case_match; [|done]. intros [= <-].
    case_cmp; [apply Z.mul_nonneg_nonneg; [lia|apply Z.pow_nonneg; lia]|].
    apply Z.div_pos; [lia|apply Z.pow_pos_nonneg; lia].
Qed.

Lemma addTime_monotone ts seconds ts' :
  d_lt d_zero seconds = true -> addTime ts seconds = Ok ts' -> ts <= ts'.
Proof.
  intros Hpos H. unfold addTime in H. apply bind_Ok in H as (delta & Hd & Hc).
  apply d_to_int64_nonneg in Hd; [|by apply d_mul_positive].
  unfold ck64 in Hc. case_match; [|done]. injection Hc as <-. lia.
Qed.

End Timestamp.
