(* ===== verification/TimerQueue.v ===== *)
(** * The timer queue

    [Module Timer] models src/muduo/net/Timer.h and Timer.cc,
    [Module TimerQueue] models src/muduo/net/TimerQueue.h and TimerQueue.cc.
    Timers are objects of a heap that [new] and [delete] change, and a pointer
    is an address; [std::set]s of pairs are sorted lists where their order
    matters and sets otherwise.  Time passes by [tick]: each reading of the
    clock is preceded by an arbitrary delay, an argument of the operation that
    reads it.  [timerfd] is the time at which timerfd_ becomes readable.  A timer
    callback is the list of timer operations it performs. *)

From S2P Require Import Prelude Timestamp.

Local Open Scope Z_scope.

Module Timer.

Record t := mk {
  callback_ : nat;
  expiration_ : Timestamp.t;
  interval_ : double;
  repeat_ : bool;
  sequence_ : Z;
}.

Definition new (cb : nat) (when : Timestamp.t) (interval : double) (sequence : Z) : t :=
  mk cb when interval (d_lt d_zero interval) sequence.

Definition restart (now : Timestamp.t) (tm : t) : outcome t :=
  if repeat_ tm then
    e ← Timestamp.addTime now (interval_ tm);
    Ok (mk (callback_ tm) e (interval_ tm) (repeat_ tm) (sequence_ tm))
  else Ok (mk (callback_ tm) Timestamp.invalid (interval_ tm) (repeat_ tm) (sequence_ tm)).

End Timer.

Module TimerQueue.

(** [typedef std::pair<Timestamp, Timer*> Entry] and its order. *)
Definition Entry : Type := Timestamp.t * Z.

Definition entry_lt (a b : Entry) : bool :=
  (a.1 <? b.1) || ((a.1 =? b.1) && (a.2 <? b.2)).

(** [std::set<Entry>] as its elements in order: [insert], [erase] by value,
    and the elements before and from [lower_bound]. *)
Fixpoint set_insert (x : Entry) (l : list Entry) : list Entry * bool :=
  match l with
  | [] => ([x], true)
  | y :: l' =>
      if entry_lt x y then (x :: l, true)
      else if entry_lt y x then let r := set_insert x l' in (y :: r.1, r.2)
      else (l, false)
  end.

Fixpoint set_erase (x : Entry) (l : list Entry) : list Entry * Z :=
  match l with
  | [] => ([], 0)
  | y :: l' => if decide (y = x) then (l', 1) else let r := set_erase x l' in (y :: r.1, r.2)
  end.

Fixpoint lower_bound (x : Entry) (l : list Entry) : list Entry * list Entry :=
  match l with
  | [] => ([], [])
  | y :: l' => if entry_lt y x then let r := lower_bound x l' in (y :: r.1, r.2) else ([], l)
  end.

(** [TimerId]: a pointer that may dangle, and the timer's sequence number. *)
Definition TimerId : Type := Z * Z.

Record t := mk {
  heap : gmap Z Timer.t;
  timers_ : list Entry;
  activeTimers_ : gset (Z * Z);
  callingExpiredTimers_ : bool;
  cancelingTimers_ : gset (Z * Z);
  numCreated : Z;       (* Timer::s_numCreated_ *)
  queued : list Z;      (* timers whose addTimerInLoop is still in the loop's queue *)
  clock : Z;
  timerfd : option Z;
}.

Definition empty (clock : Z) : t := mk ∅ [] ∅ false ∅ 0 [] clock None.

Definition with_heap h s := mk h (timers_ s) (activeTimers_ s) (callingExpiredTimers_ s) (cancelingTimers_ s) (numCreated s) (queued s) (clock s) (timerfd s).
Definition with_timers l a s := mk (heap s) l a (callingExpiredTimers_ s) (cancelingTimers_ s) (numCreated s) (queued s) (clock s) (timerfd s).
Definition with_calling b s := mk (heap s) (timers_ s) (activeTimers_ s) b (cancelingTimers_ s) (numCreated s) (queued s) (clock s) (timerfd s).
Definition with_canceling c s := mk (heap s) (timers_ s) (activeTimers_ s) (callingExpiredTimers_ s) c (numCreated s) (queued s) (clock s) (timerfd s).
Definition with_created n s := mk (heap s) (timers_ s) (activeTimers_ s) (callingExpiredTimers_ s) (cancelingTimers_ s) n (queued s) (clock s) (timerfd s).
Definition with_queued q s := mk (heap s) (timers_ s) (activeTimers_ s) (callingExpiredTimers_ s) (cancelingTimers_ s) (numCreated s) q (clock s) (timerfd s).
Definition with_timerfd f s := mk (heap s) (timers_ s) (activeTimers_ s) (callingExpiredTimers_ s) (cancelingTimers_ s) (numCreated s) (queued s) (clock s) f.

(** Time passes. *)
Definition tick (dt : N) (s : t) : t :=
  mk (heap s) (timers_ s) (activeTimers_ s) (callingExpiredTimers_ s) (cancelingTimers_ s) (numCreated s) (queued s)
     (clock s + Z.of_N dt) (timerfd s).

Definition deref (p : Z) (s : t) : outcome Timer.t :=
  match heap s !! p with Some tm => Ok tm | None => Fault OutOfBounds end.

(** [timers_.size() == activeTimers_.size()] *)
Definition sizes_agree (s : t) : bool := (length (timers_ s) =? size (activeTimers_ s))%nat.

Definition UINTPTR_MAX : Z := 2 ^ 64 - 1.

(** ** timerfd *)

(** The [timespec] until [when], at the clock reading [now]. *)
Definition howMuchTimeFromNow (when now : Timestamp.t) : outcome (Z * Z) :=
  microseconds ← ck64 (when - now);
  let microseconds := if microseconds <? 100 then 100 else microseconds in
  Ok (Z.quot microseconds Timestamp.kMicroSecondsPerSecond,
      Z.rem microseconds Timestamp.kMicroSecondsPerSecond * 1000).

(** timerfd_settime(2) with a relative one-shot value. *)
Definition resetTimerfd (dt : N) (expiration : Timestamp.t) (s : t) : outcome t :=
  let s := tick dt s in
  ts ← howMuchTimeFromNow expiration (clock s);
  Ok (with_timerfd (Some (clock s + ts.1 * 1000000 + Z.quot (ts.2) 1000)) s).

(** read(2) consumes an expiration; there is none (EAGAIN) before the time. *)
Definition readTimerfd (s : t) : t :=
  match timerfd s with
  | Some d => if d <=? clock s then with_timerfd None s else s
  | None => s
  end.

(** ** The operations *)

(** [new Timer(cb, when, interval)]: the allocator returns some free address
    [hint] or throws. *)
Definition new_timer (hint : Z) (cb : nat) (when : Timestamp.t) (interval : double) (s : t) : outcome (Z * t) :=
  if bool_decide (0 < hint < UINTPTR_MAX /\ heap s !! hint = None) then
    let n := i64 (numCreated s + 1) in
    Ok (hint, with_created n (with_heap (<[hint := Timer.new cb when interval n]> (heap s)) s))
  else Fault BadAlloc.

Definition delete_timer (p : Z) (s : t) : outcome t :=
  _ ← deref p s; Ok (with_heap (delete p (heap s)) s).

Definition insert (timer : Z) (s : t) : outcome (bool * t) :=
  _ ← assert (sizes_agree s);
  tm ← deref timer s;
  let when := Timer.expiration_ tm in
  let earliestChanged := match timers_ s with [] => true | it :: _ => when <? it.1 end in
  let result := set_insert (when, timer) (timers_ s) in
  _ ← assert (result.2);
  let a := (timer, Timer.sequence_ tm) in
  _ ← assert (bool_decide (a ∉ activeTimers_ s));
  let s := with_timers (result.1) ({[a]} ∪ activeTimers_ s) s in
  _ ← assert (sizes_agree s);
  Ok (earliestChanged, s).

Definition addTimerInLoop (dt : N) (timer : Z) (s : t) : outcome t :=
  r ← insert timer s;
  let '(earliestChanged, s) := r in
  if (earliestChanged : bool) then
    tm ← deref timer s;
    resetTimerfd dt (Timer.expiration_ tm) s
  else Ok s.

Definition cancelInLoop (timerId : TimerId) (s : t) : outcome t :=
  _ ← assert (sizes_agree s);
  s ← (if bool_decide (timerId ∈ activeTimers_ s) then
         tm ← deref (timerId.1) s;
         let r := set_erase (Timer.expiration_ tm, timerId.1) (timers_ s) in
         _ ← assert (r.2 =? 1);
         s ← delete_timer (timerId.1) s;
         Ok (with_timers (r.1) (activeTimers_ s ∖ {[timerId]}) s)
       else if callingExpiredTimers_ s then
         Ok (with_canceling ({[timerId]} ∪ cancelingTimers_ s) s)
       else Ok s);
  _ ← assert (sizes_agree s);
  Ok s.

(** [for (const Entry& it : expired) { ... activeTimers_.erase(timer) ... }] *)
Fixpoint erase_active (expired : list Entry) (s : t) : outcome t :=
  match expired with
  | [] => Ok s
  | it :: expired' =>
      tm ← deref (it.2) s;
      let timer := (it.2, Timer.sequence_ tm) in
      _ ← assert (bool_decide (timer ∈ activeTimers_ s));
      erase_active expired' (with_timers (timers_ s) (activeTimers_ s ∖ {[timer]}) s)
  end.

Definition getExpired (now : Timestamp.t) (s : t) : outcome (list Entry * t) :=
  _ ← assert (sizes_agree s);
  let sentry := (now, UINTPTR_MAX) in
  let '(expired, rest) := lower_bound sentry (timers_ s) in
  _ ← assert (match rest with [] => true | it :: _ => now <? it.1 end);
  s ← erase_active expired (with_timers rest (activeTimers_ s) s);
  _ ← assert (sizes_agree s);
  Ok (expired, s).

(** The loop of [reset]. *)
Fixpoint reset_loop (expired : list Entry) (now : Timestamp.t) (s : t) : outcome t :=
  match expired with
  | [] => Ok s
  | it :: expired' =>
      tm ← deref (it.2) s;
      let timer := (it.2, Timer.sequence_ tm) in
      s ← (if Timer.repeat_ tm && bool_decide (timer ∉ cancelingTimers_ s) then
             tm' ← Timer.restart now tm;
             r ← insert (it.2) (with_heap (<[it.2 := tm']> (heap s)) s);
             Ok (r.2)
           else delete_timer (it.2) s);
      reset_loop expired' now s
  end.

Definition reset (dt : N) (expired : list Entry) (now : Timestamp.t) (s : t) : outcome t :=
  s ← reset_loop expired now s;
  nextExpire ← (match timers_ s with
                | [] => Ok Timestamp.invalid
                | it :: _ => tm ← deref (it.2) s; Ok (Timer.expiration_ tm)
                end);
  if Timestamp.valid nextExpire then resetTimerfd dt nextExpire s else Ok s.

(** The destructor frees the timers of [timers_]. *)
Fixpoint delete_all (l : list Entry) (s : t) : outcome t :=
  match l with
  | [] => Ok s
  | timer :: l' => s ← delete_timer (timer.2) s; delete_all l' s
  end.

Definition destroy (s : t) : outcome t := delete_all (timers_ s) s.

(** ** Clients *)

(** What code running in the loop's thread does with timers: [addTimer] runs
    [addTimerInLoop] at once there, [cancel] runs [cancelInLoop]. *)
Inductive cb_op :=
  | AddTimer (hint : Z) (cb : nat) (when : Timestamp.t) (interval : double) (dt : N)
  | Cancel (timerId : TimerId)
  | Wait (dt : N).

Definition run_cb_op (o : cb_op) (s : t) : outcome t :=
  match o with
  | AddTimer hint cb when interval dt =>
      r ← new_timer hint cb when interval s; addTimerInLoop dt (r.1) (r.2)
  | Cancel timerId => cancelInLoop timerId s
  | Wait dt => Ok (tick dt s)
  end.

Fixpoint run_cb (ops : list cb_op) (s : t) : outcome t :=
  match ops with
  | [] => Ok s
  | o :: ops' => s ← run_cb_op o s; run_cb ops' s
  end.

(** [for (const Entry& it : expired) it.second->run();]: [scripts] is what each
    callback does; the callbacks that ran are returned. *)
Fixpoint call_expired (expired : list Entry) (scripts : list (list cb_op)) (s : t) : outcome (list nat * t) :=
  match expired with
  | [] => Ok ([], s)
  | it :: expired' =>
      tm ← deref (it.2) s;
      s ← run_cb (default [] (head scripts)) s;
      r ← call_expired expired' (tail scripts) s;
      Ok (Timer.callback_ tm :: r.1, r.2)
  end.

Definition handleRead (dt_now dt_read dt_reset : N) (scripts : list (list cb_op)) (s : t) : outcome (list nat * t) :=
  let s := tick dt_now s in
  let now := clock s in
  let s := readTimerfd (tick dt_read s) in
  r ← getExpired now s;
  let '(expired, s) := r in
  let s := with_canceling ∅ (with_calling true s) in
  r ← call_expired expired scripts s;
  let '(ran, s) := r in
  let s := with_calling false s in
  s ← reset dt_reset expired now s;
  Ok (ran, s).

(** One event in the loop's thread, or another thread's [addTimer], which
    allocates the timer and queues [addTimerInLoop]. *)
Inductive event :=
  | InLoop (o : cb_op)
  | AddTimerElsewhere (hint : Z) (cb : nat) (when : Timestamp.t) (interval : double)
  | RunQueued (dt : N)
  | HandleRead (dt_now dt_read dt_reset : N) (scripts : list (list cb_op)).

Definition step (e : event) (s : t) : outcome (list nat * t) :=
  match e with
  | InLoop o => s ← run_cb_op o s; Ok ([], s)
  | AddTimerElsewhere hint cb when interval =>
      r ← new_timer hint cb when interval s;
      Ok ([], with_queued (queued s ++ [r.1]) (r.2))
  | RunQueued dt =>
      match queued s with
      | [] => Ok ([], s)
      | p :: q => s ← addTimerInLoop dt p (with_queued q s); Ok ([], s)
      end
  | HandleRead dt_now dt_read dt_reset scripts => handleRead dt_now dt_read dt_reset scripts s
  end.

Fixpoint run (es : list event) (s : t) : outcome (list nat * t) :=
  match es with
  | [] => Ok ([], s)
  | e :: es' =>
      r ← step e s;
      r' ← run es' (r.2);
      Ok (r.1 ++ r'.1, r'.2)
  end.

End TimerQueue.
