(* ===== verification/TimerFacts.v ===== *)
(** * Correctness of the timer queue

    The invariant of src/muduo/net/TimerQueue.cc, that no assertion of it can
    fail and no freed timer is touched, that the timers run are exactly the
    expired ones, that the timerfd is always armed early enough, and what
    [cancel] does. *)

From Stdlib Require Import Sorting.Sorted.
From S2P Require Import Prelude Timestamp TimerQueue.

Local Open Scope Z_scope.

Import TimerQueue.

(** A computation that returns a result satisfying [Q], or stops for lack of
    memory or because a time stamp leaves the range of [int64_t]. *)
Definition safe {A} (m : outcome A) (Q : A -> Prop) : Prop :=
  match m with
  | Ok a => Q a
  | Fault e => e = BadAlloc \/ e = SignedOverflow
  end.

Lemma safe_bind {A B} (m : outcome A) (f : A -> outcome B) P Q :
  safe m P -> (forall a, P a -> safe (f a) Q) -> safe (mbind f m) Q.
Proof. destruct m; cbn; auto. Qed.

Lemma safe_mono {A} (m : outcome A) (P Q : A -> Prop) :
  safe m P -> (forall a, P a -> Q a) -> safe m Q.
Proof. destruct m; cbn; auto. Qed.

Lemma ck64_safe z : safe (ck64 z) (fun x => x = z).
Proof. unfold ck64. case_match; cbn; auto. Qed.

Lemma d_to_int64_safe x : safe (d_to_int64 x) (fun _ => True).
Proof.
  destruct x; cbn [d_to_int64]; cbn [safe]; auto.
  eapply safe_mono; [apply ck64_safe|done].
Qed.

(** ** std::set of entries *)

Lemma entry_lt_spec a b : entry_lt a b = true <-> a.1 < b.1 \/ a.1 = b.1 /\ a.2 < b.2.
Proof. unfold entry_lt. rewrite orb_true_iff, andb_true_iff. lia. Qed.

Lemma entry_lt_false a b : entry_lt a b = false <-> b.1 < a.1 \/ b.1 = a.1 /\ b.2 <= a.2.
Proof. rewrite <- not_true_iff_false, entry_lt_spec. lia. Qed.

Abbreviation sorted := (StronglySorted (fun a b => entry_lt a b = true)).

Lemma entry_total a b : entry_lt a b = false -> entry_lt b a = false -> a = b.
Proof. rewrite !entry_lt_false. destruct a, b. cbn. intros. f_equal; lia. Qed.

Lemma set_insert_new x l :
  x ∉ l -> sorted l ->
  (set_insert x l).2 = true /\ (set_insert x l).1 ≡ₚ x :: l /\ sorted (set_insert x l).1.
Proof.
  induction l as [|y l IH]; cbn [set_insert]; intros Hx Hs.
  { split_and!; [done..|]. repeat constructor. }
  apply not_elem_of_cons in Hx as [Hxy Hx]. apply StronglySorted_inv in Hs as [Hs Hall].
  destruct (entry_lt x y) eqn:E1.
  - split_and!; [done..|]. constructor; [by constructor|]. constructor; [done|].
    eapply List.Forall_impl; [|done]. intros z. cbn. rewrite !entry_lt_spec in *. lia.
  - destruct (entry_lt y x) eqn:E2; [|by destruct Hxy; apply entry_total].
    destruct (IH Hx Hs) as (H1 & H2 & H3). cbn. split_and!; [done| |].
    + rewrite H2. apply Permutation_swap.
    + constructor; [done|]. rewrite H2. by constructor.
Qed.

(** The head after an insertion. *)
Lemma set_insert_head x l :
  exists r, (set_insert x l).1 =
    match l with [] => [x] | y :: _ => if entry_lt x y then x :: l else y :: r end.
Proof.
  destruct l as [|y l]; [by exists []|]. cbn. destruct (entry_lt x y); [by exists []|].
  destruct (entry_lt y x); cbn; eauto.
Qed.

Lemma set_erase_in x l :
  x ∈ l -> (set_erase x l).2 = 1 /\ l ≡ₚ x :: (set_erase x l).1.
Proof.
  induction l as [|y l IH]; [by intros ?%elem_of_nil|]. cbn [set_erase]. intros Hin.
  case_decide as Hy; [by subst|]. apply elem_of_cons in Hin as [->|Hin]; [done|].
  destruct (IH Hin) as [H1 H2]. cbn. split; [done|]. rewrite H2 at 1. apply Permutation_swap.
Qed.

Lemma set_erase_sorted x l : sorted l -> sorted (set_erase x l).1.
Proof.
  induction l as [|y l IH]; [done|]. cbn [set_erase]. intros [Hs Hall]%StronglySorted_inv.
  case_decide; [done|]. cbn. constructor; [auto|]. rewrite List.Forall_forall in *. intros z Hz.
  apply Hall. clear -Hz. induction l as [|w l IH]; [done|]. cbn in Hz |- *. case_decide; [by right|].
  destruct Hz; [by left|right; auto].
Qed.

Lemma lower_bound_split x l :
  sorted l ->
  l = (lower_bound x l).1 ++ (lower_bound x l).2 /\
  (forall y, y ∈ (lower_bound x l).1 -> entry_lt y x = true) /\
  (forall y, y ∈ (lower_bound x l).2 -> entry_lt y x = false).
Proof.
  induction l as [|y l IH]; cbn [lower_bound]; intros Hs.
  { split_and!; [done|by intros ? ?%elem_of_nil..]. }
  apply StronglySorted_inv in Hs as [Hs Hall]. destruct (entry_lt y x) eqn:E; cbn.
  - destruct (IH Hs) as (H1 & H2 & H3). split_and!; [by f_equal| |done].
    intros z [->|Hz]%elem_of_cons; auto.
  - split_and!; [done|by intros ? ?%elem_of_nil|]. intros z [->|Hz]%elem_of_cons; [done|].
    rewrite List.Forall_forall in Hall. specialize (Hall z). rewrite <- list_elem_of_In in Hall. specialize (Hall Hz). cbn in Hall.
    rewrite entry_lt_spec in Hall. rewrite entry_lt_false in *. lia.
Qed.

Lemma sorted_app l k : sorted (l ++ k) -> sorted k.
Proof. induction l; [done|]. cbn. by intros [? _]%StronglySorted_inv; auto. Qed.

Lemma set_erase_head x l :
  sorted l -> forall y r, (set_erase x l).1 = y :: r ->
  exists z r', l = z :: r' /\ z.1 <= y.1.
Proof.
  destruct l as [|z l]; [done|]. cbn. intros [_ Hall]%StronglySorted_inv y r. case_decide.
  - cbn. intros ->. exists z, (y :: r). split; [done|]. inversion Hall as [|? ? Hzy]; subst. apply entry_lt_spec in Hzy. lia.
  - cbn. intros [= -> <-]. eexists _, _. split; [done|]. lia.
Qed.

(** ** The invariant *)

Definition key (h : gmap Z Timer.t) (e : Entry) : Z * Z :=
  (e.2, match h !! e.2 with Some tm => Timer.sequence_ tm | None => 0 end).

(** [outside] are the timers of the heap that are not in [timers_]. *)
Record inv (outside : list Z) (s : t) : Prop := {
  inv_sorted : sorted (timers_ s);
  inv_nodup : NoDup (map snd (timers_ s) ++ outside);
  inv_heap : forall p, is_Some (heap s !! p) <-> p ∈ map snd (timers_ s) ++ outside;
  inv_expiration : forall e p tm, (e, p) ∈ timers_ s -> heap s !! p = Some tm -> Timer.expiration_ tm = e;
  inv_active : activeTimers_ s = list_to_set (map (key (heap s)) (timers_ s));
  inv_address : forall p, is_Some (heap s !! p) -> 0 < p < UINTPTR_MAX;
  inv_clock : 0 < clock s;
  inv_repeat : forall p tm, heap s !! p = Some tm -> Timer.repeat_ tm = true ->
    d_lt d_zero (Timer.interval_ tm) = true;
}.

Lemma inv_perm O O' s : O ≡ₚ O' -> inv O s -> inv O' s.
Proof.
  intros Hp [H1 H2 H3 H4 H5 H6 H7 H8]. constructor; try done.
  - by rewrite <- Hp.
  - intros p. rewrite H3. by rewrite Hp.
Qed.

Lemma key_nodup h l : NoDup (map snd l) -> NoDup (map (key h) l).
Proof.
  induction l as [|x l IH]; cbn; [constructor|]. intros [Hx Hl]%list.NoDup_cons.
  apply list.NoDup_cons. split; [|auto]. intros (y & Hy & Hin)%list_elem_of_fmap. apply Hx.
  injection Hy as Hy _. apply list_elem_of_fmap. eauto.
Qed.

Lemma inv_timers_nodup O s : inv O s -> NoDup (map snd (timers_ s)).
Proof. intros Hi. apply inv_nodup in Hi. by apply list.NoDup_app in Hi as (? & _). Qed.

Lemma inv_sizes O s : inv O s -> sizes_agree s = true.
Proof.
  intros Hi. unfold sizes_agree. rewrite (inv_active _ _ Hi). rewrite size_list_to_set.
  - rewrite length_map. apply Nat.eqb_refl.
  - apply key_nodup. by eapply inv_timers_nodup.
Qed.

Lemma inv_in_heap O s p : inv O s -> p ∈ map snd (timers_ s) ++ O -> exists tm, heap s !! p = Some tm.
Proof. intros Hi Hp. by apply (inv_heap _ _ Hi) in Hp. Qed.

Lemma timer_deref_Some p s tm : heap s !! p = Some tm -> deref p s = Ok tm.
Proof. unfold deref. by intros ->. Qed.

(** Membership in [activeTimers_]. *)
Lemma inv_active_elem O s p q :
  inv O s ->
  (p, q) ∈ activeTimers_ s <->
  exists tm, heap s !! p = Some tm /\ Timer.sequence_ tm = q /\ (Timer.expiration_ tm, p) ∈ timers_ s.
Proof.
  intros Hi. rewrite (inv_active _ _ Hi), elem_of_list_to_set, list_elem_of_fmap. split.
  - intros ([e p'] & Hk & Hin). injection Hk as -> ->. cbn in *.
    destruct (inv_in_heap O s p' Hi) as [tm Htm].
    { apply elem_of_app. left. apply list_elem_of_fmap. by exists (e, p'). }
    exists tm. rewrite Htm. split_and!; [done..|]. by rewrite (inv_expiration _ _ Hi e p' tm Hin Htm).
  - intros (tm & Htm & <- & Hin). eexists. split; [|done]. unfold key. cbn. by rewrite Htm.
Qed.

Lemma inv_tick O dt s : inv O s -> inv O (tick dt s).
Proof. intros []. constructor; try done. cbn. lia. Qed.

(** A field the invariant does not mention. *)
Lemma inv_same O s s' :
  heap s' = heap s -> timers_ s' = timers_ s -> activeTimers_ s' = activeTimers_ s -> clock s' = clock s ->
  inv O s -> inv O s'.
Proof. intros E1 E2 E3 E4 []. constructor; rewrite ?E1, ?E2, ?E3, ?E4; done. Qed.

Lemma list_to_set_perm_key h l k : l ≡ₚ k -> list_to_set (C := gset (Z * Z)) (map (key h) l) = list_to_set (map (key h) k).
Proof. intros Hp. apply list_to_set_perm_L. by rewrite Hp. Qed.

(** ** The operations keep the invariant *)

Lemma insert_spec O p s :
  inv (p :: O) s ->
  exists tm s', heap s !! p = Some tm /\
    insert p s = Ok (match timers_ s with [] => true | it :: _ => Timer.expiration_ tm <? it.1 end, s') /\
    inv O s' /\ timers_ s' = (set_insert (Timer.expiration_ tm, p) (timers_ s)).1 /\
    heap s' = heap s /\ clock s' = clock s /\ timerfd s' = timerfd s /\ queued s' = queued s /\
    cancelingTimers_ s' = cancelingTimers_ s /\ callingExpiredTimers_ s' = callingExpiredTimers_ s.
Proof.
  intros Hi. destruct (inv_in_heap _ _ p Hi) as [tm Htm]; [apply elem_of_app; right; by left|].
  assert (p ∉ map snd (timers_ s)) as Hp.
  { pose proof (inv_nodup _ _ Hi) as Hnd. apply list.NoDup_app in Hnd as (_ & Hnd & _). intros Hin. apply (Hnd p Hin). by left. }
  destruct (set_insert_new (Timer.expiration_ tm, p) (timers_ s)) as (H1 & H2 & H3);
    [intros Hin; apply Hp, list_elem_of_fmap; by exists (Timer.expiration_ tm, p)|exact (inv_sorted _ _ Hi)|].
  set (s' := with_timers (set_insert (Timer.expiration_ tm, p) (timers_ s)).1 ({[(p, Timer.sequence_ tm)]} ∪ activeTimers_ s) s).
  assert (inv O s') as Hi'.
  { constructor; cbn; [done|..|exact (inv_address _ _ Hi)|exact (inv_clock _ _ Hi)|exact (inv_repeat _ _ Hi)].
    - rewrite H2. cbn. rewrite Permutation_middle. exact (inv_nodup _ _ Hi).
    - intros q. rewrite (inv_heap _ _ Hi), H2. cbn. by rewrite Permutation_middle.
    - intros e q tm'. rewrite H2, elem_of_cons. intros [[= -> ->]|Hin]; [congruence|]. by apply (inv_expiration _ _ Hi).
    - rewrite (list_to_set_perm_key _ _ _ H2). cbn. rewrite (inv_active _ _ Hi).
      unfold key at 2. cbn. by rewrite Htm. }
  exists tm, s'. split; [done|]. split; [|done].
  unfold insert. rewrite (inv_sizes _ _ Hi), (timer_deref_Some _ _ _ Htm). cbn [assert mbind outcome_bind].
  rewrite H1. cbn [assert mbind outcome_bind]. rewrite bool_decide_eq_true_2.
  - cbn [assert mbind outcome_bind]. fold s'. by rewrite (inv_sizes _ _ Hi').
  - intros Hin. apply (inv_active_elem _ _ _ _ Hi) in Hin as (tm' & _ & _ & Hin). apply Hp, list_elem_of_fmap. by exists (Timer.expiration_ tm', p).
Qed.

(** If the earliest timer satisfies [Q], the timerfd becomes readable no
    later than that timer expires, or 100 microseconds from now. *)
Definition armed (Q : Z -> Prop) (s : t) : Prop := forall e p l,
  timers_ s = (e, p) :: l -> Q e ->
  exists d, timerfd s = Some d /\ d <= Z.max e (clock s + 100).

Definition downward (Q : Z -> Prop) : Prop := forall e e', e <= e' -> Q e' -> Q e.

(** What an operation of the loop's thread leaves alone, besides the timers
    in [O]. *)
Definition frame (O : list Z) (s s' : t) : Prop :=
  queued s' = queued s /\ callingExpiredTimers_ s' = callingExpiredTimers_ s /\
  (forall p, p ∈ O -> heap s' !! p = heap s !! p) /\ clock s <= clock s' /\
  cancelingTimers_ s ⊆ cancelingTimers_ s'.

Lemma frame_refl O s : frame O s s.
Proof. unfold frame. split_and!; set_solver || lia. Qed.

Lemma frame_trans O s1 s2 s3 : frame O s1 s2 -> frame O s2 s3 -> frame O s1 s3.
Proof.
  intros (A1 & A2 & A3 & A4 & A5) (B1 & B2 & B3 & B4 & B5). unfold frame. split_and!; [congruence..| |lia|set_solver].
  intros p Hp. rewrite B3, A3 by done. done.
Qed.

Lemma howMuchTimeFromNow_spec when now :
  safe (howMuchTimeFromNow when now)
    (fun ts => 0 <= ts.1 /\ 0 <= ts.2 < 1000000000 /\
       now + ts.1 * 1000000 + Z.quot (ts.2) 1000 = Z.max when (now + 100)).
Proof.
  unfold howMuchTimeFromNow. eapply safe_bind; [apply ck64_safe|]. intros us ->. cbn [safe fst snd].
  unfold Timestamp.kMicroSecondsPerSecond. change (1000 * 1000) with 1000000.
  set (us := if when - now <? 100 then 100 else when - now).
  assert (us = Z.max (when - now) 100) as Hus by (unfold us; case_cmp; lia). clearbody us.
  rewrite Z.quot_div_nonneg, Z.rem_mod_nonneg by lia.
  pose proof (Z.mod_pos_bound us 1000000). pose proof (Z.div_mod us 1000000).
  rewrite Z.quot_mul by lia. pose proof (Z.div_pos us 1000000). lia.
Qed.

Lemma resetTimerfd_spec dt e s :
  safe (resetTimerfd dt e s)
    (fun s' => s' = with_timerfd (Some (Z.max e (clock s + Z.of_N dt + 100))) (tick dt s)).
Proof.
  unfold resetTimerfd. eapply safe_bind; [apply howMuchTimeFromNow_spec|].
  intros ts (_ & _ & ->). done.
Qed.

Lemma armed_tick Q dt s : armed Q s -> armed Q (tick dt s).
Proof. intros Ha e p l Ht Hq. destruct (Ha e p l Ht Hq) as (d & Hd & Hle). exists d. split; [done|]. cbn. lia. Qed.

Lemma addTimerInLoop_spec O Q dt p s :
  inv (p :: O) s -> armed Q s ->
  safe (addTimerInLoop dt p s)
    (fun s' => inv O s' /\ armed Q s' /\ frame O s s' /\ heap s' = heap s /\ p ∈ map snd (timers_ s') /\
      cancelingTimers_ s' = cancelingTimers_ s).
Proof.
  intros Hi Ha. destruct (insert_spec O p s Hi) as (tm & s' & Htm & Hins & Hi' & Ht & Hh & Hc & Hf & Hq & Hcn & Hcl).
  unfold addTimerInLoop. rewrite Hins. cbn [mbind outcome_bind].
  destruct (set_insert_head (Timer.expiration_ tm, p) (timers_ s)) as [r Hr]. rewrite <- Ht in Hr.
  assert (p ∈ map snd (timers_ s')) as Hp.
  { rewrite Ht. destruct (set_insert_new (Timer.expiration_ tm, p) (timers_ s)) as (_ & Hperm & _);
      [|apply (inv_sorted _ _ Hi)|rewrite Hperm; by left].
    intros Hin. pose proof (inv_nodup _ _ Hi) as Hnd. apply list.NoDup_app in Hnd as (_ & Hnd & _).
    apply (Hnd p); [|by left]. apply list_elem_of_fmap. by exists (Timer.expiration_ tm, p). }
  assert (frame O s s') as Hfr by (unfold frame; rewrite Hq, Hcl, Hh, Hc, Hcn; split_and!; done || lia).
  destruct (match timers_ s with [] => true | it :: _ => Timer.expiration_ tm <? it.1 end) eqn:Eb.
  - rewrite (timer_deref_Some _ _ tm) by congruence. cbn [mbind outcome_bind].
    eapply safe_mono; [apply resetTimerfd_spec|]. intros s2 ->. split_and!.
    + apply inv_same with (tick dt s'); [done..|]. by apply inv_tick.
    + intros e q l Hl _. cbn in Hl |- *. eexists. split; [done|].
      assert (e = Timer.expiration_ tm) as ->; [|lia].
      rewrite Hl in Hr. destruct (timers_ s) as [|it l0]; [by injection Hr|].
      assert (entry_lt (Timer.expiration_ tm, p) it = true) as Hlt by (apply entry_lt_spec; cbn; lia).
      rewrite Hlt in Hr. by injection Hr.
    + eapply frame_trans; [done|]. unfold frame. cbn. split_and!; done || lia.
    + cbn. done.
    + done.
    + cbn. done.
  - cbn [safe]. split_and!; try done. intros e q l Hl Hqe.
    destruct (timers_ s) as [|[e0 p0] l0] eqn:E0; [done|]. rewrite Hl in Hr. cbn in Eb.
    rewrite Hf, Hc. destruct (entry_lt (Timer.expiration_ tm, p) (e0, p0)) eqn:Elt.
    + apply entry_lt_spec in Elt. cbn in Elt. injection Hr as -> _ _.
      assert (Timer.expiration_ tm = e0) as He by lia. rewrite He in *. by eapply Ha.
    + injection Hr as -> _ _. by eapply Ha.
Qed.

Lemma new_timer_spec O hint cb when interval s :
  inv O s ->
  safe (new_timer hint cb when interval s)
    (fun r => r.1 = hint /\ inv (hint :: O) (r.2) /\ frame O s (r.2) /\
      timers_ (r.2) = timers_ s /\ timerfd (r.2) = timerfd s /\ clock (r.2) = clock s /\
      cancelingTimers_ (r.2) = cancelingTimers_ s).
Proof.
  intros Hi. unfold new_timer. case_bool_decide as Hh; [|cbn; auto]. destruct Hh as [Hr Hn]. cbn [safe fst snd].
  assert (hint ∉ map snd (timers_ s) ++ O) as Hnin.
  { intros Hin%(inv_heap _ _ Hi). rewrite Hn in Hin. by destruct Hin. }
  split; [done|]. split; [|split; [|done]].
  - constructor; cbn.
    + apply Hi.
    + rewrite <- Permutation_middle. apply list.NoDup_cons. split; [done|apply (inv_nodup _ _ Hi)].
    + intros q. rewrite <- Permutation_middle, elem_of_cons, <- (inv_heap _ _ Hi).
      destruct (decide (q = hint)) as [->|]; [rewrite lookup_insert_eq|rewrite lookup_insert_ne by done]; naive_solver.
    + intros e q tm Hin. rewrite lookup_insert_ne; [by apply (inv_expiration _ _ Hi)|].
      intros ->. apply Hnin, elem_of_app. left. apply list_elem_of_fmap. by exists (e, q).
    + rewrite (inv_active _ _ Hi). f_equal. apply list_fmap_ext. intros i [e q] Hl. unfold key. cbn.
      rewrite lookup_insert_ne; [done|]. intros ->. apply Hnin, elem_of_app. left.
      apply list_elem_of_fmap. exists (e, q). split; [done|]. by eapply list_elem_of_lookup_2.
    + intros q. destruct (decide (q = hint)) as [->|]; [done|]. rewrite lookup_insert_ne by done. apply (inv_address _ _ Hi).
    + apply (inv_clock _ _ Hi).
    + intros q tm. destruct (decide (q = hint)) as [->|].
      * rewrite lookup_insert_eq. by intros [= <-].
      * rewrite lookup_insert_ne by done. apply (inv_repeat _ _ Hi).
  - unfold frame. cbn. split_and!; try done. intros q Hq. apply lookup_insert_ne. intros ->.
    apply Hnin, elem_of_app. by right.
Qed.

(** Erasing an active timer and freeing it. *)
Lemma inv_erase O s p q tm l :
  inv O s -> heap s !! p = Some tm -> Timer.sequence_ tm = q ->
  timers_ s ≡ₚ (Timer.expiration_ tm, p) :: l -> sorted l ->
  p ∉ map snd l ++ O /\
  inv O (with_timers l (activeTimers_ s ∖ {[(p, q)]}) (with_heap (delete p (heap s)) s)).
Proof.
  intros Hi Htm Hseq H2 H3.
  pose proof (inv_nodup _ _ Hi) as Hnd. rewrite H2 in Hnd. cbn in Hnd. apply list.NoDup_cons in Hnd as [Hpn Hnd].
  assert (p ∉ map snd l) as Hpl by (intros ?; apply Hpn, elem_of_app; by left).
  split; [done|].
  constructor; cbn; [done|done|..].
  - intros r. destruct (decide (r = p)) as [->|Hne].
    + rewrite lookup_delete_eq. split; [by intros [? ?]|]. intros Hr. by destruct Hpn.
    + rewrite lookup_delete_ne by done. rewrite (inv_heap _ _ Hi), H2. cbn. rewrite elem_of_cons. naive_solver.
  - intros e r tm' Hr. rewrite lookup_delete_ne.
    + apply (inv_expiration _ _ Hi). rewrite H2. by right.
    + intros ->. apply Hpl, list_elem_of_fmap. by exists (e, r).
  - rewrite (inv_active _ _ Hi), (list_to_set_perm_key _ _ _ H2). cbn.
    assert (key (heap s) (Timer.expiration_ tm, p) = (p, q)) as -> by (unfold key; cbn; by rewrite Htm, Hseq).
    assert (map (key (delete p (heap s))) l = map (key (heap s)) l) as ->.
    { apply list_fmap_ext. intros i [e r] Hl. unfold key. cbn. rewrite lookup_delete_ne; [done|].
      intros ->. apply Hpl, list_elem_of_fmap. exists (e, r). split; [done|]. by eapply list_elem_of_lookup_2. }
    apply leibniz_equiv. intros x. rewrite elem_of_difference, elem_of_union, !elem_of_singleton, !elem_of_list_to_set.
    split; [by intros [[->|?] ?]|]. intros Hx. split; [by right|]. intros ->. apply Hpl.
    apply list_elem_of_fmap in Hx as ([e r] & Hk & Hr). injection Hk as -> _.
    apply list_elem_of_fmap. by exists (e, r).
  - intros r Hr. apply (inv_address _ _ Hi). destruct (decide (r = p)) as [->|]; [eauto|]. by rewrite lookup_delete_ne in Hr.
  - apply (inv_clock _ _ Hi).
  - intros r tm' [_ Hr]%lookup_delete_Some. by apply (inv_repeat _ _ Hi r).
Qed.

Lemma cancelInLoop_spec O Q id s :
  inv O s -> armed Q s -> downward Q ->
  exists s', cancelInLoop id s = Ok s' /\ inv O s' /\ armed Q s' /\ frame O s s' /\
    (if bool_decide (id ∈ activeTimers_ s)
     then heap s' = delete (id.1) (heap s) /\ id.1 ∉ map snd (timers_ s') ++ O /\ timers_ s' ⊆ timers_ s /\
          cancelingTimers_ s' = cancelingTimers_ s
     else s' = if callingExpiredTimers_ s then with_canceling ({[id]} ∪ cancelingTimers_ s) s else s).
Proof.
  intros Hi Ha Hd. destruct id as [p q]. unfold cancelInLoop. rewrite (inv_sizes _ _ Hi). cbn [assert mbind outcome_bind].
  case_bool_decide as Hact.
  - pose proof (proj1 (inv_active_elem _ _ _ _ Hi) Hact) as (tm & Htm & Hseq & Hin).
    cbn [fst]. rewrite (timer_deref_Some _ _ _ Htm). cbn [mbind outcome_bind].
    destruct (set_erase_in _ _ Hin) as [H1 H2]. pose proof (set_erase_sorted (Timer.expiration_ tm, p) _ (inv_sorted _ _ Hi)) as H3.
    pose proof (set_erase_head (Timer.expiration_ tm, p) _ (inv_sorted _ _ Hi)) as H4.
    rewrite H1. unfold delete_timer. rewrite (timer_deref_Some _ _ _ Htm). cbn [assert Z.eqb Pos.eqb mbind outcome_bind].
    set (l := (set_erase (Timer.expiration_ tm, p) (timers_ s)).1) in *.
    set (s' := with_timers l _ _). destruct (inv_erase O s p q tm l Hi Htm Hseq H2 H3) as [Hpn Hi'].
    change (inv O s') in Hi'.
    exists s'. cbn [mbind outcome_bind]. rewrite (inv_sizes _ _ Hi'). split_and!; try done.
    + intros e r k Hk Hqe. cbn in Hk. destruct (H4 _ _ Hk) as ([e0 r0] & k0 & Hk0 & Hle). cbn in Hle.
      destruct (Ha _ _ _ Hk0 (Hd _ _ Hle Hqe)) as (d & Hdd & Hdl). exists d. split; [done|]. cbn. lia.
    + unfold frame. cbn. split_and!; try done. intros r Hr. apply lookup_delete_ne. intros ->.
      apply Hpn, elem_of_app. by right.
    + cbn. intros x Hx. rewrite H2. by right.
  - destruct (callingExpiredTimers_ s) eqn:Ec.
    + eexists. cbn [mbind outcome_bind]. rewrite (inv_sizes O) by (by eapply inv_same; [..|apply Hi]).
      split_and!; [done|by eapply inv_same; [..|apply Hi]|done| |done].
      unfold frame. cbn. split_and!; try done. set_solver.
    + exists s. cbn [mbind outcome_bind]. rewrite (inv_sizes _ _ Hi). split_and!; done || apply frame_refl.
Qed.

(** The identifiers that operations cancel. *)
Definition op_cancels (o : cb_op) : list TimerId :=
  match o with Cancel id => [id] | _ => [] end.
Definition cancels (ops : list cb_op) : list TimerId := flat_map op_cancels ops.

(** While expired timers are being called, cancelling one of them is noted
    in [cancelingTimers_]. *)
Definition notes (O : list Z) (ids : list TimerId) (s s' : t) : Prop :=
  callingExpiredTimers_ s = true ->
  forall p q, p ∈ O -> (p, q) ∈ cancelingTimers_ s' <-> (p, q) ∈ cancelingTimers_ s \/ (p, q) ∈ ids.

Lemma notes_refl O s s' : cancelingTimers_ s' = cancelingTimers_ s -> notes O [] s s'.
Proof. intros E _ p q _. rewrite E. split; [by left|]. by intros [?|?%elem_of_nil]. Qed.

Lemma notes_trans O i1 i2 s1 s2 s3 :
  frame O s1 s2 -> notes O i1 s1 s2 -> notes O i2 s2 s3 -> notes O (i1 ++ i2) s1 s3.
Proof.
  intros (_ & Hc & _) H1 H2 Hcall p q Hp. rewrite (H2 ltac:(congruence) p q Hp), (H1 Hcall p q Hp), elem_of_app. tauto.
Qed.

Lemma run_cb_op_spec O Q o s :
  inv O s -> armed Q s -> downward Q ->
  safe (run_cb_op o s) (fun s' => inv O s' /\ armed Q s' /\ frame O s s' /\ notes O (op_cancels o) s s').
Proof.
  intros Hi Ha Hd. destruct o as [hint cb when interval dt|id|dt]; cbn [run_cb_op op_cancels].
  - eapply safe_bind; [by apply new_timer_spec|]. intros [p s1] (-> & Hi1 & Hf1 & Ht & Hfd & Hc & Hcn). cbn in *.
    eapply safe_mono; [apply (addTimerInLoop_spec O Q); [done|]|].
    + intros e p' l. rewrite Ht, Hfd, Hc. apply Ha.
    + intros s' (? & ? & ? & _ & _ & Hcn'). split_and!; [done..|by eapply frame_trans|]. apply notes_refl. congruence.
  - destruct (cancelInLoop_spec O Q id s Hi Ha Hd) as (s' & -> & ? & ? & ? & Hcase). cbn. split_and!; [done..|].
    intros Hcall p q Hp. rewrite list_elem_of_singleton. case_bool_decide.
    + destruct Hcase as (_ & Hn & _ & ->). split; [by left|]. intros [?|<-]; [done|]. destruct Hn. apply elem_of_app. by right.
    + subst s'. rewrite Hcall. cbn. set_solver.
  - cbn. split_and!; [by apply inv_tick|by apply armed_tick| |by apply notes_refl]. unfold frame. cbn. split_and!; done || lia.
Qed.

Lemma run_cb_spec O Q ops s :
  inv O s -> armed Q s -> downward Q ->
  safe (run_cb ops s) (fun s' => inv O s' /\ armed Q s' /\ frame O s s' /\ notes O (cancels ops) s s').
Proof.
  intros Hi Ha Hd. revert s Hi Ha. induction ops as [|o ops IH]; intros s Hi Ha; cbn [run_cb].
  - cbn. split_and!; [done..|apply frame_refl|by apply notes_refl].
  - eapply safe_bind; [by apply (run_cb_op_spec O Q)|]. intros s1 (Hi1 & Ha1 & Hf1 & Hn1).
    eapply safe_mono; [by apply IH|]. intros s2 (? & ? & ? & ?). split_and!; [done..|by eapply frame_trans|].
    by eapply notes_trans.
Qed.

(** ** Expired timers *)

Lemma erase_active_spec l k s :
  activeTimers_ s = list_to_set (map (key (heap s)) (l ++ k)) ->
  NoDup (map snd (l ++ k)) -> (forall e, e ∈ l -> is_Some (heap s !! e.2)) ->
  erase_active l s = Ok (with_timers (timers_ s) (list_to_set (map (key (heap s)) k)) s).
Proof.
  revert s. induction l as [|it l IH]; intros s Hact Hnd Hh; cbn [erase_active].
  { cbn in Hact. rewrite <- Hact. by destruct s. }
  destruct (Hh it) as [tm Htm]; [by left|]. rewrite (timer_deref_Some _ _ _ Htm). cbn [mbind outcome_bind].
  cbn in Hnd. apply list.NoDup_cons in Hnd as [Hn Hnd].
  assert (key (heap s) it = (it.2, Timer.sequence_ tm)) as Hk by (unfold key; by rewrite Htm).
  cbn [app map list_to_set] in Hact. rewrite Hk in Hact.
  assert ((it.2, Timer.sequence_ tm) ∉ map (key (heap s)) (l ++ k)) as Hni.
  { intros (x & Hx & Hin)%list_elem_of_fmap. apply Hn. injection Hx as Hx _. apply list_elem_of_fmap. eauto. }
  rewrite assert_true by (apply bool_decide_eq_true_2; rewrite Hact; set_solver). cbn [mbind outcome_bind].
  rewrite IH; cbn.
  - done.
  - rewrite Hact. apply leibniz_equiv. intros x. rewrite elem_of_difference, elem_of_union, !elem_of_singleton, !elem_of_list_to_set.
    split; [by intros [[->|?] ?]|]. intros Hx. split; [by right|]. intros ->. done.
  - done.
  - intros e He. apply Hh. by right.
Qed.

Lemma getExpired_spec O now s :
  inv O s ->
  exists expired s', getExpired now s = Ok (expired, s') /\ timers_ s = expired ++ timers_ s' /\
    (forall e p, (e, p) ∈ expired -> e <= now) /\ (forall e p, (e, p) ∈ timers_ s' -> now < e) /\
    inv (map snd expired ++ O) s' /\ heap s' = heap s /\ clock s' = clock s /\ queued s' = queued s /\ timerfd s' = timerfd s.
Proof.
  intros Hi. destruct (lower_bound_split (now, UINTPTR_MAX) _ (inv_sorted _ _ Hi)) as (Heq & Hlt & Hge).
  destruct (lower_bound (now, UINTPTR_MAX) (timers_ s)) as [l k] eqn:El. cbn in Heq, Hlt, Hge.
  assert (forall e p, (e, p) ∈ k -> now < e) as Hk.
  { intros e p Hin. pose proof (Hge _ Hin) as Hx. apply entry_lt_false in Hx. cbn in Hx.
    assert (0 < p < UINTPTR_MAX); [|lia]. apply (inv_address _ _ Hi), (inv_heap _ _ Hi), elem_of_app. left.
    apply list_elem_of_fmap. exists (e, p). split; [done|]. rewrite Heq. apply elem_of_app. by right. }
  set (s' := with_timers k (list_to_set (map (key (heap s)) k)) s).
  assert (inv (map snd l ++ O) s') as Hi'.
  { assert (map snd (timers_ s) ++ O ≡ₚ map snd k ++ map snd l ++ O) as Hp.
    { rewrite Heq, map_app, (Permutation_app_comm (map snd l) (map snd k)), <- (assoc_L (++)). reflexivity. }
    constructor; cbn; try done.
    - eapply sorted_app. rewrite <- Heq. apply (inv_sorted _ _ Hi).
    - rewrite <- Hp. apply (inv_nodup _ _ Hi).
    - intros p. rewrite <- Hp. apply (inv_heap _ _ Hi).
    - intros e p tm Hin. apply (inv_expiration _ _ Hi). rewrite Heq. apply elem_of_app. by right.
    - apply (inv_address _ _ Hi).
    - apply (inv_clock _ _ Hi).
    - apply (inv_repeat _ _ Hi). }
  exists l, s'. unfold getExpired. rewrite (inv_sizes _ _ Hi), El. cbn [assert mbind outcome_bind].
  rewrite assert_true; [|destruct k as [|[e p] k]; [done|]; cbn; pose proof (Hk e p ltac:(by left)); lia].
  cbn [mbind outcome_bind]. rewrite (erase_active_spec l k).
  - cbn [mbind outcome_bind]. change (with_timers _ _ _) with s'. rewrite (inv_sizes _ _ Hi'). cbn.
    split_and!; try done. intros e p Hin. pose proof (Hlt _ Hin) as Hx. apply entry_lt_spec in Hx. cbn in Hx. lia.
  - cbn. rewrite (inv_active _ _ Hi). by rewrite Heq.
  - rewrite <- Heq. by eapply inv_timers_nodup.
  - cbn. intros e He. apply (inv_heap _ _ Hi), elem_of_app. left. apply list_elem_of_fmap.
    exists e. split; [done|]. rewrite Heq. apply elem_of_app. by left.
Qed.

Definition callback_of (h : gmap Z Timer.t) (e : Entry) : nat :=
  match h !! e.2 with Some tm => Timer.callback_ tm | None => 0%nat end.

(** What the callbacks of a batch of expired timers cancel. *)
Fixpoint batch_cancels (l : list Entry) (scripts : list (list cb_op)) : list TimerId :=
  match l with
  | [] => []
  | _ :: l' => cancels (default [] (head scripts)) ++ batch_cancels l' (tail scripts)
  end.

(** The callbacks of the expired timers run in order, whatever they do. *)
Lemma call_expired_spec O Q l scripts s :
  inv O s -> armed Q s -> downward Q -> (forall e, e ∈ l -> e.2 ∈ O) ->
  safe (call_expired l scripts s) (fun r =>
    inv O (r.2) /\ armed Q (r.2) /\ frame O s (r.2) /\ notes O (batch_cancels l scripts) s (r.2) /\
    r.1 = map (callback_of (heap s)) l).
Proof.
  intros Hi Ha Hd. revert s scripts Hi Ha. induction l as [|it l IH]; intros s scripts Hi Ha Hl; cbn [call_expired].
  { cbn. split_and!; [done|done|apply frame_refl|by apply notes_refl|done]. }
  destruct (inv_in_heap _ _ (it.2) Hi) as [tm Htm]; [apply elem_of_app; right; apply Hl; by left|].
  rewrite (timer_deref_Some _ _ _ Htm). cbn [mbind outcome_bind].
  eapply safe_bind; [by apply (run_cb_spec O Q)|]. intros s1 (Hi1 & Ha1 & Hf1 & Hn1).
  eapply safe_bind; [apply IH; [done|done|intros e He; apply Hl; by right]|].
  intros [ran s2] (Hi2 & Ha2 & Hf2 & Hn2 & Hran). cbn in *. split_and!; [done..|by eapply frame_trans|by eapply notes_trans|].
  f_equal; [unfold callback_of; by rewrite Htm|]. rewrite Hran. apply list_fmap_ext. intros i e He. unfold callback_of.
  destruct Hf1 as (_ & _ & Hh & _). rewrite Hh; [done|]. apply Hl. right. by eapply list_elem_of_lookup_2.
Qed.

(** A timer outside [timers_] may change or be freed. *)
Lemma inv_outside O p s : inv (p :: O) s -> p ∉ map snd (timers_ s) /\ p ∉ O.
Proof.
  intros Hi. pose proof (inv_nodup _ _ Hi) as Hnd. rewrite <- Permutation_middle in Hnd.
  apply list.NoDup_cons in Hnd as [Hn _]. rewrite elem_of_app in Hn. tauto.
Qed.

Lemma key_ext h h' l p :
  p ∉ map snd l -> (forall q, q <> p -> h' !! q = h !! q) -> map (key h') l = map (key h) l.
Proof.
  intros Hp Hh. apply list_fmap_ext. intros i [e r] Hl. unfold key. cbn. rewrite Hh; [done|].
  intros ->. apply Hp, list_elem_of_fmap. exists (e, p). split; [done|]. by eapply list_elem_of_lookup_2.
Qed.

Lemma inv_update_outside O p tm s :
  inv (p :: O) s -> (Timer.repeat_ tm = true -> d_lt d_zero (Timer.interval_ tm) = true) ->
  inv (p :: O) (with_heap (<[p := tm]> (heap s)) s).
Proof.
  intros Hi Hpos. destruct (inv_outside _ _ _ Hi) as [Hp _].
  assert (is_Some (heap s !! p)) as Hs by (apply (inv_heap _ _ Hi), elem_of_app; right; by left).
  assert (forall q, is_Some (<[p := tm]> (heap s) !! q) <-> is_Some (heap s !! q)) as Hiff.
  { intros q. destruct (decide (q = p)) as [->|]; [rewrite lookup_insert_eq; naive_solver|by rewrite lookup_insert_ne]. }
  constructor; cbn.
  - apply (inv_sorted _ _ Hi).
  - apply (inv_nodup _ _ Hi).
  - intros q. rewrite Hiff. apply (inv_heap _ _ Hi).
  - intros e q tm' Hin. rewrite lookup_insert_ne; [by apply (inv_expiration _ _ Hi)|].
    intros ->. apply Hp, list_elem_of_fmap. by exists (e, q).
  - rewrite (inv_active _ _ Hi). f_equal. symmetry. apply key_ext with p; [done|]. intros. by apply lookup_insert_ne.
  - intros q. rewrite Hiff. apply (inv_address _ _ Hi).
  - apply (inv_clock _ _ Hi).
  - intros q tm'. destruct (decide (q = p)) as [->|].
    + rewrite lookup_insert_eq. by intros [= <-].
    + rewrite lookup_insert_ne by done. apply (inv_repeat _ _ Hi).
Qed.

Lemma inv_delete_outside O p s : inv (p :: O) s -> inv O (with_heap (delete p (heap s)) s).
Proof.
  intros Hi. destruct (inv_outside _ _ _ Hi) as [Hp HpO]. pose proof (inv_nodup _ _ Hi) as Hnd.
  rewrite <- Permutation_middle in Hnd. apply list.NoDup_cons in Hnd as [_ Hnd]. constructor; cbn.
  - apply (inv_sorted _ _ Hi).
  - done.
  - intros q. destruct (decide (q = p)) as [->|Hne].
    + rewrite lookup_delete_eq, elem_of_app. split; [by intros []|tauto].
    + rewrite lookup_delete_ne by done. rewrite (inv_heap _ _ Hi), <- Permutation_middle, elem_of_cons. tauto.
  - intros e q tm' Hin. rewrite lookup_delete_ne; [by apply (inv_expiration _ _ Hi)|].
    intros ->. apply Hp, list_elem_of_fmap. by exists (e, q).
  - rewrite (inv_active _ _ Hi). f_equal. symmetry. apply key_ext with p; [done|]. intros. by apply lookup_delete_ne.
  - intros q Hq. apply (inv_address _ _ Hi). destruct (decide (q = p)) as [->|]; [by rewrite lookup_delete_eq in Hq; destruct Hq|].
    by rewrite lookup_delete_ne in Hq.
  - apply (inv_clock _ _ Hi).
  - intros q tm' [_ Hq]%lookup_delete_Some. by apply (inv_repeat _ _ Hi q).
Qed.

(** The earliest timer, if it is not after the epoch, is armed for. *)
Abbreviation armed_past := (armed (fun e => e <= 0)).

Lemma restart_safe now tm :
  Timer.repeat_ tm = true ->
  safe (Timer.restart now tm) (fun tm' => Timestamp.addTime now (Timer.interval_ tm) = Ok (Timer.expiration_ tm') /\
    Timer.sequence_ tm' = Timer.sequence_ tm /\ Timer.interval_ tm' = Timer.interval_ tm).
Proof.
  intros Hr. unfold Timer.restart. rewrite Hr. destruct (Timestamp.addTime now (Timer.interval_ tm)) as [e|f] eqn:E; cbn; [done|].
  pose proof (d_to_int64_safe (d_mul (Timer.interval_ tm) (d_of_Z Timestamp.kMicroSecondsPerSecond))) as Hd.
  unfold Timestamp.addTime in E. destruct (d_to_int64 _) as [v|f']; cbn in E, Hd; [|by injection E as <-].
  pose proof (ck64_safe (now + v)) as Hc. rewrite E in Hc. done.
Qed.

(** What becomes of an expired timer. *)
Definition rescheduled (now : Z) (s s' : t) (p : Z) : Prop := forall tm, heap s !! p = Some tm ->
  if Timer.repeat_ tm && bool_decide ((p, Timer.sequence_ tm) ∉ cancelingTimers_ s) then
    exists tm', heap s' !! p = Some tm' /\ Timestamp.addTime now (Timer.interval_ tm) = Ok (Timer.expiration_ tm') /\
      Timer.sequence_ tm' = Timer.sequence_ tm /\ (Timer.expiration_ tm', p) ∈ timers_ s'
  else heap s' !! p = None.

(** One iteration of the loop of [reset]. *)
Definition reset_one (it : Entry) (now : Timestamp.t) (s : t) : outcome t :=
  tm ← deref (it.2) s;
  (if Timer.repeat_ tm && bool_decide ((it.2, Timer.sequence_ tm) ∉ cancelingTimers_ s) then
     tm' ← Timer.restart now tm;
     r ← insert (it.2) (with_heap (<[it.2 := tm']> (heap s)) s);
     Ok (r.2)
   else delete_timer (it.2) s).

Lemma reset_loop_cons it l now s :
  reset_loop (it :: l) now s = (s ← reset_one it now s; reset_loop l now s).
Proof. cbn [reset_loop]. unfold reset_one. by destruct (deref (it.2) s) as [tm|]. Qed.

Definition reset_frame (s s' : t) : Prop :=
  queued s' = queued s /\ clock s' = clock s /\ callingExpiredTimers_ s' = callingExpiredTimers_ s /\
  cancelingTimers_ s' = cancelingTimers_ s /\ timers_ s ⊆ timers_ s'.

Lemma reset_one_spec O it now s :
  inv (it.2 :: O) s -> armed_past s -> 0 < now ->
  safe (reset_one it now s) (fun s' => inv O s' /\ armed_past s' /\ reset_frame s s' /\
    (forall q, q <> it.2 -> heap s' !! q = heap s !! q) /\ rescheduled now s s' (it.2)).
Proof.
  intros Hi Ha Hnow. destruct it as [e0 p]. cbn [snd] in *. unfold reset_one. cbn [snd].
  destruct (inv_in_heap _ _ p Hi) as [tm Htm]; [apply elem_of_app; right; by left|].
  rewrite (timer_deref_Some _ _ _ Htm). cbn [mbind outcome_bind].
  destruct (Timer.repeat_ tm && bool_decide ((p, Timer.sequence_ tm) ∉ cancelingTimers_ s)) eqn:Eb.
  - pose proof (proj1 (andb_prop _ _ Eb)) as Hrep. eapply safe_bind; [by apply restart_safe|].
    intros tm' (Hadd & Hseq & Hint). pose proof (Timestamp.addTime_monotone _ _ _ (inv_repeat _ _ Hi _ _ Htm Hrep) Hadd) as Hmono.
    pose proof (inv_update_outside O p tm' s Hi ltac:(rewrite Hint; by eauto using inv_repeat)) as Hi1.
    destruct (insert_spec O p _ Hi1) as (tm1 & s' & Htm1 & Hins & Hi' & Ht & Hh & Hc & Hf & Hq & Hcn & Hcl).
    cbn in Htm1. rewrite lookup_insert_eq in Htm1. injection Htm1 as <-.
    rewrite Hins. cbn [mbind outcome_bind safe snd]. cbn in Ht, Hh, Hc, Hf, Hq, Hcn, Hcl.
    destruct (set_insert_new (Timer.expiration_ tm', p) (timers_ s)) as (_ & Hperm & _);
      [intros Hin; apply (proj1 (inv_outside _ _ _ Hi)), list_elem_of_fmap; by exists (Timer.expiration_ tm', p)|apply (inv_sorted _ _ Hi)|].
    split_and!; [done|..].
    + intros e q l Hl He. rewrite Hf, Hc. destruct (set_insert_head (Timer.expiration_ tm', p) (timers_ s)) as [r Hr].
      rewrite <- Ht, Hl in Hr. destruct (timers_ s) as [|[e1 p1] l1] eqn:E0.
      * injection Hr as -> _ _. lia.
      * destruct (entry_lt _ _); injection Hr as -> _ _; [lia|]. by eapply Ha.
    + unfold reset_frame. rewrite Hq, Hc, Hcl, Hcn, Ht. split_and!; try done. intros x Hx. rewrite Hperm. by right.
    + intros q Hne. rewrite Hh. by apply lookup_insert_ne.
    + intros tm2 Htm2. rewrite Htm in Htm2. injection Htm2 as <-. rewrite Eb. exists tm'.
      rewrite Hh, lookup_insert_eq. split_and!; [done..|]. rewrite Ht, Hperm. by left.
  - unfold delete_timer. rewrite (timer_deref_Some _ _ _ Htm). cbn [mbind outcome_bind safe]. split_and!.
    + by apply inv_delete_outside.
    + done.
    + done.
    + intros q Hne. cbn. by apply lookup_delete_ne.
    + intros tm2 Htm2. rewrite Htm in Htm2. injection Htm2 as <-. rewrite Eb. cbn. apply lookup_delete_eq.
Qed.

Lemma reset_loop_spec O l now s :
  inv (map snd l ++ O) s -> armed_past s -> 0 < now ->
  safe (reset_loop l now s) (fun s' => inv O s' /\ armed_past s' /\ reset_frame s s' /\
    (forall q, q ∉ map snd l -> heap s' !! q = heap s !! q) /\
    (forall p, p ∈ map snd l -> rescheduled now s s' p)).
Proof.
  intros Hi Ha Hnow. revert s Hi Ha. induction l as [|it l IH]; intros s Hi Ha.
  { cbn. split_and!; [done..|]. by intros p ?%elem_of_nil. }
  rewrite reset_loop_cons. cbn in Hi. eapply safe_bind; [by apply (reset_one_spec (map snd l ++ O))|].
  intros s1 (Hi1 & Ha1 & (F1 & F2 & F3 & F4 & F5) & Hh1 & Hr1).
  destruct (inv_outside _ _ _ Hi) as [_ Hn]. rewrite elem_of_app in Hn.
  eapply safe_mono; [by apply IH|]. intros s2 (Hi2 & Ha2 & (G1 & G2 & G3 & G4 & G5) & Hh2 & Hr2).
  split_and!; [done..| | |].
  - unfold reset_frame. split_and!; [congruence..|]. set_solver.
  - cbn. intros q [Hq1 Hq2]%not_elem_of_cons. by rewrite Hh2, Hh1.
  - cbn. intros p [->|Hp]%elem_of_cons tm Htm.
    + specialize (Hr1 tm Htm). destruct (_ && _).
      * destruct Hr1 as (tm' & H1 & H2 & H3 & H4). exists tm'. rewrite Hh2 by tauto. split_and!; [done..|]. by apply G5.
      * rewrite Hh2 by tauto. done.
    + specialize (Hr2 p Hp tm). rewrite F4 in Hr2. apply Hr2. rewrite Hh1; [done|]. intros ->. tauto.
Qed.

Lemma reset_spec O dt l now s :
  inv (map snd l ++ O) s -> armed_past s -> 0 < now ->
  safe (reset dt l now s) (fun s' => inv O s' /\ armed (fun _ => True) s' /\
    queued s' = queued s /\ clock s <= clock s' /\ timers_ s ⊆ timers_ s' /\
    (forall q, q ∉ map snd l -> heap s' !! q = heap s !! q) /\
    (forall p, p ∈ map snd l -> rescheduled now s s' p)).
Proof.
  intros Hi Ha Hnow. unfold reset. eapply safe_bind; [by apply (reset_loop_spec O)|].
  intros s1 (Hi1 & Ha1 & (F1 & F2 & F3 & F4 & F5) & Hh1 & Hr1).
  destruct (timers_ s1) as [|[e p] k] eqn:Et; cbn [mbind outcome_bind].
  { cbn. rewrite Et. split_and!; try done; [|lia]. intros e p k. by rewrite Et. }
  assert ((e, p) ∈ timers_ s1) as Hin by (rewrite Et; by left).
  destruct (inv_in_heap _ _ p Hi1) as [tm Htm]; [apply elem_of_app; left; apply list_elem_of_fmap; by exists (e, p)|].
  cbn [snd]. rewrite (timer_deref_Some _ _ _ Htm). cbn [mbind outcome_bind].
  rewrite (inv_expiration _ _ Hi1 _ _ _ Hin Htm). unfold Timestamp.valid. rewrite <- Et in *.
  destruct (Z.ltb_spec 0 e) as [Hpos|Hneg].
  - eapply safe_mono; [apply resetTimerfd_spec|]. intros s2 ->. cbn. split_and!; try done; [| |lia].
    + apply inv_same with (tick dt s1); [done..|]. by apply inv_tick.
    + intros e' p' k' Hk _. cbn in Hk |- *. rewrite Et in Hk. injection Hk as <- _ _. eexists. split; [done|]. lia.
  - cbn. split_and!; try done; [|lia]. intros e' p' k' Hk _. apply (Ha1 e' p' k' Hk).
    rewrite Et in Hk. injection Hk as <- _ _. done.
Qed.

(** The invariant between two events of the loop. *)
Definition good (s : t) : Prop := inv (queued s) s /\ armed (fun _ => True) s.

(** What [handleRead] does to [s], at the time [now] it read. *)
Definition handleRead_post (now : Z) (scripts : list (list cb_op)) (s : t) (r : list nat * t) : Prop :=
  exists expired rest, timers_ s = expired ++ rest /\
    (forall e p, (e, p) ∈ expired -> e <= now) /\ (forall e p, (e, p) ∈ rest -> now < e) /\
    r.1 = map (callback_of (heap s)) expired /\
    (forall e p tm, (e, p) ∈ expired -> heap s !! p = Some tm ->
      if Timer.repeat_ tm && bool_decide ((p, Timer.sequence_ tm) ∉ batch_cancels expired scripts) then
        exists tm', heap (r.2) !! p = Some tm' /\
          Timestamp.addTime now (Timer.interval_ tm) = Ok (Timer.expiration_ tm') /\
          Timer.sequence_ tm' = Timer.sequence_ tm /\ (Timer.expiration_ tm', p) ∈ timers_ (r.2)
      else heap (r.2) !! p = None).

Lemma timer_handleRead_spec d1 d2 d3 scripts s :
  inv (queued s) s ->
  safe (handleRead d1 d2 d3 scripts s) (fun r => good (r.2) /\ handleRead_post (clock s + Z.of_N d1) scripts s r).
Proof.
  intros Hi. unfold handleRead. set (now := clock (tick d1 s)). set (s1 := readTimerfd (tick d2 (tick d1 s))).
  assert (heap s1 = heap s /\ timers_ s1 = timers_ s /\ queued s1 = queued s /\ inv (queued s) s1) as (E1 & E2 & E3 & Hi1).
  { assert (inv (queued s) (tick d2 (tick d1 s))) as Hi0 by (by apply inv_tick, inv_tick).
    unfold s1, readTimerfd. repeat case_match; split_and!; try done. by eapply inv_same; [..|apply Hi0]. }
  assert (0 < now) as Hnow by (pose proof (inv_clock _ _ Hi); unfold now; cbn; lia).
  destruct (getExpired_spec (queued s) now s1 Hi1) as (expired & s2 & -> & Ht & He & Hr & Hi2 & Eh & Ec & Eq & _).
  cbn [mbind outcome_bind]. set (s3 := with_canceling ∅ (with_calling true s2)).
  set (O := map snd expired ++ queued s) in *.
  assert (inv O s3) as Hi3 by (by eapply inv_same; [..|apply Hi2]).
  eapply safe_bind; [apply (call_expired_spec O (fun e => e <= 0)); [done| | |]|].
  - intros e p l Hl Hle. exfalso. assert (now < e); [|lia]. apply (Hr e p). change (timers_ s3) with (timers_ s2) in Hl.
    rewrite Hl. by left.
  - intros ? ? ? ?. lia.
  - intros e Hin. apply elem_of_app. left. apply list_elem_of_fmap. eauto.
  - intros [ran s4] (Hi4 & Ha4 & (Fq & _ & Fh & Fc & _) & Hn4 & Hran). cbn [snd fst] in *.
    assert (inv O (with_calling false s4)) as Hi5 by (by eapply inv_same; [..|apply Hi4]).
    eapply safe_bind; [by apply (reset_spec (queued s) d3 expired now)|].
    intros s6 (Hi6 & Ha6 & Hq6 & _ & _ & _ & Hr6). cbn [safe snd fst].
    assert (queued s6 = queued s) as Hq by (rewrite Hq6; cbn; rewrite Fq; cbn; congruence).
    split; [split; [by rewrite Hq|done]|]. change (clock s + Z.of_N d1) with now.
    exists expired, (timers_ s2). rewrite <- E2. split_and!; [done..| |].
    + cbn in Hran. rewrite Hran, Eh, E1. done.
    + intros e p tm Hin Htm. assert (p ∈ map snd expired) as Hp by (apply list_elem_of_fmap; by exists (e, p)).
      assert (p ∈ O) as HpO by (apply elem_of_app; by left).
      specialize (Hr6 p Hp tm). cbn in Hr6.
      rewrite (Fh p HpO) in Hr6. cbn in Hr6. rewrite Eh, E1 in Hr6. specialize (Hr6 Htm).
      pose proof (Hn4 eq_refl p (Timer.sequence_ tm) HpO) as Hn. cbn in Hn.
      assert (bool_decide ((p, Timer.sequence_ tm) ∉ batch_cancels expired scripts) =
              bool_decide ((p, Timer.sequence_ tm) ∉ cancelingTimers_ s4)) as ->.
      { apply bool_decide_ext. rewrite Hn. set_solver. }
      exact Hr6.
Qed.

Lemma timer_step_good e s : good s -> safe (step e s) (fun r => good (r.2)).
Proof.
  intros [Hi Ha]. destruct e as [o|hint cb when interval|dt|d1 d2 d3 scripts]; cbn [step].
  - eapply safe_bind; [by apply (run_cb_op_spec (queued s) (fun _ => True))|].
    intros s' (Hi' & Ha' & (Hq & _) & _). cbn. split; [by rewrite Hq|done].
  - eapply safe_bind; [by apply new_timer_spec|].
    intros [p s1] (-> & Hi1 & (Hq & _) & Ht & Hfd & Hc & _). cbn in *. split; cbn.
    + apply inv_same with s1; [done..|]. eapply inv_perm; [|done]. apply Permutation_cons_append.
    + intros e p' l. cbn. rewrite Ht, Hfd, Hc. apply Ha.
  - destruct (queued s) as [|p q] eqn:Eq; [by cbn; rewrite <- Eq in Hi|].
    eapply safe_bind; [apply (addTimerInLoop_spec q (fun _ => True)); [by eapply inv_same; [..|apply Hi]|done]|].
    intros s' (Hi' & Ha' & (Hq & _) & _). cbn. split; [by rewrite Hq|done].
  - eapply safe_mono; [by apply timer_handleRead_spec|]. by intros r [? _].
Qed.

Lemma run_good es s : good s -> safe (run es s) (fun r => good (r.2)).
Proof.
  revert s. induction es as [|e es IH]; intros s Hg; cbn [run]; [done|].
  eapply safe_bind; [by apply timer_step_good|]. intros r Hr. eapply safe_bind; [by apply IH|]. by intros r' ?.
Qed.

Lemma empty_good c : 0 < c -> good (empty c).
Proof.
  intros Hc. split; [|by intros e p l]. split; cbn; try done.
  - constructor.
  - constructor.
  - intros p. rewrite lookup_empty. split; [by intros []|by intros ?%elem_of_nil].
  - intros p Hp. rewrite lookup_empty in Hp. by destruct Hp.
Qed.

(** ** Theorems *)

(** C5: Whatever is done with timers (timers added and cancelled in the loop,
    in callbacks and from other threads, with any delays and any allocator),
    no assertion of the timer queue fails and no freed timer is accessed;
    the only ways not to return are a failed allocation and a time outside
    [int64_t].  Afterwards [timers_] is sorted, [activeTimers_] holds exactly
    its timers with their sequence numbers, and the heap holds exactly the
    timers of [timers_] and the queued ones: none is leaked or freed twice. *)
Theorem run_safe es clock0 :
  0 < clock0 ->
  match run es (empty clock0) with
  | Ok (_, s) =>
      sorted (timers_ s) /\
      (forall p q, (p, q) ∈ activeTimers_ s <->
        exists tm, heap s !! p = Some tm /\ Timer.sequence_ tm = q /\ (Timer.expiration_ tm, p) ∈ timers_ s) /\
      (forall p, is_Some (heap s !! p) <-> p ∈ map snd (timers_ s) ++ queued s) /\
      NoDup (map snd (timers_ s) ++ queued s)
  | Fault e => e = BadAlloc \/ e = SignedOverflow
  end.
Proof.
  intros Hc. pose proof (run_good es _ (empty_good _ Hc)) as Hr. destruct (run es (empty clock0)) as [[ran s]|e]; [|done].
  cbn in Hr. destruct Hr as [Hi _]. split_and!.
  - apply (inv_sorted _ _ Hi).
  - intros p q. by apply inv_active_elem with (queued s).
  - apply (inv_heap _ _ Hi).
  - apply (inv_nodup _ _ Hi).
Qed.

Lemma run_safe_witness :
  let every := d_of_Z 2 in
  match run [InLoop (AddTimer 16 7 1000500 every 0); AddTimerElsewhere 32 8 1000700 d_zero; RunQueued 3;
             HandleRead 600 0 0 [[Cancel (32, 2)]]] (empty 1000000) with
  | Ok (ran, s) =>
      sorted (timers_ s) /\
      (forall p q, (p, q) ∈ activeTimers_ s <->
        exists tm, heap s !! p = Some tm /\ Timer.sequence_ tm = q /\ (Timer.expiration_ tm, p) ∈ timers_ s) /\
      (forall p, is_Some (heap s !! p) <-> p ∈ map snd (timers_ s) ++ queued s) /\
      NoDup (map snd (timers_ s) ++ queued s)
  | Fault e => e = BadAlloc \/ e = SignedOverflow
  end.
Proof.
  intros every.
  apply (run_safe [InLoop (AddTimer 16 7 1000500 every 0); AddTimerElsewhere 32 8 1000700 d_zero; RunQueued 3;
             HandleRead 600 0 0 [[Cancel (32, 2)]]] 1000000). lia.
Defined.

(** C29: Whenever the loop may block, the timerfd is armed if there is a timer,
    and becomes readable no later than the earliest timer expires or 100
    microseconds after the present: no timer is forgotten. *)
Theorem run_armed es clock0 ran s :
  0 < clock0 -> run es (empty clock0) = Ok (ran, s) ->
  match timers_ s with
  | [] => True
  | (e, _) :: _ => exists d, timerfd s = Some d /\ d <= Z.max e (clock s + 100)
  end.
Proof.
  intros Hc Hr. pose proof (run_good es _ (empty_good _ Hc)) as Hg. rewrite Hr in Hg. destruct Hg as [_ Ha]. cbn in Ha.
  destruct (timers_ s) as [|[e p] l] eqn:E; [done|]. by eapply Ha.
Qed.

Lemma run_armed_witness :
  match run [InLoop (AddTimer 16 7 1000500 (d_of_Z 2) 0); HandleRead 600 0 5 []] (empty 1000000) with
  | Ok (ran, s) => timers_ s = [(3000600, 16)] /\ exists d, timerfd s = Some d /\ d <= Z.max 3000600 (clock s + 100)
  | Fault _ => False
  end.
Proof.
  pose proof (run_armed [InLoop (AddTimer 16 7 1000500 (d_of_Z 2) 0); HandleRead 600 0 5 []] 1000000) as H.
  destruct (run _ _) as [[ran s]|e] eqn:E.
  - specialize (H ran s ltac:(lia) eq_refl). vm_compute in E. injection E as <- <-. split; [reflexivity|exact H].
  - vm_compute in E. discriminate E.
Defined.

(** C30: [handleRead], entered in any reachable state, runs the callbacks of
    exactly the timers that have expired, in the order of their expiration;
    afterwards a repeating timer that none of these callbacks cancelled is
    scheduled at [now + interval] under the same identity, and every other
    expired timer is freed. *)
Theorem handleRead_runs_expired es clock0 ran0 s d1 d2 d3 scripts ran s' :
  0 < clock0 -> run es (empty clock0) = Ok (ran0, s) ->
  handleRead d1 d2 d3 scripts s = Ok (ran, s') ->
  let now := clock s + Z.of_N d1 in
  exists expired rest, timers_ s = expired ++ rest /\
    (forall e p, (e, p) ∈ expired -> e <= now) /\ (forall e p, (e, p) ∈ rest -> now < e) /\
    ran = map (callback_of (heap s)) expired /\
    (forall e p tm, (e, p) ∈ expired -> heap s !! p = Some tm ->
      if Timer.repeat_ tm && bool_decide ((p, Timer.sequence_ tm) ∉ batch_cancels expired scripts) then
        exists tm', heap s' !! p = Some tm' /\
          Timestamp.addTime now (Timer.interval_ tm) = Ok (Timer.expiration_ tm') /\
          Timer.sequence_ tm' = Timer.sequence_ tm /\ (Timer.expiration_ tm', p) ∈ timers_ s'
      else heap s' !! p = None).
Proof.
  intros Hc Hr Hh now. pose proof (run_good es _ (empty_good _ Hc)) as Hg. rewrite Hr in Hg. destruct Hg as [Hi _].
  pose proof (timer_handleRead_spec d1 d2 d3 scripts s Hi) as Hs. rewrite Hh in Hs. by destruct Hs as [_ Hp].
Qed.

Lemma handleRead_runs_expired_witness :
  exists s s', run [InLoop (AddTimer 16 7 1000500 (d_of_Z 2) 0)] (empty 1000000) = Ok ([], s) /\
    handleRead 600 0 0 [[Cancel (16, 1)]] s = Ok ([7%nat], s') /\ heap s' !! 16 = None.
Proof.
  destruct (run [InLoop (AddTimer 16 7 1000500 (d_of_Z 2) 0)] (empty 1000000)) as [[r s]|] eqn:E; [|vm_compute in E; discriminate E].
  destruct (handleRead 600 0 0 [[Cancel (16, 1)]] s) as [[ran s']|] eqn:E'.
  - destruct (handleRead_runs_expired _ _ _ _ _ _ _ _ _ _ (eq_refl : 0 < 1000000) E E') as (l & k & Hl & _).
    exists s, s'. vm_compute in E. injection E as <- <-. vm_compute in E'. injection E' as <- <-. split_and!; reflexivity.
  - vm_compute in E. injection E as <- <-. vm_compute in E'. discriminate E'.
Defined.

(** C31: Cancelling, in any reachable state, a timer that is scheduled removes
    it from the queue and frees it, whatever else is in the queue; an
    identifier that is not of a scheduled timer (already run, cancelled, or its
    address reused by a timer with another sequence number) changes nothing. *)
Theorem cancel_exact es clock0 ran s id :
  0 < clock0 -> run es (empty clock0) = Ok (ran, s) -> callingExpiredTimers_ s = false ->
  exists s', cancelInLoop id s = Ok s' /\
    ((exists tm, heap s !! id.1 = Some tm /\ Timer.sequence_ tm = id.2 /\ (Timer.expiration_ tm, id.1) ∈ timers_ s /\
        heap s' = delete (id.1) (heap s) /\ id.1 ∉ map snd (timers_ s')) \/
     (~ (exists tm, heap s !! id.1 = Some tm /\ Timer.sequence_ tm = id.2 /\ (Timer.expiration_ tm, id.1) ∈ timers_ s)) /\
        s' = s).
Proof.
  intros Hc Hr Hcall. pose proof (run_good es _ (empty_good _ Hc)) as Hg. rewrite Hr in Hg. destruct Hg as [Hi Ha].
  destruct (cancelInLoop_spec _ _ id s Hi Ha ltac:(done)) as (s' & -> & _ & _ & _ & Hcase). exists s'. split; [done|].
  destruct id as [p q]. cbn [fst snd]. rewrite <- (inv_active_elem _ _ p q Hi). case_bool_decide as Hact; [left|right].
  - destruct Hcase as (Hh & Hn & _). apply (inv_active_elem _ _ _ _ Hi) in Hact as (tm & H1 & H2 & H3).
    exists tm. split_and!; [done..|]. intros Hin. apply Hn, elem_of_app. by left.
  - split; [done|]. by rewrite Hcall in Hcase.
Qed.

Lemma cancel_exact_witness :
  exists s s', run [InLoop (AddTimer 16 7 1000500 d_zero 0); InLoop (Cancel (16, 1)); InLoop (AddTimer 16 9 1000600 d_zero 0)] (empty 1000000) = Ok ([], s) /\
    cancelInLoop (16, 1) s = Ok s' /\ s' = s.
Proof.
  destruct (run [InLoop (AddTimer 16 7 1000500 d_zero 0); InLoop (Cancel (16, 1)); InLoop (AddTimer 16 9 1000600 d_zero 0)] (empty 1000000)) as [[r s]|] eqn:E;
    [|vm_compute in E; discriminate E].
  assert (callingExpiredTimers_ s = false) as Hcall by (vm_compute in E; injection E as <- <-; reflexivity).
  destruct (cancel_exact _ _ _ _ (16, 1) (eq_refl : 0 < 1000000) E Hcall) as (s' & Hs' & [(tm & Htm & Hseq & _)|[_ ->]]).
  - exfalso. vm_compute in E. injection E as <- <-. vm_compute in Htm. injection Htm as <-. discriminate Hseq.
  - exists s, s. vm_compute in E. injection E as <- <-. split_and!; [reflexivity|exact Hs'|reflexivity].
Defined.

(** A timer that is cancelled by the callback of another timer expiring at
    the same time still runs: [cancel] returns, and then the cancelled
    callback is called. *)
Theorem cancel_in_batch_too_late cb1 cb2 :
  exists s s',
    run [InLoop (AddTimer 16 cb1 1000000 d_zero 0); InLoop (AddTimer 32 cb2 1000000 d_zero 0)] (empty 1000000) = Ok ([], s) /\
    handleRead 1 0 0 [[Cancel (32, 2)]] s = Ok ([cb1; cb2], s').
Proof.
  eexists _, _. split; [vm_compute; reflexivity|vm_compute; reflexivity].
Qed.
