(* ===== verification/TcpConnection.v ===== *)
(** * TCP connections

    [Module TcpConnection] models src/muduo/net/TcpConnection.h and
    TcpConnection.cc over the channels and pollers of Poller.v and the buffers of
    NetBuffer.v.  The connection, the heap of channels and the poller make the
    world that the handlers change.  The peer and the kernel decide what read(2)
    and write(2) return: these are arguments of the handlers.  The user's
    callbacks are lists of calls of the connection's interface.  Functors that
    the code hands to [EventLoop::queueInLoop] (or to [runInLoop] from another
    thread) are appended to the queue [functors].  [sent], [accepted] and
    [trace] record what the socket has taken, which messages were accepted and
    which user callbacks ran. *)

From S2P Require Import Prelude NetBuffer Poller Timestamp.

Local Open Scope Z_scope.

Module TcpConnection.

Inductive StateE := kDisconnected | kConnecting | kConnected | kDisconnecting.

#[global] Instance StateE_eq_dec : EqDecision StateE.
Proof. solve_decision. Defined.

Definition EWOULDBLOCK : Z := 11.
Definition EPIPE : Z := 32.
Definition ECONNRESET : Z := 104.

(** What the connection has queued in its loop. *)
Inductive functor :=
  | SendInLoop (message : bytes)
  | ShutdownInLoop
  | ForceCloseInLoop
  | StartReadInLoop
  | StopReadInLoop
  | WriteComplete
  | HighWaterMark (len : Z).

(** The user callbacks that have run. *)
Inductive user_event :=
  | UConnection (connected : bool)
  | UMessage
  | UWriteComplete
  | UHighWaterMark (len : Z)
  | UClose.

Record conn := mkConn {
  state_ : StateE;
  reading_ : bool;
  channel_ : ptr;
  highWaterMark_ : Z;
  writeCompleteCallback_ : bool;
  highWaterMarkCallback_ : bool;
  inputBuffer_ : Buffer.t;
  outputBuffer_ : Buffer.t;
  shut : bool;                  (* shutdown(fd, SHUT_WR) was called *)
  functors : list functor;
  timers : list double;         (* delays of pending forceClose timers *)
  sent : bytes;
  accepted : list bytes;
  trace : list user_event;
}.

Definition setState v c := mkConn v (reading_ c) (channel_ c) (highWaterMark_ c) (writeCompleteCallback_ c) (highWaterMarkCallback_ c) (inputBuffer_ c) (outputBuffer_ c) (shut c) (functors c) (timers c) (sent c) (accepted c) (trace c).
Definition with_reading v c := mkConn (state_ c) v (channel_ c) (highWaterMark_ c) (writeCompleteCallback_ c) (highWaterMarkCallback_ c) (inputBuffer_ c) (outputBuffer_ c) (shut c) (functors c) (timers c) (sent c) (accepted c) (trace c).
Definition setWriteCompleteCallback v c := mkConn (state_ c) (reading_ c) (channel_ c) (highWaterMark_ c) v (highWaterMarkCallback_ c) (inputBuffer_ c) (outputBuffer_ c) (shut c) (functors c) (timers c) (sent c) (accepted c) (trace c).
Definition setHighWaterMarkCallback v mark c := mkConn (state_ c) (reading_ c) (channel_ c) mark (writeCompleteCallback_ c) v (inputBuffer_ c) (outputBuffer_ c) (shut c) (functors c) (timers c) (sent c) (accepted c) (trace c).
Definition with_input v c := mkConn (state_ c) (reading_ c) (channel_ c) (highWaterMark_ c) (writeCompleteCallback_ c) (highWaterMarkCallback_ c) v (outputBuffer_ c) (shut c) (functors c) (timers c) (sent c) (accepted c) (trace c).
Definition with_output v c := mkConn (state_ c) (reading_ c) (channel_ c) (highWaterMark_ c) (writeCompleteCallback_ c) (highWaterMarkCallback_ c) (inputBuffer_ c) v (shut c) (functors c) (timers c) (sent c) (accepted c) (trace c).
Definition shutdownWrite c := mkConn (state_ c) (reading_ c) (channel_ c) (highWaterMark_ c) (writeCompleteCallback_ c) (highWaterMarkCallback_ c) (inputBuffer_ c) (outputBuffer_ c) true (functors c) (timers c) (sent c) (accepted c) (trace c).
Definition with_functors v c := mkConn (state_ c) (reading_ c) (channel_ c) (highWaterMark_ c) (writeCompleteCallback_ c) (highWaterMarkCallback_ c) (inputBuffer_ c) (outputBuffer_ c) (shut c) v (timers c) (sent c) (accepted c) (trace c).
Definition with_timers v c := mkConn (state_ c) (reading_ c) (channel_ c) (highWaterMark_ c) (writeCompleteCallback_ c) (highWaterMarkCallback_ c) (inputBuffer_ c) (outputBuffer_ c) (shut c) (functors c) v (sent c) (accepted c) (trace c).
Definition record_sent d c := mkConn (state_ c) (reading_ c) (channel_ c) (highWaterMark_ c) (writeCompleteCallback_ c) (highWaterMarkCallback_ c) (inputBuffer_ c) (outputBuffer_ c) (shut c) (functors c) (timers c) (sent c ++ d) (accepted c) (trace c).
Definition record_accepted m c := mkConn (state_ c) (reading_ c) (channel_ c) (highWaterMark_ c) (writeCompleteCallback_ c) (highWaterMarkCallback_ c) (inputBuffer_ c) (outputBuffer_ c) (shut c) (functors c) (timers c) (sent c) (accepted c ++ [m]) (trace c).
Definition record_event e c := mkConn (state_ c) (reading_ c) (channel_ c) (highWaterMark_ c) (writeCompleteCallback_ c) (highWaterMarkCallback_ c) (inputBuffer_ c) (outputBuffer_ c) (shut c) (functors c) (timers c) (sent c) (accepted c) (trace c ++ [e]).

Definition connected (c : conn) : bool := bool_decide (state_ c = kConnected).
Definition disconnected (c : conn) : bool := bool_decide (state_ c = kDisconnected).

(** [loop_->queueInLoop(cb)] *)
Definition queueInLoop (f : functor) (c : conn) : conn := with_functors (functors c ++ [f]) c.

(** What write(2) is willing to take, and its result for [len] bytes: after
    the write side was shut down it is EPIPE. *)
Inductive write_result :=
  | Wrote (n : Z)
  | WriteErr (errno : Z).

Definition sock_write (wr : write_result) (len : Z) (c : conn) : Z + Z :=
  if shut c then inl EPIPE
  else match wr with
       | Wrote n => inr (Z.max 0 (Z.min n len))
       | WriteErr e => inl e
       end.

Section Connection.
Context {P : Type} `{Poller P}.

Record world := mkWorld { cn : conn; heap : Channel.heap; poller : P }.

Definition update_conn (f : conn -> conn) (w : world) : world := mkWorld (f (cn w)) (heap w) (poller w).

Definition channel (w : world) : outcome Channel.t := Channel.deref (heap w) (channel_ (cn w)).

(** A channel operation of the connection's channel. *)
Definition on_channel (op : ptr -> Channel.heap * P -> outcome (Channel.heap * P)) (w : world) : outcome world :=
  r ← op (channel_ (cn w)) (heap w, poller w);
  Ok (mkWorld (cn w) (r.1) (r.2)).

(** The constructor; the channel's callbacks are those of the connection. *)
Definition new (ch : ptr) (sockfd : Z) (h : Channel.heap) (P0 : P) : outcome world :=
  i ← Buffer.new Buffer.kInitialSize;
  o ← Buffer.new Buffer.kInitialSize;
  let c := Channel.setErrorCallback true (Channel.setCloseCallback true
             (Channel.setWriteCallback true (Channel.setReadCallback true (Channel.new sockfd)))) in
  Ok (mkWorld (mkConn kConnecting true ch (64 * 1024 * 1024) false false i o false [] [] [] [] [])
              (<[ch := c]> h) P0).

(** ** Sending *)

(** What the direct write of [sendInLoop] leaves: the bytes written, the bytes
    remaining, whether the connection is broken. *)
Definition write_directly (wr : write_result) (data : bytes) (c : conn) : Z * Z * bool * conn :=
  let len := zlen data in
  match sock_write wr len c with
  | inr nwrote =>
      let remaining := u64 (len - nwrote) in
      let c := record_sent (take (Z.to_nat nwrote) data) c in
      let c := if (remaining =? 0) && writeCompleteCallback_ c then queueInLoop WriteComplete c else c in
      (nwrote, remaining, false, c)
  | inl errno =>
      let faultError := negb (errno =? EWOULDBLOCK) && ((errno =? EPIPE) || (errno =? ECONNRESET)) in
      (0, len, faultError, c)
  end.

Definition sendInLoop (wr : write_result) (data : bytes) (w : world) : outcome world :=
  let len := zlen data in
  if bool_decide (state_ (cn w) = kDisconnected) then Ok w
  else
    ch ← channel w;
    let '(nwrote, remaining, faultError, c) :=
      if negb (Channel.isWriting ch) && (Buffer.readableBytes (outputBuffer_ (cn w)) =? 0)
      then write_directly wr data (cn w)
      else (0, len, false, cn w) in
    let c := if (faultError : bool) then c else record_accepted data c in
    _ ← assert (remaining <=? len);
    if negb faultError && (0 <? remaining) then
      let oldLen := Buffer.readableBytes (outputBuffer_ c) in
      let c := if (highWaterMark_ c <=? u64 (oldLen + remaining)) && (oldLen <? highWaterMark_ c)
                  && highWaterMarkCallback_ c
               then queueInLoop (HighWaterMark (u64 (oldLen + remaining))) c else c in
      out ← Buffer.append_at (outputBuffer_ c) data nwrote remaining;
      let w := mkWorld (with_output out c) (heap w) (poller w) in
      if negb (Channel.isWriting ch) then on_channel ChannelOps.enableWriting w else Ok w
    else Ok (mkWorld c (heap w) (poller w)).

(** [send], called in the loop's thread or in another one. *)
Definition send (inLoop : bool) (wr : write_result) (message : bytes) (w : world) : outcome world :=
  if connected (cn w) then
    if inLoop then sendInLoop wr message w
    else Ok (update_conn (queueInLoop (SendInLoop message)) w)
  else Ok w.

Definition send_buffer (inLoop : bool) (wr : write_result) (buf : Buffer.t) (w : world) : outcome (Buffer.t * world) :=
  if connected (cn w) then
    if inLoop then
      data ← load (Buffer.buffer_ buf) (Buffer.peek buf) (Buffer.readableBytes buf);
      w ← sendInLoop wr data w;
      Ok (Buffer.retrieveAll buf, w)
    else
      r ← Buffer.retrieveAllAsString buf;
      Ok (r.2, update_conn (queueInLoop (SendInLoop (r.1))) w)
  else Ok (buf, w).

(** ** Closing *)

Definition shutdownInLoop (w : world) : outcome world :=
  ch ← channel w;
  if negb (Channel.isWriting ch) then Ok (update_conn shutdownWrite w) else Ok w.

Definition shutdown (inLoop : bool) (w : world) : outcome world :=
  if connected (cn w) then
    let w := update_conn (setState kDisconnecting) w in
    if inLoop then shutdownInLoop w else Ok (update_conn (queueInLoop ShutdownInLoop) w)
  else Ok w.

Definition is_open (c : conn) : bool :=
  bool_decide (state_ c = kConnected) || bool_decide (state_ c = kDisconnecting).

Definition forceClose (w : world) : world :=
  if is_open (cn w)
  then update_conn (fun c => queueInLoop ForceCloseInLoop (setState kDisconnecting c)) w else w.

Definition forceCloseWithDelay (seconds : double) (w : world) : world :=
  if is_open (cn w)
  then update_conn (fun c => with_timers (timers c ++ [seconds]) (setState kDisconnecting c)) w else w.

(** ** Reading on and off *)

Definition startReadInLoop (w : world) : outcome world :=
  ch ← channel w;
  if negb (reading_ (cn w)) || negb (Channel.isReading ch) then
    w ← on_channel ChannelOps.enableReading w;
    Ok (update_conn (with_reading true) w)
  else Ok w.

Definition stopReadInLoop (w : world) : outcome world :=
  ch ← channel w;
  if reading_ (cn w) || Channel.isReading ch then
    w ← on_channel ChannelOps.disableReading w;
    Ok (update_conn (with_reading false) w)
  else Ok w.

Definition startRead (inLoop : bool) (w : world) : outcome world :=
  if inLoop then startReadInLoop w else Ok (update_conn (queueInLoop StartReadInLoop) w).

Definition stopRead (inLoop : bool) (w : world) : outcome world :=
  if inLoop then stopReadInLoop w else Ok (update_conn (queueInLoop StopReadInLoop) w).

(** ** What user code may call *)

Inductive api :=
  | Send (wr : write_result) (message : bytes)
  | Shutdown
  | ForceClose
  | ForceCloseWithDelay (seconds : double)
  | StartRead
  | StopRead
  | Retrieve (len : Z).         (* from the input buffer, at most what is there *)

Definition run_api (inLoop : bool) (a : api) (w : world) : outcome world :=
  match a with
  | Send wr message => send inLoop wr message w
  | Shutdown => shutdown inLoop w
  | ForceClose => Ok (forceClose w)
  | ForceCloseWithDelay seconds => Ok (forceCloseWithDelay seconds w)
  | StartRead => startRead inLoop w
  | StopRead => stopRead inLoop w
  | Retrieve len =>
      b ← Buffer.retrieve (inputBuffer_ (cn w)) (Z.max 0 (Z.min len (Buffer.readableBytes (inputBuffer_ (cn w)))));
      Ok (update_conn (with_input b) w)
  end.

(** A user callback, which runs in the loop's thread. *)
Fixpoint run_script (script : list api) (w : world) : outcome world :=
  match script with
  | [] => Ok w
  | a :: script' => w ← run_api true a w; run_script script' w
  end.

Definition user (e : user_event) (script : list api) (w : world) : outcome world :=
  run_script script (update_conn (record_event e) w).

(** ** Handlers *)

(** What the environment does during one event. *)
Record env := mkEnv {
  rd : Buffer.readv_call;
  wr : write_result;
  on_message : list api;
  on_down : list api;
}.

Definition handleClose (e : env) (w : world) : outcome world :=
  _ ← assert (is_open (cn w));
  let w := update_conn (setState kDisconnected) w in
  w ← on_channel ChannelOps.disableAll w;
  w ← user (UConnection (connected (cn w))) (on_down e) w;
  user UClose [] w.

Definition handleError (w : world) : outcome world := Ok w.

Definition handleRead (e : env) (w : world) : outcome world :=
  r ← Buffer.readFd (rd e) (inputBuffer_ (cn w));
  let '(n, _, b) := r in
  let w := update_conn (with_input b) w in
  if 0 <? n then user UMessage (on_message e) w
  else if n =? 0 then handleClose e w
  else handleError w.

Definition handleWrite (e : env) (w : world) : outcome world :=
  ch ← channel w;
  if Channel.isWriting ch then
    let out := outputBuffer_ (cn w) in
    data ← load (Buffer.buffer_ out) (Buffer.peek out) (Buffer.readableBytes out);
    match sock_write (wr e) (Buffer.readableBytes out) (cn w) with
    | inr n =>
        if 0 <? n then
          let w := update_conn (record_sent (take (Z.to_nat n) data)) w in
          out ← Buffer.retrieve out n;
          let w := update_conn (with_output out) w in
          if Buffer.readableBytes out =? 0 then
            w ← on_channel ChannelOps.disableWriting w;
            let w := if writeCompleteCallback_ (cn w) then update_conn (queueInLoop WriteComplete) w else w in
            if bool_decide (state_ (cn w) = kDisconnecting) then shutdownInLoop w else Ok w
          else Ok w
        else Ok w
    | inl _ => Ok w
    end
  else Ok w.

Definition forceCloseInLoop (e : env) (w : world) : outcome world :=
  if is_open (cn w) then handleClose e w else Ok w.

Definition connectEstablished (script : list api) (w : world) : outcome world :=
  _ ← assert (bool_decide (state_ (cn w) = kConnecting));
  let w := update_conn (setState kConnected) w in
  h ← Channel.modify (channel_ (cn w)) (Channel.tie 0) (heap w);
  w ← on_channel ChannelOps.enableReading (mkWorld (cn w) h (poller w));
  user (UConnection (connected (cn w))) script w.

Definition connectDestroyed (e : env) (w : world) : outcome world :=
  w ← (if connected (cn w) then
         w ← on_channel ChannelOps.disableAll (update_conn (setState kDisconnected) w);
         user (UConnection (connected (cn w))) (on_down e) w
       else Ok w);
  on_channel ChannelOps.remove w.

(** [~TcpConnection], in the loop's thread: it also destroys the channel. *)
Definition destroy (w : world) : outcome (Channel.heap * P) :=
  _ ← assert (disconnected (cn w));
  ChannelOps.destroy (channel_ (cn w)) (heap w, poller w).

(** ** Events of the loop *)

(** The channel's callbacks, as the constructor binds them. *)
Definition channel_call (e : env) (cb : Channel.callback) (p : ptr) (x : Channel.heap * (conn * P)) :
    outcome (Channel.heap * (conn * P)) :=
  let w := mkWorld (x.2.1) (x.1) (x.2.2) in
  w ← (match cb with
       | Channel.CloseCb => handleClose e w
       | Channel.ErrorCb => handleError w
       | Channel.ReadCb _ => handleRead e w
       | Channel.WriteCb => handleWrite e w
       end);
  Ok (heap w, (cn w, poller w)).

(** The poller reports [revents] and the loop lets the channel handle them;
    the connection, to which the channel is tied, is alive. *)
Definition handleEvents (revents : Z) (e : env) (w : world) : outcome world :=
  h ← Channel.modify (channel_ (cn w)) (Channel.set_revents revents) (heap w);
  r ← Channel.handleEvent (channel_call e) (fun _ _ => true) (channel_ (cn w)) 0 (h, (cn w, poller w));
  Ok (mkWorld (r.2.1) (r.1) (r.2.2)).

Definition run_functor (e : env) (f : functor) (w : world) : outcome world :=
  match f with
  | SendInLoop message => sendInLoop (wr e) message w
  | ShutdownInLoop => shutdownInLoop w
  | ForceCloseInLoop => forceCloseInLoop e w
  | StartReadInLoop => startReadInLoop w
  | StopReadInLoop => stopReadInLoop w
  | WriteComplete => user UWriteComplete (on_message e) w
  | HighWaterMark len => user (UHighWaterMark len) (on_message e) w
  end.

Inductive event :=
  | Established (script : list api)
  | Io (revents : Z) (e : env)
  | RunFunctor (e : env)        (* the loop runs the first queued functor *)
  | Api (inLoop : bool) (a : api)
  | TimerFires                  (* the first delayed forceClose *)
  | Destroyed (e : env).

Definition step (ev : event) (w : world) : outcome world :=
  match ev with
  | Established script => connectEstablished script w
  | Io revents e => handleEvents revents e w
  | RunFunctor e =>
      match functors (cn w) with
      | [] => Ok w
      | f :: fs => run_functor e f (update_conn (with_functors fs) w)
      end
  | Api inLoop a => run_api inLoop a w
  | TimerFires =>
      match timers (cn w) with
      | [] => Ok w
      | _ :: ts => Ok (forceClose (update_conn (with_timers ts) w))
      end
  | Destroyed e => connectDestroyed e w
  end.

End Connection.
End TcpConnection.
