(* ===== verification/TcpConnectionFacts.v ===== *)
(** * Correctness of TCP connections

    Proved for every poller that meets the contract of PollerSpec.v: the
    handlers of src/muduo/net/TcpConnection.cc never fail an assertion while the
    connection is used as intended, bytes reach the socket in the order they
    were accepted, the write side is shut down only after everything was
    written, and the user's callbacks run in the right order; and three uses
    that make an assertion fail. *)

From S2P Require Import Prelude NetBuffer Poller PollerSpec Timestamp TcpConnection.

Local Open Scope Z_scope.

Import TcpConnection.

Section Facts.
Context {P : Type} `{PollerSpec P}.
Implicit Types w : world (P := P).

(** ** The channel of a connection *)

(** The channel of [w] has the entry [a] in the table of what the pollers'
    clients ask for; [fresh] says that it was never registered. *)
Definition chan (busy : ptr -> Prop) (w : world) (a : option (Z * bool)) (fresh : bool) : Prop :=
  exists T fd, Interest.refines busy T (heap w, poller w) /\
    Interest.live T !! channel_ (cn w) = Some (fd, fresh) /\
    Interest.asked T !! channel_ (cn w) = a /\
    (a = None -> fresh = true -> Interest.fd_free T fd = true).

Definition mask_op_fun (m : Interest.mask_op) : ptr -> Channel.heap * P -> outcome (Channel.heap * P) :=
  match m with
  | Interest.EnableReading => ChannelOps.enableReading
  | Interest.DisableReading => ChannelOps.disableReading
  | Interest.EnableWriting => ChannelOps.enableWriting
  | Interest.DisableWriting => ChannelOps.disableWriting
  | Interest.DisableAll => ChannelOps.disableAll
  end.

Lemma chan_get busy w a fresh :
  chan busy w a fresh ->
  exists c, channel w = Ok c /\ heap w !! channel_ (cn w) = Some c /\
    match a with
    | Some (ev, _) => Channel.events_ c = ev /\ valid_events ev /\ Channel.addedToLoop_ c = true
    | None => Channel.events_ c = 0 /\ Channel.addedToLoop_ c = false
    end.
Proof.
  intros (T & fd & HR & Hl & Ha & _). destruct HR as [_ Hag]. cbn in Hag. specialize (Hag (channel_ (cn w))).
  rewrite Hl, Ha in Hag. destruct a as [[ev off]|].
  - apply Interest.agrees_asked in Hag as (c & ? & ? & Hc & _ & Hadd & _ & Hev & Hv & _).
    exists c. split_and!; [by apply deref_Some|done..].
  - apply Interest.agrees_unasked in Hag as (c & Hc & Hadd & _ & Hev & _).
    exists c. split_and!; [by apply deref_Some|done..].
Qed.

Lemma chan_conn busy w a fresh f :
  channel_ (f (cn w)) = channel_ (cn w) -> chan busy w a fresh -> chan busy (update_conn f w) a fresh.
Proof. intros E (T & fd & Hx). exists T, fd. cbn. by rewrite E. Qed.

Lemma chan_change busy w m ev off fresh :
  chan busy w (Some (ev, off)) fresh ->
  exists w', on_channel (mask_op_fun m) w = Ok w' /\ cn w' = cn w /\ same_core (heap w) (heap w') /\
    chan busy w' (Some (Interest.spec_mask m ev, Interest.spec_mask m ev =? 0)) fresh.
Proof.
  intros (T & fd & HR & Hl & Ha & _).
  destruct (Interest.refines_step busy (Interest.Change m (channel_ (cn w))) T
    (Interest.mkTable (Interest.live T) (<[channel_ (cn w) := (Interest.spec_mask m ev, Interest.spec_mask m ev =? 0)]> (Interest.asked T)))
    _ HR) as ([h' P'] & Hs & HR' & Hco).
  - done.
  - cbn. by rewrite Ha, Hl.
  - assert (mask_op_fun m (channel_ (cn w)) (heap w, poller w) = Ok (h', P')) as Hop by (by destruct m).
    unfold on_channel. rewrite Hop. eexists. split; [done|]. split; [done|]. split; [exact Hco|].
    eexists _, fd. split; [exact HR'|]. cbn. rewrite lookup_insert_eq. done.
Qed.

Lemma chan_register busy w m :
  chan busy w None true ->
  exists w', on_channel (mask_op_fun m) w = Ok w' /\ cn w' = cn w /\ same_core (heap w) (heap w') /\
    chan busy w' (Some (Interest.spec_mask m 0, false)) true.
Proof.
  intros (T & fd & HR & Hl & Ha & Hfree).
  destruct (Interest.refines_step busy (Interest.Change m (channel_ (cn w))) T
    (Interest.mkTable (Interest.live T) (<[channel_ (cn w) := (Interest.spec_mask m 0, false)]> (Interest.asked T)))
    _ HR) as ([h' P'] & Hs & HR' & Hco).
  - done.
  - cbn. by rewrite Ha, Hl, Hfree.
  - assert (mask_op_fun m (channel_ (cn w)) (heap w, poller w) = Ok (h', P')) as Hop by (by destruct m).
    unfold on_channel. rewrite Hop. eexists. split; [done|]. split; [done|]. split; [exact Hco|].
    eexists _, fd. split; [exact HR'|]. cbn. rewrite lookup_insert_eq. done.
Qed.

Lemma chan_remove busy w fresh :
  chan busy w (Some (0, true)) fresh ->
  exists w', on_channel ChannelOps.remove w = Ok w' /\ cn w' = cn w /\ same_core (heap w) (heap w') /\ chan busy w' None false.
Proof.
  intros (T & fd & HR & Hl & Ha & _).
  destruct (Interest.refines_step busy (Interest.Remove (channel_ (cn w))) T
    (Interest.mkTable (<[channel_ (cn w) := (fd, false)]> (Interest.live T)) (delete (channel_ (cn w)) (Interest.asked T)))
    _ HR) as ([h' P'] & Hs & HR' & Hco).
  - done.
  - cbn. by rewrite Ha, Hl.
  - assert (ChannelOps.remove (channel_ (cn w)) (heap w, poller w) = Ok (h', P')) as Hop by done.
    unfold on_channel. rewrite Hop. eexists. split; [done|]. split; [done|]. split; [exact Hco|].
    eexists _, fd. split; [exact HR'|]. cbn. by rewrite lookup_insert_eq, lookup_delete_eq.
Qed.

(** A change of the channel that the poller does not look at. *)
Lemma chan_touch (busy : ptr -> Prop) w a fresh f :
  chan busy w a fresh ->
  (forall c, Channel.fd_ (f c) = Channel.fd_ c /\ Channel.events_ (f c) = Channel.events_ c /\
    Channel.index_ (f c) = Channel.index_ c /\ Channel.addedToLoop_ (f c) = Channel.addedToLoop_ c /\
    (Channel.eventHandling_ (f c) = true -> Channel.eventHandling_ c = true \/ busy (channel_ (cn w)))) ->
  exists h', Channel.modify (channel_ (cn w)) f (heap w) = Ok h' /\ chan busy (mkWorld (cn w) h' (poller w)) a fresh.
Proof.
  intros Hch Hf. destruct (chan_get _ _ _ _ Hch) as (c & _ & Hc & _). destruct Hch as (T & fd & HR & Hl & Ha & Hfree).
  destruct (Hf c) as (E1 & E2 & E3 & E4 & E5). rewrite (modify_Some _ _ _ _ Hc). eexists. split; [done|].
  exists T, fd. cbn. split; [|done]. eapply Interest.refines_touch; try done.
  intros [He|]%E5; [|done]. pose proof HR as [_ Hag]. specialize (Hag (channel_ (cn w))). cbn in Hag.
  rewrite Hc, Hl in Hag. unfold Interest.agrees in Hag. naive_solver.
Qed.

Lemma chan_busy (busy busy' : ptr -> Prop) w a fresh :
  (forall p c, heap w !! p = Some c -> Channel.eventHandling_ c = true -> busy p -> busy' p) ->
  chan busy w a fresh -> chan busy' w a fresh.
Proof.
  intros Hb (T & fd & [Hi Hag] & Hx). exists T, fd. split; [|done]. split; [done|]. intros p. specialize (Hag p).
  cbn in *. unfold Interest.agrees in *. destruct (heap w !! p) as [c|] eqn:E, (Interest.live T !! p) as [[f fr]|]; try done.
  destruct Hag as (H1 & H2 & H3 & H4). split_and!; try done. intros He. eapply Hb; eauto.
Qed.

(** ** The invariant *)

Definition writing (c : conn) : bool := bool_decide (Buffer.contents (outputBuffer_ c) <> []).

Definition quiet_event (e : user_event) : Prop :=
  match e with UConnection _ | UClose => False | _ => True end.

(** UP, then anything but UP and DOWN. *)
Definition open_trace (l : list user_event) : Prop :=
  exists mid, l = UConnection true :: mid /\ Forall quiet_event mid.

(** UP, then DOWN; no message after DOWN, and at most one CLOSE. *)
Definition closed_trace (l : list user_event) : Prop :=
  exists mid post, l = UConnection true :: mid ++ UConnection false :: post /\ Forall quiet_event mid /\
    Forall (fun e => e <> UMessage /\ (quiet_event e \/ e = UClose)) post.

Definition conn_ok (c : conn) (a : option (Z * bool)) (fresh : bool) : Prop :=
  Buffer.wf (inputBuffer_ c) /\ Buffer.wf (outputBuffer_ c) /\
  sent c ++ Buffer.contents (outputBuffer_ c) = concat (accepted c) /\
  match state_ c with
  | kConnecting =>
      a = None /\ fresh = true /\ Buffer.contents (outputBuffer_ c) = [] /\ shut c = false /\
      functors c = [] /\ timers c = [] /\ trace c = []
  | kConnected | kDisconnecting =>
      (exists ev off, a = Some (ev, off) /\ has ev Channel.kWriteEvent = writing c) /\
      (shut c = true -> Buffer.contents (outputBuffer_ c) = [] /\ state_ c = kDisconnecting) /\
      open_trace (trace c)
  | kDisconnected =>
      (a = Some (0, true) \/ a = None /\ fresh = false) /\ closed_trace (trace c)
  end.

Definition good (busy : ptr -> Prop) w : Prop :=
  exists a fresh, chan busy w a fresh /\ conn_ok (cn w) a fresh.

Lemma good_intro busy w a fresh : chan busy w a fresh -> conn_ok (cn w) a fresh -> good busy w.
Proof. intros. by exists a, fresh. Qed.

(** The channel is registered with the poller. *)
Definition registered w : Prop :=
  match heap w !! channel_ (cn w) with Some c => Channel.addedToLoop_ c = true | None => False end.

Lemma chan_registered busy w e fresh : chan busy w (Some e) fresh -> registered w.
Proof. intros (c & _ & Hc & Hx)%chan_get. unfold registered. rewrite Hc. by destruct e as [ev off], Hx as (_ & _ & ?). Qed.

Lemma registered_chan busy w a fresh : chan busy w a fresh -> registered w -> is_Some a.
Proof.
  intros (c & _ & Hc & Hx)%chan_get Hr. unfold registered in Hr. rewrite Hc in Hr. destruct a; [done|].
  destruct Hx. congruence.
Qed.

(** What the operations of an open connection keep. *)
Record keeps (n : Z) w w' : Prop := {
  keeps_channel : channel_ (cn w') = channel_ (cn w);
  keeps_open : is_open (cn w') = is_open (cn w);
  keeps_closed : state_ (cn w) = kDisconnected -> state_ (cn w') = kDisconnected;
  keeps_connecting : state_ (cn w') = kConnecting -> state_ (cn w) = kConnecting;
  keeps_core : same_core (heap w) (heap w');
  keeps_registered : registered w -> registered w';
  keeps_size : zlen (Buffer.buffer_ (outputBuffer_ (cn w'))) <= zlen (Buffer.buffer_ (outputBuffer_ (cn w))) + n;
}.

Lemma keeps_refl w : keeps 0 w w.
Proof. constructor; done || lia. Qed.

Lemma keeps_trans n m w1 w2 w3 : keeps n w1 w2 -> keeps m w2 w3 -> keeps (n + m) w1 w3.
Proof. intros [] []. constructor; try (done || congruence || lia); eauto using same_core_trans. Qed.

Lemma keeps_weaken n m w w' : n <= m -> keeps n w w' -> keeps m w w'.
Proof. intros ? []. constructor; done || lia. Qed.

(** ** Bits of the event mask *)

Lemma mask_write_bit m ev :
  valid_events ev ->
  has (Interest.spec_mask m ev) Channel.kWriteEvent =
  match m with
  | Interest.EnableWriting => true
  | Interest.DisableWriting | Interest.DisableAll => false
  | _ => has ev Channel.kWriteEvent
  end.
Proof.
  unfold valid_events. intros Hev. assert (ev ∈ [0;1;2;3;4;5;6;7]) as Hin.
  { rewrite !elem_of_cons. lia. }
  rewrite !elem_of_cons in Hin.
  destruct m; destruct_or! Hin; subst; first [by apply elem_of_nil in Hin | reflexivity].
Qed.

(** ** Sending *)

Lemma readable_empty b : Buffer.wf b -> (Buffer.readableBytes b =? 0) = bool_decide (Buffer.contents b = []).
Proof.
  intros Hwf. rewrite <- Buffer.contents_zlen by done. unfold zlen.
  destruct (Buffer.contents b); [done|]. rewrite bool_decide_eq_false_2 by done. apply Z.eqb_neq. cbn [length]. lia.
Qed.

Definition room (n : Z) w : Prop := zlen (Buffer.buffer_ (outputBuffer_ (cn w))) + n <= Buffer.max_size.

Lemma room_step n m w w' : 0 <= m -> keeps n w w' -> room (n + m) w -> room m w'.
Proof. intros Hm [_ _ _ _ _ _ Hs] Hr. unfold room in *. lia. Qed.

(** An open connection. *)
Lemma good_open busy w :
  good busy w -> is_open (cn w) = true ->
  exists ev off fresh c, chan busy w (Some (ev, off)) fresh /\ channel w = Ok c /\ Channel.events_ c = ev /\
    valid_events ev /\ Channel.isWriting c = writing (cn w) /\
    Buffer.wf (inputBuffer_ (cn w)) /\ Buffer.wf (outputBuffer_ (cn w)) /\
    sent (cn w) ++ Buffer.contents (outputBuffer_ (cn w)) = concat (accepted (cn w)) /\
    (shut (cn w) = true -> Buffer.contents (outputBuffer_ (cn w)) = [] /\ state_ (cn w) = kDisconnecting) /\
    open_trace (trace (cn w)).
Proof.
  intros (a & fresh & Hch & H1 & H2 & H3 & Hst) Ho.
  assert ((exists ev off, a = Some (ev, off) /\ has ev Channel.kWriteEvent = writing (cn w)) /\
      (shut (cn w) = true -> Buffer.contents (outputBuffer_ (cn w)) = [] /\ state_ (cn w) = kDisconnecting) /\
      open_trace (trace (cn w))) as ((ev & off & -> & Hw) & Hshut & Htr).
  { unfold is_open in Ho. destruct (state_ (cn w)); try done. }
  destruct (chan_get _ _ _ _ Hch) as (c & Hc & _ & Hev & Hv & _).
  exists ev, off, fresh, c. split_and!; try done. unfold Channel.isWriting. by rewrite Hev.
Qed.

(** The pieces of an open connection make a good world again. *)
Lemma good_open_intro busy w ev off fresh :
  chan busy w (Some (ev, off)) fresh -> is_open (cn w) = true ->
  has ev Channel.kWriteEvent = writing (cn w) ->
  Buffer.wf (inputBuffer_ (cn w)) -> Buffer.wf (outputBuffer_ (cn w)) ->
  sent (cn w) ++ Buffer.contents (outputBuffer_ (cn w)) = concat (accepted (cn w)) ->
  (shut (cn w) = true -> Buffer.contents (outputBuffer_ (cn w)) = [] /\ state_ (cn w) = kDisconnecting) ->
  open_trace (trace (cn w)) -> good busy w.
Proof.
  intros Hch Ho Hw H1 H2 H3 Hs Ht. exists (Some (ev, off)), fresh. split; [done|]. unfold conn_ok. split_and!; try done.
  unfold is_open in Ho. destruct (state_ (cn w)) eqn:E; try done; (split; [by exists ev, off|done]).
Qed.

Lemma writing_contents c : writing c = false -> Buffer.contents (outputBuffer_ c) = [].
Proof. unfold writing. intros Hw. apply bool_decide_eq_false in Hw. by apply dec_stable. Qed.

Lemma sock_write_cases wr len c :
  0 <= len ->
  (exists n, sock_write wr len c = inr n /\ 0 <= n <= len /\ shut c = false) \/
  (exists e, sock_write wr len c = inl e /\ (shut c = true -> e = EPIPE)).
Proof.
  intros Hl. unfold sock_write. destruct (shut c); [right; by exists EPIPE|].
  destruct wr as [n|e]; [left; eexists; split; [done|lia]|right; by exists e].
Qed.

(** Appending the unsent rest [data] from [off] and asking for POLLOUT. *)
Lemma append_rest busy w w0 ev off_ fresh c data off :
  chan busy w (Some (ev, off_)) fresh -> is_open (cn w) = true -> channel w0 = Ok c -> Channel.events_ c = ev ->
  valid_events ev ->
  Channel.isWriting c = writing (cn w) -> Buffer.wf (inputBuffer_ (cn w)) -> Buffer.wf (outputBuffer_ (cn w)) ->
  0 <= off < zlen data -> room (zlen data) w -> shut (cn w) = false ->
  sent (cn w) ++ Buffer.contents (outputBuffer_ (cn w)) ++ drop (Z.to_nat off) data = concat (accepted (cn w)) ->
  open_trace (trace (cn w)) ->
  exists w', (out ← Buffer.append_at (outputBuffer_ (cn w)) data off (zlen data - off);
      let w := mkWorld (with_output out (cn w)) (heap w) (poller w) in
      if negb (Channel.isWriting c) then on_channel ChannelOps.enableWriting w else Ok w) = Ok w' /\
    good busy w' /\ keeps (zlen data) w w' /\ state_ (cn w') = state_ (cn w).
Proof.
  intros Hch Ho Hcw Hev Hv Hiw Hin Hout Hoff Hroom Hsh Hst Htr.
  destruct (Buffer.append_at_contents (outputBuffer_ (cn w)) data off Hout ltac:(lia) Hroom) as (b' & -> & Hwf' & Hcont & Hsz).
  cbn [mbind outcome_bind]. set (c1 := with_output b' (cn w)).
  assert (writing c1 = true) as Hw1.
  { apply bool_decide_eq_true_2. cbn. rewrite Hcont. intros [_ Hnil]%app_eq_nil. apply (f_equal length) in Hnil.
    rewrite length_drop in Hnil. unfold zlen in *. cbn in Hnil. lia. }
  assert (chan busy (mkWorld c1 (heap w) (poller w)) (Some (ev, off_)) fresh) as Hch1.
  { change (mkWorld c1 (heap w) (poller w)) with (update_conn (fun _ => c1) w). by apply chan_conn. }
  assert (forall w2, cn w2 = c1 -> same_core (heap w) (heap w2) -> registered w2 -> keeps (zlen data) w w2) as Hk.
  { intros w2 E Hco Hr. constructor; rewrite ?E; cbn; try done; lia. }
  destruct (Channel.isWriting c) eqn:Ew; cbn [negb].
  - eexists. split; [done|]. split_and!; [|by apply Hk; eauto using chan_registered|done].
    eapply good_open_intro; [exact Hch1|..]; cbn [cn]; try done.
    + rewrite Hw1, <- Hev. exact Ew.
    + cbn. by rewrite Hcont.
    + cbn. by rewrite Hsh.
  - destruct (chan_change _ _ Interest.EnableWriting _ _ _ Hch1) as (w2 & Hop & Hcn & Hco & Hch2).
    cbn [mask_op_fun] in Hop. rewrite Hop. exists w2. split; [done|]. cbn [cn] in Hcn. split_and!; [|by apply Hk; eauto using chan_registered|by rewrite Hcn].
    eapply good_open_intro; [exact Hch2|..]; rewrite Hcn; try done.
    + rewrite mask_write_bit by done. by rewrite Hw1.
    + cbn. by rewrite Hcont.
    + cbn. by rewrite Hsh.
Qed.

(** The part of [sendInLoop] after the direct write. *)
Definition send_rest (ch : Channel.t) (data : bytes) (nwrote remaining : Z) (faultError : bool) (c : conn) (w : world) : outcome world :=
  let len := zlen data in
  let c := if faultError then c else record_accepted data c in
  _ ← assert (remaining <=? len);
  if negb faultError && (0 <? remaining) then
    let oldLen := Buffer.readableBytes (outputBuffer_ c) in
    let c := if (highWaterMark_ c <=? u64 (oldLen + remaining)) && (oldLen <? highWaterMark_ c)
                && highWaterMarkCallback_ c
             then queueInLoop (HighWaterMark (u64 (oldLen + remaining))) c else c in
    out ← Buffer.append_at (outputBuffer_ c) data nwrote remaining;
    let w := mkWorld (with_output out c) (heap w) (poller w) in
    if negb (Channel.isWriting ch) then on_channel ChannelOps.enableWriting w else Ok w
  else Ok (mkWorld c (heap w) (poller w)).

(** [c'] is [c] with [d] sent and perhaps functors queued. *)
Record sent_more (d : bytes) (c c' : conn) : Prop := {
  sm_state : state_ c' = state_ c;
  sm_channel : channel_ c' = channel_ c;
  sm_input : inputBuffer_ c' = inputBuffer_ c;
  sm_output : outputBuffer_ c' = outputBuffer_ c;
  sm_shut : shut c' = shut c;
  sm_sent : sent c' = sent c ++ d;
  sm_accepted : accepted c' = accepted c;
  sm_trace : trace c' = trace c;
}.

Lemma sent_more_writing d c c' : sent_more d c c' -> writing c' = writing c.
Proof. intros []. unfold writing. by rewrite sm_output0. Qed.

Lemma sent_more_open d c c' : sent_more d c c' -> is_open c' = is_open c.
Proof. intros []. unfold is_open. by rewrite sm_state0. Qed.

Lemma sent_more_refl c : sent_more [] c c.
Proof. constructor; try done. by rewrite app_nil_r. Qed.

Lemma sent_more_keeps d w c' n :
  0 <= n -> sent_more d (cn w) c' -> keeps n w (mkWorld c' (heap w) (poller w)).
Proof.
  intros Hn Hs. constructor; cbn; [apply Hs|by eapply sent_more_open|..].
  - intros Hx. by rewrite (sm_state _ _ _ Hs).
  - intros Hx. by rewrite (sm_state _ _ _ Hs) in Hx.
  - done.
  - unfold registered. cbn. by rewrite (sm_channel _ _ _ Hs).
  - rewrite (sm_output _ _ _ Hs). lia.
Qed.

Ltac sm_rewrite Hsm :=
  rewrite ?(sent_more_open _ _ _ Hsm), ?(sent_more_writing _ _ _ Hsm), ?(sm_input _ _ _ Hsm), ?(sm_output _ _ _ Hsm),
    ?(sm_shut _ _ _ Hsm), ?(sm_state _ _ _ Hsm), ?(sm_sent _ _ _ Hsm), ?(sm_accepted _ _ _ Hsm), ?(sm_trace _ _ _ Hsm).

Section SendRest.
Variables (busy : ptr -> Prop) (w : world (P := P)) (ev : Z) (off fresh : bool) (ch : Channel.t) (data : bytes) (c' : conn).
Hypothesis Hg : good busy w.
Hypothesis Ho : is_open (cn w) = true.
Hypothesis Hch : chan busy w (Some (ev, off)) fresh.
Hypothesis Hc : channel w = Ok ch.
Hypothesis Hev : Channel.events_ ch = ev.
Hypothesis Hv : valid_events ev.
Hypothesis Hiw : Channel.isWriting ch = writing (cn w).
Hypothesis Hroom : room (zlen data) w.

Lemma chan_with_conn c2 :
  channel_ c2 = channel_ (cn w) -> chan busy (mkWorld c2 (heap w) (poller w)) (Some (ev, off)) fresh.
Proof.
  intros E. change (mkWorld c2 (heap w) (poller w)) with (update_conn (fun _ => c2) w). by apply chan_conn.
Qed.

(** The write failed for good: the message is dropped. *)
Lemma send_rest_fault :
  sent_more [] (cn w) c' -> good busy (mkWorld c' (heap w) (poller w)).
Proof.
  intros Hsm. destruct (good_open _ _ Hg Ho) as (_ & _ & _ & _ & _ & _ & _ & _ & _ & Hin & Hout & Hst & Hshut & Htr).
  eapply good_open_intro; [apply chan_with_conn, Hsm|..]; cbn [cn]; sm_rewrite Hsm; try done.
  - rewrite <- Hev. exact Hiw.
  - by rewrite app_nil_r.
Qed.

(** Everything was written. *)
Lemma send_rest_done :
  sent_more data (cn w) c' -> (0 < zlen data -> writing (cn w) = false) -> shut (cn w) = false ->
  good busy (mkWorld (record_accepted data c') (heap w) (poller w)).
Proof.
  intros Hsm0 Hdirect Hsh. destruct (good_open _ _ Hg Ho) as (_ & _ & _ & _ & _ & _ & _ & _ & _ & Hin & Hout & Hst & Hshut & Htr).
  assert (sent_more data (record_accepted data (cn w)) (record_accepted data c')) as Hsm by (destruct Hsm0; constructor; cbn; congruence).
  eapply good_open_intro; [apply chan_with_conn, Hsm|..]; cbn [cn]; sm_rewrite Hsm; try done.
  - rewrite <- Hev. exact Hiw.
  - cbn. rewrite concat_app, <- Hst. cbn. rewrite app_nil_r. destruct (decide (0 < zlen data)) as [Hpos|Hz].
    + by rewrite (writing_contents _ (Hdirect Hpos)), !app_nil_r.
    + assert (data = []) as -> by (destruct data; [done|unfold zlen in *; cbn in *; lia]). by rewrite !app_nil_r.
Qed.

(** A rest is buffered. *)
Lemma send_rest_buffer n c2 :
  sent_more (take (Z.to_nat n) data) (record_accepted data (cn w)) c2 -> 0 <= n < zlen data ->
  (0 < n -> writing (cn w) = false) -> shut (cn w) = false ->
  exists w', (out ← Buffer.append_at (outputBuffer_ c2) data n (zlen data - n);
      let w := mkWorld (with_output out c2) (heap w) (poller w) in
      if negb (Channel.isWriting ch) then on_channel ChannelOps.enableWriting w else Ok w) = Ok w' /\
    good busy w' /\ keeps (zlen data) w w' /\ state_ (cn w') = state_ (cn w).
Proof.
  intros Hsm Hn Hdirect Hsh. destruct (good_open _ _ Hg Ho) as (_ & _ & _ & _ & _ & _ & _ & _ & _ & Hin & Hout & Hst & Hshut & Htr).
  assert (room (zlen data) (mkWorld c2 (heap w) (poller w))) as Hroom2 by (unfold room in *; cbn; by rewrite (sm_output _ _ _ Hsm)).
  destruct (append_rest busy (mkWorld c2 (heap w) (poller w)) w ev off fresh ch data n) as (w' & Hw' & Hg' & Hk' & Hs');
    [apply chan_with_conn, Hsm|cbn [cn]; sm_rewrite Hsm; try done..|].
  - cbn. rewrite concat_app, <- Hst. cbn. rewrite app_nil_r. destruct (decide (0 < n)) as [Hpos|Hz].
    + rewrite (writing_contents _ (Hdirect Hpos)). cbn. rewrite app_nil_r. by rewrite <- app_assoc, take_drop.
    + replace n with 0 by lia. cbn. by rewrite !app_nil_r, <- app_assoc.
  - exists w'. split; [exact Hw'|]. split_and!; [done| |rewrite Hs'; exact (sm_state _ _ _ Hsm)].
    destruct Hk' as [K1 K2 K3 K4 Kc Kr K5]. unfold registered in Kr. cbn [cn heap] in *. rewrite (sm_output _ _ _ Hsm) in K5. cbn in K5.
    constructor; rewrite ?(sm_state _ _ _ Hsm), ?(sm_channel _ _ _ Hsm), ?(sent_more_open _ _ _ Hsm) in *; cbn in *; done.
Qed.

Lemma send_rest_spec n (faultError : bool) :
  sent_more (take (Z.to_nat n) data) (cn w) c' -> 0 <= n <= zlen data ->
  (0 < n -> writing (cn w) = false) -> (if faultError then n = 0 else shut (cn w) = false) ->
  exists w', send_rest ch data n (zlen data - n) faultError c' w = Ok w' /\
    good busy w' /\ keeps (zlen data) w w' /\ state_ (cn w') = state_ (cn w).
Proof.
  intros Hsm Hn Hdirect Hf. pose proof (zlen_nonneg data).
  pose proof (sent_more_keeps _ w c' (zlen data) ltac:(lia) Hsm) as Hk0.
  unfold send_rest. rewrite assert_true by lia. cbn [mbind outcome_bind].
  destruct faultError; cbn [negb andb].
  - subst n. eexists. split; [done|]. split_and!; [by apply send_rest_fault|done|apply Hsm].
  - destruct (Z.ltb_spec 0 (zlen data - n)) as [Hrest|Hall].
    + apply send_rest_buffer; try done; [|lia]. destruct Hsm. destruct (_ && _ && _); constructor; cbn; congruence.
    + assert (n = zlen data) as -> by lia. rewrite take_ge in Hsm by (unfold zlen; lia).
      eexists. split; [done|]. split_and!; [by apply send_rest_done| |cbn; apply Hsm].
      destruct Hk0. by constructor.
Qed.

End SendRest.

Lemma sendInLoop_unfold wr data w :
  sendInLoop wr data w =
  if bool_decide (state_ (cn w) = kDisconnected) then Ok w
  else
    ch ← channel w;
    let '(n, r, fe, c) :=
      if negb (Channel.isWriting ch) && (Buffer.readableBytes (outputBuffer_ (cn w)) =? 0)
      then write_directly wr data (cn w) else (0, zlen data, false, cn w) in
    send_rest ch data n r fe c w.
Proof. reflexivity. Qed.

Lemma write_directly_spec wr data c :
  zlen data < 2 ^ 64 ->
  exists n fe c', write_directly wr data c = (n, zlen data - n, fe, c') /\
    sent_more (take (Z.to_nat n) data) c c' /\ 0 <= n <= zlen data /\
    (if (fe : bool) then n = 0 else shut c = false).
Proof.
  intros Hlen. pose proof (zlen_nonneg data). unfold write_directly.
  destruct (sock_write_cases wr (zlen data) c ltac:(lia)) as [(n & -> & Hn & Hsh)|(e & -> & He)].
  - rewrite u64_small by lia. eexists n, false, _. split; [done|]. split_and!; try lia; try done.
    destruct (_ && _); by constructor.
  - eexists 0, _, c. rewrite Z.sub_0_r. split; [done|]. split_and!; try lia; [apply sent_more_refl|].
    case_match eqn:Ef; [done|]. destruct (shut c); [|done]. by rewrite (He eq_refl) in Ef.
Qed.

Lemma sendInLoop_spec busy wr data w :
  good busy w -> state_ (cn w) <> kConnecting -> room (zlen data) w ->
  exists w', sendInLoop wr data w = Ok w' /\ good busy w' /\ keeps (zlen data) w w' /\ state_ (cn w') = state_ (cn w).
Proof.
  intros Hg Hnc Hroom. pose proof (zlen_nonneg data). rewrite sendInLoop_unfold. case_bool_decide as Hd.
  { exists w. split_and!; try done. eapply keeps_weaken; [|apply keeps_refl]. lia. }
  assert (is_open (cn w) = true) as Ho by (unfold is_open; by destruct (state_ (cn w))).
  destruct (good_open _ _ Hg Ho) as (ev & off & fresh & ch & Hch & Hc & Hev & Hv & Hiw & Hin & Hout & Hst & Hshut & Htr).
  rewrite Hc. cbn [mbind outcome_bind]. rewrite Hiw, readable_empty by done.
  destruct (writing (cn w)) eqn:Ew; cbn [negb andb].
  - assert (shut (cn w) = false) as Hsh.
    { destruct (shut (cn w)); [|done]. destruct (Hshut eq_refl) as [Hnil _]. unfold writing in Ew. by rewrite Hnil in Ew. }
    destruct (send_rest_spec busy w ev off fresh ch data (cn w) Hg Ho Hch Hc Hev Hv ltac:(by rewrite Ew) Hroom 0 false)
      as (w' & Hw' & Hx); [apply sent_more_refl|lia|lia|done|].
    rewrite Z.sub_0_r in Hw'. exists w'. split; [exact Hw'|exact Hx].
  - rewrite (bool_decide_eq_true_2 (Buffer.contents _ = [])) by (by apply writing_contents).
    destruct (write_directly_spec wr data (cn w)) as (n & fe & c' & -> & Hsm & Hn & Hf).
    { unfold room, Buffer.max_size in Hroom. pose proof (zlen_nonneg (Buffer.buffer_ (outputBuffer_ (cn w)))). lia. }
    eapply send_rest_spec; eauto.
Qed.

(** ** The rest of the interface *)

(** A change of fields that the invariant does not constrain. *)
Record inert (c c' : conn) : Prop := {
  in_state : state_ c' = state_ c;
  in_channel : channel_ c' = channel_ c;
  in_output : outputBuffer_ c' = outputBuffer_ c;
  in_shut : shut c' = shut c;
  in_sent : sent c' = sent c;
  in_accepted : accepted c' = accepted c;
  in_trace : trace c' = trace c;
  in_input : Buffer.wf (inputBuffer_ c) -> Buffer.wf (inputBuffer_ c');
  in_connecting : state_ c = kConnecting -> functors c' = functors c /\ timers c' = timers c;
}.

Lemma good_inert busy w f : inert (cn w) (f (cn w)) -> good busy w -> good busy (update_conn f w).
Proof.
  intros Hi (a & fresh & Hch & H1 & H2 & H3 & H4). exists a, fresh. split; [apply chan_conn; [apply Hi|done]|].
  cbn. unfold conn_ok, writing in *. destruct Hi as [E1 E2 E3 E4 E5 E6 E7 E8 E9].
  rewrite E1, E3, E4, E5, E6, E7. split_and!; auto.
  destruct (state_ (cn w)); try done. destruct (E9 eq_refl) as [-> ->]. done.
Qed.

Lemma keeps_inert w f : inert (cn w) (f (cn w)) -> keeps 0 w (update_conn f w).
Proof.
  intros []. constructor; cbn; unfold is_open, registered; cbn; rewrite ?in_state0, ?in_output0, ?in_channel0; try done; lia.
Qed.

(** An open connection changes its state to kDisconnecting. *)
Lemma good_disconnecting busy w f :
  good busy w -> is_open (cn w) = true ->
  (forall c, inert (setState kDisconnecting c) (f c)) ->
  good busy (update_conn f w) /\ keeps 0 w (update_conn f w).
Proof.
  intros Hg Ho Hf. destruct (good_open _ _ Hg Ho) as (ev & off & fresh & ch & Hch & Hc & Hev & Hv & Hiw & Hin & Hout & Hst & Hshut & Htr).
  assert (good busy (update_conn (setState kDisconnecting) w)) as Hg1.
  { eapply good_open_intro; [apply chan_conn; [done|exact Hch]|..]; cbn; try done; [|naive_solver].
    change (writing (setState kDisconnecting (cn w))) with (writing (cn w)). by rewrite <- Hiw, <- Hev. }
  assert (update_conn f w = update_conn (fun _ => f (cn w)) (update_conn (setState kDisconnecting) w)) as -> by done.
  split; [apply good_inert; [apply Hf|done]|]. destruct (Hf (cn w)) as [E1 E2 E3 E4 E5 E6 E7 E8 E9]. cbn in *.
  constructor; unfold registered; cbn; rewrite ?Ho, ?E1, ?E2, ?E3; try done; [| |lia].
  - unfold is_open. by rewrite E1.
  - intros Hx. unfold is_open in Ho. by rewrite Hx in Ho.
Qed.

Lemma shutdownInLoop_spec busy w :
  good busy w -> state_ (cn w) <> kConnecting -> state_ (cn w) <> kConnected ->
  exists w', shutdownInLoop w = Ok w' /\ good busy w' /\ keeps 0 w w' /\ state_ (cn w') = state_ (cn w).
Proof.
  intros Hg Hnc Hnd. unfold shutdownInLoop. destruct Hg as (a & fresh & Hch & Hok).
  destruct (chan_get _ _ _ _ Hch) as (c & Hc & _ & Hev). rewrite Hc. cbn [mbind outcome_bind].
  destruct (Channel.isWriting c) eqn:Ew; cbn [negb].
  { exists w. split_and!; try done; [by exists a, fresh|apply keeps_refl]. }
  eexists. split; [done|]. split_and!; [|constructor; cbn; done || lia|done].
  exists a, fresh. split; [by apply chan_conn|]. cbn. unfold conn_ok in *. cbn.
  destruct Hok as (H1 & H2 & H3 & H4). split_and!; try done. destruct (state_ (cn w)); try done.
  destruct H4 as ((ev & off & -> & Hbit) & _ & Htr). split_and!; [by exists ev, off| |done]. intros _. split; [|done].
  apply writing_contents. rewrite <- Hbit. destruct Hev as (Hev & _). unfold Channel.isWriting in Ew. by rewrite Hev in Ew.
Qed.

Lemma shutdown_spec busy inLoop w :
  good busy w -> state_ (cn w) <> kConnecting -> exists w', shutdown inLoop w = Ok w' /\ good busy w' /\ keeps 0 w w'.
Proof.
  intros Hg Hnc. unfold shutdown, connected. case_bool_decide as Hst; [|exists w; split_and!; [done..|apply keeps_refl]].
  assert (is_open (cn w) = true) as Ho by (unfold is_open; by rewrite Hst).
  destruct inLoop.
  - destruct (good_disconnecting busy w (setState kDisconnecting) Hg Ho) as [Hg1 Hk1]; [by constructor|].
    destruct (shutdownInLoop_spec busy _ Hg1 ltac:(done) ltac:(done)) as (w' & -> & Hg' & Hk' & _).
    exists w'. split_and!; [done..|]. by apply (keeps_trans 0 0 w (update_conn (setState kDisconnecting) w)).
  - eexists. split; [done|]. apply (good_disconnecting busy w (fun c => queueInLoop ShutdownInLoop (setState kDisconnecting c)) Hg Ho).
    by constructor.
Qed.

Lemma forceClose_spec busy w : good busy w -> good busy (forceClose w) /\ keeps 0 w (forceClose w).
Proof.
  intros Hg. unfold forceClose. destruct (is_open (cn w)) eqn:Ho; [|split; [done|apply keeps_refl]].
  apply good_disconnecting; [done..|by constructor].
Qed.

Lemma forceCloseWithDelay_spec busy seconds w :
  good busy w -> good busy (forceCloseWithDelay seconds w) /\ keeps 0 w (forceCloseWithDelay seconds w).
Proof.
  intros Hg. unfold forceCloseWithDelay. destruct (is_open (cn w)) eqn:Ho; [|split; [done|apply keeps_refl]].
  apply good_disconnecting; [done..|by constructor].
Qed.

(** Switching reading on or off. *)
Lemma reading_change busy w m b :
  good busy w -> is_open (cn w) = true -> (m = Interest.EnableReading \/ m = Interest.DisableReading) ->
  exists w', (w ← on_channel (mask_op_fun m) w; Ok (update_conn (with_reading b) w)) = Ok w' /\ good busy w' /\ keeps 0 w w'.
Proof.
  intros Hg Ho Hm. destruct (good_open _ _ Hg Ho) as (ev & off & fresh & ch & Hch & Hc & Hev & Hv & Hiw & Hin & Hout & Hst & Hshut & Htr).
  destruct (chan_change busy w m ev off fresh Hch) as (w1 & -> & Hcn & Hco & Hch1). cbn [mbind outcome_bind].
  eexists. split; [done|]. split.
  - eapply good_open_intro; [apply chan_conn; [done|exact Hch1]|..]; cbn; rewrite ?Hcn; try done.
    rewrite mask_write_bit by done. change (writing (with_reading b (cn w))) with (writing (cn w)).
    rewrite <- Hiw. unfold Channel.isWriting. rewrite Hev. by destruct Hm as [-> | ->].
  - pose proof (chan_registered _ _ _ _ Hch1) as Hr1. unfold registered in Hr1.
    constructor; unfold registered; cbn; rewrite ?Hcn in *; done || lia.
Qed.

Lemma startReadInLoop_spec busy w :
  good busy w -> is_open (cn w) = true -> exists w', startReadInLoop w = Ok w' /\ good busy w' /\ keeps 0 w w'.
Proof.
  intros Hg Ho. unfold startReadInLoop. destruct (good_open _ _ Hg Ho) as (_ & _ & _ & ch & _ & -> & _).
  cbn [mbind outcome_bind]. destruct (_ || _).
  - apply (reading_change busy w Interest.EnableReading true); auto.
  - exists w. split_and!; [done..|apply keeps_refl].
Qed.

Lemma stopReadInLoop_spec busy w :
  good busy w -> is_open (cn w) = true -> exists w', stopReadInLoop w = Ok w' /\ good busy w' /\ keeps 0 w w'.
Proof.
  intros Hg Ho. unfold stopReadInLoop. destruct (good_open _ _ Hg Ho) as (_ & _ & _ & ch & _ & -> & _).
  cbn [mbind outcome_bind]. destruct (_ || _).
  - apply (reading_change busy w Interest.DisableReading false); auto.
  - exists w. split_and!; [done..|apply keeps_refl].
Qed.

(** ** Scripts *)

Definition reading_api (a : api) : bool := match a with StartRead | StopRead => true | _ => false end.
Definition api_cost (a : api) : Z := match a with Send _ m => zlen m | _ => 0 end.
Definition cost (script : list api) : Z := foldr (fun a n => api_cost a + n) 0 script.

Lemma api_cost_nonneg a : 0 <= api_cost a.
Proof. destruct a; cbn; try lia. apply zlen_nonneg. Qed.

Lemma cost_nonneg script : 0 <= cost script.
Proof.
  induction script as [|a script IH]; [cbn; lia|]. cbn [cost foldr]. fold (cost script). pose proof (api_cost_nonneg a). lia.
Qed.

(** Code that may run: reading is switched only while the connection is open,
    and there is memory for the messages. *)
Definition script_ok (script : list api) w : Prop :=
  (forallb (fun a => negb (reading_api a)) script || is_open (cn w) = true) /\ room (cost script) w.

Lemma retrieve_input busy w len :
  good busy w ->
  exists w', run_api true (Retrieve len) w = Ok w' /\ good busy w' /\ keeps 0 w w'.
Proof.
  intros Hg. pose proof Hg as (a & fresh & _ & Hwf & _). cbn [run_api].
  set (n := Z.max 0 _). pose proof (Buffer.contents_zlen _ Hwf) as Hz.
  destruct (Buffer.retrieve_contents (inputBuffer_ (cn w)) (Z.to_nat n) Hwf) as (b & Hb & Hwf' & _).
  { unfold zlen in Hz. unfold n. lia. }
  rewrite Z2Nat.id in Hb by (unfold n; lia). rewrite Hb. cbn [mbind outcome_bind]. eexists. split; [done|].
  split; [apply good_inert; [by constructor|done]|apply keeps_inert; by constructor].
Qed.

Lemma run_api_spec busy a w :
  good busy w -> state_ (cn w) <> kConnecting -> script_ok [a] w ->
  exists w', run_api true a w = Ok w' /\ good busy w' /\ keeps (api_cost a) w w'.
Proof.
  intros Hg Hnc [Hr Hroom]. cbn in Hr, Hroom. rewrite andb_true_r in Hr. rewrite Z.add_0_r in Hroom.
  destruct a as [wr m| | |seconds| | |len]; cbn [api_cost reading_api negb orb] in *.
  - cbn [run_api]. unfold send, connected. case_bool_decide as Hst.
    + destruct (sendInLoop_spec busy wr m w Hg Hnc Hroom) as (w' & ? & ? & ? & _). eauto.
    + exists w. split_and!; [done..|]. eapply keeps_weaken; [|apply keeps_refl]. apply zlen_nonneg.
  - by apply shutdown_spec.
  - eexists. split; [done|]. by apply forceClose_spec.
  - eexists. split; [done|]. by apply forceCloseWithDelay_spec.
  - by apply startReadInLoop_spec.
  - by apply stopReadInLoop_spec.
  - by apply retrieve_input.
Qed.

Lemma run_script_spec busy script w :
  good busy w -> state_ (cn w) <> kConnecting -> script_ok script w ->
  exists w', run_script script w = Ok w' /\ good busy w' /\ keeps (cost script) w w'.
Proof.
  revert w. induction script as [|a script IH]; intros w Hg Hnc [Hr Hroom].
  { exists w. split_and!; [done..|apply keeps_refl]. }
  cbn [run_script cost foldr forallb] in *. fold (cost script) in *. pose proof (cost_nonneg script). pose proof (api_cost_nonneg a).
  destruct (run_api_spec busy a w Hg Hnc) as (w1 & -> & Hg1 & Hk1).
  { split; [|unfold room in *; cbn [cost foldr]; lia]. cbn. destruct (is_open (cn w)); [by rewrite orb_true_r|].
    rewrite orb_false_r in *. apply andb_prop in Hr as [-> _]. done. }
  cbn [mbind outcome_bind]. destruct (IH w1 Hg1) as (w2 & -> & Hg2 & Hk2).
  - intros Hx. by apply (keeps_connecting _ _ _ Hk1) in Hx.
  - split; [|by eapply room_step]. rewrite (keeps_open _ _ _ Hk1). destruct (is_open (cn w)); [by rewrite orb_true_r|].
    rewrite orb_false_r in *. by apply andb_prop in Hr as [_ ->].
  - exists w2. split_and!; [done..|]. by eapply keeps_trans.
Qed.

(** ** User callbacks *)

Lemma open_trace_event l e : open_trace l -> quiet_event e -> open_trace (l ++ [e]).
Proof. intros (mid & -> & Hm) He. exists (mid ++ [e]). split; [done|]. apply Forall_app. auto. Qed.

Lemma closed_trace_event l e :
  closed_trace l -> e <> UMessage -> (quiet_event e \/ e = UClose) -> closed_trace (l ++ [e]).
Proof.
  intros (mid & post & -> & Hm & Hp) He Hq. exists mid, (post ++ [e]). split_and!; [|done|apply Forall_app; auto].
  cbn. by rewrite <- app_assoc.
Qed.

Lemma record_event_good busy e w :
  good busy w -> state_ (cn w) <> kConnecting ->
  (quiet_event e /\ (is_open (cn w) = true \/ e <> UMessage)) \/ (state_ (cn w) = kDisconnected /\ e = UClose) ->
  good busy (update_conn (record_event e) w).
Proof.
  intros (a & fresh & Hch & H1 & H2 & H3 & H4) Hnc He. exists a, fresh. split; [by apply chan_conn|].
  unfold conn_ok, is_open, writing in *. cbn. split_and!; try done.
  destruct (state_ (cn w)); try done.
  - destruct H4 as [Ha Ht]. split; [done|]. apply closed_trace_event; [done|..].
    + destruct He as [[_ [Ho|?]]|[_ ->]]; done.
    + destruct He as [[? _]|[_ ->]]; auto.
  - destruct H4 as (Ha & Hs & Ht). split_and!; try done. apply open_trace_event; [done|].
    destruct He as [[? _]|[? _]]; done.
  - destruct H4 as (Ha & Hs & Ht). split_and!; try done. apply open_trace_event; [done|].
    destruct He as [[? _]|[? _]]; done.
Qed.

Lemma user_spec busy e script w :
  good busy w -> state_ (cn w) <> kConnecting -> script_ok script w ->
  (quiet_event e /\ (is_open (cn w) = true \/ e <> UMessage)) \/ (state_ (cn w) = kDisconnected /\ e = UClose) ->
  exists w', user e script w = Ok w' /\ good busy w' /\ keeps (cost script) w w'.
Proof.
  intros Hg Hnc Hok He. unfold user.
  destruct (run_script_spec busy script (update_conn (record_event e) w)) as (w' & -> & Hg' & Hk'); try done.
  { by apply record_event_good. }
  exists w'. split_and!; try done. destruct Hk'. by constructor.
Qed.

(** ** Handlers *)

(** Closing code switches no reading on or off, and there is memory. *)
Definition down_ok (script : list api) w : Prop :=
  forallb (fun a => negb (reading_api a)) script = true /\ room (cost script) w.

Lemma down_ok_script script w : down_ok script w -> script_ok script w.
Proof. intros [H1 H2]. split; [by rewrite H1|done]. Qed.

(** The connection goes down: all events off, the user told. *)
Lemma go_down_spec busy script w :
  good busy w -> is_open (cn w) = true -> down_ok script w ->
  exists w', (w ← on_channel ChannelOps.disableAll (update_conn (setState kDisconnected) w);
       user (UConnection (connected (cn w))) script w) = Ok w' /\
    good busy w' /\ state_ (cn w') = kDisconnected /\ channel_ (cn w') = channel_ (cn w) /\
    same_core (heap w) (heap w') /\ (exists fresh, chan busy w' (Some (0, true)) fresh).
Proof.
  intros Hg Ho [Hnr Hroom].
  destruct (good_open _ _ Hg Ho) as (ev & off & fresh & ch & Hch & Hc & Hev & Hv & Hiw & Hin & Hout & Hst & Hshut & Htr).
  set (w0 := update_conn (setState kDisconnected) w).
  assert (chan busy w0 (Some (ev, off)) fresh) as Hch0 by (by apply chan_conn).
  destruct (chan_change busy w0 Interest.DisableAll ev off fresh Hch0) as (w1 & Hop & Hcn & Hco & Hch1).
  cbn [mask_op_fun] in Hop. rewrite Hop. cbn [mbind outcome_bind].
  assert (connected (cn w1) = false) as Hcon by (rewrite Hcn; done). rewrite Hcon. unfold user.
  set (w2 := update_conn (record_event (UConnection false)) w1).
  assert (chan busy w2 (Some (0, true)) fresh) as Hch2 by (apply chan_conn; [done|exact Hch1]).
  assert (good busy w2) as Hg2.
  { exists (Some (0, true)), fresh. split; [done|]. unfold w2, conn_ok. cbn. rewrite Hcn. cbn.
    split_and!; try done; [by left|]. destruct Htr as (mid & -> & Hm). exists mid, []. split_and!; [done|done|constructor]. }
  assert (state_ (cn w2) = kDisconnected) as Hs2 by (cbn; by rewrite Hcn).
  destruct (run_script_spec busy script w2 Hg2) as (w' & -> & Hg' & Hk').
  { by rewrite Hs2. }
  { split; [by rewrite Hnr|]. unfold room in *. cbn. rewrite Hcn. done. }
  exists w'. split_and!; [done|done|by apply Hk'|rewrite (keeps_channel _ _ _ Hk'); cbn; by rewrite Hcn| |].
  - eapply same_core_trans; [exact Hco|]. apply (keeps_core _ _ _ Hk').
  - destruct Hg' as (a & fr & Hch' & _ & _ & _ & Hst'). exists fr.
    rewrite (keeps_closed _ _ _ Hk' Hs2) in Hst'. destruct Hst' as [[->|[-> _]] _]; [done|].
    destruct (registered_chan _ _ _ _ Hch' (keeps_registered _ _ _ Hk' (chan_registered _ _ _ _ Hch2))). done.
Qed.

(** What every handler keeps. *)
Definition handled (busy : ptr -> Prop) w w' : Prop :=
  good busy w' /\ channel_ (cn w') = channel_ (cn w) /\ same_core (heap w) (heap w') /\
  (state_ (cn w') = kConnecting -> state_ (cn w) = kConnecting).

Lemma handled_refl busy w : good busy w -> handled busy w w.
Proof. done. Qed.

Lemma handled_trans busy w1 w2 w3 : handled busy w1 w2 -> handled busy w2 w3 -> handled busy w1 w3.
Proof.
  intros (_ & A2 & A3 & A4) (B1 & B2 & B3 & B4). split_and!; [done|congruence|by eapply same_core_trans|auto].
Qed.

Lemma handled_keeps busy n w w' : good busy w' -> keeps n w w' -> handled busy w w'.
Proof. intros Hg []. by split_and!. Qed.

Lemma handleClose_spec busy e w :
  good busy w -> is_open (cn w) = true -> down_ok (on_down e) w ->
  exists w', handleClose e w = Ok w' /\ handled busy w w' /\ state_ (cn w') = kDisconnected.
Proof.
  intros Hg Ho Hd. unfold handleClose. rewrite Ho. cbn [assert mbind outcome_bind].
  destruct (go_down_spec busy (on_down e) w Hg Ho Hd) as (w1 & Hw1 & Hg1 & Hs1 & Hc1 & Hco1 & _).
  apply bind_Ok in Hw1 as (w0 & Hop & Hus). rewrite Hop. cbn [mbind outcome_bind]. rewrite Hus. cbn [mbind outcome_bind].
  unfold user. cbn [run_script]. eexists. split; [done|]. split; [|done]. split_and!; [|done|done|cbn; by rewrite Hs1].
  apply record_event_good; [done|by rewrite Hs1|by right].
Qed.

(** The environment of an event is as it should be. *)
Definition env_ok (e : env) w : Prop :=
  Buffer.readv_bounded (rd e) /\
  zlen (Buffer.buffer_ (inputBuffer_ (cn w))) + Buffer.extrabuf_size <= Buffer.max_size /\
  room (cost (on_message e)) w /\ down_ok (on_down e) w.

Lemma handleRead_spec busy e w :
  good busy w -> is_open (cn w) = true -> env_ok e w -> exists w', handleRead e w = Ok w' /\ handled busy w w'.
Proof.
  intros Hg Ho (Hrv & Hin & Hrm & Hd). pose proof Hg as (a & fresh & _ & Hwf & _).
  pose proof (Buffer.readFd_contents (rd e) (inputBuffer_ (cn w)) Hwf Hrv Hin) as Hr. unfold handleRead.
  assert (exists n o b, Buffer.readFd (rd e) (inputBuffer_ (cn w)) = Ok (n, o, b) /\ Buffer.wf b) as (n & o & b & -> & Hwfb).
  { destruct (rd e _); [by eexists _, _, _|]. destruct Hr as (b & ? & ? & _). eauto. }
  cbn [mbind outcome_bind]. set (w1 := update_conn (with_input b) w).
  assert (good busy w1) as Hg1 by (apply good_inert; [by constructor|done]).
  assert (handled busy w w1) as Hh1 by done.
  destruct (0 <? n); [|destruct (n =? 0)].
  - destruct (user_spec busy UMessage (on_message e) w1 Hg1) as (w' & -> & Hg' & Hk').
    + intros Hx. unfold is_open in Ho. change (state_ (cn w) = kConnecting) in Hx. by rewrite Hx in Ho.
    + split; [|done]. change (is_open (cn w1)) with (is_open (cn w)). by rewrite Ho, orb_true_r.
    + left. split; [done|by left].
    + exists w'. split; [done|]. eapply handled_trans; [done|]. by eapply handled_keeps.
  - destruct (handleClose_spec busy e w1 Hg1 Ho Hd) as (w' & -> & Hh & _). exists w'.
    split; [done|]. exact (handled_trans _ _ _ _ Hh1 Hh).
  - by exists w1.
Qed.

(** After a successful write of [n] bytes of the output buffer. *)
Lemma handleWrite_sent busy w n :
  good busy w -> is_open (cn w) = true -> shut (cn w) = false -> 0 < n <= zlen (Buffer.contents (outputBuffer_ (cn w))) ->
  exists out w1, Buffer.retrieve (outputBuffer_ (cn w)) n = Ok out /\
    w1 = update_conn (with_output out) (update_conn (record_sent (take (Z.to_nat n) (Buffer.contents (outputBuffer_ (cn w))))) w) /\
    if Buffer.readableBytes out =? 0 then
      exists w2, on_channel ChannelOps.disableWriting w1 = Ok w2 /\ handled busy w w2 /\ state_ (cn w2) = state_ (cn w)
    else handled busy w w1.
Proof.
  intros Hg Ho Hsh Hn.
  destruct (good_open _ _ Hg Ho) as (ev & off & fresh & ch & Hch & Hc & Hev & Hv & Hiw & Hin & Hout & Hst & Hshut & Htr).
  destruct (Buffer.retrieve_contents (outputBuffer_ (cn w)) (Z.to_nat n) Hout) as (out & Hr & Hwf & Hcont); [unfold zlen in Hn; lia|].
  rewrite Z2Nat.id in Hr by lia. exists out. eexists. split; [done|]. split; [done|]. set (w1 := update_conn _ _).
  assert (chan busy w1 (Some (ev, off)) fresh) as Hch1 by (by apply chan_conn, chan_conn).
  assert (sent (cn w1) ++ Buffer.contents (outputBuffer_ (cn w1)) = concat (accepted (cn w1))) as Hst1.
  { cbn. rewrite Hcont, <- app_assoc, take_drop. done. }
  rewrite readable_empty by done. case_bool_decide as Hnil.
  - destruct (chan_change busy w1 Interest.DisableWriting ev off fresh Hch1) as (w2 & Hop & Hcn & Hco & Hch2).
    exists w2. split; [exact Hop|]. split; [|by rewrite Hcn]. split_and!; [|by rewrite Hcn|exact Hco|by rewrite Hcn].
    eapply good_open_intro; [exact Hch2|..]; rewrite Hcn; try done.
    + rewrite mask_write_bit by done. unfold writing. cbn. rewrite Hnil. done.
    + cbn. by rewrite Hsh.
  - split_and!; try done. eapply good_open_intro; [exact Hch1|..]; try done.
    + unfold writing. cbn. rewrite (bool_decide_eq_true_2 (Buffer.contents out <> [])) by done.
      rewrite <- Hev. change (has (Channel.events_ ch) Channel.kWriteEvent) with (Channel.isWriting ch). rewrite Hiw.
      apply bool_decide_eq_true_2. intros E. apply (f_equal length) in E. unfold zlen in Hn. cbn in E. lia.
    + cbn. by rewrite Hsh.
Qed.

Lemma queue_good busy f w : good busy w -> state_ (cn w) <> kConnecting -> good busy (update_conn (queueInLoop f) w).
Proof. intros Hg Hnc. apply good_inert; [|done]. constructor; done. Qed.

Lemma handleWrite_spec busy e w :
  good busy w -> state_ (cn w) <> kConnecting -> exists w', handleWrite e w = Ok w' /\ handled busy w w'.
Proof.
  intros Hg Hnc. unfold handleWrite.
  destruct (is_open (cn w)) eqn:Ho.
  2: { pose proof Hg as (a & fresh & Hch & _ & _ & _ & Hst). destruct (chan_get _ _ _ _ Hch) as (c & -> & _ & Hev).
    cbn [mbind outcome_bind]. assert (Channel.events_ c = 0) as Hzero.
    { unfold is_open in Ho. destruct (state_ (cn w)); try done. destruct Hst as [[->|[-> _]] _]; by destruct Hev. }
    unfold Channel.isWriting. rewrite Hzero. cbn. by exists w. }
  destruct (good_open _ _ Hg Ho) as (ev & off & fresh & ch & Hch & -> & Hev & Hv & Hiw & Hin & Hout & Hst & Hshut & Htr).
  cbn [mbind outcome_bind]. destruct (Channel.isWriting ch) eqn:Ew; [|by exists w].
  rewrite <- Buffer.contents_zlen by done. 
  assert (load (Buffer.buffer_ (outputBuffer_ (cn w))) (Buffer.peek (outputBuffer_ (cn w)))
    (zlen (Buffer.contents (outputBuffer_ (cn w)))) = Ok (Buffer.contents (outputBuffer_ (cn w)))) as ->.
  { unfold zlen. rewrite Buffer.load_contents by done. by rewrite take_ge. }
  cbn [mbind outcome_bind].
  destruct (sock_write_cases (wr e) (zlen (Buffer.contents (outputBuffer_ (cn w)))) (cn w) (zlen_nonneg _))
    as [(n & -> & Hn & Hsh)|(er & -> & _)]; [|by exists w].
  destruct (Z.ltb_spec 0 n) as [Hpos|]; [|by exists w].
  destruct (handleWrite_sent busy w n Hg Ho Hsh ltac:(lia)) as (out & w1 & -> & Hw1 & Hcase). cbn [mbind outcome_bind].
  rewrite <- Hw1. destruct (Buffer.readableBytes out =? 0); [|by exists w1].
  destruct Hcase as (w2 & -> & Hh2 & Hs2). cbn [mbind outcome_bind].
  set (w3 := if writeCompleteCallback_ (cn w2) then _ else _).
  assert (handled busy w w3 /\ state_ (cn w3) = state_ (cn w)) as [Hh3 Hs3].
  { unfold w3. destruct (writeCompleteCallback_ (cn w2)); [|done]. destruct Hh2 as (A & B & C & D). split; [|done].
    split_and!; try done. apply queue_good; [done|]. by rewrite Hs2. }
  case_bool_decide as Hdis; [|by exists w3]. destruct Hh3 as (Hg3 & A & B & C).
  destruct (shutdownInLoop_spec busy w3 Hg3) as (w4 & -> & Hg4 & Hk4 & _); [by rewrite Hs3|by rewrite Hdis|].
  exists w4. split; [done|]. apply (handled_trans busy w w3 w4); [done|]. by eapply handled_keeps.
Qed.


(** ** Events *)

Definition nobody : ptr -> Prop := fun _ => False.

Definition pack w : Channel.heap * (conn * P) := (heap w, (cn w, poller w)).

Definition handler (e : env) (cb : Channel.callback) w : outcome world :=
  match cb with
  | Channel.CloseCb => handleClose e w
  | Channel.ErrorCb => handleError w
  | Channel.ReadCb _ => handleRead e w
  | Channel.WriteCb => handleWrite e w
  end.

(** The channel has received [r]. *)
Definition received (r : Z) w : Prop :=
  exists c, heap w !! channel_ (cn w) = Some c /\ Channel.revents_ c = r.

Lemma received_handled busy r w w' : received r w -> handled busy w w' -> received r w'.
Proof.
  intros (c & Hc & <-) (_ & E & Hco & _). specialize (Hco (channel_ (cn w))). rewrite Hc in Hco. cbn in Hco.
  apply fmap_Some in Hco as (c' & Hc' & Hcc). exists c'. rewrite E. split; [done|].
  change (Channel.revents_ (core c') = Channel.revents_ (core c)). by rewrite Hcc.
Qed.

Lemma fire_cases e r cond is_set cb w :
  received r w ->
  Channel.fire (channel_call e) (channel_ (cn w)) cond is_set cb (pack w) = Ok (pack w) \/
  cond r = true /\
  Channel.fire (channel_call e) (channel_ (cn w)) cond is_set cb (pack w) = (w' ← handler e cb w; Ok (pack w')).
Proof.
  intros (c & Hc & <-). unfold Channel.fire. cbn [fst pack]. rewrite (deref_Some _ _ _ Hc). cbn [mbind outcome_bind].
  destruct (cond (Channel.revents_ c)); [|by left]. destruct (is_set c); [right|by left]. split; [done|].
  destruct w. by destruct cb.
Qed.

(** One callback of the dispatch, given what its handler does. *)
Lemma fire_spec busy e r cond is_set cb w :
  received r w -> good busy w ->
  (cond r = true -> exists w', handler e cb w = Ok w' /\ handled busy w w') ->
  exists w', Channel.fire (channel_call e) (channel_ (cn w)) cond is_set cb (pack w) = Ok (pack w') /\
    handled busy w w' /\ (cond r = false -> w' = w).
Proof.
  intros Hr Hg Hh. destruct (fire_cases e r cond is_set cb w Hr) as [->|[Hc ->]].
  - exists w. split_and!; try done.
  - destruct (Hh Hc) as (w' & -> & Hw'). exists w'. split_and!; [done..|congruence].
Qed.

(** The four callbacks in the order of [handleEventWithGuard]. *)
Lemma fire_all_spec busy e r w :
  received r w -> good busy w -> is_open (cn w) = true -> env_ok e w ->
  Channel.on_hup r && Channel.on_read r = false ->
  exists w', (x ← Channel.fire (channel_call e) (channel_ (cn w)) Channel.on_hup Channel.closeCallback_ Channel.CloseCb (pack w);
    x ← Channel.fire (channel_call e) (channel_ (cn w)) Channel.on_error Channel.errorCallback_ Channel.ErrorCb x;
    x ← Channel.fire (channel_call e) (channel_ (cn w)) Channel.on_read Channel.readCallback_ (Channel.ReadCb 0) x;
    Channel.fire (channel_call e) (channel_ (cn w)) Channel.on_write Channel.writeCallback_ Channel.WriteCb x) = Ok (pack w') /\
    handled busy w w'.
Proof.
  intros Hr Hg Ho He Hx. assert (state_ (cn w) <> kConnecting) as Hnc by (intros E; unfold is_open in Ho; by rewrite E in Ho).
  destruct (fire_spec busy e r Channel.on_hup Channel.closeCallback_ Channel.CloseCb w Hr Hg) as (w1 & -> & H1 & Hsame).
  { intros _. destruct (handleClose_spec busy e w Hg Ho) as (w' & ? & ? & _); [apply He|eauto]. }
  cbn [mbind outcome_bind]. pose proof (received_handled _ _ _ _ Hr H1) as Hr1. pose proof H1 as (Hg1 & E1 & _ & Hc1).
  rewrite <- E1. destruct (fire_spec busy e r Channel.on_error Channel.errorCallback_ Channel.ErrorCb w1 Hr1 Hg1) as (w2 & Hf2 & H2 & _).
  { intros _. exists w1. split; done. }
  assert (w2 = w1) as ->.
  { destruct (fire_cases e r Channel.on_error Channel.errorCallback_ Channel.ErrorCb w1 Hr1) as [Hf|[_ Hf]];
      rewrite Hf in Hf2; cbn in Hf2; unfold pack in Hf2; destruct w1, w2; cbn in *; congruence. }
  rewrite Hf2. cbn [mbind outcome_bind].
  destruct (fire_spec busy e r Channel.on_read Channel.readCallback_ (Channel.ReadCb 0) w1 Hr1 Hg1) as (w3 & -> & H3 & _).
  { intros Hrd. rewrite Hrd, andb_true_r in Hx. rewrite (Hsame Hx). by apply handleRead_spec. }
  cbn [mbind outcome_bind]. pose proof (received_handled _ _ _ _ Hr1 H3) as Hr3. pose proof H3 as (Hg3 & E3 & _ & Hc3).
  rewrite <- E3. destruct (fire_spec busy e r Channel.on_write Channel.writeCallback_ Channel.WriteCb w3 Hr3 Hg3) as (w4 & -> & H4 & _).
  { intros _. apply handleWrite_spec; [done|]. intros E. auto. }
  exists w4. split; [done|]. eauto using handled_trans.
Qed.

Lemma good_touch (busy : ptr -> Prop) w f :
  good busy w ->
  (forall c, Channel.fd_ (f c) = Channel.fd_ c /\ Channel.events_ (f c) = Channel.events_ c /\
    Channel.index_ (f c) = Channel.index_ c /\ Channel.addedToLoop_ (f c) = Channel.addedToLoop_ c /\
    (Channel.eventHandling_ (f c) = true -> Channel.eventHandling_ c = true \/ busy (channel_ (cn w)))) ->
  exists c, heap w !! channel_ (cn w) = Some c /\
    Channel.modify (channel_ (cn w)) f (heap w) = Ok (<[channel_ (cn w) := f c]> (heap w)) /\
    good busy (mkWorld (cn w) (<[channel_ (cn w) := f c]> (heap w)) (poller w)).
Proof.
  intros (a & fresh & Hch & Hok) Hf. destruct (chan_get _ _ _ _ Hch) as (c & _ & Hc & _). exists c.
  destruct (chan_touch _ _ _ _ _ Hch Hf) as (h' & Hm & Hch'). pose proof (modify_Some _ _ _ f Hc) as E. rewrite E in Hm.
  injection Hm as <-. split_and!; [done..|]. by exists a, fresh.
Qed.

Lemma good_busy (busy busy' : ptr -> Prop) w :
  (forall p c, heap w !! p = Some c -> Channel.eventHandling_ c = true -> busy p -> busy' p) ->
  good busy w -> good busy' w.
Proof. intros Hb (a & fresh & Hch & Hok). exists a, fresh. split; [by eapply chan_busy|done]. Qed.


Lemma handleEventWithGuard_spec e r w :
  received r w -> good nobody w -> is_open (cn w) = true -> env_ok e w ->
  Channel.on_hup r && Channel.on_read r = false ->
  exists w', Channel.handleEventWithGuard (channel_call e) (channel_ (cn w)) 0 (pack w) = Ok (pack w') /\ good nobody w' /\
    channel_ (cn w') = channel_ (cn w) /\ (state_ (cn w') = kConnecting -> state_ (cn w) = kConnecting).
Proof.
  intros Hr Hg Ho He Hx. set (me := fun p => p = channel_ (cn w)). unfold Channel.handleEventWithGuard. cbn [fst snd pack].
  assert (good me w) as Hgm by (eapply good_busy; [|done]; done).
  destruct (good_touch me w (Channel.with_eventHandling true) Hgm) as (c & Hc & -> & Hg1).
  { intros c. split_and!; try done. by right. }
  cbn [mbind outcome_bind fst snd pack]. set (w1 := mkWorld _ _ _) in Hg1.
  assert (received r w1) as Hr1.
  { destruct Hr as (c' & Hc' & <-). assert (c' = c) as -> by congruence. exists (Channel.with_eventHandling true c). cbn. by rewrite lookup_insert_eq. }
  destruct (fire_all_spec me e r w1 Hr1 Hg1 Ho He Hx) as (w2 & Hf & Hg2 & E2 & Hco2 & Hc2).
  apply bind_Ok in Hf as (x1 & Hf1 & Hf). apply bind_Ok in Hf as (x2 & Hf2 & Hf). apply bind_Ok in Hf as (x3 & Hf3 & Hf).
  change (channel_ (cn w1)) with (channel_ (cn w)) in *. change (_, (cn w, poller w)) with (pack w1).
  rewrite Hf1. cbn [mbind outcome_bind]. rewrite Hf2. cbn [mbind outcome_bind]. rewrite Hf3. cbn [mbind outcome_bind].
  rewrite Hf. cbn [mbind outcome_bind fst snd pack]. rewrite <- E2.
  destruct (good_touch me w2 (Channel.with_eventHandling false) Hg2) as (c2 & Hcc & -> & Hg3).
  { intros c'. by split_and!. }
  cbn [mbind outcome_bind]. exists (mkWorld (cn w2) (<[channel_ (cn w2) := Channel.with_eventHandling false c2]> (heap w2)) (poller w2)). split; [done|]. split_and!; [|done|done].
  eapply good_busy; [|exact Hg3]. intros p c' Hp Hev Hme. unfold me in Hme. rewrite Hme, <- E2 in Hp. cbn [heap] in Hp.
  rewrite lookup_insert_eq in Hp. injection Hp as <-. done.
Qed.

Lemma handleEvents_spec e r w :
  good nobody w -> is_open (cn w) = true -> env_ok e w -> Channel.on_hup r && Channel.on_read r = false ->
  exists w', handleEvents r e w = Ok w' /\ good nobody w' /\ channel_ (cn w') = channel_ (cn w) /\
    (state_ (cn w') = kConnecting -> state_ (cn w) = kConnecting).
Proof.
  intros Hg Ho He Hx. unfold handleEvents.
  destruct (good_touch nobody w (Channel.set_revents r) Hg) as (c & Hc & -> & Hg1).
  { intros c. split_and!; try done. by left. }
  cbn [mbind outcome_bind]. set (w1 := mkWorld _ _ _) in Hg1.
  assert (received r w1) as Hr1 by (exists (Channel.set_revents r c); cbn; by rewrite lookup_insert_eq).
  destruct (handleEventWithGuard_spec e r w1 Hr1 Hg1 Ho He Hx) as (w2 & Hw2 & Hg2 & Hx2).
  change (_, (cn w, poller w)) with (pack w1). change (channel_ (cn w)) with (channel_ (cn w1)).
  unfold Channel.handleEvent. destruct Hr1 as (c1 & Hc1 & _). change ((pack w1).1) with (heap w1). rewrite (deref_Some _ _ _ Hc1).
  cbn [mbind outcome_bind].
  assert (exists w', (r0 ← (Ok (pack w1) : outcome (Channel.heap * (conn * P))); Ok (mkWorld (r0.2.1) (r0.1) (r0.2.2))) = Ok w' /\ good nobody w' /\
    channel_ (cn w') = channel_ (cn w1) /\ (state_ (cn w') = kConnecting -> state_ (cn w1) = kConnecting)) as Hidle.
  { exists w1. split_and!; done. }
  assert (exists w', (r0 ← Channel.handleEventWithGuard (channel_call e) (channel_ (cn w1)) 0 (pack w1);
    Ok (mkWorld (r0.2.1) (r0.1) (r0.2.2))) = Ok w' /\ good nobody w' /\
    channel_ (cn w') = channel_ (cn w1) /\ (state_ (cn w') = kConnecting -> state_ (cn w1) = kConnecting)) as Hrun.
  { exists w2. rewrite Hw2. cbn [mbind outcome_bind pack]. destruct w2. done. }
  destruct (Channel.tied_ c1); [|done]. by destruct (Channel.tie_ c1).
Qed.

(** ** The life of a connection *)

Lemma connectEstablished_spec script w :
  good nobody w -> state_ (cn w) = kConnecting -> room (cost script) w ->
  exists w', connectEstablished script w = Ok w' /\ good nobody w' /\ state_ (cn w') <> kConnecting.
Proof.
  intros (a & fresh & Hch & H1 & H2 & H3 & H4) Hs Hroom. unfold connectEstablished. rewrite Hs in H4. destruct H4 as (-> & -> & Hout & Hsh & Hf & Ht & Htr).
  rewrite (bool_decide_eq_true_2 (state_ (cn w) = kConnecting)) by done. cbn [assert mbind outcome_bind].
  set (w1 := update_conn (setState kConnected) w). assert (chan nobody w1 None true) as Hch1 by (by apply chan_conn).
  destruct (chan_touch _ _ _ _ (Channel.tie 0) Hch1) as (h & Hm & Hch2). { intros c. split_and!; try done. by left. }
  change (channel_ (cn w1)) with (channel_ (cn w)) in *. change (heap w1) with (heap w) in *. rewrite Hm. cbn [mbind outcome_bind].
  set (w2 := mkWorld _ _ _) in *. destruct (chan_register _ w2 Interest.EnableReading Hch2) as (w3 & Hop & Hcn & _ & Hch3).
  cbn [mask_op_fun] in Hop. rewrite Hop. cbn [mbind outcome_bind].
  assert (state_ (cn w3) = kConnected) as Hs3 by (by rewrite Hcn). set (w4 := update_conn (record_event (UConnection true)) w3).
  assert (good nobody w4) as Hg4.
  { eapply good_open_intro; [by apply chan_conn|..]; cbn; rewrite ?Hcn; cbn; try done.
    - unfold writing. cbn. by rewrite Hout.
    - by rewrite Hsh.
    - rewrite Htr. by exists []. }
  unfold user, connected. rewrite (bool_decide_eq_true_2 (state_ (cn w3) = kConnected)) by done. fold w4.
  destruct (run_script_spec nobody script w4 Hg4) as (w5 & -> & Hg5 & Hk5).
  - cbn. by rewrite Hs3.
  - split; [|unfold room in *; cbn; by rewrite Hcn]. unfold is_open. cbn. rewrite Hs3. by rewrite orb_true_r.
  - exists w5. split_and!; [done..|]. intros Hx%(keeps_connecting _ _ _ Hk5). cbn in Hx. by rewrite Hs3 in Hx.
Qed.

Lemma connectDestroyed_spec e w :
  good nobody w -> registered w -> down_ok (on_down e) w -> (state_ (cn w) = kConnected \/ state_ (cn w) = kDisconnected) ->
  exists w', connectDestroyed e w = Ok w' /\ good nobody w' /\ state_ (cn w') = kDisconnected /\ chan nobody w' None false.
Proof.
  intros Hg Hreg Hd Hs. unfold connectDestroyed, connected.
  assert (exists w1 fresh, (if bool_decide (state_ (cn w) = kConnected) then
         w ← on_channel ChannelOps.disableAll (update_conn (setState kDisconnected) w);
         user (UConnection (connected (cn w))) (on_down e) w else Ok w) = Ok w1 /\ good nobody w1 /\
     state_ (cn w1) = kDisconnected /\ chan nobody w1 (Some (0, true)) fresh) as (w1 & fresh & Hw1 & Hg1 & Hs1 & Hch1).
  { case_bool_decide as Hst.
    - destruct (go_down_spec nobody (on_down e) w Hg) as (w1 & ? & ? & ? & _ & _ & (fr & ?)); [unfold is_open; by rewrite Hst|done|eauto 10].
    - destruct Hs as [|Hs]; [done|]. pose proof Hg as (a & fr & Hch & _ & _ & _ & Hx). rewrite Hs in Hx.
      destruct (registered_chan _ _ _ _ Hch Hreg) as [x ->]. destruct Hx as [[Hx|[? _]] _]; [|done]. rewrite Hx in Hch. eauto 10. }
  unfold connected in Hw1. rewrite Hw1. cbn [mbind outcome_bind].
  destruct (chan_remove _ _ _ Hch1) as (w2 & -> & Hcn & _ & Hch2). exists w2. split_and!; [done| |by rewrite Hcn|done].
  destruct Hg1 as (a & fr & _ & A & B & C & D). exists None, false. rewrite Hs1 in D. split; [done|]. unfold conn_ok.
  rewrite Hcn, Hs1. split_and!; try done; [by right|apply D].
Qed.


(** *** Shutdown requests *)

(** While the connection is kConnected no shutdown is queued. *)
Definition unasked (c : conn) : Prop := state_ c = kConnected -> ShutdownInLoop ∉ functors c.

Lemma unasked_same c c' : state_ c' = state_ c -> functors c' = functors c -> unasked c -> unasked c'.
Proof. unfold unasked. by intros -> ->. Qed.

Lemma unasked_left c : state_ c <> kConnected -> unasked c.
Proof. by intros ? ?. Qed.

Lemma unasked_queue f c : f <> ShutdownInLoop -> unasked c -> unasked (queueInLoop f c).
Proof.
  intros Hf Hu Hs. cbn in *. rewrite not_elem_of_app, list_elem_of_singleton. split; [by apply Hu|congruence].
Qed.

Lemma unasked_functors f fs c : functors c = f :: fs -> unasked c -> unasked (with_functors fs c).
Proof. intros E Hu Hs Hin. apply (Hu Hs). rewrite E. by right. Qed.

Lemma on_channel_cn op w w' : on_channel op w = Ok w' -> cn w' = cn w.
Proof. unfold on_channel. intros (r & _ & [= <-])%bind_Ok. done. Qed.

Lemma unasked_write_directly wr data c : unasked c -> unasked (write_directly wr data c).2.
Proof.
  intros Hu. unfold write_directly. destruct (sock_write wr _ c) as [e|n]; [done|]. cbn.
  destruct (_ && _); [apply unasked_queue; [done|]|]; by apply (unasked_same c).
Qed.

Lemma unasked_sendInLoop wr data w w' : unasked (cn w) -> sendInLoop wr data w = Ok w' -> unasked (cn w').
Proof.
  intros Hu. rewrite sendInLoop_unfold. case_bool_decide; [by intros [= <-]|]. intros (ch & _ & Hs)%bind_Ok.
  assert (exists n r fe c, send_rest ch data n r fe c w = Ok w' /\ unasked c) as (n & r & fe & c & Hr & Hc).
  { destruct (_ && _); [|by eauto 10]. pose proof (unasked_write_directly wr data (cn w) Hu) as Hd.
    destruct (write_directly wr data (cn w)) as [[[n r] fe] c]. eauto 10. }
  clear Hs. unfold send_rest in Hr. set (c1 := if fe then c else record_accepted data c) in Hr.
  assert (unasked c1) as Hc1 by (unfold c1; destruct fe; [done|by apply (unasked_same c)]). clearbody c1.
  inv_ok Hr. destruct (negb fe && (0 <? r)); [|inv_ok Hr; done]. set (c2 := if _ && _ then _ else c1) in Hr.
  assert (unasked c2) as Hc2 by (unfold c2; destruct (_ && _); [by apply unasked_queue|done]). clearbody c2.
  inv_ok Hr. destruct (Channel.isWriting ch); cbn [negb] in Hr; inv_ok Hr; [by apply (unasked_same c2)|].
  apply on_channel_cn in Hr. rewrite Hr. by apply (unasked_same c2).
Qed.

Lemma unasked_reading (b : bool) op (cond : bool) w w' :
  unasked (cn w) -> (if cond then w ← on_channel op w; Ok (update_conn (with_reading b) w) else Ok w) = Ok w' -> unasked (cn w').
Proof.
  intros Hu. destruct cond; [|by intros [= <-]]. intros Hx. inv_ok Hx. apply on_channel_cn in E.
  apply (unasked_same (cn w)); cbn; by rewrite ?E.
Qed.

Lemma unasked_shutdownInLoop w w' : unasked (cn w) -> shutdownInLoop w = Ok w' -> unasked (cn w').
Proof. intros Hu Hx. unfold shutdownInLoop in Hx. inv_ok Hx. destruct (negb _); inv_ok Hx; [by apply (unasked_same (cn w))|done]. Qed.

Lemma unasked_api inLoop a w w' : unasked (cn w) -> run_api inLoop a w = Ok w' -> unasked (cn w').
Proof.
  intros Hu Hx. destruct a as [wr m| | |s| | |len]; cbn [run_api] in Hx.
  - unfold send in Hx. destruct (connected (cn w)); [|by inv_ok Hx].
    destruct inLoop; [by eapply unasked_sendInLoop|]. inv_ok Hx. by apply unasked_queue.
  - unfold shutdown in Hx. destruct (connected (cn w)); [|by inv_ok Hx].
    destruct inLoop; [|inv_ok Hx; by apply unasked_left]. eapply unasked_shutdownInLoop; [|exact Hx]. by apply unasked_left.
  - inv_ok Hx. unfold forceClose. destruct (is_open _); [by apply unasked_left|done].
  - inv_ok Hx. unfold forceCloseWithDelay. destruct (is_open _); [by apply unasked_left|done].
  - destruct inLoop; cbn [startRead] in Hx; [|inv_ok Hx; by apply unasked_queue].
    unfold startReadInLoop in Hx. apply bind_Ok in Hx as (ch & _ & Hx). by eapply unasked_reading.
  - destruct inLoop; cbn [stopRead] in Hx; [|inv_ok Hx; by apply unasked_queue].
    unfold stopReadInLoop in Hx. apply bind_Ok in Hx as (ch & _ & Hx). by eapply unasked_reading.
  - inv_ok Hx. by apply (unasked_same (cn w)).
Qed.

Lemma unasked_user e script w w' : unasked (cn w) -> user e script w = Ok w' -> unasked (cn w').
Proof.
  intros Hu. unfold user. assert (unasked (cn (update_conn (record_event e) w))) as Hu1 by (by apply (unasked_same (cn w))).
  revert Hu1. generalize (update_conn (record_event e) w). induction script as [|a script IH]; intros w1 Hu1 Hx; cbn [run_script] in Hx.
  - by inv_ok Hx.
  - apply bind_Ok in Hx as (w2 & Ha & Hx). eapply IH; [|exact Hx]. by eapply unasked_api.
Qed.


Lemma unasked_go_down script w w' :
  (w ← on_channel ChannelOps.disableAll (update_conn (setState kDisconnected) w);
   user (UConnection (connected (cn w))) script w) = Ok w' -> unasked (cn w').
Proof.
  intros (w1 & Hc & Hu)%bind_Ok. apply on_channel_cn in Hc. eapply unasked_user; [|exact Hu].
  rewrite Hc. by apply unasked_left.
Qed.

Lemma unasked_handleClose e w w' : handleClose e w = Ok w' -> unasked (cn w').
Proof.
  unfold handleClose. intros (u & _ & Hx)%bind_Ok. apply bind_Ok in Hx as (w1 & Hc & Hx). apply bind_Ok in Hx as (w2 & Hu & Hx).
  eapply unasked_user; [|exact Hx]. apply (unasked_go_down (on_down e) w). apply bind_Ok. eauto.
Qed.

Lemma unasked_handler e cb w w' : unasked (cn w) -> handler e cb w = Ok w' -> unasked (cn w').
Proof.
  intros Hu. destruct cb; cbn [handler].
  - apply unasked_handleClose.
  - by intros [= <-].
  - unfold handleRead. intros ([[n o] b] & _ & Hx)%bind_Ok. destruct (0 <? n).
    + eapply unasked_user; [|exact Hx]. by apply (unasked_same (cn w)).
    + destruct (n =? 0); [by apply unasked_handleClose in Hx|]. injection Hx as <-. by apply (unasked_same (cn w)).
  - unfold handleWrite. intros (ch & _ & Hx)%bind_Ok. destruct (Channel.isWriting ch); [|by inv_ok Hx].
    apply bind_Ok in Hx as (data & _ & Hx). destruct (sock_write _ _ _) as [|n]; [by inv_ok Hx|].
    destruct (0 <? n); [|by inv_ok Hx]. apply bind_Ok in Hx as (out & _ & Hx).
    destruct (Buffer.readableBytes out =? 0); [|inv_ok Hx; by apply (unasked_same (cn w))].
    apply bind_Ok in Hx as (w1 & Hc & Hx). apply on_channel_cn in Hc. cbn zeta in Hx.
    assert (unasked (cn w1)) as Hu1 by (rewrite Hc; by apply (unasked_same (cn w))).
    set (w2 := if writeCompleteCallback_ (cn w1) then _ else w1) in Hx.
    assert (unasked (cn w2)) as Hu2 by (unfold w2; destruct (writeCompleteCallback_ _); [by apply unasked_queue|done]).
    case_bool_decide; [by eapply unasked_shutdownInLoop|by inv_ok Hx].
Qed.

Lemma unasked_fire e p cond is_set cb x x' :
  unasked (x.2.1) -> Channel.fire (channel_call e) p cond is_set cb x = Ok x' -> unasked (x'.2.1).
Proof.
  intros Hu. unfold Channel.fire. intros (c & _ & Hx)%bind_Ok. destruct (cond _); [|by inv_ok Hx].
  destruct (is_set c); [|by inv_ok Hx]. unfold channel_call in Hx. apply bind_Ok in Hx as (w & Hh & Hx). inv_ok Hx.
  apply (unasked_handler e cb (mkWorld (x.2.1) (x.1) (x.2.2))); [exact Hu|by destruct cb].
Qed.

Lemma unasked_handleEventWithGuard e p t x x' :
  unasked (x.2.1) -> Channel.handleEventWithGuard (channel_call e) p t x = Ok x' -> unasked (x'.2.1).
Proof.
  intros Hu. unfold Channel.handleEventWithGuard. intros (h & _ & Hx)%bind_Ok.
  do 4 (apply bind_Ok in Hx as (? & ?%unasked_fire & Hx); [|done]). apply bind_Ok in Hx as (h' & _ & Hx). by inv_ok Hx.
Qed.

Lemma unasked_handleEvents r e w w' : unasked (cn w) -> handleEvents r e w = Ok w' -> unasked (cn w').
Proof.
  intros Hu. unfold handleEvents. intros (h & _ & Hx)%bind_Ok. apply bind_Ok in Hx as (x & Hx & Hr). inv_ok Hr. cbn.
  unfold Channel.handleEvent in Hx. apply bind_Ok in Hx as (c & _ & Hx).
  destruct (Channel.tied_ c); [destruct (Channel.tie_ c); [|by inv_ok Hx]|];
    by apply unasked_handleEventWithGuard in Hx.
Qed.

Lemma unasked_run_functor e f w w' : unasked (cn w) -> run_functor e f w = Ok w' -> unasked (cn w').
Proof.
  intros Hu. destruct f; cbn [run_functor].
  - by apply unasked_sendInLoop.
  - by apply unasked_shutdownInLoop.
  - unfold forceCloseInLoop. destruct (is_open _); [apply unasked_handleClose|by intros [= <-]].
  - intros Hx. by apply (unasked_api true StartRead w).
  - intros Hx. by apply (unasked_api true StopRead w).
  - by apply unasked_user.
  - by apply unasked_user.
Qed.

Lemma unasked_connectDestroyed e w w' : unasked (cn w) -> connectDestroyed e w = Ok w' -> unasked (cn w').
Proof.
  intros Hu. unfold connectDestroyed. intros (w1 & H1 & H2)%bind_Ok. apply on_channel_cn in H2. rewrite H2.
  destruct (connected (cn w)); [by apply unasked_go_down in H1|by inv_ok H1].
Qed.

Lemma unasked_connectEstablished script w w' :
  functors (cn w) = [] -> connectEstablished script w = Ok w' -> unasked (cn w').
Proof.
  intros Hf. unfold connectEstablished. intros (u & _ & Hx)%bind_Ok. apply bind_Ok in Hx as (h & _ & Hx).
  apply bind_Ok in Hx as (w1 & Hc & Hx). apply on_channel_cn in Hc. eapply unasked_user; [|exact Hx].
  rewrite Hc. intros _. cbn. rewrite Hf. set_solver.
Qed.


(** ** Runs *)

Definition functor_ok (e : env) (f : functor) w : Prop :=
  match f with
  | SendInLoop message => room (zlen message) w
  | ShutdownInLoop => True
  | ForceCloseInLoop => down_ok (on_down e) w
  | StartReadInLoop | StopReadInLoop => is_open (cn w) = true
  | WriteComplete | HighWaterMark _ => script_ok (on_message e) w
  end.

(** The intended use: the connection is established once and destroyed from
    kConnected or after it was closed; events come while it is open, and not
    HUP together with something to read; reading is switched on and off only
    while it is open; buffers do not outgrow the address space. *)
Definition allowed (ev : event) w : Prop :=
  match ev with
  | Established script => state_ (cn w) = kConnecting /\ room (cost script) w
  | Io r e => is_open (cn w) = true /\ env_ok e w /\ Channel.on_hup r && Channel.on_read r = false
  | RunFunctor e => match functors (cn w) with [] => True | f :: _ => functor_ok e f w end
  | Api inLoop a => state_ (cn w) <> kConnecting /\ (inLoop = true -> script_ok [a] w)
  | TimerFires => True
  | Destroyed e =>
      registered w /\ down_ok (on_down e) w /\ (state_ (cn w) = kConnected \/ state_ (cn w) = kDisconnected)
  end.

(** The states of a connection made for a free descriptor of a poller in use. *)
Inductive reachable : world -> Prop :=
  | reachable_new T T' h P0 ch fd w :
      Interest.refines nobody T (h, P0) -> Interest.spec_step (Interest.New ch fd) T = Some T' ->
      Interest.fd_free T fd = true -> new ch fd h P0 = Ok w -> reachable w
  | reachable_step ev w w' : reachable w -> allowed ev w -> step ev w = Ok w' -> reachable w'.

Definition inv_conn w : Prop := good nobody w /\ unasked (cn w).

Lemma new_inv T T' h P0 ch fd w :
  Interest.refines nobody T (h, P0) -> Interest.spec_step (Interest.New ch fd) T = Some T' ->
  Interest.fd_free T fd = true -> new ch fd h P0 = Ok w -> inv_conn w.
Proof.
  intros HR Hs Hfree Hn. unfold new in Hn. inv_ok Hn.
  destruct (Interest.refines_step nobody _ _ _ _ HR ltac:(by intros ? ? ?) Hs) as ([h1 P1] & [= <- <-] & HR1 & _).
  split; [|by apply unasked_left]. pose proof HR as [_ Hag]. specialize (Hag ch). cbn [fst snd] in Hag. cbn in Hs.
  destruct (Interest.live T !! ch) as [|] eqn:Hl; [done|]. case_bool_decide; [|done]. injection Hs as <-.
  assert (Interest.asked T !! ch = None) as Hask by (unfold Interest.agrees in Hag; by destruct (h !! ch)).
  destruct (Buffer.new_wf Buffer.kInitialSize) as (b & Hb & Hwf & Hcont & _); [done..|].
  rewrite Hb in E, E0. injection E as ->. injection E0 as <-.
  exists None, true. split.
  - eexists (Interest.mkTable (<[ch := (fd, true)]> (Interest.live T)) (Interest.asked T)), fd. cbn [cn heap poller channel_]. split; [|cbn [Interest.live Interest.asked]; split_and!; [apply lookup_insert_eq|done|]].
    + pose proof (Interest.refines_touch nobody _ _ P0 ch (Channel.new fd) (fun c => Channel.setErrorCallback true
        (Channel.setCloseCallback true (Channel.setWriteCallback true (Channel.setReadCallback true c)))) HR1 (lookup_insert_eq _ _ _)
        eq_refl eq_refl eq_refl eq_refl ltac:(done)) as Ht.
      by rewrite insert_insert_eq in Ht.
    + intros _ _. unfold Interest.fd_free in *. apply bool_decide_eq_true in Hfree. apply bool_decide_eq_true_2.
      intros q z Hq. cbn in *. rewrite lookup_insert_ne by congruence. by apply (Hfree q z).
  - unfold conn_ok. cbn. rewrite Hcont. split_and!; done.
Qed.

Lemma run_functor_spec e f w :
  inv_conn w -> state_ (cn w) <> kConnecting -> (f = ShutdownInLoop -> state_ (cn w) <> kConnected) -> functor_ok e f w ->
  exists w', run_functor e f w = Ok w' /\ good nobody w'.
Proof.
  intros [Hg Hu] Hnc Hsd Hok. destruct f; cbn [run_functor functor_ok] in *.
  - destruct (sendInLoop_spec nobody (wr e) message w Hg Hnc Hok) as (w' & ? & ? & _). eauto.
  - destruct (shutdownInLoop_spec nobody w Hg Hnc (Hsd eq_refl)) as (w' & ? & ? & _). eauto.
  - unfold forceCloseInLoop. destruct (is_open (cn w)) eqn:Ho; [|eauto].
    destruct (handleClose_spec nobody e w Hg Ho Hok) as (w' & ? & [? _] & _). eauto.
  - destruct (startReadInLoop_spec nobody w Hg Hok) as (w' & ? & ? & _). eauto.
  - destruct (stopReadInLoop_spec nobody w Hg Hok) as (w' & ? & ? & _). eauto.
  - destruct (user_spec nobody UWriteComplete _ w Hg Hnc Hok) as (w' & ? & ? & _); [left; split; [done|by right]|eauto].
  - destruct (user_spec nobody (UHighWaterMark len) _ w Hg Hnc Hok) as (w' & ? & ? & _); [left; split; [done|by right]|eauto].
Qed.

Lemma api_outside_spec a w :
  good nobody w -> state_ (cn w) <> kConnecting -> exists w', run_api false a w = Ok w' /\ good nobody w'.
Proof.
  intros Hg Hnc. destruct a as [wr m| | |s| | |len].
  - cbn [run_api send]. unfold send. destruct (connected (cn w)); [|eauto]. eexists. split; [done|]. by apply queue_good.
  - destruct (shutdown_spec nobody false w Hg Hnc) as (w' & ? & ? & _). eauto.
  - eexists. split; [done|]. by apply forceClose_spec.
  - eexists. split; [done|]. by apply forceCloseWithDelay_spec.
  - eexists. split; [done|]. by apply queue_good.
  - eexists. split; [done|]. by apply queue_good.
  - destruct (retrieve_input nobody w len Hg) as (w' & ? & ? & _). eauto.
Qed.

Lemma idle_functors w : good nobody w -> state_ (cn w) = kConnecting -> functors (cn w) = [] /\ timers (cn w) = [].
Proof. intros (a & fresh & _ & _ & _ & _ & Hx) Hs. rewrite Hs in Hx. naive_solver. Qed.


Lemma step_good ev w : inv_conn w -> allowed ev w -> exists w', step ev w = Ok w' /\ good nobody w'.
Proof.
  intros [Hg Hu] Ha. destruct ev as [script|r e|e|inLoop a| |e]; cbn [step allowed] in *.
  - destruct Ha as [Hs Hr]. destruct (connectEstablished_spec script w Hg Hs Hr) as (w' & ? & ? & _). eauto.
  - destruct Ha as (Ho & He & Hx). destruct (handleEvents_spec e r w Hg Ho He Hx) as (w' & ? & ? & _). eauto.
  - destruct (functors (cn w)) as [|f fs] eqn:Ef; [eauto|].
    assert (state_ (cn w) <> kConnecting) as Hnc by (intros E; by destruct (idle_functors w Hg E) as [E' _]; rewrite Ef in E').
    apply run_functor_spec.
    + split; [apply good_inert; [by constructor|done]|by eapply unasked_functors].
    + done.
    + intros -> Hs. apply (Hu Hs). rewrite Ef. by left.
    + by destruct f.
  - destruct Ha as [Hnc Hok]. destruct inLoop; [|by apply api_outside_spec].
    destruct (run_api_spec nobody a w Hg Hnc (Hok eq_refl)) as (w' & ? & ? & _). eauto.
  - destruct (timers (cn w)) as [|t ts] eqn:Et; [eauto|]. eexists. split; [done|]. apply forceClose_spec.
    apply good_inert; [|done]. constructor; try done. intros Hs. by destruct (idle_functors w Hg Hs) as [_ E']; rewrite Et in E'.
  - destruct Ha as (Hr & Hd & Hs). destruct (connectDestroyed_spec e w Hg Hr Hd Hs) as (w' & ? & ? & _). eauto.
Qed.

Lemma step_unasked ev w w' : inv_conn w -> allowed ev w -> step ev w = Ok w' -> unasked (cn w').
Proof.
  intros [Hg Hu] Ha. destruct ev as [script|r e|e|inLoop a| |e]; cbn [step] in *.
  - destruct Ha as [Hs _]. apply unasked_connectEstablished. by apply idle_functors.
  - by apply unasked_handleEvents.
  - destruct (functors (cn w)) as [|f fs] eqn:Ef; [by intros [= <-]|]. apply unasked_run_functor.
    by eapply unasked_functors.
  - by apply unasked_api.
  - destruct (timers (cn w)) as [|t ts]; intros [= <-]; [done|]. apply (unasked_api true ForceClose (update_conn (with_timers ts) w)); [|done].
    by apply (unasked_same (cn w)).
  - by apply unasked_connectDestroyed.
Qed.

Lemma reachable_inv w : reachable w -> inv_conn w.
Proof.
  induction 1 as [T T' h P0 ch fd w HR Hs Hf Hn|ev w w' _ IH Ha Hs]; [by eapply new_inv|].
  split; [|by eapply step_unasked]. destruct (step_good ev w IH Ha) as (w2 & Hs2 & Hg). congruence.
Qed.


(** ** Theorems *)



(** C2: The bytes that went to the socket followed by those in the output
    buffer are the accepted messages in order; an open connection asks
    for POLLOUT exactly when bytes are pending; and its write side is shut
    down only after a shutdown was asked for and everything was written. *)
Theorem conn_stream w :
  reachable w ->
  sent (cn w) ++ Buffer.contents (outputBuffer_ (cn w)) = concat (accepted (cn w)) /\
  (is_open (cn w) = true -> exists ch, channel w = Ok ch /\
    Channel.isWriting ch = bool_decide (Buffer.contents (outputBuffer_ (cn w)) <> []) /\
    (shut (cn w) = true -> state_ (cn w) = kDisconnecting /\ sent (cn w) = concat (accepted (cn w)))).
Proof.
  intros [Hg _]%reachable_inv. split; [destruct Hg as (a & fr & _ & _ & _ & Hst & _); exact Hst|]. intros Ho.
  destruct (good_open _ _ Hg Ho) as (ev & off & fresh & ch & _ & Hc & _ & _ & Hiw & _ & _ & Hst & Hshut & _).
  exists ch. split_and!; [done..|]. intros Hs. destruct (Hshut Hs) as [Hn ?]. split; [done|]. by rewrite <- Hst, Hn, app_nil_r.
Qed.


Lemma destroy_spec w :
  chan nobody w None false -> state_ (cn w) = kDisconnected -> exists r, destroy w = Ok r.
Proof.
  intros (T & fd & HR & Hl & Ha & _) Hs. unfold destroy, disconnected.
  rewrite (bool_decide_eq_true_2 (state_ (cn w) = kDisconnected)) by done. cbn [assert mbind outcome_bind].
  destruct (Interest.refines_step nobody (Interest.Destroy (channel_ (cn w))) T
    (Interest.mkTable (delete (channel_ (cn w)) (Interest.live T)) (Interest.asked T)) _ HR) as (r & Hr & _).
  - by intros ? _ [].
  - cbn. by rewrite Hl, Ha.
  - by exists r.
Qed.

(** Once [connectDestroyed] has run for a connection that is
    kConnected, or that was closed before, its destructor and that of its
    channel run without a failing assertion. *)
Theorem conn_teardown e w :
  reachable w -> allowed (Destroyed e) w -> exists w' r, step (Destroyed e) w = Ok w' /\ destroy w' = Ok r.
Proof.
  intros [Hg _]%reachable_inv (Hr & Hd & Hs).
  destruct (connectDestroyed_spec e w Hg Hr Hd Hs) as (w' & Hstep & _ & Hs' & Hch).
  destruct (destroy_spec w' Hch Hs') as (r & Hr'). eauto.
Qed.

(** A connection on which shutdown or forceClose was called and that
    the peer has not closed yet cannot be destroyed: [connectDestroyed]
    leaves its channel enabled and [Channel::remove] asserts that it is not. *)
Theorem connectDestroyed_disconnecting e w c :
  state_ (cn w) = kDisconnecting -> channel w = Ok c -> Channel.events_ c <> 0 ->
  step (Destroyed e) w = Fault AssertFailed.
Proof.
  intros Hs Hc Hev. cbn [step]. unfold connectDestroyed, connected, on_channel, ChannelOps.remove. rewrite Hs. cbn [mbind outcome_bind].
  rewrite bool_decide_eq_false_2 by done. cbn [mbind outcome_bind fst]. unfold channel in Hc. rewrite Hc.
  cbn [mbind outcome_bind]. unfold Channel.isNoneEvent, Channel.kNoneEvent.
  by rewrite (proj2 (Z.eqb_neq _ _) Hev).
Qed.

End Facts.

(** ** Concrete connections *)

Module Demo.

Definition nothing : world (P := PollPoller.t) :=
  mkWorld (mkConn kDisconnected false 0%nat 0 false false (Buffer.mk [] 0 0) (Buffer.mk [] 0 0) false [] [] [] [] []) ∅ PollPoller.new.

Definition get (o : outcome (world (P := PollPoller.t))) : world := match o with Ok w => w | Fault _ => nothing end.

Lemma get_Ok (o : outcome (world (P := PollPoller.t))) : match o with Ok _ => true | Fault _ => false end = true -> o = Ok (get o).
Proof. by destruct o. Qed.

(** The peer closed, the socket takes everything, the callbacks do nothing. *)
Definition eof : env := mkEnv (fun _ => inr []) (Wrote 100) [] [].

Definition fresh_conn : world := get (new 1%nat 5 ∅ PollPoller.new).
Definition up : world := get (step (Established []) fresh_conn).
(** Three of five bytes went out. *)
Definition sending : world := get (step (Api true (Send (Wrote 3) (bs "hello"))) up).
Definition closing : world := get (step (Api true Shutdown) sending).

Lemma empty_refines : Interest.refines nobody Interest.empty_table (∅, PollPoller.new).
Proof.
  split.
  - replace (regs _) with (∅ : gmap ptr (Z * Z * Z)) by (symmetry; apply omap_empty). apply PollFacts.poll_new_inv.
  - intros p. cbn. by rewrite !lookup_empty.
Qed.

Lemma fresh_reachable : reachable fresh_conn.
Proof.
  apply (reachable_new Interest.empty_table (Interest.mkTable {[1%nat := (5, true)]} ∅) ∅ PollPoller.new 1%nat 5).
  - apply empty_refines.
  - by vm_compute.
  - by vm_compute.
  - apply get_Ok. by vm_compute.
Qed.

Lemma up_reachable : reachable up.
Proof.
  apply (reachable_step (Established []) fresh_conn); [apply fresh_reachable|by vm_compute|apply get_Ok; by vm_compute].
Qed.

Lemma sending_allowed : allowed (Api true (Send (Wrote 3) (bs "hello"))) up.
Proof. split; [by vm_compute|]. intros _. split; by vm_compute. Qed.

Lemma sending_reachable : reachable sending.
Proof.
  apply (reachable_step (Api true (Send (Wrote 3) (bs "hello"))) up); [apply up_reachable|apply sending_allowed|apply get_Ok; by vm_compute].
Qed.



(** Three bytes are on the wire, two wait, and POLLOUT is asked for. *)
Lemma conn_stream_witness :
  sent (cn sending) ++ Buffer.contents (outputBuffer_ (cn sending)) = bs "hello" /\ sent (cn sending) = bs "hel".
Proof. split; [|by vm_compute]. apply (conn_stream sending sending_reachable). Defined.


Lemma up_destroyable : allowed (Destroyed eof) up.
Proof. split; [by vm_compute|]. split; [split; by vm_compute|]. left. by vm_compute. Qed.

Lemma conn_teardown_witness : exists w' r, step (Destroyed eof) up = Ok w' /\ destroy w' = Ok r.
Proof. apply (conn_teardown eof up up_reachable up_destroyable). Defined.

Lemma connectDestroyed_disconnecting_witness : step (Destroyed eof) closing = Fault AssertFailed.
Proof.
  apply (connectDestroyed_disconnecting eof closing (Channel.mk 5 7 0 0 true (Some 0%nat) true false true true true true true)).
  - by vm_compute.
  - by vm_compute.
  - done.
Defined.

(** The peer closes; the user then switches reading on again. *)
Definition closed : world := get (step (Io 1 eof) up).
Definition revived : world := get (step (Api true StartRead) closed).

(** [startRead] on a connection that the peer has closed registers its
    channel again, and the [connectDestroyed] that the server has queued
    fails the assertion of [Channel::remove]. *)
Theorem startRead_after_close :
  step (Established []) fresh_conn = Ok up /\ step (Io 1 eof) up = Ok closed /\
  state_ (cn closed) = kDisconnected /\ step (Api true StartRead) closed = Ok revived /\
  step (Destroyed eof) revived = Fault AssertFailed /\ exists w', step (Destroyed eof) closed = Ok w'.
Proof. split_and!; try (by vm_compute). eexists. by vm_compute. Qed.

End Demo.
