(* ===== verification/HttpService.v ===== *)
(** * HTTP over TCP connections

    The composition of net/http/HttpServer with net/TcpConnection: the message
    callback of a connection is [HttpServer::onMessage], which parses the
    connection's input buffer and sends through the connection.  However the
    bytes of the requests are cut into reads, the responses are those of the
    first requests in order, byte for byte, one for every read at most and none
    after a request that closes the connection; a client that never sends two
    requests in one read gets them all. *)

From S2P Require Import Prelude NetBuffer Poller PollerSpec Timestamp TcpConnection TcpConnectionFacts Http.

Local Open Scope Z_scope.

Module HttpService.
Import TcpConnection.

Section Service.
Context {P : Type} `{Poller P}.
Implicit Types w : world (P := P).
Variable httpCallback_ : HttpServer.HttpCallback.

(** The connection, with the HttpContext that onConnection put into it. *)
Record service := mk { world_ : world (P := P); context_ : HttpContext.t }.

(** [conn->send(&buf)] and [conn->shutdown()] in the loop's thread *)
Definition act (wr : write_result) (a : HttpServer.action) : api :=
  match a with HttpServer.Send data => Send wr data | HttpServer.Shutdown => Shutdown end.

(** [HttpServer::onMessage] as the connection's message callback *)
Definition messageCallback (tm : Z) (wr : write_result) (s : service) : outcome service :=
  let w := update_conn (record_event UMessage) (world_ s) in
  '(acts, context, buf) ← HttpServer.onMessage httpCallback_ (context_ s) (inputBuffer_ (cn w)) tm;
  w ← run_script (map (act wr) acts) (update_conn (with_input buf) w);
  Ok (mk w context).

(** [TcpConnection::handleRead] with this callback; when the connection goes
    down [HttpServer::onConnection] keeps the context. *)
Definition handleRead (rd : Buffer.readv_call) (tm : Z) (wr : write_result) (s : service) : outcome service :=
  r ← Buffer.readFd rd (inputBuffer_ (cn (world_ s)));
  let '(n, _, b) := r in
  let w := update_conn (with_input b) (world_ s) in
  if 0 <? n then messageCallback tm wr (mk w (context_ s))
  else
    w ← (if n =? 0 then handleClose (mkEnv rd wr [] []) w else handleError w);
    Ok (mk w (HttpServer.onConnection (connected (cn w)) (context_ s))).

(** [TcpConnection::connectEstablished] with [HttpServer::onConnection] *)
Definition connectEstablished (s : service) : outcome service :=
  w ← TcpConnection.connectEstablished [] (world_ s);
  Ok (mk w (HttpServer.onConnection (connected (cn w)) (context_ s))).

(** What happens to the connection of a client: bytes arrive, or the socket
    takes more of the output. *)
Inductive event :=
  | Readable (d : bytes) (tm : Z) (wr : write_result)
  | Writable (wr : write_result).

(** The kernel gives what has arrived as far as there is space. *)
Definition arrived (d : bytes) : Buffer.readv_call := fun cap =>
  if cap <? 0 then inl 22 else inr (take (Z.to_nat cap) d).

Definition step (ev : event) (s : service) : outcome service :=
  match ev with
  | Readable d tm wr => handleRead (arrived d) tm wr s
  | Writable wr => w ← handleWrite (mkEnv (arrived []) wr [] []) (world_ s); Ok (mk w (context_ s))
  end.

Fixpoint run (evs : list event) (s : service) : outcome service :=
  match evs with [] => Ok s | ev :: evs => s ← step ev s; run evs s end.

End Service.
Arguments service : clear implicits.

(** ** Clients *)

(** A request of a client *)
Record request := mk_request {
  method : HttpRequest.Method;
  version : HttpRequest.Version;
  path : bytes;
  query : bytes;
  headers : list (bytes * bytes);
}.

Definition good_request (q : request) : Prop :=
  method q <> HttpRequest.kInvalid /\ version q <> HttpRequest.kUnknown /\ HttpText.good_target (path q) (query q) /\
  Forall HttpText.good_header (headers q).

Definition text (q : request) : bytes := HttpText.render (method q) (version q) (path q) (query q) (headers q).

(** The request as the handler gets it, received at [tm] *)
Definition received (q : request) (tm : Z) : HttpRequest.t :=
  HttpRequest.mk (method q) (version q) (path q) (query q) tm (HttpText.add_headers (headers q) ∅).

(** The socket takes bytes or nothing for now, but is not broken. *)
Definition alive (wr : write_result) : Prop :=
  match wr with Wrote _ => True | WriteErr e => e <> EPIPE /\ e <> ECONNRESET end.

(** The bytes that arrive *)
Definition arriving (evs : list event) : bytes :=
  concat (map (fun ev => match ev with Readable d _ _ => d | Writable _ => [] end) evs).

(** What arrives at a time is not empty and not more than one read takes, and
    the socket is not broken. *)
Definition sound (ev : event) : Prop :=
  match ev with
  | Readable d _ wr => d <> [] /\ zlen d <= Buffer.extrabuf_size /\ alive wr
  | Writable _ => True
  end.

(** How many of the requests are answered when [n] bytes of them were there
    already: one by every read after which the next request is complete *)
Fixpoint answered (qs : list request) (n : Z) (evs : list event) : nat :=
  match evs, qs with
  | Readable d _ _ :: evs, q :: qs' =>
      if zlen (text q) <=? n + zlen d then S (answered qs' (n + zlen d - zlen (text q)) evs) else answered qs (n + zlen d) evs
  | Writable _ :: evs, _ => answered qs n evs
  | _, _ => O
  end.

(** A client that sends its requests one at a time, the rest of the first one
    after [x]: in pieces of any size, none of which goes on past the end of a
    request *)
Inductive talk : bytes -> list request -> list event -> Prop :=
  | talk_done : talk [] [] []
  | talk_write x qs wr evs : talk x qs evs -> talk x qs (Writable wr :: evs)
  | talk_part x q qs d e tm wr evs :
      sound (Readable d tm wr) -> e <> [] -> text q = x ++ d ++ e ->
      talk (x ++ d) (q :: qs) evs -> talk x (q :: qs) (Readable d tm wr :: evs)
  | talk_last x q qs d tm wr evs :
      sound (Readable d tm wr) -> text q = x ++ d ->
      talk [] qs evs -> talk x (q :: qs) (Readable d tm wr :: evs).

Lemma talk_answered x qs evs : talk x qs evs ->
  Forall sound evs /\ x ++ arriving evs = concat (map text qs) /\ answered qs (zlen x) evs = length qs.
Proof.
  induction 1 as [|x qs wr evs _ (IH1 & IH2 & IH3)|x q qs d e tm wr evs Hd He Hx _ (IH1 & IH2 & IH3)|x q qs d tm wr evs Hd Hx _ (IH1 & IH2 & IH3)];
    unfold arriving in *; cbn [map concat answered length].
  - by split_and!.
  - split_and!; [by constructor|done|]. by destruct qs.
  - split_and!; [by constructor|by rewrite app_assoc|]. rewrite Hx, !zlen_app. pose proof (zlen_pos e He).
    rewrite (proj2 (Z.leb_gt _ _)) by lia. by rewrite <- zlen_app.
  - split_and!; [by constructor|rewrite app_assoc, <- Hx; by f_equal|]. rewrite Hx, zlen_app, Z.leb_refl, Z.sub_diag. by f_equal.
Qed.

(** ** What the handlers of the connection keep *)

Section Frame.
Context {P : Type} `{PollerSpec P}.
Implicit Types w : world (P := P).

(** The parts of a connection that its user sees; [sent] and the output
    buffer follow from [accepted] by the invariant. *)
Record same_view (ms : list bytes) (c c' : conn) : Prop := {
  view_state : state_ c' = state_ c;
  view_shut : shut c' = shut c;
  view_input : inputBuffer_ c' = inputBuffer_ c;
  view_accepted : accepted c' = accepted c ++ ms;
}.

Lemma same_view_refl c : same_view [] c c.
Proof. constructor; try done. by rewrite app_nil_r. Qed.

Lemma same_view_trans ms ns c1 c2 c3 : same_view ms c1 c2 -> same_view ns c2 c3 -> same_view (ms ++ ns) c1 c3.
Proof. intros [A1 A2 A3 A4] [B1 B2 B3 B4]. constructor; try congruence. by rewrite B4, A4, app_assoc. Qed.

Lemma on_channel_view op w w' : on_channel op w = Ok w' -> same_view [] (cn w) (cn w').
Proof. intros ->%on_channel_cn. apply same_view_refl. Qed.

(** A message that is sent is accepted. *)
Lemma write_directly_view wr data c :
  alive wr -> shut c = false -> same_view [] c (write_directly wr data c).2 /\ (write_directly wr data c).1.2 = false.
Proof.
  intros Hw Hs. unfold write_directly, sock_write. rewrite Hs. destruct wr as [n|e]; cbn.
  - split; [|done]. destruct (_ && _); (constructor; [done..|cbn; by rewrite app_nil_r]).
  - destruct Hw as [H1 H2]. rewrite (proj2 (Z.eqb_neq _ _) H1), (proj2 (Z.eqb_neq _ _) H2), andb_false_r.
    split; [apply same_view_refl|done].
Qed.

Lemma sendInLoop_view wr data w w' :
  alive wr -> shut (cn w) = false -> state_ (cn w) <> kDisconnected -> sendInLoop wr data w = Ok w' ->
  same_view [data] (cn w) (cn w').
Proof.
  intros Hw Hs Hst. rewrite sendInLoop_unfold, bool_decide_eq_false_2 by done. intros (ch & _ & Hr)%bind_Ok.
  assert (exists n r c, send_rest ch data n r false c w = Ok w' /\ same_view [] (cn w) c) as (n & r & c & Hr' & Hc).
  { destruct (_ && _); [|by eauto 10 using same_view_refl]. destruct (write_directly_view wr data (cn w) Hw Hs) as [Hv Hf].
    destruct (write_directly wr data (cn w)) as [[[n r] fe] c]. cbn in Hv, Hf. subst fe. eauto 10. }
  clear Hr. unfold send_rest in Hr'. set (c1 := record_accepted data c) in Hr'.
  assert (same_view [data] (cn w) c1) as Hc1 by (apply (same_view_trans [] [data] _ c); [done|by constructor]). clearbody c1.
  cbn [negb andb] in Hr'. apply bind_Ok in Hr' as (u & _ & Hr). destruct (0 <? r); [|by injection Hr as <-].
  set (c2 := if _ && _ then _ else c1) in Hr.
  assert (same_view [] c1 c2) as Hc2 by (unfold c2; destruct (_ && _); [constructor; [done..|cbn; by rewrite app_nil_r]|apply same_view_refl]).
  clearbody c2. apply bind_Ok in Hr as (out & _ & Hr). pose proof (same_view_trans _ _ _ _ _ Hc1 Hc2) as Hv. rewrite app_nil_r in Hv.
  destruct (Channel.isWriting ch); cbn [negb] in Hr; [injection Hr as <-|apply on_channel_cn in Hr; rewrite Hr];
    (destruct Hv; by constructor).
Qed.

(** Writing output changes nothing that the user sees. *)
Lemma handleWrite_view e w w' :
  state_ (cn w) = kConnected -> handleWrite e w = Ok w' -> 
  same_view [] (cn w) (cn w') /\ Buffer.buffer_ (outputBuffer_ (cn w')) = Buffer.buffer_ (outputBuffer_ (cn w)).
Proof.
  intros Hs. unfold handleWrite. intros (ch & _ & Hr)%bind_Ok.
  destruct (Channel.isWriting ch); [|injection Hr as <-; split; [apply same_view_refl|done]].
  apply bind_Ok in Hr as (data & _ & Hr). destruct (sock_write _ _ _) as [|n]; [injection Hr as <-; split; [apply same_view_refl|done]|].
  destruct (0 <? n); [|injection Hr as <-; split; [apply same_view_refl|done]].
  apply bind_Ok in Hr as (out & Hout & Hr). apply Buffer.retrieve_buffer in Hout. cbn [cn update_conn record_sent outputBuffer_] in Hout.
  set (w1 := update_conn (with_output out) _) in Hr.
  assert (same_view [] (cn w) (cn w1)) as H1 by (constructor; [done..|cbn; by rewrite app_nil_r]).
  assert (outputBuffer_ (cn w1) = out) as E1 by done. clearbody w1.
  destruct (_ =? 0); [|injection Hr as <-; split; [done|]; by rewrite E1, Hout].
  apply bind_Ok in Hr as (w2 & Hw2%on_channel_cn & Hr). rewrite <- Hw2 in H1, E1.
  set (w3 := if writeCompleteCallback_ (cn w2) then _ else w2) in Hr.
  assert (same_view [] (cn w) (cn w3) /\ outputBuffer_ (cn w3) = out) as [H3 E3].
  { unfold w3. destruct (writeCompleteCallback_ (cn w2)); [|done]. split; [destruct H1; by constructor|done]. }
  clearbody w3. rewrite (view_state _ _ _ H3), Hs in Hr. cbn in Hr. injection Hr as <-. split; [done|]. by rewrite E3, Hout.
Qed.

End Frame.

(** ** Reading what arrived *)

Lemma makeSpace_size b len b' : Buffer.wf b -> 0 <= len -> Buffer.makeSpace b len = Ok b' ->
  zlen (Buffer.buffer_ b') <= zlen (Buffer.buffer_ b) + len.
Proof.
  intros (Hr & Hw & _) Hlen. unfold Buffer.makeSpace. destruct (_ <? _).
  - intros (v & Hv & [= <-])%bind_Ok. cbn. unfold Buffer.resize in Hv. destruct (_ <=? _); [|done]. injection Hv as <-.
    unfold u64, wrap_u, zlen in *. rewrite length_app, length_take, length_replicate.
    pose proof (Z.mod_le (Buffer.writerIndex_ b + len) (2 ^ 64)). lia.
  - intros (u & _ & H)%bind_Ok. apply bind_Ok in H as (d & _ & H). apply bind_Ok in H as (v & Hv%store_zlen & H).
    apply bind_Ok in H as (u' & _ & [= <-]). cbn. lia.
Qed.

Lemma append_at_size b src off len b' : Buffer.wf b -> 0 <= len -> Buffer.append_at b src off len = Ok b' ->
  zlen (Buffer.buffer_ b') <= zlen (Buffer.buffer_ b) + len.
Proof.
  intros Hwf Hlen (b1 & H1 & H)%bind_Ok. apply bind_Ok in H as (d & _ & H). apply bind_Ok in H as (v & Hv%store_zlen & H).
  unfold Buffer.hasWritten in H. apply bind_Ok in H as (u & _ & [= <-]). cbn. rewrite Hv.
  unfold Buffer.ensureWritableBytes in H1. apply bind_Ok in H1 as (b2 & H2 & H1). apply bind_Ok in H1 as (u' & _ & [= <-]).
  destruct (_ <? _); [by apply makeSpace_size|injection H2 as <-; lia].
Qed.

Lemma readFd_size readv b n o b' :
  Buffer.wf b -> Buffer.readFd readv b = Ok (n, o, b') -> zlen (Buffer.buffer_ b') <= zlen (Buffer.buffer_ b) + Z.max 0 n.
Proof.
  intros Hwf. unfold Buffer.readFd. destruct (readv _) as [e|d]; [intros [= <- <- <-]; lia|].
  intros (v & Hv%store_zlen & H)%bind_Ok. pose proof (zlen_nonneg d). destruct (Z.leb_spec (zlen d) (Buffer.writableBytes b)) as [|Hlt].
  - injection H as <- <- <-. cbn. lia.
  - apply bind_Ok in H as (b2 & H & [= <- <- <-]). destruct Hwf as (Hr & Hw & Hk).
    assert (0 <= Buffer.writableBytes b) by (apply Z.mod_pos_bound; lia). apply append_at_size in H; [|cbn|lia].
    + cbn in H. lia.
    + unfold Buffer.wf. cbn. rewrite Hv. lia.
Qed.

Lemma readFd_arrived d b :
  Buffer.wf b -> zlen d <= Buffer.extrabuf_size -> zlen (Buffer.buffer_ b) + Buffer.extrabuf_size <= Buffer.max_size ->
  exists b', Buffer.readFd (arrived d) b = Ok (zlen d, None, b') /\ Buffer.wf b' /\
    Buffer.contents b' = Buffer.contents b ++ d /\ zlen (Buffer.buffer_ b') <= zlen (Buffer.buffer_ b) + zlen d.
Proof.
  intros Hwf Hd Hm. pose proof (zlen_nonneg d).
  assert (Buffer.readv_bounded (arrived d)) as Hb.
  { intros cap d'. unfold arrived. destruct (Z.ltb_spec cap 0); [done|]. intros [= <-]. unfold zlen. rewrite length_take. lia. }
  pose proof (Buffer.readFd_contents (arrived d) b Hwf Hb Hm) as Hr.
  assert (arrived d (Buffer.readFd_capacity b) = inr d) as E.
  { unfold arrived, Buffer.readFd_capacity. assert (0 <= Buffer.writableBytes b) by (apply Z.mod_pos_bound; lia).
    unfold Buffer.extrabuf_size in *. destruct (Z.ltb_spec (Buffer.writableBytes b) 65536);
      (rewrite (proj2 (Z.ltb_ge _ _)) by lia; f_equal; apply take_ge; unfold zlen in *; lia). }
  rewrite E in Hr. destruct Hr as (b' & Hr & Hwf' & Hc). exists b'. split_and!; try done.
  apply readFd_size in Hr; [lia|done].
Qed.

(** ** Parsing what arrived *)

Section Conversation.
Context {P : Type} `{PollerSpec P}.
Variable cb : HttpServer.HttpCallback.
(** The responses of the handler are bounded. *)
Variable bound : Z.
Hypothesis small : forall req, HttpServerFacts.fits (cb req (HttpResponse.new (HttpServer.wants_close req))).

(** The handler's response to [q] keeps the connection alive. *)
Definition keeps (q : request) : Prop :=
  forall tm, HttpResponse.closeConnection_ (cb (received q tm) (HttpResponse.new (HttpServer.wants_close (received q tm)))) = false.

Definition response (req : HttpRequest.t) : bytes :=
  concat (HttpResponse.pieces (cb req (HttpResponse.new (HttpServer.wants_close req)))).

Hypothesis bounded : forall req, zlen (response req) <= bound.

(** The context after [x] of a request has been parsed but for [rest]. *)
Definition parsed_to (x : bytes) (context : HttpContext.t) (rest : bytes) : Prop :=
  HttpParser.ready context /\
  exists fuel c, HttpParser.parse_bytes fuel HttpContext.new x 0 = Ok (true, c, rest) /\ HttpParser.forget context = HttpParser.forget c.

Lemma parsed_to_start : parsed_to [] HttpContext.new [].
Proof. split; [by left|]. by exists 1%nat, HttpContext.new. Qed.

Lemma forget_state c1 c2 : HttpParser.forget c1 = HttpParser.forget c2 -> HttpContext.state_ c1 = HttpContext.state_ c2.
Proof. intros E. exact (f_equal HttpContext.state_ E). Qed.

(** Parsing after the next piece *)
Lemma parse_next x d context rest buf tm :
  parsed_to x context rest -> Buffer.wf buf -> Buffer.contents buf = rest ++ d ->
  exists ok context' buf' fuel c,
    HttpContext.parseRequest (HttpContext.parse_fuel buf) context buf tm = Ok (ok, context', buf') /\
    Buffer.wf buf' /\ Buffer.buffer_ buf' = Buffer.buffer_ buf /\
    HttpParser.parse_bytes fuel HttpContext.new (x ++ d) 0 = Ok (ok, c, Buffer.contents buf') /\
    HttpParser.forget context' = HttpParser.forget c /\
    (ok = false \/ HttpContext.state_ c = HttpContext.kGotAll \/ (ok = true /\ HttpParser.ready context')).
Proof.
  intros [Hr (F & c & Hp & Hf)] Hwf Hc.
  destruct (HttpParser.parseRequest_total context buf tm Hwf Hr) as (ok & c' & buf' & Hpr & Hwf' & Hb & Hpb & Hk).
  rewrite Hc in Hpb. set (F' := HttpContext.parse_fuel buf) in *.
  destruct (HttpParser.parse_bytes_same F' context c _ tm 0 ok c' _ Hf Hpb) as (c2 & Hp2 & Hf2).
  assert (HttpContext.state_ c <> HttpContext.kGotAll) as Hng.
  { rewrite <- (forget_state _ _ Hf). by destruct Hr as [[-> _]| ->]. }
  pose proof (HttpParser.parse_bytes_app F HttpContext.new x 0 true c rest d Hp) as [_ Happ].
  exists ok, c', buf', (F + F')%nat, c2. split_and!; try done; [by apply Happ|].
  destruct Hk as [[-> _]|[[-> Hk]|(-> & Hk & _)]]; [by left|right; left|by auto].
  by rewrite <- (forget_state _ _ Hf2).
Qed.

Lemma text_parsed q rest tm : good_request q ->
  HttpParser.parse_bytes (S (S (length (headers q)))) HttpContext.new (text q ++ rest) tm =
    Ok (true, HttpContext.mk HttpContext.kGotAll (received q tm), rest).
Proof. intros (Hm & Hv & Ht & Hh). by apply HttpText.render_parsed. Qed.

(** A part of a request is not answered yet. *)
Lemma parse_part q x d e context rest buf tm :
  good_request q -> text q = x ++ d ++ e -> e <> [] -> parsed_to x context rest -> Buffer.wf buf -> Buffer.contents buf = rest ++ d ->
  exists context' buf', HttpServer.onMessage cb context buf tm = Ok ([], context', buf') /\
    Buffer.wf buf' /\ Buffer.buffer_ buf' = Buffer.buffer_ buf /\ parsed_to (x ++ d) context' (Buffer.contents buf').
Proof.
  intros Hq Hx He Hp Hwf Hc.
  destruct (parse_next x d context rest buf tm Hp Hwf Hc) as (ok & c' & buf' & F & c & Hpr & Hwf' & Hb & Hpb & Hf & Hk).
  assert (ok = true /\ HttpContext.state_ c <> HttpContext.kGotAll) as [-> Hng].
  { destruct (HttpParser.parse_bytes_app F HttpContext.new (x ++ d) 0 ok c _ e Hpb) as [Happ _].
    assert (~ (ok = false \/ HttpContext.state_ c = HttpContext.kGotAll)) as Hn.
    { intros Hx'%Happ. rewrite <- app_assoc, <- Hx, <- (app_nil_r (text q)) in Hx'.
      pose proof (HttpParser.parse_bytes_det _ _ _ _ _ _ _ Hx' (text_parsed q [] 0 Hq)) as E.
      apply (f_equal snd) in E. cbn in E. by apply app_eq_nil in E as [_ ->]. }
    destruct ok; [split; [done|]; intros Hg; apply Hn; by right|exfalso; apply Hn; by left]. }
  destruct Hk as [|[|[_ Hr]]]; [done..|]. exists c', buf'. unfold HttpServer.onMessage. rewrite Hpr. cbn [mbind outcome_bind].
  unfold HttpContext.gotAll. rewrite bool_decide_eq_false_2 by (by rewrite (forget_state _ _ Hf)).
  split_and!; [done..|]. split; [done|]. by exists F, c.
Qed.

(** The last part of a request is answered; what follows it is left in the buffer. *)
Lemma parse_last q x d e context rest buf tm :
  good_request q -> keeps q -> text q ++ e = x ++ d -> parsed_to x context rest -> Buffer.wf buf -> Buffer.contents buf = rest ++ d ->
  exists buf' tm', HttpServer.onMessage cb context buf tm = Ok ([HttpServer.Send (response (received q tm'))], HttpContext.new, buf') /\
    Buffer.wf buf' /\ Buffer.buffer_ buf' = Buffer.buffer_ buf /\ Buffer.contents buf' = e.
Proof.
  intros Hq Hkeep Hx Hp Hwf Hc.
  destruct (parse_next x d context rest buf tm Hp Hwf Hc) as (ok & c' & buf' & F & c & Hpr & Hwf' & Hb & Hpb & Hf & Hk).
  rewrite <- Hx in Hpb. pose proof (HttpParser.parse_bytes_det _ _ _ _ _ _ _ Hpb (text_parsed q e 0 Hq)) as E.
  pose proof (f_equal (fun x => x.1.1) E) as E1. pose proof (f_equal (fun x => x.1.2) E) as E2. pose proof (f_equal snd E) as E3.
  cbn in E1, E2, E3. subst ok c e.
  assert (HttpContext.request_ c' = received q (HttpRequest.receiveTime_ (HttpContext.request_ c'))) as Er.
  { apply (f_equal HttpContext.request_) in Hf. cbn in Hf. destruct c' as [st [rm rv rp rq rt rh]]. cbn in *.
    unfold HttpRequest.setReceiveTime, received in *. cbn in *. injection Hf as -> -> -> -> ->. done. }
  exists buf', (HttpRequest.receiveTime_ (HttpContext.request_ c')). unfold HttpServer.onMessage. rewrite Hpr. cbn [mbind outcome_bind].
  unfold HttpContext.gotAll. rewrite bool_decide_eq_true_2 by (by rewrite (forget_state _ _ Hf)).
  rewrite HttpServerFacts.onRequest_sends by apply small. cbn [mbind outcome_bind app]. rewrite Er, Hkeep. by split_and!.
Qed.

(** ** The conversation *)

(** Of the bytes [x] that have arrived the parser has seen a part; the others
    lie in the buffer after what it left there. *)
Definition pending (x : bytes) (context : HttpContext.t) (input : bytes) : Prop :=
  exists seen unseen rest, x = seen ++ unseen /\ parsed_to seen context rest /\ input = rest ++ unseen.

Lemma pending_unseen x : pending x HttpContext.new x.
Proof. exists [], x, []. split_and!; [done|apply parsed_to_start|done]. Qed.

(** The connection is up and answered [ms]; [x] has arrived after the requests
    that were answered, and the buffers have room for [i] bytes of input and [o] of output. *)
Record serving (s : service P) (x : bytes) (i o : Z) (ms : list bytes) : Prop := {
  sv_good : good nobody (world_ s);
  sv_state : state_ (cn (world_ s)) = kConnected;
  sv_shut : shut (cn (world_ s)) = false;
  sv_accepted : accepted (cn (world_ s)) = ms;
  sv_pending : pending x (context_ s) (Buffer.contents (inputBuffer_ (cn (world_ s))));
  sv_input : zlen (Buffer.buffer_ (inputBuffer_ (cn (world_ s)))) + i + Buffer.extrabuf_size <= Buffer.max_size;
  sv_output : zlen (Buffer.buffer_ (outputBuffer_ (cn (world_ s)))) + o <= Buffer.max_size;
}.

Lemma good_input w : good nobody w -> Buffer.wf (inputBuffer_ (cn w)).
Proof. by intros (a & fresh & _ & Hwf & _). Qed.

Lemma serve_write s x i o ms wr : serving s x i o ms -> exists s', step cb (Writable wr) s = Ok s' /\ serving s' x i o ms.
Proof.
  intros [Hg Hs Hsh Ha Hp Hi Ho]. cbn [step].
  destruct (handleWrite_spec nobody (mkEnv (arrived []) wr [] []) (world_ s) Hg) as (w' & Hw & Hg' & _); [by rewrite Hs|].
  rewrite Hw. cbn [mbind outcome_bind]. eexists. split; [done|].
  destruct (handleWrite_view _ _ _ Hs Hw) as [[V1 V2 V3 V4] Hb]. rewrite app_nil_r in V4.
  constructor; cbn; rewrite ?V1, ?V2, ?V3, ?V4, ?Hb; done.
Qed.

(** Bytes that arrive reach the message callback through the input buffer. *)
Lemma handleRead_arrived s x i o ms d tm wr :
  serving s x (zlen d + i) o ms -> d <> [] -> 0 <= i -> zlen d <= Buffer.extrabuf_size ->
  exists b, handleRead cb (arrived d) tm wr s = messageCallback cb tm wr (mk (update_conn (with_input b) (world_ s)) (context_ s)) /\
    Buffer.wf b /\ Buffer.contents b = Buffer.contents (inputBuffer_ (cn (world_ s))) ++ d /\
    zlen (Buffer.buffer_ b) + i + Buffer.extrabuf_size <= Buffer.max_size.
Proof.
  intros [Hg Hs Hsh Ha Hp Hi Ho] Hne Hi0 Hd. pose proof (zlen_pos d Hne).
  destruct (readFd_arrived d (inputBuffer_ (cn (world_ s))) (good_input _ Hg) Hd) as (b & Hr & Hwf & Hc & Hz); [lia|].
  exists b. unfold handleRead. rewrite Hr. cbn [mbind outcome_bind]. rewrite (proj2 (Z.ltb_lt _ _)) by lia. split_and!; [done..|lia].
Qed.

(** The world that the callback works on: the connection with the bytes that are
    left to parse. *)
Lemma good_parsed w b :
  good nobody w -> state_ (cn w) = kConnected -> Buffer.wf b ->
  good nobody (update_conn (with_input b) (update_conn (record_event UMessage) w)).
Proof.
  intros Hg Hs Hwf. apply good_inert; [by constructor|]. apply record_event_good; [done|by rewrite Hs|].
  left. split; [done|]. left. unfold is_open. by rewrite Hs.
Qed.

Lemma serve_part s q x d e i o ms tm wr :
  good_request q -> text q = x ++ d ++ e -> d <> [] -> e <> [] -> zlen d <= Buffer.extrabuf_size -> 0 <= i ->
  serving s x (zlen d + i) o ms ->
  exists s', step cb (Readable d tm wr) s = Ok s' /\ serving s' (x ++ d) i o ms.
Proof.
  intros Hq Hx Hd He Hz Hi0 Hsv. destruct (handleRead_arrived s x i o ms d tm wr Hsv Hd Hi0 Hz) as (b & Hr & Hwf & Hc & Hroom).
  destruct Hsv as [Hg Hs Hsh Ha (seen & unseen & rest & -> & Hp & Hin) Hi Ho]. rewrite Hin, <- app_assoc in Hc.
  rewrite <- app_assoc, (app_assoc unseen) in Hx.
  destruct (parse_part q seen (unseen ++ d) e _ _ b tm Hq Hx He Hp Hwf Hc) as (c' & b' & Hm & Hwf' & Hb & Hp').
  cbn [step]. rewrite Hr. unfold messageCallback. cbn [world_ context_ cn update_conn with_input record_event inputBuffer_].
  rewrite Hm. cbn [mbind outcome_bind map run_script]. eexists. split; [done|]. constructor; cbn; try done; [| |by rewrite Hb].
  - apply (good_parsed (update_conn (with_input b) (world_ s)) b'); [|done|done]. apply good_inert; [by constructor|done].
  - exists ((seen ++ unseen) ++ d), [], (Buffer.contents b'). rewrite !app_nil_r. split_and!; [done| |done]. by rewrite <- app_assoc.
Qed.

Lemma serve_last s q x d e i o ms tm wr :
  good_request q -> keeps q -> text q ++ e = x ++ d -> d <> [] -> zlen d <= Buffer.extrabuf_size -> alive wr -> 0 <= i -> 0 <= o ->
  serving s x (zlen d + i) (bound + o) ms ->
  exists s' tm', step cb (Readable d tm wr) s = Ok s' /\ serving s' e i o (ms ++ [response (received q tm')]).
Proof.
  intros Hq Hkeep Hx Hd Hz Hw Hi0 Ho0 Hsv. destruct (handleRead_arrived s x i (bound + o) ms d tm wr Hsv Hd Hi0 Hz) as (b & Hr & Hwf & Hc & Hroom).
  destruct Hsv as [Hg Hs Hsh Ha (seen & unseen & rest & -> & Hp & Hin) Hi Ho]. rewrite Hin, <- app_assoc in Hc. rewrite <- app_assoc in Hx.
  destruct (parse_last q seen (unseen ++ d) e _ _ b tm Hq Hkeep Hx Hp Hwf Hc) as (b' & tm' & Hm & Hwf' & Hb & Hrest).
  cbn [step]. rewrite Hr. unfold messageCallback. cbn [world_ context_ cn update_conn with_input record_event inputBuffer_].
  rewrite Hm. cbn [mbind outcome_bind map run_script run_api act]. unfold send, connected.
  match goal with |- context [sendInLoop wr _ ?v] => set (w1 := v) end.
  set (r := response (received q tm')) in *. pose proof (bounded (received q tm')) as Hbd. fold r in Hbd.
  assert (good nobody w1) as Hg1.
  { apply (good_parsed (update_conn (with_input b) (world_ s)) b'); [|done|done]. apply good_inert; [by constructor|done]. }
  rewrite (bool_decide_eq_true_2 (state_ (cn w1) = kConnected)) by done.
  destruct (sendInLoop_spec nobody wr r w1 Hg1) as (w2 & Hsend & Hg2 & Hk2 & _).
  { cbn. by rewrite Hs. }
  { unfold room. change (outputBuffer_ (cn w1)) with (outputBuffer_ (cn (world_ s))). lia. }
  rewrite Hsend. cbn [mbind outcome_bind]. destruct (sendInLoop_view wr r w1 w2 Hw Hsh ltac:(cbn; by rewrite Hs) Hsend) as [V1 V2 V3 V4].
  cbn in V1, V2, V3, V4. eexists _, tm'. split; [done|]. constructor; cbn; rewrite ?V1, ?V2, ?V3, ?V4, ?Ha; try done.
  - rewrite Hrest. apply pending_unseen.
  - by rewrite Hb.
  - destruct Hk2 as [_ _ _ _ _ _ Hsz]. change (outputBuffer_ (cn w1)) with (outputBuffer_ (cn (world_ s))) in Hsz. lia.
Qed.

(** The handler's requests are the client's, each with the time at which it arrived. *)
Definition asked (q : request) (req : HttpRequest.t) : Prop := exists tm, req = received q tm.

Lemma arriving_nonneg evs : 0 <= zlen (arriving evs).
Proof. apply zlen_nonneg. Qed.

(** The first of the bytes that have arrived: a whole request, or a part of it *)
Lemma next_request (q : bytes) (t x r : bytes) : q ++ t = x ++ r ->
  (zlen q <= zlen x /\ exists y, x = q ++ y /\ t = y ++ r) \/ (zlen x < zlen q /\ exists y, y <> [] /\ q = x ++ y).
Proof.
  intros E. destruct (Z.le_gt_cases (zlen q) (zlen x)) as [Hle|Hlt].
  - left. split; [done|]. assert (x = q ++ drop (length q) x) as Hx.
    { rewrite <- (take_drop (length q) x) at 1. f_equal. apply (f_equal (take (length q))) in E.
      rewrite take_app_length, take_app_le in E by (unfold zlen in *; lia). done. }
    exists (drop (length q) x). split; [done|]. rewrite Hx, <- app_assoc in E. by apply app_inv_head in E.
  - right. split; [done|]. exists (drop (length x) q). split.
    + intros Hn. apply (f_equal length) in Hn. rewrite length_drop in Hn. unfold zlen in *. cbn in Hn. lia.
    + rewrite <- (take_drop (length x) q) at 1. f_equal. apply (f_equal (take (length x))) in E.
      rewrite take_app_length, take_app_le in E by (unfold zlen in *; lia). done.
Qed.

Lemma pieces_served x qs evs e s ms :
  Forall sound evs -> concat (map text qs) = x ++ arriving evs ++ e -> Forall good_request qs -> Forall keeps qs ->
  serving s x (zlen (arriving evs)) (bound * zlen qs) ms ->
  exists s' reqs y, run cb evs s = Ok s' /\ Forall2 asked (take (answered qs (zlen x) evs) qs) reqs /\
    serving s' y 0 0 (ms ++ map response reqs).
Proof.
  assert (0 <= bound) as Hb0 by (pose proof (bounded HttpRequest.new); pose proof (zlen_nonneg (response HttpRequest.new)); lia).
  revert x qs s ms. induction evs as [|[d tm wr|wr] evs IH]; intros x qs s ms Hev Hx Hq Hk Hsv; cbn [run answered].
  - exists s, [], x. cbn [take map]. rewrite app_nil_r. split_and!; [done|constructor|].
    destruct Hsv as [Hg Hs Hsh Ha Hp Hi Ho]. constructor; try done. pose proof (zlen_nonneg qs). nia.
  - apply list.Forall_cons in Hev as [(Hd & Hz & Hw) Hev]. unfold arriving in Hx, Hsv. cbn [map concat] in Hx, Hsv. fold (arriving evs) in Hx, Hsv.
    rewrite zlen_app in Hsv. destruct qs as [|q qs].
    { symmetry in Hx. apply app_eq_nil in Hx as [_ Hx]. apply app_eq_nil in Hx as [Hx _]. by apply app_eq_nil in Hx as [-> _]. }
    cbn [map concat] in Hx. rewrite <- app_assoc, (app_assoc x) in Hx.
    destruct (next_request _ _ _ _ Hx) as [(Hle & y & Hy & Ht)|(Hlt & y & Hy & Ht)]; rewrite zlen_app in *.
    + rewrite (proj2 (Z.leb_le _ _)) by done.
      replace (bound * zlen (q :: qs)) with (bound + bound * zlen qs) in Hsv by (unfold zlen; cbn [length]; lia).
      assert (0 <= bound * zlen qs) as Hq0 by (apply Z.mul_nonneg_nonneg; [done|apply zlen_nonneg]).
      destruct (serve_last s q x d y _ _ ms tm wr (Forall_inv Hq) (Forall_inv Hk) (eq_sym Hy) Hd Hz Hw (arriving_nonneg evs) Hq0 Hsv)
        as (s1 & tm' & -> & Hsv1). cbn [mbind outcome_bind].
      destruct (IH y qs s1 _ Hev Ht (Forall_inv_tail Hq) (Forall_inv_tail Hk) Hsv1) as (s' & reqs & y' & Hr & Hf & Hsv').
      exists s', (received q tm' :: reqs), y'. apply (f_equal zlen) in Hy. rewrite !zlen_app in Hy.
      replace (zlen x + zlen d - zlen (text q)) with (zlen y) by lia.
      split_and!; [done|cbn [take]; constructor; [by exists tm'|done]|]. by rewrite <- app_assoc in Hsv'.
    + rewrite (proj2 (Z.leb_gt _ _)) by done. rewrite <- app_assoc in Ht.
      destruct (serve_part s q x d y _ _ ms tm wr (Forall_inv Hq) Ht Hd Hy Hz (arriving_nonneg evs) Hsv) as (s1 & -> & Hsv1).
      cbn [mbind outcome_bind]. rewrite <- zlen_app. by apply IH.
  - apply list.Forall_cons in Hev as [_ Hev]. destruct (serve_write _ _ _ _ _ wr Hsv) as (s1 & -> & Hsv1). cbn [mbind outcome_bind].
    replace (match qs with [] => answered qs (zlen x) evs | _ => answered qs (zlen x) evs end) with (answered qs (zlen x) evs) by (by destruct qs).
    by apply IH.
Qed.

Lemma serving_new w i o : good nobody w -> state_ (cn w) = kConnected -> shut (cn w) = false -> accepted (cn w) = [] ->
  Buffer.contents (inputBuffer_ (cn w)) = [] ->
  zlen (Buffer.buffer_ (inputBuffer_ (cn w))) + i + Buffer.extrabuf_size <= Buffer.max_size ->
  zlen (Buffer.buffer_ (outputBuffer_ (cn w))) + o <= Buffer.max_size -> serving (mk w HttpContext.new) [] i o [].
Proof. intros Hg Hs Hsh Ha Hc Hi Ho. constructor; try done. cbn. rewrite Hc. apply pending_unseen. Qed.

Lemma serving_written s y i o ms : serving s y i o ms ->
  sent (cn (world_ s)) ++ Buffer.contents (outputBuffer_ (cn (world_ s))) = concat ms.
Proof. intros [Hg _ _ <- _ _ _]. by destruct Hg as (a & fr & _ & _ & _ & Hst & _). Qed.

(** C15: What a client gets that sends any part of the requests [qs], all of
    which the handler answers without closing the connection, in pieces of any
    size, also such as go from one request into the next, whatever the socket
    takes of the output at a time: no assertion fails, the connection stays up,
    and the bytes written to the socket followed by those in the output buffer
    are exactly the responses to the first requests, in order.  Every read
    answers at most one request ([answered]): one that came in the same read
    as the end of another waits for the next read.  A client that sends one
    request at a time gets all its responses. *)
Theorem http_conversation qs evs e w :
  reachable w -> state_ (cn w) = kConnected -> shut (cn w) = false -> accepted (cn w) = [] ->
  Buffer.contents (inputBuffer_ (cn w)) = [] -> Forall sound evs -> concat (map text qs) = arriving evs ++ e ->
  Forall good_request qs -> Forall keeps qs ->
  zlen (Buffer.buffer_ (inputBuffer_ (cn w))) + zlen (arriving evs) + Buffer.extrabuf_size <= Buffer.max_size ->
  zlen (Buffer.buffer_ (outputBuffer_ (cn w))) + bound * zlen qs <= Buffer.max_size ->
  exists s reqs, run cb evs (mk w HttpContext.new) = Ok s /\ Forall2 asked (take (answered qs 0 evs) qs) reqs /\
    sent (cn (world_ s)) ++ Buffer.contents (outputBuffer_ (cn (world_ s))) = concat (map response reqs) /\
    state_ (cn (world_ s)) = kConnected /\ (talk [] qs evs -> length reqs = length qs).
Proof.
  intros [Hg _]%reachable_inv Hs Hsh Ha Hc Hev Hx Hq Hk Hi Ho.
  destruct (pieces_served [] qs evs e (mk w HttpContext.new) [] Hev Hx Hq Hk) as (s & reqs & y & Hr & Hf & Hsv); [by apply serving_new|].
  exists s, reqs. split_and!; [done..|exact (serving_written _ _ _ _ _ Hsv)|apply Hsv|].
  intros (_ & _ & Hn)%talk_answered. apply Forall2_length in Hf. change (zlen []) with 0 in *. by rewrite Hn, take_ge in Hf.
Qed.

(** ** Everything is sent in the end *)

(** A socket that takes at least a byte gets the output buffer down. *)
Lemma handleWrite_progress e w w' n :
  good nobody w -> state_ (cn w) = kConnected -> shut (cn w) = false -> wr e = Wrote n -> 1 <= n -> handleWrite e w = Ok w' ->
  (length (Buffer.contents (outputBuffer_ (cn w'))) <= pred (length (Buffer.contents (outputBuffer_ (cn w)))))%nat.
Proof.
  intros Hg Hs Hsh Hwr Hn. assert (is_open (cn w) = true) as Ho by (unfold is_open; by rewrite Hs).
  destruct (good_open _ _ Hg Ho) as (ev & off & fresh & ch & _ & Hc & _ & _ & Hiw & _ & Hout & _).
  unfold handleWrite. rewrite Hc. cbn [mbind outcome_bind]. rewrite Hiw.
  destruct (writing (cn w)) eqn:Ew; [|intros [= <-]; by rewrite (writing_contents _ Ew)].
  unfold writing in Ew. apply bool_decide_eq_true in Ew. set (out := outputBuffer_ (cn w)) in *. pose proof (zlen_pos _ Ew) as Hpos.
  intros (data & _ & Hr)%bind_Ok. rewrite Hwr in Hr. unfold sock_write in Hr. rewrite Hsh, <- Buffer.contents_zlen in Hr by done.
  set (k := Z.max 0 (Z.min n (zlen (Buffer.contents out)))) in *. assert (1 <= k <= zlen (Buffer.contents out)) as Hk by lia.
  rewrite (proj2 (Z.ltb_lt 0 k)) in Hr by lia.
  destruct (Buffer.retrieve_contents out (Z.to_nat k) Hout) as (b & Hb & Hwf & Hcb); [unfold zlen in Hk; lia|].
  rewrite Z2Nat.id in Hb by lia. rewrite Hb in Hr. cbn [mbind outcome_bind] in Hr.
  assert (outputBuffer_ (cn w') = b) as ->.
  { destruct (_ =? 0); [|by injection Hr as <-]. apply bind_Ok in Hr as (w2 & Hw2%on_channel_cn & Hr).
    set (w3 := if writeCompleteCallback_ (cn w2) then _ else w2) in Hr.
    assert (outputBuffer_ (cn w3) = b /\ state_ (cn w3) = kConnected) as [E3 S3].
    { unfold w3. destruct (writeCompleteCallback_ (cn w2)); cbn; rewrite Hw2; cbn; done. }
    clearbody w3. rewrite S3 in Hr. cbn in Hr. by injection Hr as <-. }
  rewrite Hcb, length_drop. lia.
Qed.

Lemma flush_written ns s y ms :
  serving s y 0 0 ms -> Forall (fun n => 1 <= n) ns ->
  exists s', run cb (map (fun n => Writable (Wrote n)) ns) s = Ok s' /\ serving s' y 0 0 ms /\
    (length (Buffer.contents (outputBuffer_ (cn (world_ s')))) <= length (Buffer.contents (outputBuffer_ (cn (world_ s)))) - length ns)%nat.
Proof.
  intros Hsv Hn. revert s Hsv. induction Hn as [|n ns Hn _ IH]; intros s Hsv; cbn [map run length].
  - exists s. split_and!; [done..|lia].
  - destruct (serve_write s y 0 0 ms (Wrote n) Hsv) as (s1 & Hst & Hsv1). rewrite Hst. cbn [mbind outcome_bind].
    destruct (IH s1 Hsv1) as (s' & Hr & Hsv' & Hl). exists s'. split_and!; [done..|]. cbn [step] in Hst.
    apply bind_Ok in Hst as (w1 & Hw & [= <-]). cbn [world_] in Hl. destruct Hsv as [Hg Hs Hsh _ _ _ _].
    pose proof (handleWrite_progress (mkEnv (arrived []) (Wrote n) [] []) (world_ s) w1 n Hg Hs Hsh eq_refl Hn Hw). lia.
Qed.

Lemma service_run_app evs evs' s : run cb (evs ++ evs') s = (s ← run cb evs s; run cb evs' s).
Proof.
  revert s. induction evs as [|ev evs IH]; intros s; [done|]. cbn [app run]. destruct (step cb ev s); cbn [mbind outcome_bind]; [apply IH|done].
Qed.

Lemma responses_length reqs : zlen (concat (map response reqs)) <= bound * zlen reqs.
Proof.
  induction reqs as [|r reqs IH]; [unfold zlen; cbn; lia|]. cbn [map concat]. rewrite zlen_app. pose proof (bounded r).
  replace (zlen (r :: reqs)) with (1 + zlen reqs) by (unfold zlen; cbn [length]; lia). lia.
Qed.

(** When the socket then takes a byte or more at a time, as often as there are
    bytes in the responses, a client that sends one request at a time has all
    of them and the output buffer is empty. *)
Theorem http_responses_sent qs evs ns w :
  reachable w -> state_ (cn w) = kConnected -> shut (cn w) = false -> accepted (cn w) = [] ->
  Buffer.contents (inputBuffer_ (cn w)) = [] -> talk [] qs evs -> Forall good_request qs -> Forall keeps qs ->
  zlen (Buffer.buffer_ (inputBuffer_ (cn w))) + zlen (arriving evs) + Buffer.extrabuf_size <= Buffer.max_size ->
  zlen (Buffer.buffer_ (outputBuffer_ (cn w))) + bound * zlen qs <= Buffer.max_size ->
  Forall (fun n => 1 <= n) ns -> bound * zlen qs <= zlen ns ->
  exists s reqs, run cb (evs ++ map (fun n => Writable (Wrote n)) ns) (mk w HttpContext.new) = Ok s /\ Forall2 asked qs reqs /\
    sent (cn (world_ s)) = concat (map response reqs) /\ Buffer.contents (outputBuffer_ (cn (world_ s))) = [].
Proof.
  intros [Hg _]%reachable_inv Hs Hsh Ha Hc (Hev & Hx & Hn)%talk_answered Hq Hk Hi Ho Hns Hlen.
  destruct (pieces_served [] qs evs [] (mk w HttpContext.new) [] Hev) as (s & reqs & y & Hr & Hf & Hsv);
    [by rewrite app_nil_r|done|done|by apply serving_new|]. rewrite Hn, take_ge in Hf by done.
  destruct (flush_written ns s y _ Hsv Hns) as (s' & Hr' & Hsv' & Hl).
  pose proof (serving_written _ _ _ _ _ Hsv) as Hw. pose proof (serving_written _ _ _ _ _ Hsv') as Hw'. cbn [app] in Hw, Hw'.
  pose proof (responses_length reqs) as Hb. rewrite <- Hw, zlen_app in Hb. apply Forall2_length in Hf as Hlq.
  assert (Buffer.contents (outputBuffer_ (cn (world_ s'))) = []) as En.
  { apply length_zero_iff_nil. pose proof (zlen_nonneg (sent (cn (world_ s)))). unfold zlen in *. rewrite Hlq in Hlen. lia. }
  exists s', reqs. rewrite service_run_app, Hr. cbn [mbind outcome_bind]. rewrite En, app_nil_r in Hw'. by split_and!.
Qed.

(** Two requests that arrive in one read: the first is answered, the second
    stays in the buffer, and nothing is sent for it until more bytes arrive. *)
Theorem pipelined_request_waits q1 q2 buf tm :
  good_request q1 -> keeps q1 -> Buffer.wf buf -> Buffer.contents buf = text q1 ++ text q2 ->
  exists buf' tm', HttpServer.onMessage cb HttpContext.new buf tm =
    Ok ([HttpServer.Send (response (received q1 tm'))], HttpContext.new, buf') /\ Buffer.contents buf' = text q2.
Proof.
  intros Hq Hk Hwf Hc.
  destruct (parse_last q1 [] (text q1 ++ text q2) (text q2) HttpContext.new [] buf tm Hq Hk eq_refl parsed_to_start Hwf Hc)
    as (buf' & tm' & Hm & _ & _ & Hc').
  by exists buf', tm'.
Qed.

End Conversation.

(** ** A conversation *)

Module HttpDemo.
Import TcpConnectionFacts.Demo.

(** A handler that says hello to everybody *)
Definition hello : HttpServer.HttpCallback := fun _ resp =>
  HttpResponse.setBody (HttpResponse.setCloseConnection
    (HttpResponse.setStatusMessage (HttpResponse.setStatusCode resp HttpResponse.k200Ok) (bs "OK")) false) (bs "hello").

Lemma hello_keeps q : keeps hello q.
Proof. done. Qed.

Lemma hello_fits req : HttpServerFacts.fits (hello req (HttpResponse.new (HttpServer.wants_close req))).
Proof. split; [apply (bool_decide_unpack _); by vm_compute|by vm_compute]. Qed.

Lemma hello_bounded req : zlen (response hello req) <= 100.
Proof. by vm_compute. Qed.

Definition get_index : request := mk_request HttpRequest.kGet HttpRequest.kHttp11 (bs "/index.html") [] [(bs "Host", bs "example.com")].

Lemma get_index_good : good_request get_index.
Proof.
  unfold good_request, HttpText.good_target. cbn [method version path query headers get_index].
  split_and!; try discriminate; try (apply (bool_decide_unpack _); by vm_compute). 
  constructor; [|constructor]. unfold HttpText.good_header. cbn [fst snd].
  split_and!; try (apply (bool_decide_unpack _); by vm_compute); by intros c [= <-].
Qed.

(** The request in two pieces; the socket takes three bytes, then the rest. *)
Definition events : list event :=
  [Readable (take 10 (text get_index)) 1 (Wrote 0); Readable (drop 10 (text get_index)) 2 (Wrote 3); Writable (Wrote 100)].

Lemma events_talk : talk [] [get_index] events.
Proof.
  apply (talk_part [] get_index [] _ (drop 10 (text get_index))); try by vm_compute.
  apply talk_last; try by vm_compute. apply talk_write, talk_done.
Qed.

(** Three requests: the second piece goes on into the second request, and the
    third one has the end of the second and all of the third. *)
Definition overlapping : list event :=
  [Readable (take 10 (text get_index)) 1 (Wrote 0); Readable (drop 10 (text get_index) ++ take 20 (text get_index)) 2 (Wrote 3);
   Writable (Wrote 100); Readable (drop 20 (text get_index) ++ text get_index) 3 (Wrote 100)].

(** Two of them are answered, the third waits. *)
Lemma http_conversation_witness :
  exists s reqs, run hello overlapping (mk up HttpContext.new) = Ok s /\ Forall2 asked [get_index; get_index] reqs /\
    sent (cn (world_ s)) ++ Buffer.contents (outputBuffer_ (cn (world_ s))) = concat (map (response hello) reqs).
Proof.
  destruct (http_conversation hello 100 hello_fits hello_bounded [get_index; get_index; get_index] overlapping [] up)
    as (s & reqs & Hr & Hf & Hs & _).
  - apply up_reachable.
  - by vm_compute.
  - by vm_compute.
  - by vm_compute.
  - by vm_compute.
  - repeat constructor; by vm_compute.
  - by vm_compute.
  - repeat (constructor; [apply get_index_good|]). constructor.
  - repeat (constructor; [apply hello_keeps|]). constructor.
  - by vm_compute.
  - by vm_compute.
  - replace (answered [get_index; get_index; get_index] 0 overlapping) with 2%nat in Hf by (vm_compute; reflexivity).
    exists s, reqs. split_and!; [exact Hr|exact Hf|exact Hs].
Defined.

Lemma http_responses_sent_witness :
  exists s reqs, run hello (events ++ map (fun n => Writable (Wrote n)) (replicate 100 1)) (mk up HttpContext.new) = Ok s /\
    Forall2 asked [get_index] reqs /\ sent (cn (world_ s)) = concat (map (response hello) reqs).
Proof.
  destruct (http_responses_sent hello 100 hello_fits hello_bounded [get_index] events (replicate 100 1) up)
    as (s & reqs & Hr & Hf & Hs & _).
  - apply up_reachable.
  - by vm_compute.
  - by vm_compute.
  - by vm_compute.
  - by vm_compute.
  - apply events_talk.
  - constructor; [apply get_index_good|constructor].
  - constructor; [apply hello_keeps|constructor].
  - by vm_compute.
  - by vm_compute.
  - apply Forall_replicate. lia.
  - by vm_compute.
  - exists s, reqs. split_and!; [exact Hr|exact Hf|exact Hs].
Defined.

Lemma pipelined_request_waits_witness :
  let buf := Buffer.mk (replicate 8 NUL ++ text get_index ++ text get_index) 8 102 in
  exists buf' tm', HttpServer.onMessage hello HttpContext.new buf 7 =
    Ok ([HttpServer.Send (response hello (received get_index tm'))], HttpContext.new, buf') /\ Buffer.contents buf' = text get_index.
Proof.
  apply (pipelined_request_waits hello hello_fits get_index get_index).
  - apply get_index_good.
  - apply hello_keeps.
  - unfold Buffer.wf. split_and!; by vm_compute.
  - by vm_compute.
Defined.

End HttpDemo.

End HttpService.
