(* ===== verification/EventLoop.v ===== *)
(** * The event loop

    [Module EventLoop] models src/muduo/net/EventLoop.h and EventLoop.cc as a
    machine with interleaved threads: the thread that owns the loop, whose
    position in [loop] and [doPendingFunctors] is [pc] and whose running
    callback is [code], and any number of other threads, which call
    [queueInLoop], [runInLoop] and [quit] at any time.  A functor is its
    identity and the calls of the loop's interface it makes.  The eventfd is
    its counter.  What poll(2) reports, and when, is the environment's choice,
    except that it reports the wakeup channel exactly when the eventfd is
    readable. *)

From S2P Require Import Prelude Poller Timestamp TimerQueue.

Local Open Scope Z_scope.

Module EventLoop.

(** What callbacks do with the loop. *)
Inductive op :=
  | QueueInLoop (cb : nat) (body : list op)
  | RunInLoop (cb : nat) (body : list op)
  | Quit
  | UpdateChannel (p : ptr)
  | RemoveChannel (p : ptr).

Definition Functor : Type := nat * list op.

(** Where the loop's thread is. *)
Inductive pc :=
  | Outside                             (* not in [loop] *)
  | AtTest                              (* [while (!quit_)] *)
  | InPoll                              (* in [poller_->poll] *)
  | Handling (todo : list (ptr * list op))   (* the channels still to handle *)
  | Swapping                            (* in [doPendingFunctors], before the swap *)
  | Running (functors : list Functor).  (* the rest of the swapped vector *)

Section Loop.
Context {P : Type} `{Poller P}.

Record t := mk {
  looping_ : bool;
  quit_ : bool;
  eventHandling_ : bool;
  callingPendingFunctors_ : bool;
  iteration_ : Z;
  pollReturnTime_ : Timestamp.t;
  wakeupFd_ : Z;                        (* the counter of the eventfd *)
  wakeupChannel_ : ptr;
  activeChannels_ : list ptr;
  currentActiveChannel_ : option ptr;
  pendingFunctors_ : list Functor;
  heap : Channel.heap;
  poller_ : P;
  at_pc : pc;
  code : list op;                       (* the rest of the running callback *)
  waking : nat;                         (* other threads that are about to call [wakeup] *)
  queued : list nat;                    (* functors queued so far *)
  ran : list nat;                       (* queued functors run so far *)
}.

Definition set_looping v s := mk v (quit_ s) (eventHandling_ s) (callingPendingFunctors_ s) (iteration_ s) (pollReturnTime_ s) (wakeupFd_ s) (wakeupChannel_ s) (activeChannels_ s) (currentActiveChannel_ s) (pendingFunctors_ s) (heap s) (poller_ s) (at_pc s) (code s) (waking s) (queued s) (ran s).
Definition set_quit v s := mk (looping_ s) v (eventHandling_ s) (callingPendingFunctors_ s) (iteration_ s) (pollReturnTime_ s) (wakeupFd_ s) (wakeupChannel_ s) (activeChannels_ s) (currentActiveChannel_ s) (pendingFunctors_ s) (heap s) (poller_ s) (at_pc s) (code s) (waking s) (queued s) (ran s).
Definition set_eventHandling v s := mk (looping_ s) (quit_ s) v (callingPendingFunctors_ s) (iteration_ s) (pollReturnTime_ s) (wakeupFd_ s) (wakeupChannel_ s) (activeChannels_ s) (currentActiveChannel_ s) (pendingFunctors_ s) (heap s) (poller_ s) (at_pc s) (code s) (waking s) (queued s) (ran s).
Definition set_calling v s := mk (looping_ s) (quit_ s) (eventHandling_ s) v (iteration_ s) (pollReturnTime_ s) (wakeupFd_ s) (wakeupChannel_ s) (activeChannels_ s) (currentActiveChannel_ s) (pendingFunctors_ s) (heap s) (poller_ s) (at_pc s) (code s) (waking s) (queued s) (ran s).
Definition set_polled n now act h p s := mk (looping_ s) (quit_ s) (eventHandling_ s) (callingPendingFunctors_ s) n now (wakeupFd_ s) (wakeupChannel_ s) act (currentActiveChannel_ s) (pendingFunctors_ s) h p (at_pc s) (code s) (waking s) (queued s) (ran s).
Definition set_wakeupFd v s := mk (looping_ s) (quit_ s) (eventHandling_ s) (callingPendingFunctors_ s) (iteration_ s) (pollReturnTime_ s) v (wakeupChannel_ s) (activeChannels_ s) (currentActiveChannel_ s) (pendingFunctors_ s) (heap s) (poller_ s) (at_pc s) (code s) (waking s) (queued s) (ran s).
Definition set_active v s := mk (looping_ s) (quit_ s) (eventHandling_ s) (callingPendingFunctors_ s) (iteration_ s) (pollReturnTime_ s) (wakeupFd_ s) (wakeupChannel_ s) v (currentActiveChannel_ s) (pendingFunctors_ s) (heap s) (poller_ s) (at_pc s) (code s) (waking s) (queued s) (ran s).
Definition set_current v s := mk (looping_ s) (quit_ s) (eventHandling_ s) (callingPendingFunctors_ s) (iteration_ s) (pollReturnTime_ s) (wakeupFd_ s) (wakeupChannel_ s) (activeChannels_ s) v (pendingFunctors_ s) (heap s) (poller_ s) (at_pc s) (code s) (waking s) (queued s) (ran s).
Definition set_pending v s := mk (looping_ s) (quit_ s) (eventHandling_ s) (callingPendingFunctors_ s) (iteration_ s) (pollReturnTime_ s) (wakeupFd_ s) (wakeupChannel_ s) (activeChannels_ s) (currentActiveChannel_ s) v (heap s) (poller_ s) (at_pc s) (code s) (waking s) (queued s) (ran s).
Definition set_poller h p s := mk (looping_ s) (quit_ s) (eventHandling_ s) (callingPendingFunctors_ s) (iteration_ s) (pollReturnTime_ s) (wakeupFd_ s) (wakeupChannel_ s) (activeChannels_ s) (currentActiveChannel_ s) (pendingFunctors_ s) h p (at_pc s) (code s) (waking s) (queued s) (ran s).
Definition goto v s := mk (looping_ s) (quit_ s) (eventHandling_ s) (callingPendingFunctors_ s) (iteration_ s) (pollReturnTime_ s) (wakeupFd_ s) (wakeupChannel_ s) (activeChannels_ s) (currentActiveChannel_ s) (pendingFunctors_ s) (heap s) (poller_ s) v (code s) (waking s) (queued s) (ran s).
Definition set_code v s := mk (looping_ s) (quit_ s) (eventHandling_ s) (callingPendingFunctors_ s) (iteration_ s) (pollReturnTime_ s) (wakeupFd_ s) (wakeupChannel_ s) (activeChannels_ s) (currentActiveChannel_ s) (pendingFunctors_ s) (heap s) (poller_ s) (at_pc s) v (waking s) (queued s) (ran s).
Definition set_waking v s := mk (looping_ s) (quit_ s) (eventHandling_ s) (callingPendingFunctors_ s) (iteration_ s) (pollReturnTime_ s) (wakeupFd_ s) (wakeupChannel_ s) (activeChannels_ s) (currentActiveChannel_ s) (pendingFunctors_ s) (heap s) (poller_ s) (at_pc s) (code s) v (queued s) (ran s).
Definition note_queued i s := mk (looping_ s) (quit_ s) (eventHandling_ s) (callingPendingFunctors_ s) (iteration_ s) (pollReturnTime_ s) (wakeupFd_ s) (wakeupChannel_ s) (activeChannels_ s) (currentActiveChannel_ s) (pendingFunctors_ s) (heap s) (poller_ s) (at_pc s) (code s) (waking s) (queued s ++ [i]) (ran s).
Definition note_ran i s := mk (looping_ s) (quit_ s) (eventHandling_ s) (callingPendingFunctors_ s) (iteration_ s) (pollReturnTime_ s) (wakeupFd_ s) (wakeupChannel_ s) (activeChannels_ s) (currentActiveChannel_ s) (pendingFunctors_ s) (heap s) (poller_ s) (at_pc s) (code s) (waking s) (queued s) (ran s ++ [i]).

(** ** The eventfd *)

Definition eventfd_max : Z := 2 ^ 64 - 2.

(** A write of 1; it fails with EAGAIN when the counter is full. *)
Definition wakeup (s : t) : t :=
  if wakeupFd_ s <? eventfd_max then set_wakeupFd (wakeupFd_ s + 1) s else s.

(** A read: it resets the counter, or fails with EAGAIN. *)
Definition handleRead (s : t) : t := set_wakeupFd 0 s.

(** ** The interface, called in the loop's thread *)

Definition push (cb : nat) (body : list op) (s : t) : t :=
  note_queued cb (set_pending (pendingFunctors_ s ++ [(cb, body)]) s).

Definition queueInLoop (cb : nat) (body : list op) (s : t) : t :=
  let s := push cb body s in
  if callingPendingFunctors_ s then wakeup s else s.

Definition runInLoop (body : list op) (s : t) : t := set_code (body ++ code s) s.

Definition quit (s : t) : t := set_quit true s.

Definition queueSize (s : t) : nat := length (pendingFunctors_ s).

Definition updateChannel (p : ptr) (s : t) : outcome t :=
  r ← Poller.updateChannel p (heap s) (poller_ s);
  Ok (set_poller (r.1) (r.2) s).

Definition removeChannel (p : ptr) (s : t) : outcome t :=
  _ ← (if eventHandling_ s
       then assert (bool_decide (currentActiveChannel_ s = Some p) || negb (bool_decide (p ∈ activeChannels_ s)))
       else Ok tt);
  r ← Poller.removeChannel p (heap s) (poller_ s);
  Ok (set_poller (r.1) (r.2) s).

Definition loopHasChannel (p : ptr) (s : t) : outcome bool :=
  c ← Channel.deref (heap s) p; Ok (hasChannel c p (poller_ s)).

Definition run_op (o : op) (s : t) : outcome t :=
  match o with
  | QueueInLoop cb body => Ok (queueInLoop cb body s)
  | RunInLoop _ body => Ok (runInLoop body s)
  | Quit => Ok (quit s)
  | UpdateChannel p => updateChannel p s
  | RemoveChannel p => removeChannel p s
  end.

(** ** The loop's thread *)

(** [loop] up to the first test of [quit_]. *)
Definition enter (s : t) : outcome t :=
  _ ← assert (negb (looping_ s));
  Ok (goto AtTest (set_quit false (set_looping true s))).

(** [poll] returned at [now]: the active channels, with what their callbacks
    do, and the poller and the channels it has left. *)
Definition poll_returns (now : Timestamp.t) (act : list (ptr * list op)) (h : Channel.heap) (p : P) (s : t) : outcome t :=
  n ← ck64 (iteration_ s + 1);
  Ok (goto (Handling act) (set_eventHandling true (set_polled n now (act.*1) h p s))).

(** One step of the loop's thread: of the running callback, or else of [loop]
    and [doPendingFunctors]. *)
Definition loop_step (s : t) : outcome t :=
  match code s with
  | o :: rest => run_op o (set_code rest s)
  | [] =>
      match at_pc s with
      | Outside | InPoll => Ok s
      | AtTest =>
          if quit_ s then Ok (goto Outside (set_looping false s))
          else Ok (goto InPoll (set_active [] s))
      | Handling ((p, body) :: todo) =>
          let s := goto (Handling todo) (set_current (Some p) s) in
          if bool_decide (p = wakeupChannel_ s) then Ok (handleRead s) else Ok (set_code body s)
      | Handling [] =>
          Ok (goto Swapping (set_calling true (set_eventHandling false (set_current None s))))
      | Swapping => Ok (goto (Running (pendingFunctors_ s)) (set_pending [] s))
      | Running (f :: fs) => Ok (goto (Running fs) (set_code (f.2) (note_ran (f.1) s)))
      | Running [] => Ok (goto AtTest (set_calling false s))
      end
  end.

(** ** All threads *)

Inductive label :=
  | Enter
  | UserCode (ops : list op)            (* the loop's thread, outside [loop] *)
  | LoopStep
  | PollReturns (now : Timestamp.t) (act : list (ptr * list op)) (h : Channel.heap) (p : P)
  | OtherQueue (cb : nat) (body : list op)   (* [queueInLoop] or [runInLoop]: the push *)
  | OtherQuit                           (* [quit]: the store *)
  | OtherWakeup                         (* the [wakeup] at the end of either *)
  | OtherChannel (p : ptr).             (* [updateChannel] or [removeChannel] *)

(** When a step can be taken; poll reports the wakeup channel exactly when
    its eventfd is readable. *)
Definition enabled (l : label) (s : t) : bool :=
  match l with
  | Enter | UserCode _ => match at_pc s, code s with Outside, [] => true | _, _ => false end
  | LoopStep => match at_pc s, code s with Outside, [] | InPoll, [] => false | _, _ => true end
  | PollReturns _ act _ _ =>
      match at_pc s, code s with
      | InPoll, [] => Bool.eqb (bool_decide (wakeupChannel_ s ∈ act.*1)) (0 <? wakeupFd_ s)
      | _, _ => false
      end
  | OtherWakeup => (0 <? waking s)%nat
  | OtherQueue _ _ | OtherQuit | OtherChannel _ => true
  end.

Definition step (l : label) (s : t) : outcome t :=
  match l with
  | Enter => enter s
  | UserCode ops => Ok (set_code ops s)
  | LoopStep => loop_step s
  | PollReturns now act h p => poll_returns now act h p s
  | OtherQueue cb body => Ok (set_waking (S (waking s)) (push cb body s))
  | OtherQuit => Ok (set_waking (S (waking s)) (set_quit true s))
  | OtherWakeup => Ok (wakeup (set_waking (pred (waking s)) s))
  | OtherChannel _ => Fault Aborted
  end.

(** ** Construction and destruction *)

(** [inThisThread]: whether the thread has a loop already. *)
Definition new (inThisThread : bool) (ch : ptr) (fd : Z) (h : Channel.heap) (p : P) : outcome t :=
  if inThisThread then Fault Aborted
  else
    r ← ChannelOps.enableReading ch (<[ch := Channel.setReadCallback true (Channel.new fd)]> h, p);
    Ok (mk false false false false 0 0 0 ch [] None [] (r.1) (r.2) Outside [] 0 [] []).

Definition destroy (s : t) : outcome t :=
  r ← ChannelOps.disableAll (wakeupChannel_ s) (heap s, poller_ s);
  r ← ChannelOps.remove (wakeupChannel_ s) r;
  Ok (set_poller (r.1) (r.2) s).

(** ** Timers *)

Definition runAt (hint : Z) (time : Timestamp.t) (cb : nat) (dt : N) : TimerQueue.cb_op :=
  TimerQueue.AddTimer hint cb time (d_of_Z 0) dt.

Definition runAfter (hint : Z) (now : Timestamp.t) (delay : double) (cb : nat) (dt : N) : outcome TimerQueue.cb_op :=
  time ← Timestamp.addTime now delay;
  Ok (runAt hint time cb dt).

Definition runEvery (hint : Z) (now : Timestamp.t) (interval : double) (cb : nat) (dt : N) : outcome TimerQueue.cb_op :=
  time ← Timestamp.addTime now interval;
  Ok (TimerQueue.AddTimer hint cb time interval dt).

End Loop.
End EventLoop.
