(* ===== verification/EventLoopFacts.v ===== *)
(** * Correctness of the event loop

    No functor queued from another thread or from a callback is forgotten
    while the loop waits in poll (those the loop's own thread queues outside
    loop() do not wake it), functors run in the order in which they were
    queued and exactly once, every iteration comes to an end, and which
    removals of channels the loop accepts; and a functor that waits for poll to
    time out. *)

From S2P Require Import Prelude Poller PollerSpec Timestamp TimerQueue EventLoop.

Local Open Scope Z_scope.

Import EventLoop.

Section Facts.
Context {P : Type} `{Poller P}.
Implicit Types s : EventLoop.t (P := P).

(** ** Invariant *)

(** The eventfd is readable or is about to be. *)
Definition woken s : Prop := 0 < wakeupFd_ s \/ (0 < waking s)%nat.

Definition batch s : list Functor := match at_pc s with Running fs => fs | _ => [] end.

Definition handling s : bool := match at_pc s with Handling _ => true | _ => false end.
Definition calling s : bool := match at_pc s with Swapping | Running _ => true | _ => false end.
Definition no_code s : Prop := match at_pc s with AtTest | InPoll | Swapping => code s = [] | _ => True end.

(** Where more than [k] pending functors, or a request to quit, must have woken
    the loop. *)
Definition watched (k : nat) s : Prop :=
  match at_pc s with
  | InPoll => (k < length (pendingFunctors_ s))%nat \/ quit_ s = true -> woken s
  | Outside | AtTest | Running _ => (k < length (pendingFunctors_ s))%nat -> woken s
  | Handling _ | Swapping => True
  end.

Record inv (k : nat) s : Prop := {
  inv_fd : 0 <= wakeupFd_ s;
  inv_handling : eventHandling_ s = handling s;
  inv_calling : callingPendingFunctors_ s = calling s;
  inv_code : no_code s;
  inv_watched : watched k s;
  inv_early : (k <= length (pendingFunctors_ s))%nat;
}.

(** A call of [queueInLoop] by the loop's thread while it is not in [loop],
    which wakes nobody up *)
Definition early_queue (l : label (P := P)) s : bool :=
  match l, at_pc s, code s with
  | LoopStep, Outside, QueueInLoop _ _ :: _ => true
  | _, _, _ => false
  end.

(** [doPendingFunctors] takes the pending functors. *)
Definition takes_all (l : label (P := P)) s : bool :=
  match l, at_pc s, code s with
  | LoopStep, Swapping, [] => true
  | _, _, _ => false
  end.

(** How many of the pending functors were queued that way, when it were [k]
    before step [l] *)
Definition early (l : label (P := P)) (k : nat) s : nat := if early_queue l s then S k else if takes_all l s then O else k.

Lemma wakeup_positive s : 0 <= wakeupFd_ s -> 0 < wakeupFd_ (wakeup s).
Proof. intros Hp. unfold wakeup, eventfd_max. destruct (Z.ltb_spec (wakeupFd_ s) (2 ^ 64 - 2)); cbn; lia. Qed.

Lemma wakeup_same s :
  at_pc (wakeup s) = at_pc s /\ code (wakeup s) = code s /\ pendingFunctors_ (wakeup s) = pendingFunctors_ s /\
  quit_ (wakeup s) = quit_ s /\ eventHandling_ (wakeup s) = eventHandling_ s /\ waking (wakeup s) = waking s /\
  callingPendingFunctors_ (wakeup s) = callingPendingFunctors_ s /\ queued (wakeup s) = queued s /\ ran (wakeup s) = ran s.
Proof. unfold wakeup. by destruct (_ <? _). Qed.

(** The invariant of a state that differs only in ways it does not see. *)
Lemma inv_ext k s s' :
  wakeupFd_ s' = wakeupFd_ s -> waking s' = waking s -> at_pc s' = at_pc s -> code s' = code s -> quit_ s' = quit_ s ->
  pendingFunctors_ s' = pendingFunctors_ s -> eventHandling_ s' = eventHandling_ s ->
  callingPendingFunctors_ s' = callingPendingFunctors_ s -> inv k s -> inv k s'.
Proof.
  intros E1 E2 E3 E4 E5 E6 E7 E8 []. constructor; unfold handling, calling, no_code, watched, woken in *;
    rewrite ?E1, ?E2, ?E3, ?E4, ?E5, ?E6, ?E7, ?E8; done.
Qed.

(** After [wakeup] nothing that is pending is overlooked. *)
Lemma inv_wakeup k s :
  0 <= wakeupFd_ s -> eventHandling_ s = handling s -> callingPendingFunctors_ s = calling s -> no_code s ->
  (k <= length (pendingFunctors_ s))%nat -> inv k (wakeup s).
Proof.
  intros Hfd H1 H2 H3 H4. pose proof (wakeup_positive s Hfd) as Hpos. destruct (wakeup_same s) as (E1 & E2 & E3 & E4 & E5 & E6 & E7 & _).
  assert (woken (wakeup s)) by (by left).
  constructor; unfold handling, calling, no_code, watched in *; rewrite ?E1, ?E2, ?E5, ?E7; try done; [lia| |by rewrite E3].
  by destruct (at_pc s).
Qed.

(** The same when another thread is about to wake the loop up. *)
Lemma inv_waking k s s' :
  inv k s -> wakeupFd_ s' = wakeupFd_ s -> waking s' = S (waking s) -> at_pc s' = at_pc s -> code s' = code s ->
  eventHandling_ s' = eventHandling_ s -> callingPendingFunctors_ s' = callingPendingFunctors_ s ->
  (length (pendingFunctors_ s) <= length (pendingFunctors_ s'))%nat -> inv k s'.
Proof.
  intros [] E1 E2 E3 E4 E5 E6 E7. assert (woken s') by (right; lia).
  constructor; unfold handling, calling, no_code, watched in *; rewrite ?E1, ?E3, ?E4, ?E5, ?E6; try done; [|lia]. by destruct (at_pc s).
Qed.

Lemma inv_run_op k o rest s s' :
  inv k s -> code s = o :: rest -> run_op o (set_code rest s) = Ok s' -> inv (early LoopStep k s) s'.
Proof.
  intros Hi Hc Hr.
  assert (inv k (set_code rest s)) as Hi1.
  { destruct Hi as [A B C D E Hk]. constructor; try done. unfold no_code in *. cbn. destruct (at_pc s); try done; rewrite Hc in D; done. }
  assert (match at_pc s with Outside | Handling _ | Running _ => True | _ => False end) as Hpc.
  { destruct Hi as [_ _ _ D _]. unfold no_code in D. rewrite Hc in D. by destruct (at_pc s). }
  assert (early LoopStep k s = match o, at_pc s with QueueInLoop _ _, Outside => S k | _, _ => k end) as ->.
  { unfold early, early_queue, takes_all. rewrite Hc. by destruct o, (at_pc s). }
  destruct o as [cb body|cb body| |p|p]; cbn [run_op] in Hr.
  - injection Hr as <-. unfold queueInLoop. set (s1 := push cb body _).
    assert (no_code s1) as Hn by (unfold no_code; cbn; by destruct (at_pc s)).
    assert (length (pendingFunctors_ s1) = S (length (pendingFunctors_ s))) as Hl by (cbn; rewrite length_app; cbn; lia).
    pose proof (inv_early k s Hi) as Hk.
    destruct (callingPendingFunctors_ s1) eqn:Ec; [destruct Hi1; apply inv_wakeup; try done; destruct (at_pc s); lia|].
    destruct Hi1 as [A B C D E _]. constructor; try done; [|destruct (at_pc s); lia].
    unfold watched in *. cbn in *. rewrite Ec in C. unfold calling in C. cbn in C.
    rewrite length_app. cbn [length]. destruct (at_pc s); try done. intros Hx. apply E. lia.
  - injection Hr as <-. destruct Hi1 as [A B C D E Hk]. constructor; try done. unfold no_code. cbn. by destruct (at_pc s).
  - injection Hr as <-. destruct Hi1 as [A B C D E Hk]. constructor; try done. unfold watched in *. cbn in *. by destruct (at_pc s).
  - unfold updateChannel in Hr. inv_ok Hr. by apply (inv_ext k (set_code rest s)).
  - unfold removeChannel in Hr. inv_ok Hr. by apply (inv_ext k (set_code rest s)).
Qed.

Lemma inv_loop_step k s s' : inv k s -> loop_step s = Ok s' -> inv (early LoopStep k s) s'.
Proof.
  intros Hi Hs. unfold loop_step in Hs. destruct (code s) as [|o rest] eqn:Hc; [|by eapply inv_run_op].
  assert (early LoopStep k s = match at_pc s with Swapping => O | _ => k end) as ->.
  { unfold early, early_queue, takes_all. rewrite Hc. by destruct (at_pc s). }
  pose proof Hi as [A B C D E Hk]. unfold handling, calling, no_code, watched in B, C, D, E.
  destruct (at_pc s) as [| | |[|[p body] todo]| |[|f fs]] eqn:Ep.
  - by injection Hs as <-.
  - destruct (quit_ s) eqn:Eq; injection Hs as <-; constructor; unfold handling, calling, no_code, watched; cbn; try done.
    intros [?|?]; [by apply E|congruence].
  - by injection Hs as <-.
  - injection Hs as <-. by constructor.
  - cbn in Hs. case_bool_decide; injection Hs as <-; constructor; done.
  - injection Hs as <-. constructor; try done; unfold watched; cbn; lia.
  - injection Hs as <-. by constructor.
  - injection Hs as <-. by constructor.
Qed.

Lemma early_other l k s : l <> LoopStep -> early l k s = k.
Proof. unfold early, early_queue, takes_all. by destruct l. Qed.

Lemma inv_step l k s s' : inv k s -> enabled l s = true -> step l s = Ok s' -> inv (early l k s) s'.
Proof.
  intros Hi Hen Hs. destruct l as [|ops| |now act h p|cb body| | |p]; cbn [step] in Hs; try rewrite early_other by done.
  - unfold enter in Hs. inv_ok Hs. cbn in Hen. destruct Hi as [A B C D F Hk]. unfold handling, calling, watched in *.
    destruct (at_pc s), (code s) eqn:Ec; by constructor.
  - injection Hs as <-. cbn in Hen. destruct Hi as [A B C D F Hk]. unfold handling, calling, watched in *.
    destruct (at_pc s) eqn:Ep; try done. constructor; unfold handling, calling, watched, no_code; cbn; by rewrite ?Ep.
  - by apply inv_loop_step.
  - unfold poll_returns in Hs. inv_ok Hs. cbn in Hen. destruct Hi as [A B C D F Hk]. unfold handling, calling in *.
    destruct (at_pc s); by constructor.
  - injection Hs as <-. eapply inv_waking; try done. cbn. rewrite length_app. lia.
  - injection Hs as <-. by eapply inv_waking.
  - injection Hs as <-. destruct Hi. by apply inv_wakeup.
  - done.
Qed.

(** ** Runs *)

(** The states of a loop made in a thread without one, in which all threads
    take their steps in any order, with the number of pending functors that
    the loop's own thread queued outside [loop]. *)
Inductive reachable : nat -> EventLoop.t -> Prop :=
  | reachable_new ch fd h p s : new false ch fd h p = Ok s -> reachable 0 s
  | reachable_step k l s s' : reachable k s -> enabled l s = true -> step l s = Ok s' -> reachable (early l k s) s'.

Lemma loop_reachable_inv k s : reachable k s -> inv k s.
Proof.
  induction 1 as [ch fd h p s Hn|k l s s' _ IH Ha Hs]; [|by eapply inv_step].
  unfold new in Hn. inv_ok Hn. constructor; try done. unfold watched. cbn. lia.
Qed.

(** C8: No lost wakeup, whatever order the threads go on in: while the loop
    waits in poll after it was asked to quit, or with a functor pending other
    than the [k] that its own thread queued outside [loop], the eventfd is
    readable or a thread is about to write to it, so that poll returns.
    Nobody wakes the loop up for those [k]: they wait for its first event or
    time-out. *)
Theorem no_lost_wakeup k s :
  reachable k s ->
  (k <= length (pendingFunctors_ s))%nat /\
  (at_pc s = InPoll -> (k < length (pendingFunctors_ s))%nat \/ quit_ s = true -> 0 < wakeupFd_ s \/ (0 < waking s)%nat).
Proof.
  intros Hi%loop_reachable_inv. split; [apply Hi|]. intros Hp. pose proof (inv_watched k s Hi) as Hw. unfold watched in Hw. by rewrite Hp in Hw.
Qed.

(** ** Order *)

Definition ids (fs : list Functor) : list nat := fs.*1.

Definition in_order s : Prop := queued s = ran s ++ ids (batch s) ++ ids (pendingFunctors_ s).

Lemma in_order_push cb body s : in_order s -> in_order (push cb body s).
Proof. unfold in_order, batch, ids. cbn. intros ->. by rewrite fmap_app, !app_assoc. Qed.

Lemma in_order_wakeup s : in_order s -> in_order (wakeup s).
Proof. unfold in_order, batch. destruct (wakeup_same s) as (-> & _ & -> & _ & _ & _ & _ & -> & ->). done. Qed.

Lemma in_order_run_op o s s' : in_order s -> run_op o s = Ok s' -> in_order s'.
Proof.
  intros Hi Hr. destruct o as [cb body|cb body| |p|p]; cbn [run_op] in Hr.
  - injection Hr as <-. unfold queueInLoop. pose proof (in_order_push cb body s Hi).
    destruct (callingPendingFunctors_ _); [by apply in_order_wakeup|done].
  - by injection Hr as <-.
  - by injection Hr as <-.
  - unfold updateChannel in Hr. by inv_ok Hr.
  - unfold removeChannel in Hr. by inv_ok Hr.
Qed.

Lemma in_order_loop_step s s' : in_order s -> loop_step s = Ok s' -> in_order s'.
Proof.
  intros Hi Hs. unfold loop_step in Hs. destruct (code s) as [|o rest]; [|by apply (in_order_run_op o (set_code rest s))].
  unfold in_order, batch in *. destruct (at_pc s) as [| | |[|[p body] todo]| |[|f fs]] eqn:Ep; try (injection Hs as <-; cbn in *; rewrite ?Ep; done).
  - destruct (quit_ s); by injection Hs as <-.
  - cbn in Hs. case_bool_decide; by injection Hs as <-.
  - injection Hs as <-. cbn in *. by rewrite app_nil_r.
  - injection Hs as <-. cbn in *. by rewrite Hi, <- app_assoc.
Qed.

(** No step of any thread takes functors out of order. *)
Lemma in_order_step l s s' : enabled l s = true -> in_order s -> step l s = Ok s' -> in_order s'.
Proof.
  intros Hen Hi Hs. destruct l as [|ops| |now act h p|cb body| | |p]; cbn [step] in Hs.
  - unfold enter in Hs. inv_ok Hs. unfold in_order, batch in *. cbn in *. by destruct (at_pc s).
  - by injection Hs as <-.
  - by apply in_order_loop_step in Hs.
  - unfold poll_returns in Hs. inv_ok Hs. unfold in_order, batch in *. cbn in *. by destruct (at_pc s).
  - injection Hs as <-. by apply (in_order_push cb body).
  - by injection Hs as <-.
  - injection Hs as <-. by apply in_order_wakeup.
  - done.
Qed.

(** Queued functors run in the order in which they were queued, from
    whatever thread, each exactly once: at any time those that were queued are
    those that have run, then the rest of the batch being run, then those
    pending. *)
Theorem functors_fifo k s :
  reachable k s -> queued s = ran s ++ ids (batch s) ++ ids (pendingFunctors_ s).
Proof.
  induction 1 as [ch fd h p s Hn|k l s s' _ IH Hen Hs]; [|by eapply in_order_step].
  unfold new in Hn. by inv_ok Hn.
Qed.

(** ** Removing channels *)

(** What the loop makes of the removal of a channel: a queued functor may
    remove any channel; a channel's callback may remove its own channel or one
    that has no events in this iteration, and fails otherwise. *)
Theorem removeChannel_cases k s p rest :
  reachable k s -> code s = RemoveChannel p :: rest ->
  loop_step s =
    if bool_decide (handling s = true /\ currentActiveChannel_ s <> Some p /\ p ∈ activeChannels_ s)
    then Fault AssertFailed
    else r ← Poller.removeChannel p (heap s) (poller_ s); Ok (set_poller (r.1) (r.2) (set_code rest s)).
Proof.
  intros Hi%loop_reachable_inv Hc. unfold loop_step. rewrite Hc. cbn [run_op]. unfold removeChannel. cbn [eventHandling_ set_code].
  rewrite (inv_handling k s Hi). destruct (handling s).
  - cbn [currentActiveChannel_ activeChannels_ set_code heap poller_].
    destruct (decide (currentActiveChannel_ s = Some p)) as [Hcur|Hcur].
    + rewrite (bool_decide_eq_true_2 (currentActiveChannel_ s = Some p)) by done.
      rewrite (bool_decide_eq_false_2 (_ /\ _ /\ _)) by naive_solver. done.
    + rewrite (bool_decide_eq_false_2 (currentActiveChannel_ s = Some p)) by done. cbn [orb].
      destruct (decide (p ∈ activeChannels_ s)).
      * rewrite (bool_decide_eq_true_2 (p ∈ activeChannels_ s)) by done. rewrite (bool_decide_eq_true_2 (_ /\ _ /\ _)) by done. done.
      * rewrite (bool_decide_eq_false_2 (p ∈ activeChannels_ s)) by done. rewrite (bool_decide_eq_false_2 (_ /\ _ /\ _)) by naive_solver. done.
  - rewrite (bool_decide_eq_false_2 (_ /\ _ /\ _)) by naive_solver. done.
Qed.


(** ** Every iteration ends *)

Fixpoint loop_steps (n : nat) s : outcome EventLoop.t :=
  match n with
  | O => Ok s
  | S n' => s ← loop_step s; loop_steps n' s
  end.

Lemma loop_steps_app n m s s' : loop_steps n s = Ok s' -> loop_steps (n + m) s = loop_steps m s'.
Proof.
  revert s. induction n as [|n IH]; intros s Hs; cbn in *; [by injection Hs as <-|].
  apply bind_Ok in Hs as (s1 & -> & Hs). cbn. by apply IH.
Qed.

Lemma loop_steps_1 s s' : loop_step s = Ok s' -> loop_steps 1 s = Ok s'.
Proof. intros Hs. cbn. by rewrite Hs. Qed.

(** Code that changes no channel, whatever it queues or runs included. *)
Fixpoint quiet (o : op) : bool :=
  match o with
  | QueueInLoop _ body | RunInLoop _ body => forallb quiet body
  | Quit => true
  | UpdateChannel _ | RemoveChannel _ => false
  end.

Fixpoint op_size (o : op) : nat :=
  match o with
  | RunInLoop _ body => S (sum_list_with op_size body)
  | _ => 1
  end.

Definition quiet_functors (fs : list Functor) : Prop := Forall (fun f => forallb quiet (f.2) = true) fs.

(** What running code leaves: functors queued at the end. *)
Definition extends s s' : Prop :=
  at_pc s' = at_pc s /\ ran s' = ran s /\
  exists fs, pendingFunctors_ s' = pendingFunctors_ s ++ fs /\ quiet_functors fs.

Lemma extends_refl s : extends s s.
Proof. split_and!; try done. exists []. rewrite app_nil_r. split; [done|constructor]. Qed.

Lemma extends_trans s1 s2 s3 : extends s1 s2 -> extends s2 s3 -> extends s1 s3.
Proof.
  intros (A1 & A2 & f & A3 & A4) (B1 & B2 & g & B3 & B4). split_and!; [congruence..|]. exists (f ++ g).
  rewrite B3, A3, app_assoc. split; [done|]. by apply Forall_app.
Qed.

Lemma run_op_extends o s :
  quiet o = true ->
  exists s', run_op o s = Ok s' /\ extends s s' /\
    code s' = match o with RunInLoop _ body => body ++ code s | _ => code s end.
Proof.
  intros Hq. destruct o as [cb body|cb body| |p|p]; cbn in Hq; try done; cbn [run_op]; eexists; split; try done.
  - unfold queueInLoop. destruct (callingPendingFunctors_ _).
    + unfold extends. destruct (wakeup_same (push cb body s)) as (-> & -> & -> & _ & _ & _ & _ & _ & ->).
      split; [|done]. split_and!; try done. exists [(cb, body)]. split; [done|]. by apply Forall_singleton.
    + split; [|done]. split_and!; try done. exists [(cb, body)]. split; [done|]. by apply Forall_singleton.
  - split; [|done]. exact (extends_refl s).
  - split; [|done]. exact (extends_refl s).
Qed.

Lemma code_ends s :
  forallb quiet (code s) = true -> exists n s', loop_steps n s = Ok s' /\ extends s s' /\ code s' = [].
Proof.
  remember (sum_list_with op_size (code s)) as k eqn:Hk. revert s Hk.
  induction k as [k IH] using lt_wf_ind. intros s Hk Hq. destruct (code s) as [|o rest] eqn:Hc.
  { exists 0%nat, s. split_and!; [done|apply extends_refl|done]. }
  cbn in Hq. apply andb_prop in Hq as [Hqo Hqr].
  destruct (run_op_extends o (set_code rest s) Hqo) as (s1 & Hr & Hx & Hc1).
  assert (loop_step s = Ok s1) as Hs1 by (unfold loop_step; by rewrite Hc).
  destruct (IH (sum_list_with op_size (code s1))) with (s := s1) as (n & s2 & Hn & Hx2 & Hc2); [|done|..].
  - rewrite Hc1, Hk. destruct o; cbn [code set_code]; rewrite ?sum_list_with_app; cbn; lia.
  - rewrite Hc1. destruct o; cbn in *; rewrite ?forallb_app, ?Hqo, ?Hqr; done.
  - exists (1 + n)%nat, s2. rewrite (loop_steps_app _ _ _ _ (loop_steps_1 _ _ Hs1)). split_and!; [done| |done].
    exact (extends_trans s s1 s2 Hx Hx2).
Qed.


(** What the rest of an iteration does with the functors pending at its start. *)
Definition quiet_channels (todo : list (ptr * list op)) : Prop := Forall (fun x => forallb quiet (x.2) = true) todo.

Lemma handling_ends todo s :
  at_pc s = Handling todo -> quiet_channels todo -> forallb quiet (code s) = true ->
  exists n s', loop_steps n s = Ok s' /\ at_pc s' = Swapping /\ code s' = [] /\ ran s' = ran s /\
    exists fs, pendingFunctors_ s' = pendingFunctors_ s ++ fs /\ quiet_functors fs.
Proof.
  revert s. induction todo as [|[p body] todo IH]; intros s Hp Ht Hq;
    destruct (code_ends s Hq) as (n & s1 & Hn & (E1 & E2 & fs & E3 & E4) & Hc1); rewrite Hp in E1.
  - eexists (n + 1)%nat, _. rewrite (loop_steps_app _ _ _ _ Hn). split.
    { apply loop_steps_1. unfold loop_step. by rewrite Hc1, E1. }
    split_and!; try done. by exists fs.
  - apply Forall_cons_1 in Ht as [Hb Ht]. cbn [snd] in Hb.
    assert (exists s2, loop_step s1 = Ok s2 /\ at_pc s2 = Handling todo /\ forallb quiet (code s2) = true /\ ran s2 = ran s1 /\
      pendingFunctors_ s2 = pendingFunctors_ s1) as (s2 & Hs2 & Hp2 & Hq2 & Hr2 & Hf2).
    { unfold loop_step. rewrite Hc1, E1. cbn. case_bool_decide; eexists; (split; [done|]); split_and!; try done.
      cbn. by rewrite Hc1. }
    destruct (IH s2 Hp2 Ht Hq2) as (m & s3 & Hm & A & B & C & gs & D & E). exists (n + (1 + m))%nat, s3.
    rewrite (loop_steps_app _ _ _ _ Hn), (loop_steps_app _ _ _ _ (loop_steps_1 _ _ Hs2)). split_and!; try done; [congruence|].
    exists (fs ++ gs). rewrite D, Hf2, E3, app_assoc. split; [done|]. by apply Forall_app.
Qed.

Lemma running_ends fs s :
  at_pc s = Running fs -> quiet_functors fs -> forallb quiet (code s) = true ->
  exists n s', loop_steps n s = Ok s' /\ at_pc s' = AtTest /\ ran s' = ran s ++ ids fs.
Proof.
  revert s. induction fs as [|[i body] fs IH]; intros s Hp Hf Hq;
    destruct (code_ends s Hq) as (n & s1 & Hn & (E1 & E2 & _) & Hc1); rewrite Hp in E1.
  - eexists (n + 1)%nat, _. rewrite (loop_steps_app _ _ _ _ Hn). split.
    { apply loop_steps_1. unfold loop_step. by rewrite Hc1, E1. }
    split_and!; try done. cbn. by rewrite E2, app_nil_r.
  - apply Forall_cons_1 in Hf as [Hb Hf]. set (s2 := goto (Running fs) (set_code body (note_ran i s1))).
    assert (loop_step s1 = Ok s2) as Hs2 by (unfold loop_step; by rewrite Hc1, E1).
    destruct (IH s2) as (m & s3 & Hm & A & B); [done..|]. exists (n + (1 + m))%nat, s3.
    rewrite (loop_steps_app _ _ _ _ Hn), (loop_steps_app _ _ _ _ (loop_steps_1 _ _ Hs2)). split_and!; try done.
    rewrite B. cbn. by rewrite E2, <- app_assoc.
Qed.

(** After poll returns, the loop's thread comes back to the test of
    [quit_] by itself: all the channels are handled, and every functor that
    was pending, or was queued while they were handled, has run. *)
Theorem iteration_ends todo s :
  at_pc s = Handling todo -> quiet_channels todo -> quiet_functors (pendingFunctors_ s) -> forallb quiet (code s) = true ->
  exists n s' fs, loop_steps n s = Ok s' /\ at_pc s' = AtTest /\ ran s' = ran s ++ ids (pendingFunctors_ s) ++ fs.
Proof.
  intros Hp Ht Hf Hq. destruct (handling_ends todo s Hp Ht Hq) as (n & s1 & Hn & E1 & Hc1 & E2 & fs & E3 & E4).
  set (s2 := goto (Running (pendingFunctors_ s1)) (set_pending [] s1)).
  assert (loop_step s1 = Ok s2) as Hs2 by (unfold loop_step; by rewrite Hc1, E1).
  destruct (running_ends (pendingFunctors_ s1) s2) as (m & s3 & Hm & A & B); [done|..].
  - rewrite E3. by apply Forall_app.
  - cbn. by rewrite Hc1.
  - exists (n + (1 + m))%nat, s3, (ids fs). rewrite (loop_steps_app _ _ _ _ Hn), (loop_steps_app _ _ _ _ (loop_steps_1 _ _ Hs2)).
    split_and!; try done. rewrite B. cbn. unfold ids. by rewrite E2, E3, fmap_app.
Qed.

End Facts.

(** ** Concrete loops *)

Module LoopDemo.

Abbreviation loop := (EventLoop.t (P := PollPoller.t)).

Definition fresh_loop : outcome loop := new false 1%nat 5 ∅ PollPoller.new.

Fixpoint steps (ls : list label) (s : loop) : outcome loop :=
  match ls with
  | [] => Ok s
  | l :: ls' => if enabled l s then s ← step l s; steps ls' s else Fault OutOfFuel
  end.

Definition get (o : outcome loop) : loop :=
  match o with Ok s => s | Fault _ => mk false false false false 0 0 0 0%nat [] None [] ∅ PollPoller.new Outside [] 0 [] [] end.

(** The loop waits in poll; another thread has queued functor 7 and is about
    to write to the eventfd. *)
Definition waiting : loop := get (s ← fresh_loop; steps [Enter; LoopStep; OtherQueue 7 []] s).

Fixpoint early_after (ls : list label) (k : nat) (s : loop) : nat :=
  match ls with [] => k | l :: ls' => early_after ls' (early l k s) (get (step l s)) end.

Lemma steps_reachable ls k s s' : reachable k s -> steps ls s = Ok s' -> reachable (early_after ls k s) s'.
Proof.
  revert k s. induction ls as [|l ls IH]; intros k s Hr Hs; cbn in *; [by injection Hs as <-|].
  destruct (enabled l s) eqn:He; [|done]. apply bind_Ok in Hs as (s1 & Hs1 & Hs). rewrite Hs1. cbn [get].
  apply IH; [|done]. by apply (reachable_step k l s).
Qed.

Lemma waiting_reachable : reachable 0 waiting.
Proof.
  apply (steps_reachable [Enter; LoopStep; OtherQueue 7 []] 0 (get fresh_loop)); [|by vm_compute].
  apply (reachable_new 1%nat 5 ∅ PollPoller.new). by vm_compute.
Qed.

(** The same after the loop's own thread queued functor 3 before [loop] *)
Definition waiting_early : loop :=
  get (s ← fresh_loop; steps [UserCode [QueueInLoop 3 []]; LoopStep; Enter; LoopStep; OtherQueue 7 []] s).

Lemma waiting_early_reachable : reachable 1 waiting_early.
Proof.
  apply (steps_reachable [UserCode [QueueInLoop 3 []]; LoopStep; Enter; LoopStep; OtherQueue 7 []] 0 (get fresh_loop)); [|by vm_compute].
  apply (reachable_new 1%nat 5 ∅ PollPoller.new). by vm_compute.
Qed.

Lemma no_lost_wakeup_witness :
  (0 < wakeupFd_ waiting \/ (0 < waking waiting)%nat) /\ (0 < wakeupFd_ waiting_early \/ (0 < waking waiting_early)%nat).
Proof.
  split.
  - apply (no_lost_wakeup 0 waiting); [apply waiting_reachable|by vm_compute|]. left. vm_compute. lia.
  - apply (no_lost_wakeup 1 waiting_early); [apply waiting_early_reachable|by vm_compute|]. left. vm_compute. lia.
Defined.

Lemma functors_fifo_witness : queued waiting = [7%nat].
Proof. exact (functors_fifo 0 waiting waiting_reachable). Defined.

(** A queued functor is about to remove the channel that had an event. *)
Definition removing : loop :=
  get (steps [OtherWakeup; PollReturns 0 [(1%nat, []); (2%nat, [])] (heap waiting) (poller_ waiting); LoopStep; LoopStep;
              OtherQueue 8 [RemoveChannel 2]; LoopStep; LoopStep; LoopStep; LoopStep] waiting).

Lemma removeChannel_cases_witness :
  loop_step removing = r ← Poller.removeChannel 2 (heap removing) (poller_ removing); Ok (set_poller (r.1) (r.2) (set_code [] removing)).
Proof.
  apply (removeChannel_cases 0 removing 2 []); [|by vm_compute].
  apply (steps_reachable [OtherWakeup; PollReturns 0 [(1%nat, []); (2%nat, [])] (heap waiting) (poller_ waiting); LoopStep; LoopStep;
    OtherQueue 8 [RemoveChannel 2]; LoopStep; LoopStep; LoopStep; LoopStep] 0 waiting); [apply waiting_reachable|by vm_compute].
Defined.

(** Functor 7 is pending and the callback of channel 2 queues functor 9. *)
Definition polled : loop :=
  get (steps [OtherWakeup; PollReturns 0 [(1%nat, []); (2%nat, [QueueInLoop 9 [Quit]])] (heap waiting) (poller_ waiting)] waiting).

Lemma iteration_ends_witness :
  exists n s' fs, loop_steps n polled = Ok s' /\ at_pc s' = AtTest /\ ran s' = [7%nat] ++ fs.
Proof.
  apply (iteration_ends [(1%nat, []); (2%nat, [QueueInLoop 9 [Quit]])] polled); [by vm_compute| | |by vm_compute].
  - by repeat constructor.
  - by repeat constructor.
Defined.

(** A functor that the loop's own thread queues before it calls [loop]
    does not wake the loop up: the loop waits in poll with the functor pending
    and the eventfd not readable, and nobody is about to write to it. *)
Theorem queue_before_loop_waits cb body :
  exists s, (s ← fresh_loop; steps [UserCode [QueueInLoop cb body]; LoopStep; Enter; LoopStep] s) = Ok s /\
    at_pc s = InPoll /\ pendingFunctors_ s = [(cb, body)] /\ wakeupFd_ s = 0 /\ waking s = 0%nat.
Proof. eexists. split; [vm_compute; reflexivity|]. done. Qed.

End LoopDemo.
