(* ===== verification/Calendar.v ===== *)
(** * Dates

    [Module Date] models src/muduo/base/Date.h and Date.cc: the conversion
    between Julian day numbers and Gregorian dates in [int] arithmetic, and
    proves it against a definition of the calendar by month lengths and
    leap years. *)

From S2P Require Import Prelude Timestamp.

Local Open Scope Z_scope.

(** Linear arithmetic with divisions by constants. *)
Ltac dlia := Z.to_euclidean_division_equations; lia.

Module Date.

Record YearMonthDay := mkYMD { year : Z; month : Z; day : Z }.

Definition kDaysPerWeek : Z := 7.

Definition getJulianDayNumber (year month day : Z) : outcome Z :=
  t ← ck32 (14 - month);
  let a := Z.quot t 12 in
  t ← ck32 (year + 4800);
  y ← ck32 (t - a);
  t ← ck32 (12 * a);
  t ← ck32 (month + t);
  m ← ck32 (t - 3);
  t ← ck32 (153 * m);
  t ← ck32 (t + 2);
  s ← ck32 (day + Z.quot t 5);
  t ← ck32 (y * 365);
  s ← ck32 (s + t);
  s ← ck32 (s + Z.quot y 4);
  s ← ck32 (s - Z.quot y 100);
  s ← ck32 (s + Z.quot y 400);
  ck32 (s - 32045).

Definition getYearMonthDay (julianDayNumber : Z) : outcome YearMonthDay :=
  a ← ck32 (julianDayNumber + 32044);
  t ← ck32 (4 * a);
  t ← ck32 (t + 3);
  let b := Z.quot t 146097 in
  t ← ck32 (b * 146097);
  c ← ck32 (a - Z.quot t 4);
  t ← ck32 (4 * c);
  t ← ck32 (t + 3);
  let d := Z.quot t 1461 in
  t ← ck32 (1461 * d);
  e ← ck32 (c - Z.quot t 4);
  t ← ck32 (5 * e);
  t ← ck32 (t + 2);
  let m := Z.quot t 153 in
  t ← ck32 (153 * m);
  t ← ck32 (t + 2);
  t ← ck32 (e - Z.quot t 5);
  day ← ck32 (t + 1);
  t ← ck32 (m + 3);
  t' ← ck32 (12 * Z.quot m 10);
  month ← ck32 (t - t');
  t ← ck32 (b * 100);
  t ← ck32 (t + d);
  t ← ck32 (t - 4800);
  year ← ck32 (t + Z.quot m 10);
  Ok (mkYMD year month day).

(** [Date] holds its Julian day number; 0 is the invalid date. *)
Definition t : Type := Z.

Definition valid (d : t) : bool := 0 <? d.
Definition of_ymd : Z -> Z -> Z -> outcome t := getJulianDayNumber.

(** [Date(const struct tm&)] *)
Definition of_tm (tm_year tm_mon tm_mday : Z) : outcome t :=
  y ← ck32 (tm_year + 1900); m ← ck32 (tm_mon + 1); getJulianDayNumber y m tm_mday.

Definition yearMonthDay (d : t) : outcome YearMonthDay := getYearMonthDay d.

Definition weekDay (d : t) : outcome Z := t ← ck32 (d + 1); Ok (Z.rem t kDaysPerWeek).

(** printf's [%wd] *)
Definition pad (w : nat) (s : bytes) : bytes := replicate (w - length s) Init.Byte.x20 ++ s.

Definition toIsoString (d : t) : outcome bytes :=
  ymd ← yearMonthDay d;
  Ok (Timestamp.snprintf 32 (pad 4 (dec (year ymd)) ++ bs "-" ++ Timestamp.dec0 2 (month ymd) ++ bs "-" ++ Timestamp.dec0 2 (day ymd))).

Definition kJulianDayOf1970_01_01 : Z := 2440588.

Lemma kJulianDayOf1970_01_01_ok : getJulianDayNumber 1970 1 1 = Ok kJulianDayOf1970_01_01.
Proof. reflexivity. Qed.

(** ** The Gregorian calendar *)

Definition leap (y : Z) : bool := (y mod 4 =? 0) && (negb (y mod 100 =? 0) || (y mod 400 =? 0)).

Definition month_length (y m : Z) : Z :=
  if m =? 2 then (if leap y then 29 else 28)
  else if (m =? 4) || (m =? 6) || (m =? 9) || (m =? 11) then 30 else 31.

(** Years for which every intermediate result of the code is an [int]. *)
Definition first_year : Z := -4799.
Definition last_year : Z := 1400000.

Definition is_date (x : YearMonthDay) : Prop :=
  first_year <= year x <= last_year /\ 1 <= month x <= 12 /\ 1 <= day x <= month_length (year x) (month x).

Definition next_day (x : YearMonthDay) : YearMonthDay :=
  if day x <? month_length (year x) (month x) then mkYMD (year x) (month x) (day x + 1)
  else if month x <? 12 then mkYMD (year x) (month x + 1) 1
  else mkYMD (year x + 1) 1 1.

(** ** The code in mathematical integers *)

(** Years counted from March: the year and month that the code computes with. *)
Definition march_year (x : YearMonthDay) : Z := year x + 4800 - (if month x <=? 2 then 1 else 0).
Definition march_month (x : YearMonthDay) : Z := if month x <=? 2 then month x + 9 else month x - 3.

(** Days before the century [b], the year [d] of a century and the month [m]. *)
Definition century_days (b : Z) : Z := 146097 * b / 4.
Definition year_days (d : Z) : Z := 1461 * d / 4.
Definition month_days (m : Z) : Z := (153 * m + 2) / 5.

Definition julian (x : YearMonthDay) : Z :=
  let Y := march_year x in
  century_days (Y / 100) + year_days (Y mod 100) + month_days (march_month x) + day x - 1 - 32044.

(** Replaces truncating by flooring division where the dividend is not negative. *)
Ltac quot_div :=
  repeat match goal with
  | |- context [Z.quot ?a ?b] => rewrite (Z.quot_div_nonneg a b) by lia
  end.

(** Runs the checked operations whose results are in range. *)
Ltac run_ck32 :=
  repeat (rewrite ck32_Ok by (unfold INT_MIN, INT_MAX; dlia); cbn [mbind outcome_bind]).

Lemma years_days Y :
  Y * 365 + Y / 4 - Y / 100 + Y / 400 = century_days (Y / 100) + year_days (Y mod 100).
Proof.
  unfold century_days, year_days. pose proof (Z.div_mod Y 100 ltac:(lia)) as E. pose proof (Z.mod_pos_bound Y 100 ltac:(lia)).
  replace (Y / 400) with (Y / 100 / 4) by (by rewrite Z.div_div).
  set (b := Y / 100) in *. set (d := Y mod 100) in *. rewrite E. clearbody b d. clear E.
  replace ((100 * b + d) / 4) with (25 * b + d / 4) by dlia. dlia.
Qed.

Lemma march_months x :
  1 <= month x <= 12 -> 0 <= march_month x <= 11 /\ (14 - month x) / 12 = (if month x <=? 2 then 1 else 0) /\
  march_month x = month x + 12 * (if month x <=? 2 then 1 else 0) - 3.
Proof. intros Hm. unfold march_month. destruct (Z.leb_spec (month x) 2); split_and!; dlia. Qed.

Lemma month_length_bounds y m : 28 <= month_length y m <= 31.
Proof. unfold month_length. repeat case_match; lia. Qed.

Lemma getJulianDayNumber_julian x :
  is_date x -> getJulianDayNumber (year x) (month x) (day x) = Ok (julian x).
Proof.
  intros (Hy & Hm & Hd). unfold first_year, last_year in Hy. pose proof (month_length_bounds (year x) (month x)).
  destruct (march_months x Hm) as (HM & Ha & HMe). unfold getJulianDayNumber.
  rewrite (ck32_Ok (14 - month x)) by (unfold INT_MIN, INT_MAX; lia). cbn [mbind outcome_bind].
  rewrite (Z.quot_div_nonneg (14 - month x)), Ha by lia. set (s := if month x <=? 2 then 1 else 0) in *.
  assert (0 <= s <= 1) as Hs by (unfold s; destruct (_ <=? _); lia).
  assert (march_year x = year x + 4800 - s) as HY by done. run_ck32. quot_div. run_ck32. f_equal.
  pose proof (years_days (march_year x)) as HD. unfold julian. rewrite HY in *. rewrite HMe. unfold month_days. lia.
Qed.

Definition gregorian (j : Z) : YearMonthDay :=
  let a := j + 32044 in
  let b := (4 * a + 3) / 146097 in
  let c := a - century_days b in
  let d := (4 * c + 3) / 1461 in
  let e := c - year_days d in
  let m := (5 * e + 2) / 153 in
  mkYMD (100 * b + d - 4800 + m / 10) (m + 3 - 12 * (m / 10)) (e - month_days m + 1).

(** The first day of [first_year], and the last day number for which every
    intermediate result is an [int]. *)
Definition first_day : Z := -31738.
Definition last_day : Z := 536838867.

Lemma century_bounds a b : 0 <= a -> b = (4 * a + 3) / 146097 ->
  0 <= b /\ 0 <= a - century_days b <= 36524 /\ (a - century_days b = 36524 -> b mod 4 = 3).
Proof. intros Ha ->. unfold century_days. dlia. Qed.

Lemma year_bounds c d : 0 <= c <= 36524 -> d = (4 * c + 3) / 1461 ->
  0 <= d <= 99 /\ 0 <= c - year_days d <= 365 /\ (c - year_days d = 365 -> d mod 4 = 3 /\ (d = 99 -> c = 36524)).
Proof. intros Hc ->. unfold year_days. dlia. Qed.

Lemma month_bounds e m : 0 <= e <= 365 -> m = (5 * e + 2) / 153 ->
  0 <= m <= 11 /\ 0 <= e - month_days m /\ e < month_days (m + 1).
Proof. intros He ->. unfold month_days. dlia. Qed.

Lemma getYearMonthDay_gregorian j :
  0 <= j + 32044 -> j <= last_day -> getYearMonthDay j = Ok (gregorian j).
Proof.
  unfold last_day. intros Hlo Hhi. unfold getYearMonthDay, gregorian. run_ck32. quot_div. set (a := j + 32044) in *.
  destruct (century_bounds a _ ltac:(lia) eq_refl) as (Hb & Hc & _). set (b := (4 * a + 3) / 146097) in *.
  assert (b * 146097 <= 4 * a + 3) by (unfold b; dlia). clearbody b. unfold century_days in *.
  run_ck32. quot_div. rewrite (Z.mul_comm b 146097). run_ck32. quot_div. set (c := a - 146097 * b / 4) in *.
  destruct (year_bounds c _ Hc eq_refl) as (Hd & He & _). set (d := (4 * c + 3) / 1461) in *. clearbody c d. unfold year_days in *.
  run_ck32. quot_div. run_ck32. quot_div. set (e := c - 1461 * d / 4) in *.
  destruct (month_bounds e _ He eq_refl) as (Hm & Hday & _). set (m := (5 * e + 2) / 153) in *. clearbody e m. unfold month_days in *.
  run_ck32. quot_div. run_ck32. quot_div. run_ck32. do 2 f_equal; lia.
Qed.

(** *** The splits undo the sums *)

Lemma century_split b c : 0 <= b -> 0 <= c <= 36524 -> (c = 36524 -> b mod 4 = 3) -> (4 * (century_days b + c) + 3) / 146097 = b.
Proof. unfold century_days. dlia. Qed.

Lemma year_split d e : 0 <= d -> 0 <= e <= 365 -> (e = 365 -> d mod 4 = 3) -> (4 * (year_days d + e) + 3) / 1461 = d.
Proof. unfold year_days. dlia. Qed.

Lemma month_split m k : 0 <= m <= 11 -> 0 <= k -> month_days m + k < month_days (m + 1) -> (5 * (month_days m + k) + 2) / 153 = m.
Proof. unfold month_days. dlia. Qed.

(** The length of a month is the distance to the next one, but for the end of
    the year counted from March. *)
Lemma month_length_march x :
  1 <= month x <= 12 -> month_length (year x) (month x) <= month_days (march_month x + 1) - month_days (march_month x) /\
  (month x <> 2 -> month_length (year x) (month x) = month_days (march_month x + 1) - month_days (march_month x)).
Proof.
  intros Hm. unfold month_length, march_month, month_days.
  assert (month x ∈ [1;2;3;4;5;6;7;8;9;10;11;12]) as Hin by (rewrite !elem_of_cons; lia). rewrite !elem_of_cons in Hin.
  destruct_or! Hin; try rewrite Hin; try (by apply elem_of_nil in Hin); cbn; repeat case_match; dlia.
Qed.

(** The last day of the year counted from March. *)
Lemma leap_march x b d :
  month x = 2 -> march_year x = 100 * b + d -> 0 <= d <= 99 -> leap (year x) = (d mod 4 =? 3) && (negb (d =? 99) || (b mod 4 =? 3)).
Proof.
  intros Hm Hy Hd. unfold march_year in Hy. rewrite Hm in Hy. cbn in Hy. unfold leap.
  replace (year x) with (100 * b + d - 4799) by lia.
  destruct (Z.eqb_spec (d mod 4) 3), (Z.eqb_spec d 99), (Z.eqb_spec (b mod 4) 3),
    (Z.eqb_spec ((100 * b + d - 4799) mod 4) 0), (Z.eqb_spec ((100 * b + d - 4799) mod 100) 0),
    (Z.eqb_spec ((100 * b + d - 4799) mod 400) 0); try done; exfalso; dlia.
Qed.


(** The day of the year counted from March. *)
Lemma day_of_year x :
  is_date x ->
  let b := march_year x / 100 in let d := march_year x mod 100 in
  let e := month_days (march_month x) + (day x - 1) in
  0 <= b /\ 0 <= d <= 99 /\ march_year x = 100 * b + d /\ 0 <= march_month x <= 11 /\
  0 <= e <= 365 /\ (e = 365 -> d mod 4 = 3 /\ (d = 99 -> b mod 4 = 3)) /\ e < month_days (march_month x + 1).
Proof.
  intros (Hy & Hm & Hd) b d e. destruct (march_months x Hm) as (HM & _ & _). destruct (month_length_march x Hm) as [Hl _].
  assert (0 <= march_year x) as HY by (unfold march_year, first_year in *; destruct (_ <=? _); lia).
  assert (march_year x = 100 * b + d /\ 0 <= d <= 99 /\ 0 <= b) as (HE & Hd99 & Hb) by (unfold b, d; dlia).
  assert (0 <= e < month_days (march_month x + 1)) as [He0 He1].
  { unfold e. assert (0 <= month_days (march_month x)) by (unfold month_days; dlia). lia. }
  assert (march_month x = 11 -> month x = 2 /\ day x <= 29) as Hfeb29.
  { unfold march_month. intros E. assert (month x = 2) as Em by (destruct (Z.leb_spec (month x) 2); lia).
    split; [done|]. unfold month_length in Hd. rewrite Em in Hd. cbn in Hd. destruct (leap _); lia. }
  split_and!; try done; try lia.
  - destruct (Z.eq_dec (march_month x) 11) as [E|E].
    + destruct (Hfeb29 E). unfold e. rewrite E. change (month_days 11) with 337. lia.
    + clear - He1 HM E. unfold month_days in He1. dlia.
  - intros He. assert (march_month x = 11) as H11 by (unfold e, month_days in *; dlia).
    destruct (Hfeb29 H11) as [Hfeb _].
    pose proof (leap_march x b d Hfeb HE Hd99) as Hleap. unfold month_length in Hd. rewrite Hfeb in Hd. cbn in Hd.
    assert (day x = 29) as H29 by (unfold e in He; rewrite H11 in He; change (month_days 11) with 337 in He; lia).
    destruct (leap (year x)); [|lia]. symmetry in Hleap. apply andb_prop in Hleap as [H3 H99].
    apply Z.eqb_eq in H3. split; [done|]. intros Hd'. rewrite Hd' in H99. cbn in H99. by apply Z.eqb_eq.
Qed.

Lemma gregorian_julian x : is_date x -> gregorian (julian x) = x.
Proof.
  intros Hx. pose proof (day_of_year x Hx) as (Hb & Hd & HY & HM & He & Hlast & Hlen). pose proof Hx as (_ & Hm & Hday).
  unfold gregorian, julian. set (b := march_year x / 100) in *. set (d := march_year x mod 100) in *.
  set (M := march_month x) in *. set (e := month_days M + (day x - 1)) in *.
  assert (year_days d + e <= 36524 /\ (year_days d + e = 36524 -> b mod 4 = 3)) as [Hc Hc'].
  { clearbody b d e. unfold year_days. split; dlia. }
  assert (0 <= year_days d) by (clearbody d; unfold year_days; dlia).
  replace (century_days b + year_days d + month_days M + day x - 1 - 32044 + 32044) with (century_days b + (year_days d + e)) by lia.
  rewrite (century_split b (year_days d + e)) by lia.
  replace (century_days b + (year_days d + e) - century_days b) with (year_days d + e) by lia.
  rewrite (year_split d e) by lia. replace (year_days d + e - year_days d) with e by lia.
  assert ((5 * e + 2) / 153 = M) as -> by (apply month_split; lia).
  replace (e - month_days M + 1) with (day x) by lia. clearbody b d. clear - HY Hm.
  unfold march_year in HY. unfold M, march_month. destruct x as [y m k]. cbn [year month day] in *.
  destruct (Z.leb_spec m 2); f_equal; dlia.
Qed.

(** Everything the code computes from a day number is a date, and it is the
    date of that number. *)
Lemma julian_gregorian j : first_day <= j -> j <= 500000000 -> is_date (gregorian j) /\ julian (gregorian j) = j.
Proof.
  unfold first_day. intros Hlo Hhi. unfold gregorian. set (a := j + 32044).
  destruct (century_bounds a _ ltac:(lia) eq_refl) as (Hb & Hc & Hc4). set (b := (4 * a + 3) / 146097) in *.
  assert (b * 146097 <= 4 * a + 3) by (unfold b; dlia). clearbody b. set (c := a - century_days b) in *.
  destruct (year_bounds c _ Hc eq_refl) as (Hd & He & He4). set (d := (4 * c + 3) / 1461) in *. clearbody d.
  set (e := c - year_days d) in *. destruct (month_bounds e _ He eq_refl) as (Hm & Hday & Hlen).
  assert (a = century_days b + year_days d + e) as Ha by lia. clearbody e c. set (m := (5 * e + 2) / 153) in *.
  assert (b = 0 -> d = 0 -> 10 <= m) as Hm10 by (intros -> ->; unfold m; change (century_days 0) with 0 in *; change (year_days 0) with 0 in *; dlia).
  clearbody m.
  set (x := mkYMD _ _ _). assert (march_month x = m /\ 1 <= month x <= 12 /\ march_year x = 100 * b + d) as (Em & Hmx & EY).
  { unfold march_month, march_year, x. cbn [month year].
    destruct (Z.leb_spec (m + 3 - 12 * (m / 10)) 2); split_and!; dlia. }
  split.
  - split; [unfold first_year, last_year, x; cbn [year]; clear - Hd Hb Hm Hm10 H Hhi; subst a; dlia|]. split; [done|]. split; [unfold x; cbn [day]; lia|].
    destruct (month_length_march x Hmx) as [_ Hml]. destruct (Z.eq_dec (month x) 2) as [Hfeb|Hn].
    + assert (m = 11) as -> by (unfold x in Hfeb; cbn [month] in Hfeb; dlia).
      unfold month_length. rewrite Hfeb, (leap_march x b d Hfeb EY Hd). cbn [Z.eqb Pos.eqb].
      assert (day x = e - 336) as Hdx by (unfold x; cbn [day]; change (month_days 11) with 337; lia). destruct (Z.eqb_spec (d mod 4) 3), (Z.eqb_spec d 99), (Z.eqb_spec (b mod 4) 3); cbn [andb orb negb]; lia.
    + rewrite Hml, Em by done. unfold x. cbn [day]. lia.
  - unfold julian. rewrite EY, Em. replace ((100 * b + d) / 100) with b by dlia. replace ((100 * b + d) mod 100) with d by dlia.
    unfold x. cbn [day]. lia.
Qed.


(** One more year counted from March has 365 days, or 366 if its last day is
    a 29th of February. *)
Lemma year_step x :
  month x = 2 -> 0 <= march_year x ->
  century_days ((march_year x + 1) / 100) + year_days ((march_year x + 1) mod 100) =
  century_days (march_year x / 100) + year_days (march_year x mod 100) + 337 + month_length (year x) 2.
Proof.
  intros Hm HY. pose proof (years_days (march_year x)) as E1. pose proof (years_days (march_year x + 1)) as E2.
  unfold month_length. cbn [Z.eqb Pos.eqb].
  set (b := march_year x / 100) in *. set (d := march_year x mod 100) in *.
  assert (march_year x = 100 * b + d /\ 0 <= d <= 99) as [HE Hd] by (unfold b, d; dlia).
  rewrite (leap_march x b d Hm HE Hd). rewrite <- E1, <- E2. rewrite HE. clearbody b d. clear - Hd.
  destruct (Z.eqb_spec (d mod 4) 3), (Z.eqb_spec d 99), (Z.eqb_spec (b mod 4) 3); cbn [andb orb negb]; dlia.
Qed.

Lemma julian_next_day x : is_date x -> julian (next_day x) = julian x + 1.
Proof.
  intros (Hy & Hm & Hd). unfold next_day. destruct (Z.ltb_spec (day x) (month_length (year x) (month x))) as [|Hlast].
  { unfold julian. cbn. change (march_month (mkYMD (year x) (month x) (day x + 1))) with (march_month x).
    change (march_year (mkYMD (year x) (month x) (day x + 1))) with (march_year x). lia. }
  destruct (month_length_march x Hm) as [_ Hml]. destruct (Z.eq_dec (month x) 2) as [Hfeb|Hnf].
  - rewrite Hfeb in *. cbn [Z.ltb Z.compare Pos.compare Pos.compare_cont]. pose proof (year_step x Hfeb) as Hs.
    assert (march_year x = year x + 4799 /\ march_month x = 11) as [EY EM].
    { unfold march_year, march_month. rewrite Hfeb. change (2 <=? 2) with true. cbv iota. lia. }
    unfold julian. rewrite EM. change (march_month (mkYMD (year x) (2 + 1) 1)) with 0.
    assert (march_year (mkYMD (year x) (2 + 1) 1) = march_year x + 1) as ->.
    { rewrite EY. unfold march_year. cbn [month year]. change (2 + 1 <=? 2) with false. cbv iota. lia. }
    rewrite Hs by (unfold first_year in Hy; lia). change (month_days 0) with 0. change (month_days 11) with 337. cbn [day]. lia.
  - specialize (Hml Hnf). unfold julian. destruct (Z.ltb_spec (month x) 12) as [H12|H12].
    + assert (march_month (mkYMD (year x) (month x + 1) 1) = march_month x + 1 /\
        march_year (mkYMD (year x) (month x + 1) 1) = march_year x) as [-> ->].
      { unfold march_month, march_year. cbn [month year]. destruct (Z.leb_spec (month x) 2), (Z.leb_spec (month x + 1) 2); lia. }
      cbn [day]. lia.
    + assert (month x = 12) as E by lia.
      assert (march_month (mkYMD (year x + 1) 1 1) = march_month x + 1 /\
        march_year (mkYMD (year x + 1) 1 1) = march_year x) as [-> ->].
      { unfold march_month, march_year. rewrite E. cbn [month year]. change (1 <=? 2) with true. change (12 <=? 2) with false. cbv iota. lia. }
      cbn [day]. lia.
Qed.

(** The two conversions of Date.cc are inverse to each other and agree
    with the Gregorian calendar: a date has the number one below that of the
    next day, and 1970-01-01 has number 2440588; no [int] overflows for the
    years -4799 to 1400000. *)
Theorem date_round_trip x :
  is_date x ->
  exists j, getJulianDayNumber (year x) (month x) (day x) = Ok j /\ getYearMonthDay j = Ok x /\
    (is_date (next_day x) ->
     getJulianDayNumber (year (next_day x)) (month (next_day x)) (day (next_day x)) = Ok (j + 1)) /\
    getJulianDayNumber 1970 1 1 = Ok kJulianDayOf1970_01_01.
Proof.
  intros Hx. exists (julian x). split_and!.
  - by apply getJulianDayNumber_julian.
  - rewrite getYearMonthDay_gregorian; [by rewrite gregorian_julian|..];
      pose proof (day_of_year x Hx) as (Hb & Hd & HY & HM & He & _ & _); destruct Hx as (Hy & _ & _); unfold last_year in Hy;
      unfold julian, last_day in *; set (b := march_year x / 100) in *; set (d := march_year x mod 100) in *;
      assert (march_year x <= 1404800) by (unfold march_year; destruct (_ <=? _); lia);
      clearbody b d; unfold century_days, year_days; dlia.
  - intros Hn. rewrite <- julian_next_day by done. by apply getJulianDayNumber_julian.
  - reflexivity.
Qed.

Lemma date_round_trip_witness :
  exists j, getJulianDayNumber 2000 2 29 = Ok j /\ getYearMonthDay j = Ok (mkYMD 2000 2 29).
Proof.
  destruct (date_round_trip (mkYMD 2000 2 29)) as (j & H1 & H2 & _); [|by exists j].
  split; [split; vm_compute; congruence|]. split; split; vm_compute; congruence.
Defined.

(** Day numbers a week apart fall on the same day of the week; 1970-01-01 was
    a Thursday. *)
Lemma weekDay_week d : 0 <= d <= last_day ->
  exists k, weekDay d = Ok k /\ weekDay (d + 7) = Ok k /\ 0 <= k < 7 /\ k = (d - kJulianDayOf1970_01_01 + 4) mod 7.
Proof.
  unfold last_day. intros Hd. exists ((d + 1) mod 7). unfold weekDay, kDaysPerWeek. run_ck32.
  rewrite !Z.rem_mod_nonneg by lia. unfold kJulianDayOf1970_01_01. split_and!; try (f_equal; dlia); dlia.
Qed.

End Date.
