(* ===== verification/TimeZone.v ===== *)
(** * Time zones

    [Module TimeZone] models src/muduo/base/TimeZone.h and TimeZone.cc: civil
    time, the lookup of the offset that is in force at an instant or at a local
    time, and the reader of TZif files.  A file is its contents and the
    position of the stream. *)

From S2P Require Import Prelude NetBuffer Timestamp Calendar.

Local Open Scope Z_scope.

Module TimeZone.

Record DateTime := mkDateTime {
  year : Z; month : Z; day : Z; hour : Z; minute : Z; second : Z;
}.

Record Transition := mkTransition { utctime : Z; localtime : Z; localtimeIdx : Z }.

Record LocalTime := mkLocalTime { utcOffset : Z; isDst : bool; desigIdx : Z }.

Record Data := mkData {
  transitions : list Transition;
  localtimes : list LocalTime;
  abbreviation : bytes;
  tzstring : bytes;
}.

Definition empty_data : Data := mkData [] [] [] [].

Definition addLocalTime (utcOffset : Z) (isDst : bool) (desigIdx : Z) (d : Data) : Data :=
  mkData (transitions d) (localtimes d ++ [mkLocalTime utcOffset isDst desigIdx]) (abbreviation d) (tzstring d).

(** [localtimes.at(i)] and [localtimes[i]] *)
Definition at_ (l : list LocalTime) (i : Z) : outcome LocalTime :=
  if (0 <=? i) && (i <? zlen l) then
    match l !! Z.to_nat i with Some x => Ok x | None => Fault OutOfRange end
  else Fault OutOfRange.
Definition index (l : list LocalTime) (i : Z) : outcome LocalTime :=
  if 0 <=? i then match l !! Z.to_nat i with Some x => Ok x | None => Fault OutOfBounds end
  else Fault OutOfBounds.

Definition addTransition (utcTime localtimeIdx : Z) (d : Data) : outcome Data :=
  lt ← at_ (localtimes d) localtimeIdx;
  l ← ck64 (utcTime + utcOffset lt);
  Ok (mkData (transitions d ++ [mkTransition utcTime l localtimeIdx]) (localtimes d) (abbreviation d) (tzstring d)).

Definition set_abbreviation (a : bytes) (d : Data) : Data := mkData (transitions d) (localtimes d) a (tzstring d).
Definition set_tzstring (s : bytes) (d : Data) : Data := mkData (transitions d) (localtimes d) (abbreviation d) s.

Definition kSecondsPerDay : Z := 24 * 60 * 60.

(** ** Civil time *)

Definition fillHMS (seconds : Z) : Z * Z * Z :=
  let second := seconds mod 60 in
  let minutes := seconds / 60 in
  (minutes / 60, minutes mod 60, second).

Definition BreakTime (t : Z) : outcome DateTime :=
  let seconds := i32 (Z.rem t kSecondsPerDay) in
  let days := i32 (Z.quot t kSecondsPerDay) in
  '(seconds, days) ← (if seconds <? 0
                      then s ← ck32 (seconds + kSecondsPerDay); d ← ck32 (days - 1); Ok (s, d)
                      else Ok (seconds, days));
  let '(h, m, s) := fillHMS (u32 seconds) in
  date ← ck32 (days + Date.kJulianDayOf1970_01_01);
  ymd ← Date.yearMonthDay date;
  Ok (mkDateTime (Date.year ymd) (Date.month ymd) (Date.day ymd) h m s).

Definition toUtcTime (secondsSinceEpoch : Z) : outcome DateTime := BreakTime secondsSinceEpoch.

Definition fromUtcTime (dt : DateTime) : outcome Z :=
  date ← Date.of_ymd (year dt) (month dt) (day dt);
  h ← ck32 (hour dt * 3600);
  m ← ck32 (minute dt * 60);
  s ← ck32 (h + m);
  secondsInDay ← ck32 (s + second dt);
  days ← ck32 (date - Date.kJulianDayOf1970_01_01);
  t ← ck64 (days * kSecondsPerDay);
  ck64 (t + secondsInDay).

(** [DateTime(const struct tm&)] *)
Definition of_tm (tm_year tm_mon tm_mday tm_hour tm_min tm_sec : Z) : outcome DateTime :=
  y ← ck32 (tm_year + 1900); m ← ck32 (tm_mon + 1);
  Ok (mkDateTime y m tm_mday tm_hour tm_min tm_sec).

Definition toIsoString (dt : DateTime) : bytes :=
  Timestamp.snprintf 64 (Timestamp.dec0 4 (year dt) ++ bs "-" ++ Timestamp.dec0 2 (month dt) ++ bs "-" ++ Timestamp.dec0 2 (day dt)
    ++ bs " " ++ Timestamp.dec0 2 (hour dt) ++ bs ":" ++ Timestamp.dec0 2 (minute dt) ++ bs ":" ++ Timestamp.dec0 2 (second dt)).

(** ** Looking up the offset *)

(** [std::upper_bound]: the position of the first element that is greater. *)
Fixpoint upper_bound {A} (greater : A -> bool) (l : list A) : nat :=
  match l with
  | [] => 0%nat
  | x :: l' => if greater x then 0%nat else S (upper_bound greater l')
  end.

(** [*(transitions.begin() + i)] *)
Definition deref (d : Data) (i : nat) : outcome Transition :=
  match transitions d !! i with Some x => Ok x | None => Fault OutOfBounds end.

(** [&localtimes.front()] *)
Definition front (d : Data) : outcome LocalTime := index (localtimes d) 0.

Definition findLocalTime (utcTime : Z) (d : Data) : outcome LocalTime :=
  match transitions d with
  | [] => front d
  | first :: _ =>
      if utcTime <? utctime first then front d
      else
        let transI := upper_bound (fun t => utcTime <? utctime t) (transitions d) in
        _ ← assert (negb (transI =? 0)%nat);
        t ← deref d (if (transI =? length (transitions d))%nat then pred (length (transitions d)) else pred transI);
        index (localtimes d) (localtimeIdx t)
  end.

(** The last local second before a transition. *)
Definition prior_second (d : Data) (transI : nat) : outcome (Transition * Z) :=
  prior_trans ← deref d (pred transI);
  t ← deref d transI;
  lt ← index (localtimes d) (localtimeIdx prior_trans);
  u ← ck64 (utctime t - 1);
  s ← ck64 (u + utcOffset lt);
  Ok (prior_trans, s).

Definition findLocalTimeLocal (lt : DateTime) (postTransition : bool) (d : Data) : outcome LocalTime :=
  local ← fromUtcTime lt;
  match transitions d with
  | [] => front d
  | first :: _ =>
      if local <? localtime first then front d
      else
        let transI := upper_bound (fun t => local <? localtime t) (transitions d) in
        _ ← assert (negb (transI =? 0)%nat);
        if (transI =? length (transitions d))%nat then
          t ← deref d (pred (length (transitions d)));
          index (localtimes d) (localtimeIdx t)
        else
          '(prior_trans, prior) ← prior_second d transI;
          if prior <? local then        (* it's a skip *)
            t ← deref d transI;
            index (localtimes d) (localtimeIdx (if postTransition then t else prior_trans))
          else
            let transI := pred transI in
            '(prior_trans, prior) ← (if negb (transI =? 0)%nat then prior_second d transI else Ok (prior_trans, prior));
            t ← deref d transI;
            if local <=? prior          (* it's repeat *)
            then index (localtimes d) (localtimeIdx (if postTransition then t else prior_trans))
            else index (localtimes d) (localtimeIdx t)
  end.

(** A [TimeZone] is its data, if it is valid. *)
Definition t : Type := option Data.

Definition valid (tz : t) : bool := match tz with Some _ => true | None => false end.

(** [TimeZone(int eastOfUtc, const char* name)] *)
Definition fixed (eastOfUtc : Z) (name : bytes) : t :=
  Some (set_abbreviation name (addLocalTime eastOfUtc false 0 empty_data)).

Definition UTC : t := fixed 0 (bs "UTC").

Definition toLocalTime (seconds : Z) (tz : t) : outcome (DateTime * Z) :=
  match tz with
  | None => Fault AssertFailed
  | Some d =>
      local ← findLocalTime seconds d;
      s ← ck64 (seconds + utcOffset local);
      dt ← BreakTime s;
      Ok (dt, utcOffset local)
  end.

Definition fromLocalTime (lt : DateTime) (postTransition : bool) (tz : t) : outcome Z :=
  match tz with
  | None => Fault AssertFailed
  | Some d =>
      local ← findLocalTimeLocal lt postTransition d;
      localSeconds ← fromUtcTime lt;
      ck64 (localSeconds - utcOffset local)
  end.

(** ** Zone files *)

Record File := mkFile { contents : bytes; pos : Z }.

(** [fread(buf, 1, n, fp_)]: the bytes read. *)
Definition fread (n : Z) (f : File) : bytes * File :=
  let b := take (Z.to_nat n) (drop (Z.to_nat (pos f)) (contents f)) in
  (b, mkFile (contents f) (pos f + zlen b)).

(** [char buf[n]] of a negative length is undefined. *)
Definition readBytes (n : Z) (f : File) : outcome (bytes * File) :=
  if n <? 0 then Fault OutOfBounds
  else
    let '(b, f) := fread n f in
    if zlen b =? n then Ok (b, f) else Fault LogicError.

Definition readToEnd (f : File) : bytes * File := fread (zlen (contents f)) f.

Section Endian.
Context {host : Host}.

(** [n] bytes as a big-endian signed integer *)
Definition readInt (n : nat) (f : File) : outcome (Z * File) :=
  let '(b, f) := fread (Z.of_nat n) f in
  if zlen b =? Z.of_nat n
  then Ok (wrap_s (8 * Z.of_nat n) (sockets.htobe n (sockets.mem_int b)), f) else Fault LogicError.

Definition readInt64 (f : File) : outcome (Z * File) := readInt 8 f.
Definition readInt32 (f : File) : outcome (Z * File) := readInt 4 f.

Definition readUInt8 (f : File) : outcome (Z * File) :=
  let '(b, f) := fread 1 f in
  match b with [x] => Ok (byte.unsigned x, f) | _ => Fault LogicError end.

(** fseek(3) from the current position: before the beginning it fails. *)
Definition skip (n : Z) (f : File) : File :=
  if pos f + n <? 0 then f else mkFile (contents f) (pos f + n).

(** [for (int i = 0; i < n; ++i) v.push_back(read())] *)
Fixpoint read_n {A} (read : File -> outcome (A * File)) (n : nat) (f : File) : outcome (list A * File) :=
  match n with
  | O => Ok ([], f)
  | S n' => '(x, f) ← read f; '(xs, f) ← read_n read n' f; Ok (x :: xs, f)
  end.

(** [v.reserve(n)] throws for a negative [n]. *)
Definition reserve (n : Z) : outcome unit := if n <? 0 then Fault LengthError else Ok tt.

Definition readLocalTime (f : File) : outcome (LocalTime * File) :=
  '(gmtoff, f) ← readInt32 f;
  '(isdst, f) ← readUInt8 f;
  '(abbrind, f) ← readUInt8 f;
  Ok (mkLocalTime gmtoff (negb (isdst =? 0)) abbrind, f).

Fixpoint addTransitions (trans idx : list Z) (d : Data) : outcome Data :=
  match trans, idx with
  | t :: trans', i :: idx' => d ← addTransition t i d; addTransitions trans' idx' d
  | _, _ => Ok d
  end.

(** The result is [None] where the code returns false. *)
Definition readDataBlock (v1 : bool) (f : File) : outcome (option Data) :=
  '(isutccnt, f) ← readInt32 f;
  '(isstdcnt, f) ← readInt32 f;
  '(leapcnt, f) ← readInt32 f;
  '(timecnt, f) ← readInt32 f;
  '(typecnt, f) ← readInt32 f;
  '(charcnt, f) ← readInt32 f;
  if negb (leapcnt =? 0) then Ok None
  else if negb (isutccnt =? 0) && negb (isutccnt =? typecnt) then Ok None
  else if negb (isstdcnt =? 0) && negb (isstdcnt =? typecnt) then Ok None
  else
    _ ← reserve timecnt;
    '(trans, f) ← read_n (if v1 then readInt32 else readInt64) (Z.to_nat timecnt) f;
    _ ← reserve timecnt;
    '(idx, f) ← read_n readUInt8 (Z.to_nat timecnt) f;
    _ ← reserve typecnt;
    '(types, f) ← read_n readLocalTime (Z.to_nat typecnt) f;
    d ← addTransitions trans idx (mkData [] types [] []);
    '(abbr, f) ← readBytes charcnt f;
    let f := skip isutccnt (skip isstdcnt (skip 0 f)) in
    let d := set_abbreviation abbr d in
    Ok (Some (if v1 then d else set_tzstring (readToEnd f).1 d)).

Definition check_head (f : File) : outcome File :=
  '(head, f) ← readBytes 4 f;
  if bool_decide (head = bs "TZif") then Ok f else Fault LogicError.

(** The body of the [try] block. *)
Definition readZone (f : File) : outcome (option Data) :=
  f ← check_head f;
  '(version, f) ← readBytes 1 f;
  '(_, f) ← readBytes 15 f;
  '(isgmtcnt, f) ← readInt32 f;
  '(isstdcnt, f) ← readInt32 f;
  '(leapcnt, f) ← readInt32 f;
  '(timecnt, f) ← readInt32 f;
  '(typecnt, f) ← readInt32 f;
  '(charcnt, f) ← readInt32 f;
  if bool_decide (version = bs "2") then
    t6 ← ck32 (6 * typecnt);
    t8 ← ck32 (8 * leapcnt);
    let n := u64 (4 * timecnt + timecnt + t6 + charcnt + t8 + isstdcnt + isgmtcnt) in
    f ← check_head (skip (i64 n) f);
    readDataBlock false (skip 16 f)
  else readDataBlock true (skip (-24) f).

(** [catch (std::logic_error&)]: [std::length_error] and [std::out_of_range]
    are logic errors too. *)
Definition readTimeZoneFile (zonefile : option bytes) : outcome (option Data) :=
  match zonefile with
  | None => Ok None             (* the file cannot be opened *)
  | Some b =>
      match readZone (mkFile b 0) with
      | Fault (LogicError | LengthError | OutOfRange) => Ok None
      | r => r
      end
  end.

Definition loadZoneFile (zonefile : option bytes) : outcome t := readTimeZoneFile zonefile.

End Endian.
End TimeZone.
