(* ===== verification/TimeZoneFacts.v ===== *)
(** * Correctness of time zones

    Civil time and seconds since the epoch determine each other; the lookup
    by instant finds the last transition not after it; the lookup by local time
    undoes it, but for the hour that the last transition repeats. *)

From S2P Require Import Prelude NetBuffer Timestamp Calendar TimeZone.

Local Open Scope Z_scope.

Import TimeZone.

(** ** Civil time *)

Definition is_datetime (dt : DateTime) : Prop :=
  Date.is_date (Date.mkYMD (year dt) (month dt) (day dt)) /\
  0 <= hour dt <= 23 /\ 0 <= minute dt <= 59 /\ 0 <= second dt <= 59.

(** The seconds of a civil time, in mathematical integers. *)
Definition seconds_of (dt : DateTime) : Z :=
  (Date.julian (Date.mkYMD (year dt) (month dt) (day dt)) - Date.kJulianDayOf1970_01_01) * kSecondsPerDay
  + hour dt * 3600 + minute dt * 60 + second dt.

(** Instants whose day number [Date] can convert. *)
Definition first_second : Z := (Date.first_day - Date.kJulianDayOf1970_01_01) * kSecondsPerDay.
Definition last_second : Z := (500000000 - Date.kJulianDayOf1970_01_01) * kSecondsPerDay.

Definition in_range (t : Z) : Prop := first_second <= t <= last_second.

Lemma julian_bounds x : Date.is_date x -> Date.first_day <= Date.julian x <= Date.last_day.
Proof.
  intros Hx. pose proof (Date.day_of_year x Hx) as (Hb & Hd & HY & HM & He & _ & _). pose proof Hx as (Hy & Hm & Hk).
  unfold Date.first_year, Date.last_year in Hy. unfold Date.julian, Date.first_day, Date.last_day.
  set (b := Date.march_year x / 100) in *. set (d := Date.march_year x mod 100) in *.
  assert (Date.march_year x <= 1404800) by (unfold Date.march_year; destruct (_ <=? _); lia).
  assert (1 <= Date.march_year x \/ 10 <= Date.march_month x) as Hlow.
  { unfold Date.march_year, Date.march_month. destruct (Z.leb_spec (Date.month x) 2); lia. }
  clearbody b d. unfold Date.century_days, Date.year_days, Date.month_days in *. split; [|dlia].
  destruct Hlow; dlia.
Qed.

Lemma fromUtcTime_seconds dt : is_datetime dt -> fromUtcTime dt = Ok (seconds_of dt).
Proof.
  intros (Hd & Hh & Hm & Hs). unfold fromUtcTime, Date.of_ymd. set (x := Date.mkYMD _ _ _) in Hd.
  pose proof (Date.getJulianDayNumber_julian x Hd) as E. pose proof (julian_bounds x Hd) as Hj.
  unfold Date.first_day, Date.last_day in Hj. cbn [Date.year Date.month Date.day x] in E. rewrite E. cbn [mbind outcome_bind].
  unfold Date.kJulianDayOf1970_01_01, kSecondsPerDay. Date.run_ck32.
  rewrite !ck64_Ok by (unfold INT64_MIN, INT64_MAX; lia). cbn [mbind outcome_bind].
  rewrite ck64_Ok by (unfold INT64_MIN, INT64_MAX; lia). f_equal.
  unfold seconds_of, Date.kJulianDayOf1970_01_01, kSecondsPerDay. fold x. lia.
Qed.

Lemma fillHMS_fields s : 0 <= s < kSecondsPerDay ->
  exists h m k, fillHMS s = (h, m, k) /\ 0 <= h <= 23 /\ 0 <= m <= 59 /\ 0 <= k <= 59 /\ h * 3600 + m * 60 + k = s.
Proof.
  unfold kSecondsPerDay. intros Hs. eexists _, _, _. split; [done|].
  pose proof (Z.div_mod s 60). pose proof (Z.div_mod (s / 60) 60). dlia.
Qed.

(** The day and the second of the day of [t]. *)
Lemma BreakTime_split t :
  in_range t ->
  exists h m k, BreakTime t = Ok (let ymd := Date.gregorian (t / kSecondsPerDay + Date.kJulianDayOf1970_01_01) in
      mkDateTime (Date.year ymd) (Date.month ymd) (Date.day ymd) h m k) /\
    0 <= h <= 23 /\ 0 <= m <= 59 /\ 0 <= k <= 59 /\ h * 3600 + m * 60 + k = t mod kSecondsPerDay.
Proof.
  intros Ht. destruct (fillHMS_fields (t mod kSecondsPerDay)) as (h & m & k & Hf & Hh & Hm & Hk & Hsum).
  { apply Z.mod_pos_bound. done. }
  exists h, m, k. split; [|done]. unfold in_range, first_second, last_second in Ht. unfold BreakTime.
  unfold Date.first_day, Date.kJulianDayOf1970_01_01, kSecondsPerDay in *.
  change (24 * 60 * 60) with 86400 in *.
  rewrite !i32_small by (unfold INT_MIN, INT_MAX; dlia).
  assert (exists s d, (if Z.rem t 86400 <? 0 then s ← ck32 (Z.rem t 86400 + 86400); d ← ck32 (Z.quot t 86400 - 1); Ok (s, d)
     else Ok (Z.rem t 86400, Z.quot t 86400)) = Ok (s, d) /\ s = t mod 86400 /\ d = t / 86400) as (s & d & -> & -> & ->).
  { destruct (Z.ltb_spec (Z.rem t 86400) 0).
    - rewrite ck32_Ok by (unfold INT_MIN, INT_MAX; dlia). cbn [mbind outcome_bind].
      rewrite ck32_Ok by (unfold INT_MIN, INT_MAX; dlia). eexists _, _. split; [done|]. dlia.
    - eexists _, _. split; [done|]. dlia. }
  cbn [mbind outcome_bind]. unfold u32, wrap_u. rewrite (Z.mod_small (t mod 86400)) by (pose proof (Z.mod_pos_bound t 86400); lia).
  rewrite Hf. rewrite ck32_Ok by (unfold INT_MIN, INT_MAX; dlia). cbn [mbind outcome_bind]. unfold Date.yearMonthDay.
  rewrite Date.getYearMonthDay_gregorian; [done|dlia|unfold Date.last_day; dlia].
Qed.

Lemma break_inverse t : in_range t -> exists dt, BreakTime t = Ok dt /\ is_datetime dt /\ fromUtcTime dt = Ok t.
Proof.
  intros Ht. destruct (BreakTime_split t Ht) as (h & m & k & Hb & Hh & Hm & Hk & Hsum). eexists. split; [exact Hb|].
  set (j := t / kSecondsPerDay + Date.kJulianDayOf1970_01_01) in *.
  destruct (Date.julian_gregorian j) as [Hd Hj].
  1, 2: unfold in_range, first_second, last_second, Date.first_day, j, kSecondsPerDay, Date.kJulianDayOf1970_01_01 in *; dlia.
  set (ymd := Date.gregorian j) in *. clearbody ymd.
  assert (is_datetime (mkDateTime (Date.year ymd) (Date.month ymd) (Date.day ymd) h m k)) as Hdt.
  { split; [cbn [year month day]; by destruct ymd|cbn; lia]. }
  split; [done|]. rewrite fromUtcTime_seconds by done. f_equal. unfold seconds_of. cbn [year month day hour minute second].
  destruct ymd as [y mo dd]. cbn [Date.year Date.month Date.day]. rewrite Hj. unfold j, kSecondsPerDay in *. dlia.
Qed.

(** Seconds since the epoch and civil time determine each other:
    [fromUtcTime] undoes [toUtcTime] for every instant of the years -4799 to
    about 1364000, and [toUtcTime] undoes [fromUtcTime] for every civil time. *)
Theorem utc_round_trip :
  (forall t, in_range t -> exists dt, toUtcTime t = Ok dt /\ is_datetime dt /\ fromUtcTime dt = Ok t) /\
  (forall dt, is_datetime dt -> in_range (seconds_of dt) -> exists t, fromUtcTime dt = Ok t /\ toUtcTime t = Ok dt).
Proof.
  split.
  - apply break_inverse.
  - intros dt Hdt Hr. exists (seconds_of dt). split; [by apply fromUtcTime_seconds|].
    destruct (BreakTime_split _ Hr) as (h & m & k & Hb & Hh & Hm & Hk & Hsum). unfold toUtcTime. rewrite Hb.
    destruct Hdt as (Hd & Hh' & Hm' & Hk'). pose proof (Date.gregorian_julian _ Hd) as Hg.
    unfold seconds_of, kSecondsPerDay in *. change (24 * 60 * 60) with 86400 in *.
    set (J := Date.julian _) in *. set (K := Date.kJulianDayOf1970_01_01) in *.
    assert (((J - K) * 86400 + hour dt * 3600 + minute dt * 60 + second dt) / 86400 + K = J) as -> by dlia.
    rewrite Hg. cbn. destruct dt as [y mo dd hh mm ss]. cbn in *. do 2 f_equal; dlia.
Qed.

(** ** Looking up the offset *)

Lemma upper_bound_eq {A} (greater : A -> bool) l n :
  (forall j x, (j < n)%nat -> l !! j = Some x -> greater x = false) ->
  (n = length l \/ exists x, l !! n = Some x /\ greater x = true) -> upper_bound greater l = n.
Proof.
  revert n. induction l as [|y l IH]; intros n Hlow Hn; cbn.
  - destruct Hn as [->|(x & Hx & _)]; done.
  - destruct n as [|n].
    + destruct Hn as [|(x & [= ->] & ->)]; done.
    + rewrite (Hlow 0%nat y) by (done || lia). f_equal. apply IH.
      * intros j x Hj Hx. apply (Hlow (S j)); [lia|done].
      * destruct Hn as [[= ->]|(x & Hx & Hg)]; [by left|right; by exists x].
Qed.

(** A zone as files describe them: offsets fit, transitions are in order in
    UTC and in local time, and no further transition falls into a repeated
    hour. *)
Definition off (x : Transition) : Z := localtime x - utctime x.

Record zone_ok (d : Data) : Prop := {
  zo_type : forall i x, transitions d !! i = Some x ->
    exists lt, index (localtimes d) (localtimeIdx x) = Ok lt /\ utcOffset lt = off x /\ Z.abs (off x) < 2 ^ 31 /\ Z.abs (utctime x) < 2 ^ 60;
  zo_order : forall i x y, transitions d !! i = Some x -> transitions d !! S i = Some y ->
    utctime x < utctime y /\ localtime x < localtime y;
  zo_apart : forall i x y z, transitions d !! i = Some x -> transitions d !! S i = Some y -> transitions d !! S (S i) = Some z ->
    utctime y + off x <= localtime z /\ utctime y + off x <= utctime z + off y;
}.

Section Zone.
Context (d : Data) (Hz : zone_ok d).

Lemma transitions_mono i j x y :
  (i <= j)%nat -> transitions d !! i = Some x -> transitions d !! j = Some y -> utctime x <= utctime y /\ localtime x <= localtime y.
Proof.
  intros Hij Hx. revert y. induction Hij as [|j Hij IH]; intros y Hy; [simplify_eq; lia|].
  destruct (lookup_lt_is_Some_2 (transitions d) j) as [z Hzz]; [apply lookup_lt_Some in Hy; lia|].
  destruct (IH z Hzz). destruct (zo_order d Hz j z y Hzz Hy). lia.
Qed.

(** [t] falls between transition [i] and the next. *)
Definition segment (i : nat) (x : Transition) (t : Z) : Prop :=
  transitions d !! i = Some x /\ utctime x <= t /\ forall y, transitions d !! S i = Some y -> t < utctime y.

Lemma ub_utc i x t : segment i x t -> upper_bound (fun y => t <? utctime y) (transitions d) = S i.
Proof.
  intros (Hx & Hlo & Hhi). apply upper_bound_eq.
  - intros j y Hj Hy. destruct (transitions_mono j i y x) as [? _]; [lia|done..|]. apply Z.ltb_ge. lia.
  - destruct (transitions d !! S i) as [y|] eqn:Hy; [right; exists y; split; [done|]; apply Z.ltb_lt; auto|].
    left. apply lookup_lt_Some in Hx. apply lookup_ge_None in Hy. lia.
Qed.

Lemma findLocalTime_segment i x t :
  segment i x t -> exists lt, findLocalTime t d = Ok lt /\ index (localtimes d) (localtimeIdx x) = Ok lt /\ utcOffset lt = off x.
Proof.
  intros Hs. pose proof (ub_utc i x t Hs) as Hub. destruct Hs as (Hx & Hlo & Hhi).
  destruct (zo_type d Hz i x Hx) as (lt & Hlt & Hoff & _). exists lt. split; [|done]. unfold findLocalTime.
  destruct (transitions d) as [|first rest] eqn:Et; [done|]. rewrite <- Et in *.
  assert (utctime first <= t). { destruct (transitions_mono 0 i first x) as [? _]; [lia|by rewrite Et|done|lia]. }
  rewrite (proj2 (Z.ltb_ge _ _)) by lia. rewrite Hub. change (negb (S i =? 0)%nat) with true. cbn [assert mbind outcome_bind].
  assert ((if (S i =? length (transitions d))%nat then pred (length (transitions d)) else pred (S i)) = i) as ->.
  { destruct (Nat.eqb_spec (S i) (length (transitions d))) as [E|]; [by rewrite <- E|done]. }
  unfold deref. by rewrite Hx.
Qed.

(** The positions that the lookup by local time compares. *)
Lemma ub_local i x v :
  transitions d !! i = Some x -> localtime x <= v -> (forall y, transitions d !! S i = Some y -> v < localtime y) ->
  upper_bound (fun y => v <? localtime y) (transitions d) = S i.
Proof.
  intros Hx Hlo Hhi. apply upper_bound_eq.
  - intros j y Hj Hy. destruct (transitions_mono j i y x) as [_ ?]; [lia|done..|]. apply Z.ltb_ge. lia.
  - destruct (transitions d !! S i) as [y|] eqn:Hy; [right; exists y; split; [done|]; apply Z.ltb_lt; auto|].
    left. apply lookup_lt_Some in Hx. apply lookup_ge_None in Hy. lia.
Qed.

Lemma prior_second_at i x y :
  transitions d !! i = Some x -> transitions d !! S i = Some y -> prior_second d (S i) = Ok (x, utctime y - 1 + off x).
Proof.
  intros Hx Hy. unfold prior_second, deref. cbn [pred]. rewrite Hx. cbn [mbind outcome_bind]. rewrite Hy. cbn [mbind outcome_bind].
  destruct (zo_type d Hz i x Hx) as (lt & -> & Hoff & Hb & _). destruct (zo_type d Hz (S i) y Hy) as (_ & _ & _ & _ & Hu).
  cbn [mbind outcome_bind]. rewrite ck64_Ok by (unfold INT64_MIN, INT64_MAX; lia). cbn [mbind outcome_bind].
  rewrite Hoff, ck64_Ok by (unfold INT64_MIN, INT64_MAX; lia). done.
Qed.

(** The code after the first two returns of [findLocalTime(local)]. *)
Lemma find_local_unfold i x lt post v :
  fromUtcTime lt = Ok v -> transitions d !! i = Some x -> localtime x <= v ->
  (forall y, transitions d !! S i = Some y -> v < localtime y) ->
  findLocalTimeLocal lt post d =
    match transitions d !! S i with
    | None => index (localtimes d) (localtimeIdx x)
    | Some y =>
        if utctime y - 1 + off x <? v then index (localtimes d) (localtimeIdx (if post then y else x))
        else match i with
             | O => index (localtimes d) (localtimeIdx x)
             | S i' =>
                 match transitions d !! i' with
                 | Some z => if v <=? utctime x - 1 + off z then index (localtimes d) (localtimeIdx (if post then x else z))
                             else index (localtimes d) (localtimeIdx x)
                 | None => Fault OutOfBounds
                 end
             end
    end.
Proof.
  intros Hv Hx Hlo Hhi. pose proof (ub_local i x v Hx Hlo Hhi) as Hub. unfold findLocalTimeLocal. rewrite Hv. cbn [mbind outcome_bind].
  destruct (transitions d) as [|first rest] eqn:Et; [done|]. rewrite <- Et in *.
  assert (localtime first <= v). { destruct (transitions_mono 0 i first x) as [_ ?]; [lia|by rewrite Et|done|lia]. }
  rewrite (proj2 (Z.ltb_ge _ _)) by lia. rewrite Hub. change (negb (S i =? 0)%nat) with true. cbn [assert mbind outcome_bind].
  destruct (transitions d !! S i) as [y|] eqn:Hy.
  - pose proof (lookup_lt_Some _ _ _ Hy). rewrite (proj2 (Nat.eqb_neq _ _)) by lia.
    rewrite (prior_second_at i x y Hx Hy). cbn [mbind outcome_bind]. destruct (Z.ltb_spec (utctime y - 1 + off x) v).
    + unfold deref. by rewrite Hy.
    + cbn [pred]. destruct i as [|i']; cbn [Nat.eqb negb].
      * cbn [mbind outcome_bind]. unfold deref. rewrite Hx. cbn [mbind outcome_bind]. rewrite (proj2 (Z.leb_le _ _)) by lia. by destruct post.
      * destruct (lookup_lt_is_Some_2 (transitions d) i') as [z Hzz]; [lia|]. rewrite (prior_second_at i' z x Hzz Hx).
        cbn [mbind outcome_bind]. unfold deref. rewrite Hx, Hzz. done.
  - assert (S i = length (transitions d)) as E by (apply lookup_lt_Some in Hx; apply lookup_ge_None in Hy; lia).
    rewrite E, Nat.eqb_refl, <- E. unfold deref. cbn [pred]. by rewrite Hx.
Qed.

(** Every local time of segment [i] is found again, except in the hour that
    the last transition repeats. *)
Lemma find_local_again i x t dt :
  segment i x t -> fromUtcTime dt = Ok (t + off x) ->
  (forall y, transitions d !! S i = Some y -> transitions d !! S (S i) = None -> t + off x < localtime y) ->
  exists post lt, findLocalTimeLocal dt post d = Ok lt /\ utcOffset lt = off x.
Proof.
  intros (Hx & Hlo & Hhi) Hdt Hlast. destruct (zo_type d Hz i x Hx) as (lt & Hlt & Hoff & _).
  assert (localtime x <= t + off x) as Hlx by (unfold off; lia).
  destruct (transitions d !! S i) as [y|] eqn:Hy.
  2: { exists true, lt. split; [|done]. by rewrite (find_local_unfold i x dt true _ Hdt Hx Hlx), Hy by (intros ? ?; congruence). }
  specialize (Hhi y eq_refl). destruct (Z.lt_ge_cases (t + off x) (localtime y)) as [Hbefore|Hafter].
  - exists true, lt. split; [|done]. rewrite (find_local_unfold i x dt true _ Hdt Hx Hlx), Hy by (intros ? ?; congruence).
    rewrite (proj2 (Z.ltb_ge _ _)) by lia. destruct i as [|i]; [done|].
    destruct (lookup_lt_is_Some_2 (transitions d) i) as [z ->]; [apply lookup_lt_Some in Hx; lia|]. by destruct (_ <=? _).
  - destruct (transitions d !! S (S i)) as [z|] eqn:Hzz; [|specialize (Hlast y eq_refl eq_refl); lia].
    destruct (zo_apart d Hz i x y z Hx Hy Hzz) as [Ha1 Ha2].
    exists false, lt. split; [|done]. rewrite (find_local_unfold (S i) y dt false _ Hdt Hy Hafter), Hzz by (intros w Hw; simplify_eq; lia).
    rewrite (proj2 (Z.ltb_ge _ _)) by lia. rewrite Hx. by rewrite (proj2 (Z.leb_le _ _)) by lia.
Qed.

(** C28: The local time of an instant [t] after the first transition uses the
    offset of the last transition that is not after [t], and is converted
    back to [t], with one of the two values of [postTransition], unless it falls
    into the hour that the last transition repeats. *)
Theorem local_round_trip i x t :
  segment i x t -> in_range (t + off x) -> Z.abs t < 2 ^ 60 ->
  exists dt, toLocalTime t (Some d) = Ok (dt, off x) /\
    ((forall y, transitions d !! S i = Some y -> transitions d !! S (S i) = None -> t + off x < localtime y) ->
     exists post, fromLocalTime dt post (Some d) = Ok t).
Proof.
  intros Hs Hr Ht. destruct (findLocalTime_segment i x t Hs) as (lt & Hf & _ & Hoff).
  destruct (break_inverse _ Hr) as (dt & Hb & _ & Hdt). destruct Hs as [Hx Hs'] eqn:E.
  destruct (zo_type d Hz i x Hx) as (_ & _ & _ & Hb31 & _). exists dt. split.
  - unfold toLocalTime. rewrite Hf. cbn [mbind outcome_bind]. rewrite Hoff, ck64_Ok by (unfold INT64_MIN, INT64_MAX; lia).
    cbn [mbind outcome_bind]. by rewrite Hb.
  - intros Hlast. destruct (find_local_again i x t dt Hs Hdt Hlast) as (post & lt' & Hf' & Hoff'). exists post.
    unfold fromLocalTime. rewrite Hf'. cbn [mbind outcome_bind]. rewrite Hdt. cbn [mbind outcome_bind].
    rewrite Hoff', ck64_Ok by (unfold INT64_MIN, INT64_MAX; lia). f_equal. lia.
Qed.

End Zone.

(** ** A concrete zone *)

Module China1990.

(** Summer time of 1990 and 1991 in China, as in the comments of the source. *)
Definition zone : Data :=
  mkData [mkTransition 621968400 (621968400 + 28800) 0; mkTransition 640116000 (640116000 + 32400) 1;
          mkTransition 653418000 (653418000 + 28800) 0; mkTransition 671565600 (671565600 + 32400) 1;
          mkTransition 684867600 (684867600 + 28800) 0]
         [mkLocalTime 28800 false 0; mkLocalTime 32400 true 4] (bs "CST") [].

Lemma zone_is_ok : zone_ok zone.
Proof.
  split.
  - intros i x Hx. do 5 (destruct i as [|i]; [injection Hx as <-; eexists; split; [reflexivity|]; split_and!; done|]). done.
  - intros i x y Hx Hy. do 4 (destruct i as [|i]; [injection Hx as <-; injection Hy as <-; split; done|]). by destruct i.
  - intros i x y z Hx Hy Hz. do 3 (destruct i as [|i]; [injection Hx as <-; injection Hy as <-; injection Hz as <-; split; done|]).
    by destruct i.
Qed.

(** Half an hour before and after the end of summer time 1990: both are
    01:30. *)
Lemma local_round_trip_witness :
  exists dt, toLocalTime 653416200 (Some zone) = Ok (dt, 32400) /\ exists post, fromLocalTime dt post (Some zone) = Ok 653416200.
Proof.
  destruct (local_round_trip zone zone_is_ok 1 (mkTransition 640116000 (640116000 + 32400) 1) 653416200) as (dt & H1 & H2).
  - split; [done|]. split; [done|]. by intros y [= <-].
  - split; vm_compute; congruence.
  - done.
  - exists dt. split; [exact H1|]. apply H2. by intros y _ [=].
Defined.

(** In the hour that the last transition repeats, [postTransition] is
    ignored: the first 01:30 of 1991-09-15, which was 16:30 UTC, cannot be
    converted back. *)
Theorem last_repeat_lost :
  exists dt, toLocalTime 684865800 (Some zone) = Ok (dt, 32400) /\
    fromLocalTime dt false (Some zone) = Ok (684865800 + 3600) /\ fromLocalTime dt true (Some zone) = Ok (684865800 + 3600).
Proof. eexists. split; [vm_compute; reflexivity|]. split; reflexivity. Qed.

End China1990.
