(* ===== verification/ZoneFile.v ===== *)
(** * The reader of TZif files inverts the format

    The format of RFC 8536 (version 2) as a writer, and the proof that
    [TimeZone.loadZoneFile] reads back the zone that was written, whatever the
    version 1 block holds; which errors make it report an invalid zone. *)

From S2P Require Import Prelude NetBuffer Timestamp Calendar TimeZone.

Local Open Scope Z_scope.

Import TimeZone.

(** ** The format *)

Abbreviation be := sockets.be_split.

(** The six counters of a header. *)
Record counters := mkCounters { isutcnt : Z; isstdcnt : Z; leapcnt : Z; timecnt : Z; typecnt : Z; charcnt : Z }.

Definition write_counters (c : counters) : bytes :=
  be 4 (isutcnt c) ++ be 4 (isstdcnt c) ++ be 4 (leapcnt c) ++ be 4 (timecnt c) ++ be 4 (typecnt c) ++ be 4 (charcnt c).

Definition byte_of (z : Z) : byte := byte.of_Z z.

Definition write_type (lt : LocalTime) : bytes :=
  be 4 (utcOffset lt) ++ [byte_of (if isDst lt then 1 else 0)] ++ [byte_of (desigIdx lt)].

(** The version 2 data block; [std] and [ut] are the standard/wall and
    UT/local indicators, which the code skips. *)
Definition write_block (d : Data) (std ut : bytes) : bytes :=
  write_counters (mkCounters (zlen ut) (zlen std) 0 (zlen (transitions d)) (zlen (localtimes d)) (zlen (abbreviation d)))
  ++ concat (map (fun t => be 8 (utctime t)) (transitions d))
  ++ map (fun t => byte_of (localtimeIdx t)) (transitions d)
  ++ concat (map write_type (localtimes d))
  ++ abbreviation d ++ std ++ ut ++ tzstring d.

(** The length of a version 1 body. *)
Definition v1_size (c : counters) : Z :=
  4 * timecnt c + timecnt c + 6 * typecnt c + charcnt c + 8 * leapcnt c + isstdcnt c + isutcnt c.

Definition write_file (c1 : counters) (body1 reserved1 header2 : bytes) (d : Data) (std ut : bytes) : bytes :=
  bs "TZif" ++ bs "2" ++ reserved1 ++ write_counters c1 ++ body1 ++ bs "TZif" ++ header2 ++ write_block d std ut.

(** ** Positions in a file *)

(** [r] is what is left to read. *)
Definition stands (f : File) (r : bytes) : Prop := 0 <= pos f /\ drop (Z.to_nat (pos f)) (contents f) = r.

Lemma fread_stands f b r : stands f (b ++ r) -> exists f', fread (zlen b) f = (b, f') /\ stands f' r.
Proof.
  intros [Hp Hd]. unfold fread. rewrite Hd. unfold zlen. rewrite Nat2Z.id, take_app_length. eexists. split; [done|].
  split; cbn [pos contents]; [lia|]. rewrite Z2Nat.inj_add, Nat2Z.id, <- drop_drop, Hd by lia. by rewrite drop_app_length.
Qed.

Lemma readBytes_stands f b r : stands f (b ++ r) -> exists f', readBytes (zlen b) f = Ok (b, f') /\ stands f' r.
Proof.
  intros Hs. destruct (fread_stands f b r Hs) as (f' & Hf & Hs'). exists f'. split; [|done]. unfold readBytes.
  rewrite (proj2 (Z.ltb_ge _ _)) by apply zlen_nonneg. by rewrite Hf, Z.eqb_refl.
Qed.

Lemma skip_stands f b r : stands f (b ++ r) -> stands (skip (zlen b) f) r.
Proof.
  intros [Hp Hd]. pose proof (zlen_nonneg b). unfold skip. rewrite (proj2 (Z.ltb_ge _ _)) by lia. split; cbn [pos contents]; [lia|].
  unfold zlen. rewrite Z2Nat.inj_add, Nat2Z.id, <- drop_drop, Hd by lia. by rewrite drop_app_length.
Qed.

Lemma byte_of_unsigned z : 0 <= z < 256 -> byte.unsigned (byte_of z) = z.
Proof. intros Hz. unfold byte_of. rewrite byte.unsigned_of_Z. by apply Z.mod_small. Qed.

Section Endian.
Context {host : Host}.

Lemma readInt_stands n x f r :
  (0 < n)%nat -> - 2 ^ (8 * Z.of_nat n - 1) <= x < 2 ^ (8 * Z.of_nat n - 1) -> stands f (be n x ++ r) ->
  exists f', readInt n f = Ok (x, f') /\ stands f' r.
Proof.
  intros Hn Hx Hs. destruct (fread_stands f _ r Hs) as (f' & Hf & Hs'). exists f'. split; [|done]. unfold readInt.
  assert (zlen (be n x) = Z.of_nat n) as E by (unfold zlen; by rewrite sockets.length_be_split).
  rewrite E in Hf. rewrite Hf, E, Z.eqb_refl. do 3 f_equal.
  pose proof (sockets.htobe_mem_int (be n x)) as Hm. rewrite sockets.length_be_split in Hm. rewrite Hm.
  by apply sockets.wrap_s_be_combine_split.
Qed.

Lemma readInt32_stands x f r : INT_MIN <= x <= INT_MAX -> stands f (be 4 x ++ r) -> exists f', readInt32 f = Ok (x, f') /\ stands f' r.
Proof. unfold INT_MIN, INT_MAX. intros Hx. apply readInt_stands; [lia|]. change (8 * Z.of_nat 4 - 1) with 31. lia. Qed.

Lemma readInt64_stands x f r : INT64_MIN <= x <= INT64_MAX -> stands f (be 8 x ++ r) -> exists f', readInt64 f = Ok (x, f') /\ stands f' r.
Proof. unfold INT64_MIN, INT64_MAX. intros Hx. apply readInt_stands; [lia|]. change (8 * Z.of_nat 8 - 1) with 63. lia. Qed.

Lemma readUInt8_stands x f r : 0 <= x < 256 -> stands f ([byte_of x] ++ r) -> exists f', readUInt8 f = Ok (x, f') /\ stands f' r.
Proof.
  intros Hx Hs. destruct (fread_stands f _ r Hs) as (f' & Hf & Hs'). exists f'. split; [|done]. unfold readUInt8.
  change (zlen [byte_of x]) with 1 in Hf. rewrite Hf. by rewrite byte_of_unsigned.
Qed.

(** Reading a vector of values, given how one is read. *)
Lemma read_n_stands {A B} (read : File -> outcome (A * File)) (write : B -> bytes) (val : B -> A) (ok : B -> Prop) l f r :
  (forall x f r, ok x -> stands f (write x ++ r) -> exists f', read f = Ok (val x, f') /\ stands f' r) ->
  Forall ok l -> stands f (concat (map write l) ++ r) ->
  exists f', read_n read (length l) f = Ok (map val l, f') /\ stands f' r.
Proof.
  intros Hread. revert f. induction l as [|x l IH]; intros f Hok Hs; cbn in *; [by exists f|].
  apply Forall_cons_1 in Hok as [Hx Hl]. rewrite <- app_assoc in Hs.
  destruct (Hread x f _ Hx Hs) as (f1 & -> & Hs1). cbn [mbind outcome_bind]. destruct (IH f1 Hl Hs1) as (f2 & -> & Hs2).
  cbn [mbind outcome_bind]. by exists f2.
Qed.

Definition type_ok (lt : LocalTime) : Prop := INT_MIN <= utcOffset lt <= INT_MAX /\ 0 <= desigIdx lt < 256.

Lemma readLocalTime_stands lt f r :
  type_ok lt -> stands f (write_type lt ++ r) -> exists f', readLocalTime f = Ok (lt, f') /\ stands f' r.
Proof.
  intros [H1 H2] Hs. unfold write_type in Hs. rewrite <- !app_assoc in Hs. unfold readLocalTime.
  destruct (readInt32_stands _ f _ H1 Hs) as (f1 & -> & Hs1). cbn [mbind outcome_bind].
  destruct (readUInt8_stands (if isDst lt then 1 else 0) f1 _ ltac:(by destruct (isDst lt)) Hs1) as (f2 & -> & Hs2). cbn [mbind outcome_bind].
  destruct (readUInt8_stands _ f2 _ H2 Hs2) as (f3 & -> & Hs3). cbn [mbind outcome_bind]. exists f3. split; [|done].
  destruct lt as [o [] i]; done.
Qed.

(** ** Data blocks *)

Record data_ok (d : Data) : Prop := {
  dk_types : Forall type_ok (localtimes d);
  dk_trans : Forall (fun x => INT64_MIN <= utctime x <= INT64_MAX /\ 0 <= localtimeIdx x < 256 /\
    exists lt, localtimes d !! Z.to_nat (localtimeIdx x) = Some lt /\ localtime x = utctime x + utcOffset lt /\
      INT64_MIN <= localtime x <= INT64_MAX) (transitions d);
  dk_sizes : zlen (transitions d) <= INT_MAX /\ zlen (localtimes d) <= INT_MAX /\ zlen (abbreviation d) <= INT_MAX;
}.

(** The indicators are absent or there is one for each type. *)
Definition indicators_ok (d : Data) (s : bytes) : Prop := zlen s = 0 \/ zlen s = zlen (localtimes d).

Lemma addTransitions_all (types : list LocalTime) trs d :
  Forall (fun x => 0 <= localtimeIdx x < 256 /\
    exists lt, types !! Z.to_nat (localtimeIdx x) = Some lt /\ localtime x = utctime x + utcOffset lt /\ INT64_MIN <= localtime x <= INT64_MAX) trs ->
  localtimes d = types ->
  addTransitions (map utctime trs) (map localtimeIdx trs) d =
    Ok (mkData (transitions d ++ trs) types (abbreviation d) (tzstring d)).
Proof.
  revert d. induction trs as [|x trs IH]; intros d Hall Ht; cbn.
  - rewrite app_nil_r. by destruct d; cbn in *; subst.
  - apply Forall_cons_1 in Hall as [(Hi & lt & Hl & Hx & Hr) Hall]. unfold addTransition, at_. rewrite Ht.
    pose proof (lookup_lt_Some _ _ _ Hl). unfold zlen.
    rewrite (proj2 (Z.leb_le 0 _)), (proj2 (Z.ltb_lt _ _)) by lia. cbn [andb]. rewrite Hl. cbn [mbind outcome_bind].
    rewrite ck64_Ok by lia. cbn [mbind outcome_bind]. rewrite IH by done. cbn. rewrite <- app_assoc. cbn.
    rewrite <- Hx. by destruct x.
Qed.

(** Reads the counters one after the other. *)
Ltac read_counters Hs :=
  repeat match goal with
  | |- context [readInt32 ?f] =>
      let f' := fresh "f" in let E := fresh "E" in let Hs' := fresh "Hs" in
      pose proof (fun B => readInt32_stands _ f _ B Hs) as E;
      destruct E as (f' & E & Hs'); [unfold INT_MIN, INT_MAX in *; lia|];
      rewrite E; clear E Hs; rename Hs' into Hs; cbn [mbind outcome_bind]
  end.

Lemma readDataBlock_write d std ut f :
  data_ok d -> indicators_ok d std -> indicators_ok d ut -> stands f (write_block d std ut) ->
  readDataBlock false f = Ok (Some d).
Proof.
  intros [Htypes Htrans (Hn1 & Hn2 & Hn3)] Hstd Hut Hs. unfold write_block, write_counters in Hs. cbn [isutcnt isstdcnt leapcnt timecnt typecnt charcnt] in Hs.
  rewrite <- !app_assoc in Hs. pose proof (zlen_nonneg std). pose proof (zlen_nonneg ut).
  pose proof (zlen_nonneg (transitions d)). pose proof (zlen_nonneg (localtimes d)). pose proof (zlen_nonneg (abbreviation d)).
  unfold indicators_ok, readDataBlock in *. read_counters Hs.
  assert (forall s : bytes, zlen s = 0 \/ zlen s = zlen (localtimes d) ->
    negb (zlen s =? 0) && negb (zlen s =? zlen (localtimes d)) = false) as Hind.
  { intros s [E|E]; rewrite E; [done|]. by rewrite Z.eqb_refl, andb_false_r. }
  change (negb (0 =? 0)) with false. cbv iota. rewrite !Hind by done. cbv iota. unfold reserve. rewrite !(proj2 (Z.ltb_ge _ _)) by lia. cbn [mbind outcome_bind].
  rewrite !to_nat_zlen.
  assert (Forall (fun x => INT64_MIN <= utctime x <= INT64_MAX) (transitions d)) as Hok1
    by (eapply Forall_impl; [|exact Htrans]; naive_solver).
  assert (Forall (fun x => 0 <= localtimeIdx x < 256) (transitions d)) as Hok2 by (eapply Forall_impl; [|exact Htrans]; naive_solver).
  destruct (read_n_stands readInt64 (fun t => be 8 (utctime t)) utctime _ (transitions d) _ _
    (fun x => readInt64_stands (utctime x)) Hok1 Hs) as (g1 & -> & Hs1). cbn [mbind outcome_bind].
  assert (map (fun t => byte_of (localtimeIdx t)) (transitions d) = concat (map (fun t => [byte_of (localtimeIdx t)]) (transitions d))) as Hc.
  { clear. induction (transitions d) as [|x l IH]; cbn; [done|by rewrite IH]. }
  rewrite Hc in Hs1.
  destruct (read_n_stands readUInt8 (fun t => [byte_of (localtimeIdx t)]) localtimeIdx _ (transitions d) _ _
    (fun x => readUInt8_stands (localtimeIdx x)) Hok2 Hs1) as (g2 & -> & Hs2). cbn [mbind outcome_bind].
  destruct (read_n_stands readLocalTime write_type id type_ok (localtimes d) _ _ readLocalTime_stands Htypes Hs2) as (g3 & -> & Hs3).
  cbn [mbind outcome_bind]. rewrite map_id. rewrite (addTransitions_all (localtimes d)); [|by eapply Forall_impl; [|exact Htrans]; naive_solver|done].
  cbn [mbind outcome_bind]. destruct (readBytes_stands g3 _ _ Hs3) as (g4 & -> & Hs4). cbn [mbind outcome_bind].
  assert (stands (skip 0 g4) (std ++ ut ++ tzstring d)) as Hs5 by exact (skip_stands g4 [] _ Hs4).
  apply skip_stands, skip_stands in Hs5. set (g5 := skip _ _) in *.
  assert ((readToEnd g5).1 = tzstring d) as ->.
  { unfold readToEnd, fread. cbn [fst]. destruct Hs5 as [_ Hd5]. rewrite Hd5. apply take_ge. rewrite to_nat_zlen, <- Hd5, length_drop. lia. }
  by destruct d.
Qed.

Definition counters_ok (c : counters) : Prop :=
  Forall (fun z => 0 <= z < 2 ^ 27) [isutcnt c; isstdcnt c; leapcnt c; timecnt c; typecnt c; charcnt c].

Lemma check_head_stands f r : stands f (bs "TZif" ++ r) -> exists f', check_head f = Ok f' /\ stands f' r.
Proof.
  intros Hs. unfold check_head. destruct (readBytes_stands f _ _ Hs) as (f' & E & Hs'). change (zlen (bs "TZif")) with 4 in E.
  rewrite E. cbn [mbind outcome_bind]. rewrite (bool_decide_eq_true_2 (bs "TZif" = bs "TZif")) by done. by exists f'.
Qed.

(** C27: A zone written in version 2 of the TZif format of RFC 8536 is read
    back as it was, whatever version 1 data, reserved bytes and indicators
    the file holds. *)
Theorem zone_file_round_trip c1 body1 reserved1 header2 d std ut :
  counters_ok c1 -> zlen body1 = v1_size c1 -> zlen reserved1 = 15 -> zlen header2 = 16 ->
  data_ok d -> indicators_ok d std -> indicators_ok d ut ->
  loadZoneFile (Some (write_file c1 body1 reserved1 header2 d std ut)) = Ok (Some d).
Proof.
  intros Hc Hb1 Hr1 Hh2 Hd Hstd Hut. unfold loadZoneFile, readTimeZoneFile.
  assert (readZone (mkFile (write_file c1 body1 reserved1 header2 d std ut) 0) = Ok (Some d)) as ->; [|done].
  set (f := mkFile _ 0). assert (stands f (write_file c1 body1 reserved1 header2 d std ut)) as Hs by (by split).
  unfold write_file, write_counters in Hs. rewrite <- !app_assoc in Hs. unfold readZone.
  destruct (check_head_stands f _ Hs) as (f1 & -> & Hs1). cbn [mbind outcome_bind].
  destruct (readBytes_stands f1 _ _ Hs1) as (f2 & E2 & Hs2). change (zlen (bs "2")) with 1 in E2. rewrite E2. cbn [mbind outcome_bind].
  destruct (readBytes_stands f2 _ _ Hs2) as (f3 & E3 & Hs3). rewrite Hr1 in E3. rewrite E3. cbn [mbind outcome_bind].
  unfold counters_ok in Hc. rewrite !list.Forall_cons in Hc. destruct Hc as (C1 & C2 & C3 & C4 & C5 & C6 & _). read_counters Hs3.
  rewrite (bool_decide_eq_true_2 (bs "2" = bs "2")) by done. rewrite !ck32_Ok by (unfold INT_MIN, INT_MAX; lia). cbn [mbind outcome_bind].
  unfold v1_size in Hb1.
  assert (i64 (u64 (4 * timecnt c1 + timecnt c1 + 6 * typecnt c1 + charcnt c1 + 8 * leapcnt c1 + isstdcnt c1 + isutcnt c1)) = zlen body1) as ->.
  { rewrite u64_small, i64_small by (unfold INT64_MIN, INT64_MAX; lia). lia. }
  apply skip_stands in Hs3. destruct (check_head_stands _ _ Hs3) as (g & -> & Hg). cbn [mbind outcome_bind].
  apply readDataBlock_write with (std := std) (ut := ut); [done..|]. rewrite <- Hh2. by apply skip_stands.
Qed.

End Endian.

(** ** Concrete files *)

Module ZoneDemo.

#[local] Instance x86 : Host := true.

(** A zone with one transition. *)
Definition zone : Data :=
  mkData [mkTransition 640116000 (640116000 + 32400) 1] [mkLocalTime 28800 false 0; mkLocalTime 32400 true 4]
    (bs "CST") (bs "CST-8").

(** The version 1 block that zic writes into slim files: one type, no transition. *)
Definition slim : counters := mkCounters 0 0 0 0 1 1.
Definition slim_body : bytes := be 4 0 ++ [NUL; NUL; NUL].

(** Closed inequalities. *)
Local Ltac closed := vm_compute; congruence.

Lemma zone_data_ok : data_ok zone.
Proof.
  split; cbn [zone localtimes transitions abbreviation].
  - rewrite !list.Forall_cons. unfold type_ok. split_and!; first [by apply list.Forall_nil|closed].
  - rewrite !list.Forall_cons. split; [|by apply list.Forall_nil]. split; [split; closed|]. split; [split; closed|].
    eexists. split; [reflexivity|]. split; [done|]. split; closed.
  - split_and!; closed.
Qed.

Lemma zone_file_round_trip_witness :
  loadZoneFile (Some (write_file slim slim_body (replicate 15 NUL) (replicate 16 NUL) zone [] [NUL; NUL])) = Ok (Some zone).
Proof.
  apply (zone_file_round_trip slim slim_body (replicate 15 NUL) (replicate 16 NUL) zone [] [NUL; NUL]); try reflexivity.
  - unfold counters_ok. rewrite !list.Forall_cons. split_and!; first [by apply list.Forall_nil|closed].
  - apply zone_data_ok.
  - by left.
  - by right.
Defined.

(** The same file marked as version 3 of the format. *)
Definition version3_file : bytes :=
  bs "TZif3" ++ replicate 15 NUL ++ write_counters slim ++ slim_body ++ bs "TZif3" ++ replicate 15 NUL ++ write_block zone [] [].

(** Only version 2 is read as such: from a file of version 3 the code
    takes the version 1 block, which slim files leave without transitions, and
    local time is UTC. *)
Theorem version3_read_as_v1 :
  exists d, loadZoneFile (Some version3_file) = Ok (Some d) /\ transitions d = [] /\
    (exists dt, toLocalTime 653416200 (Some d) = Ok (dt, 0)) /\
    (exists dt, toLocalTime 653416200 (Some zone) = Ok (dt, 32400)).
Proof.
  eexists. split; [vm_compute; reflexivity|]. split; [done|]. split; eexists; vm_compute; reflexivity.
Qed.

End ZoneDemo.
