(* ===== verification/Monitor.v ===== *)
(** * Monitors

    The use that the code makes of src/muduo/base/Mutex.h and Condition.h: an
    operation takes the mutex, waits on a condition variable in a while-loop as
    long as it cannot proceed, changes the shared state, notifies and releases
    the mutex.  [Section Machine] runs any number of threads that call such
    operations, for any [body] of the operations: the part of an operation
    between two points where the mutex is free is one step.  A wait may
    end spuriously, and which waiter a notification wakes is arbitrary. *)

From S2P Require Import Prelude.

(** ** Counting *)

Fixpoint count {A} (f : A -> bool) (l : list A) : nat :=
  match l with
  | [] => 0
  | x :: l' => Nat.b2n (f x) + count f l'
  end.

Lemma count_insert {A} (f : A -> bool) l i x y :
  l !! i = Some x -> count f (<[i := y]> l) + Nat.b2n (f x) = count f l + Nat.b2n (f y).
Proof.
  revert i. induction l as [|z l IH]; intros i Hi; [done|]. destruct i as [|i].
  - injection Hi as ->. change (<[0 := y]> (x :: l)) with (y :: l). cbn [count]. lia.
  - change (<[S i := y]> (z :: l)) with (z :: <[i := y]> l). cbn [count]. specialize (IH i Hi). lia.
Qed.

Lemma count_pos {A} (f : A -> bool) l : 0 < count f l <-> exists i x, l !! i = Some x /\ f x = true.
Proof.
  induction l as [|z l IH]; cbn.
  - split; [lia|]. by intros (i & x & ? & _).
  - destruct (f z) eqn:Ez; cbn; split; try lia.
    + intros _. by exists 0, z.
    + intros Hp. apply IH in Hp as (i & x & ? & ?). by exists (S i), x.
    + intros ([|i] & x & Hx & Hf); [cbn in Hx; congruence|]. apply IH. by exists i, x.
Qed.

Lemma count_app {A} (f : A -> bool) l k : count f (l ++ k) = count f l + count f k.
Proof. induction l as [|x l IH]; cbn [count app]; [done|]. lia. Qed.

Lemma count_map {A B} (f : B -> bool) (g : A -> B) l : count f (map g l) = count (fun x => f (g x)) l.
Proof. induction l; cbn; congruence. Qed.

Lemma count_split {A} (f g h : A -> bool) l :
  (forall x, Nat.b2n (f x) = Nat.b2n (g x) + Nat.b2n (h x)) -> count f l = count g l + count h l.
Proof. intros Hs. induction l as [|x l IH]; cbn; [done|]. rewrite Hs. lia. Qed.

Lemma count_ext {A} (f g : A -> bool) l : (forall x, f x = g x) -> count f l = count g l.
Proof. intros Hs. induction l as [|x l IH]; cbn; [done|]. by rewrite Hs, IH. Qed.

Lemma count_none {A} (f : A -> bool) l : (forall x, f x = false) -> count f l = 0.
Proof. intros Hs. induction l as [|x l IH]; cbn; [done|]. by rewrite Hs. Qed.

(** The position of the [k]-th element of [l] that satisfies [f], counted
    round. *)
Definition positions {A} (f : A -> bool) (l : list A) : list nat :=
  filter (fun i => match l !! i with Some x => f x | None => false end = true) (seq 0 (length l)).

Lemma positions_spec {A} (f : A -> bool) l i : i ∈ positions f l <-> exists x, l !! i = Some x /\ f x = true.
Proof.
  unfold positions. rewrite list_elem_of_filter, elem_of_seq. split.
  - intros [Hi _]. destruct (l !! i); [eauto|done].
  - intros (x & Hx & Hf). rewrite Hx. split; [done|]. apply lookup_lt_Some in Hx. lia.
Qed.

(** Decides the equalities between condition variables that the counts of
    threads depend on. *)
Ltac decide_conds :=
  repeat match goal with
  | |- context [bool_decide (?x = ?y)] =>
      first [rewrite (bool_decide_eq_true_2 (x = y)) by reflexivity | rewrite (bool_decide_eq_false_2 (x = y)) by discriminate]
  | H : context [bool_decide (?x = ?y)] |- _ =>
      first [rewrite (bool_decide_eq_true_2 (x = y)) in H by reflexivity | rewrite (bool_decide_eq_false_2 (x = y)) in H by discriminate]
  end.

Module Monitor.
Section Machine.
Context {S Op Ret Cond : Type} `{EqDecision Cond}.

(** What an operation does with the mutex: wait, or finish with a new state
    and notifications ([true] for [notifyAll]). *)
Inductive result :=
  | Block
  | Done (s : S) (notes : list (Cond * bool)) (r : Ret).

Variable body : Op -> S -> outcome result.
(** The condition variable on which an operation waits. *)
Variable cond_of : Op -> Cond.

(** A thread outside any operation is [None]. *)
Inductive thread :=
  | Ready (o : Op)              (* about to take the mutex *)
  | Waiting (o : Op).           (* in [Condition::wait] *)

Record state := mk {
  shared : S;
  threads : list (option thread);
  log : list (Op * Ret);        (* finished operations *)
}.

Definition is_waiting (c : Cond) (t : option thread) : bool :=
  match t with Some (Waiting o) => bool_decide (cond_of o = c) | _ => false end.
Definition is_ready (c : Cond) (t : option thread) : bool :=
  match t with Some (Ready o) => bool_decide (cond_of o = c) | _ => false end.

Definition wake (t : option thread) : option thread :=
  match t with Some (Waiting o) => Some (Ready o) | _ => t end.

(** [notify] wakes one of the waiters, if any; [k] chooses it. *)
Definition notify (c : Cond) (k : nat) (ts : list (option thread)) : list (option thread) :=
  let ps := positions (is_waiting c) ts in
  match ps !! (k mod length ps) with
  | Some i => match ts !! i with Some t => <[i := wake t]> ts | None => ts end
  | None => ts
  end.

Definition notifyAll (c : Cond) (ts : list (option thread)) : list (option thread) :=
  map (fun t => if is_waiting c t then wake t else t) ts.

Fixpoint notify_list (notes : list (Cond * bool)) (k : nat) (ts : list (option thread)) : list (option thread) :=
  match notes with
  | [] => ts
  | (c, all) :: notes' => notify_list notes' k (if (all : bool) then notifyAll c ts else notify c k ts)
  end.

Inductive label :=
  | Call (t : nat) (o : Op)     (* thread [t] calls an operation *)
  | Enter (t k : nat)           (* thread [t] gets the mutex *)
  | Spurious (t : nat).         (* the wait of thread [t] ends *)

(** A step that is not possible leaves the state as it is. *)
Definition step (l : label) (s : state) : outcome state :=
  match l with
  | Call t o =>
      match threads s !! t with
      | Some None => Ok (mk (shared s) (<[t := Some (Ready o)]> (threads s)) (log s))
      | _ => Ok s
      end
  | Enter t k =>
      match threads s !! t with
      | Some (Some (Ready o)) =>
          r ← body o (shared s);
          match r with
          | Block => Ok (mk (shared s) (<[t := Some (Waiting o)]> (threads s)) (log s))
          | Done s' notes v => Ok (mk s' (notify_list notes k (<[t := None]> (threads s))) (log s ++ [(o, v)]))
          end
      | _ => Ok s
      end
  | Spurious t =>
      match threads s !! t with
      | Some (Some (Waiting o)) => Ok (mk (shared s) (<[t := Some (Ready o)]> (threads s)) (log s))
      | _ => Ok s
      end
  end.

Fixpoint run (ls : list label) (s : state) : outcome state :=
  match ls with
  | [] => Ok s
  | l :: ls' => s ← step l s; run ls' s
  end.

Definition init (s : S) (n : nat) : state := mk s (replicate n None) [].

(** ** How many threads wait, and how many are on their way *)

Definition waiting (c : Cond) (ts : list (option thread)) : nat := count (is_waiting c) ts.
Definition ready (c : Cond) (ts : list (option thread)) : nat := count (is_ready c) ts.

Lemma waiting_init c n : waiting c (replicate n None) = 0.
Proof. unfold waiting. induction n; cbn; [done|]. lia. Qed.

Lemma notify_spec c k ts c' :
  waiting c' (notify c k ts) = (if bool_decide (c' = c) then pred (waiting c ts) else waiting c' ts) /\
  ready c' (notify c k ts) = (if bool_decide (c' = c) then ready c ts + Nat.min 1 (waiting c ts) else ready c' ts).
Proof.
  unfold notify. set (ps := positions (is_waiting c) ts). destruct (ps !! (k mod length ps)) as [i|] eqn:Hi.
  - assert (i ∈ ps) as Hin by (by eapply list_elem_of_lookup_2). apply positions_spec in Hin as (t & Ht & Hw).
    unfold is_waiting in Hw. destruct t as [[o|o]|]; try done. apply bool_decide_eq_true in Hw.
    rewrite Ht. cbn [wake].
    pose proof (count_insert (is_waiting c') ts i _ (Some (Ready o)) Ht) as H1.
    pose proof (count_insert (is_ready c') ts i _ (Some (Ready o)) Ht) as H2. cbn [is_waiting is_ready] in H1, H2.
    assert (0 < waiting c ts) as Hpos.
    { apply count_pos. exists i, (Some (Waiting o)). split; [done|]. by apply bool_decide_eq_true_2. }
    fold (waiting c' ts) (ready c' ts) in H1, H2. unfold waiting at 1, ready at 1.
    destruct (decide (c' = c)) as [->|E].
    + rewrite (bool_decide_eq_true_2 (c = c)) by done. rewrite (bool_decide_eq_true_2 (cond_of o = c)) in H1, H2 by done.
      cbn [Nat.b2n] in H1, H2. lia.
    + rewrite (bool_decide_eq_false_2 (c' = c)) by done. rewrite (bool_decide_eq_false_2 (cond_of o = c')) in H1, H2 by congruence.
      cbn [Nat.b2n] in H1, H2. lia.
  - assert (waiting c ts = 0) as E.
    { destruct (decide (0 < waiting c ts)) as [Hp|]; [|lia]. exfalso. apply count_pos in Hp as (i & x & Hx & Hw).
      assert (i ∈ ps) as Hin by (apply positions_spec; eauto). apply lookup_ge_None in Hi.
      assert (length ps <> 0) by (destruct ps; [by apply elem_of_nil in Hin|done]). pose proof (Nat.mod_upper_bound k (length ps)). lia. }
    case_bool_decide; subst; rewrite ?E; lia.
Qed.

Lemma notifyAll_spec c ts c' :
  waiting c' (notifyAll c ts) = (if bool_decide (c' = c) then 0 else waiting c' ts) /\
  ready c' (notifyAll c ts) = (if bool_decide (c' = c) then ready c ts + waiting c ts else ready c' ts).
Proof.
  unfold notifyAll, waiting, ready. rewrite !count_map. destruct (decide (c' = c)) as [->|E].
  - rewrite (bool_decide_eq_true_2 (c = c)) by done. split.
    + apply count_none. intros [[o|o]|]; cbn; try done. destruct (bool_decide (cond_of o = c)) eqn:Eo; cbn; by rewrite ?Eo.
    + apply count_split. intros [[o|o]|]; cbn; try lia; destruct (bool_decide (cond_of o = c)) eqn:Eo; cbn; rewrite ?Eo; done.
  - rewrite (bool_decide_eq_false_2 (c' = c)) by done. split; apply count_ext; intros [[o|o]|]; cbn; try done;
      destruct (bool_decide (cond_of o = c)) eqn:Eo; cbn; try done; apply bool_decide_eq_true in Eo;
      by rewrite bool_decide_eq_false_2 by congruence.
Qed.

Lemma set_thread ts t x y c :
  ts !! t = Some x ->
  waiting c (<[t := y]> ts) + Nat.b2n (is_waiting c x) = waiting c ts + Nat.b2n (is_waiting c y) /\
  ready c (<[t := y]> ts) + Nat.b2n (is_ready c x) = ready c ts + Nat.b2n (is_ready c y).
Proof. intros Ht. split; by apply count_insert. Qed.

(** ** Invariants *)

(** What each kind of step does to the numbers of waiting and ready threads. *)
Definition b (P : Prop) `{Decision P} : nat := Nat.b2n (bool_decide P).

Inductive effect (s s' : state) : Prop :=
  | effect_none : s' = s -> effect s s'
  | effect_ready o :            (* a call, or the end of a wait *)
      shared s' = shared s -> log s' = log s ->
      (forall c, waiting c (threads s') <= waiting c (threads s) /\
                 ready c (threads s') = ready c (threads s) + b (cond_of o = c)) -> effect s s'
  | effect_block o :
      body o (shared s) = Ok Block -> shared s' = shared s -> log s' = log s ->
      (forall c, waiting c (threads s') = waiting c (threads s) + b (cond_of o = c) /\
                 ready c (threads s') + b (cond_of o = c) = ready c (threads s)) -> effect s s'
  | effect_done o notes v k ts :
      body o (shared s) = Ok (Done (shared s') notes v) -> log s' = log s ++ [(o, v)] ->
      threads s' = notify_list notes k ts ->
      (forall c, waiting c ts = waiting c (threads s) /\
                 ready c ts + b (cond_of o = c) = ready c (threads s)) -> effect s s'.

Lemma step_effect l s s' : step l s = Ok s' -> effect s s'.
Proof.
  destruct l as [t o|t k|t]; cbn [step].
  - destruct (threads s !! t) as [[th|]|] eqn:Ht; intros Hs; try (injection Hs as <-; by apply effect_none).
    injection Hs as <-. apply (effect_ready _ _ o); try done. intros c. cbn [threads].
    destruct (set_thread _ t _ (Some (Ready o)) c Ht) as [H1 H2]. cbn [is_waiting is_ready] in H1, H2. change (Nat.b2n false) with 0 in *. unfold b. lia.
  - destruct (threads s !! t) as [[[o|o]|]|] eqn:Ht; intros Hs; try (injection Hs as <-; by apply effect_none).
    apply bind_Ok in Hs as ([|sh notes v] & Hb & Hs); injection Hs as <-.
    + apply (effect_block _ _ o); try done. intros c. cbn [threads].
      destruct (set_thread _ t _ (Some (Waiting o)) c Ht) as [H1 H2]. cbn [is_waiting is_ready] in H1, H2. change (Nat.b2n false) with 0 in *. unfold b. lia.
    + apply (effect_done _ _ o notes v k (<[t := None]> (threads s))); try done. intros c.
      destruct (set_thread _ t _ None c Ht) as [H1 H2]. cbn [is_waiting is_ready] in H1, H2. change (Nat.b2n false) with 0 in *. unfold b. lia.
  - destruct (threads s !! t) as [[[o|o]|]|] eqn:Ht; intros Hs; try (injection Hs as <-; by apply effect_none).
    injection Hs as <-. apply (effect_ready _ _ o); try done. intros c. cbn [threads].
    destruct (set_thread _ t _ (Some (Ready o)) c Ht) as [H1 H2]. cbn [is_waiting is_ready] in H1, H2. change (Nat.b2n false) with 0 in *. unfold b. lia.
Qed.

(** A step fails only if the operation that runs does. *)
Lemma step_returns l s : (forall o, exists r, body o (shared s) = Ok r) -> exists s', step l s = Ok s'.
Proof.
  intros Hb. destruct l as [t o|t k|t]; cbn [step]; destruct (threads s !! t) as [[[o'|o']|]|]; eauto.
  destruct (Hb o') as (r & ->). cbn [mbind outcome_bind]. destruct r; eauto.
Qed.

(** An invariant of the shared state, the log and the thread counts, which may
    depend on the number of steps still to come, holds in every run, and the run
    does not fail. *)
Lemma run_invariant (I : nat -> state -> Prop) ls s :
  I (length ls) s -> (forall n s, I (1 + n) s -> forall o, exists r, body o (shared s) = Ok r) ->
  (forall n s s', I (1 + n) s -> effect s s' -> I n s') -> exists s', run ls s = Ok s' /\ I 0 s'.
Proof.
  intros Hi Hr He. revert s Hi. induction ls as [|l ls IH]; intros s Hi; cbn; [by exists s|].
  destruct (step_returns l s (Hr _ s Hi)) as (s1 & Hs). rewrite Hs. cbn [mbind outcome_bind]. apply IH.
  eapply He; [done|]. by eapply step_effect.
Qed.

End Machine.

Ltac count_lia := unfold b in *; decide_conds; cbn [Nat.b2n] in *; lia.

Arguments Block {S Ret Cond}.
Arguments Done {S Ret Cond} s notes r.
End Monitor.
