(* ===== verification/Atomic.v ===== *)
(** * Atomic integers

    base/Atomic.h: AtomicIntegerT over the compiler's atomic builtins, which the
    calls of Rpc.v and the threads of Thread.v are numbered with. *)

From S2P Require Import Prelude.

Local Open Scope Z_scope.

Module AtomicIntegerT.
Section AtomicIntegerT.

(** The width of T: 32 or 64. *)
Context (w : Z).

(** A signed expression of type T that cannot be represented is undefined. *)
Definition ck (z : Z) : outcome Z :=
  if (- 2 ^ (w - 1) <=? z) && (z <? 2 ^ (w - 1)) then Ok z else Fault SignedOverflow.

(** Each operation gives its result and the new value_; the atomic builtins
    wrap around, the arithmetic on their results does not. *)
Definition initial : Z := 0.
Definition get (value : Z) : Z * Z := (value, value).
Definition getAndAdd (x value : Z) : Z * Z := (value, wrap_s w (value + x)).
Definition addAndGet (x value : Z) : outcome (Z * Z) :=
  let '(old, value) := getAndAdd x value in r ← ck (old + x); Ok (r, value).
Definition incrementAndGet (value : Z) : outcome (Z * Z) := addAndGet 1 value.
Definition decrementAndGet (value : Z) : outcome (Z * Z) := addAndGet (-1) value.
Definition add (x value : Z) : Z := snd (getAndAdd x value).
Definition increment (value : Z) : outcome Z := p ← incrementAndGet value; Ok (snd p).
Definition decrement (value : Z) : outcome Z := p ← decrementAndGet value; Ok (snd p).
Definition getAndSet (newValue value : Z) : Z * Z := (value, newValue).

End AtomicIntegerT.

Lemma incrementAndGet_Ok w value :
  0 < w -> - 2 ^ (w - 1) <= value -> value + 1 < 2 ^ (w - 1) ->
  incrementAndGet w value = Ok (value + 1, value + 1).
Proof.
  intros Hw Hlo Hhi. unfold incrementAndGet, addAndGet, getAndAdd, ck.
  rewrite (proj2 (Z.leb_le _ _)), (proj2 (Z.ltb_lt _ _)) by lia.
  cbn. by rewrite wrap_s_small by lia.
Qed.

End AtomicIntegerT.
