(* ===== verification/Mutex.v ===== *)
(** * Mutexes and threads

    base/Mutex.h ([Module MutexLock]): a pthread mutex with the id of its holder,
    step by step, and base/Condition.h's wait, which gives the mutex up and
    takes it again; [Module Condition]: the deadline of waitForSeconds.  The machine of Monitor.v, on which the queues and latches
    are verified, takes these steps as one; here is why assertLocked may be
    used in them. *)

From S2P Require Import Prelude Monitor.

Local Open Scope Z_scope.

Module MutexLock.

(** Where a thread is: outside; in lock() between pthread_mutex_lock and
    assignHolder; in the critical section; in unlock() after unassignHolder; in
    Condition::wait before, in and after pthread_cond_wait. *)
Inductive pc := Out | Locking | In_ | Unlocking | WaitBegin | WaitBlocked | WaitEnd.

#[global] Instance pc_eq_dec : EqDecision pc.
Proof. solve_decision. Defined.

(** The pthread mutex with the thread that owns it, [holder_], and the threads. *)
Record t := mk { mutex_ : option nat; holder_ : Z; pcs : list pc }.

Definition new (threads : nat) : t := mk None 0 (replicate threads Out).

Section Mutex.
(** The ids of the threads *)
Variable tid : nat -> Z.

Definition isLockedByThisThread (i : nat) (s : t) : bool := holder_ s =? tid i.
Definition assertLocked (i : nat) (s : t) : outcome unit := assert (isLockedByThisThread i s).

Definition assignHolder (i : nat) (s : t) : t := mk (mutex_ s) (tid i) (pcs s).
Definition unassignHolder (s : t) : t := mk (mutex_ s) 0 (pcs s).
Definition goto (i : nat) (p : pc) (s : t) : t := mk (mutex_ s) (holder_ s) (<[i := p]> (pcs s)).

(** pthread_mutex_lock blocks while the mutex is owned; MCHECK asserts that
    pthread_mutex_unlock and pthread_cond_wait find their own thread as owner. *)
Definition take (i : nat) (p : pc) (s : t) : t :=
  match mutex_ s with None => goto i p (mk (Some i) (holder_ s) (pcs s)) | Some _ => s end.
Definition give (i : nat) (p : pc) (s : t) : outcome t :=
  _ ← assert (bool_decide (mutex_ s = Some i)); Ok (goto i p (mk None (holder_ s) (pcs s))).

Inductive action := Lock | Unlock | Wait | Next.

(** One step of thread [i]: it calls an operation, or goes on in one. *)
Definition step (i : nat) (a : action) (s : t) : outcome t :=
  match pcs s !! i, a with
  | Some Out, Lock => Ok (take i Locking s)
  | Some Locking, Next => Ok (goto i In_ (assignHolder i s))
  | Some In_, Unlock => Ok (goto i Unlocking (unassignHolder s))
  | Some Unlocking, Next => give i Out s
  | Some In_, Wait => Ok (goto i WaitBegin (unassignHolder s))     (* UnassignGuard *)
  | Some WaitBegin, Next => give i WaitBlocked s
  | Some WaitBlocked, Next => Ok (take i WaitEnd s)
  | Some WaitEnd, Next => Ok (goto i In_ (assignHolder i s))       (* ~UnassignGuard *)
  | _, _ => Ok s
  end.

Fixpoint run (ls : list (nat * action)) (s : t) : outcome t :=
  match ls with [] => Ok s | (i, a) :: ls => s ← step i a s; run ls s end.

(** The destructor *)
Definition destroy (s : t) : outcome unit :=
  _ ← assert (holder_ s =? 0); assert (bool_decide (mutex_ s = None)).

(** ** The holder *)

Definition owns (p : pc) : bool := match p with Out | WaitBlocked => false | _ => true end.

Record inv (s : t) : Prop := {
  inv_owner i p : pcs s !! i = Some p -> owns p = true -> mutex_ s = Some i;
  inv_taken i : mutex_ s = Some i -> exists p, pcs s !! i = Some p /\ owns p = true;
  inv_holder : holder_ s = match mutex_ s with
                           | Some i => if decide (pcs s !! i = Some In_) then tid i else 0
                           | None => 0 end;
}.

Lemma inv_new n : inv (new n).
Proof.
  constructor; cbn; try done. intros i p Hi. apply lookup_replicate in Hi as [-> _]. done.
Qed.

(** A thread that has the mutex goes on inside it. *)
Lemma mutex_inside_inv i p q h s :
  inv s -> pcs s !! i = Some p -> owns p = true -> owns q = true -> h = (if decide (q = In_) then tid i else 0) ->
  inv (goto i q (mk (mutex_ s) h (pcs s))).
Proof.
  intros [H1 H2 H3] Hi Hp Hq Hh. pose proof (H1 i p Hi Hp) as Hm. pose proof (lookup_lt_Some _ _ _ Hi) as Hlt.
  constructor; cbn.
  - intros j r. destruct (decide (i = j)) as [<-|Hne]; [done|]. rewrite list_lookup_insert_ne by done. apply H1.
  - intros j Hj. rewrite Hm in Hj. injection Hj as <-. exists q. by rewrite list_lookup_insert_eq.
  - rewrite Hm, list_lookup_insert_eq, Hh by done. destruct (decide (q = In_)), (decide (Some q = Some In_)); congruence.
Qed.

Lemma mutex_take_inv i p q s : inv s -> pcs s !! i = Some p -> owns p = false -> owns q = true -> q <> In_ -> inv (take i q s).
Proof.
  intros [H1 H2 H3] Hi Hp Hq Hn. unfold take. destruct (mutex_ s) as [j|] eqn:Em; [by constructor; rewrite ?Em|].
  pose proof (lookup_lt_Some _ _ _ Hi) as Hlt. constructor; cbn.
  - intros j r. destruct (decide (i = j)) as [<-|Hne]; [done|]. rewrite list_lookup_insert_ne by done. intros Hj Hr.
    by specialize (H1 j r Hj Hr).
  - intros j [= <-]. exists q. by rewrite list_lookup_insert_eq.
  - rewrite list_lookup_insert_eq by done. rewrite H3. by destruct (decide (Some q = Some In_)) as [[= ->]|].
Qed.

Lemma mutex_give_inv i p q s :
  inv s -> pcs s !! i = Some p -> owns p = true -> p <> In_ -> owns q = false -> exists s', give i q s = Ok s' /\ inv s'.
Proof.
  intros [H1 H2 H3] Hi Hp Hn Hq. pose proof (H1 i p Hi Hp) as Hm. pose proof (lookup_lt_Some _ _ _ Hi) as Hlt.
  unfold give. rewrite Hm, bool_decide_eq_true_2 by done. cbn [assert mbind outcome_bind]. eexists. split; [done|]. constructor; cbn.
  - intros j r. destruct (decide (i = j)) as [<-|Hne].
    + rewrite list_lookup_insert_eq by done. intros [= <-]. congruence.
    + rewrite list_lookup_insert_ne by done. intros Hj Hr. pose proof (H1 j r Hj Hr). congruence.
  - done.
  - rewrite H3, Hm, decide_False by congruence. done.
Qed.

Lemma step_inv_mutex i a s : inv s -> exists s', step i a s = Ok s' /\ inv s'.
Proof.
  intros Hi. unfold step. destruct (pcs s !! i) as [p|] eqn:E; [|by exists s].
  destruct p, a; try (by exists s); try (by eapply mutex_give_inv); eexists; (split; [done|]);
    first [by eapply mutex_take_inv | by eapply (mutex_inside_inv i _ _ (tid i)) | by eapply (mutex_inside_inv i _ _ 0)].
Qed.

Lemma run_inv_mutex ls s : inv s -> exists s', run ls s = Ok s' /\ inv s'.
Proof.
  revert s. induction ls as [|[i a] ls IH]; intros s Hi; [by exists s|]. cbn [run].
  destruct (step_inv_mutex i a s Hi) as (s1 & -> & H1). cbn [mbind outcome_bind]. by apply IH.
Qed.

(** C34: However threads lock, unlock and wait, no check fails; at most one of them
    has the mutex; [isLockedByThisThread] says exactly whether the caller is in
    its critical section, so that [assertLocked] passes there; and when all
    are outside, the mutex may be destroyed. *)
Theorem mutex_holder n ls :
  (forall i, 0 < tid i) -> (forall i j, tid i = tid j -> i = j) ->
  exists s, run ls (new n) = Ok s /\
    (forall i j p q, pcs s !! i = Some p -> pcs s !! j = Some q -> owns p = true -> owns q = true -> i = j) /\
    (forall i, isLockedByThisThread i s = true <-> pcs s !! i = Some In_) /\
    (Forall (fun p => p = Out) (pcs s) -> destroy s = Ok tt).
Proof.
  intros Hpos Hinj. destruct (run_inv_mutex ls (new n) (inv_new n)) as (s & Hs & [H1 H2 H3]). exists s. split; [done|]. split_and!.
  - intros i j p q Hi Hj Hp Hq. pose proof (H1 i p Hi Hp). pose proof (H1 j q Hj Hq). congruence.
  - intros i. unfold isLockedByThisThread. rewrite Z.eqb_eq, H3. split.
    + destruct (mutex_ s) as [j|]; [|specialize (Hpos i); lia]. case_decide as Hd; [|specialize (Hpos i); lia].
      intros E. apply Hinj in E as <-. done.
    + intros Hi. rewrite (H1 i In_ Hi eq_refl), decide_True by done. done.
  - intros Hall. assert (mutex_ s = None) as Hm.
    { destruct (mutex_ s) as [i|]; [|done]. destruct (H2 i eq_refl) as (p & Hi & Hp). rewrite list.Forall_forall in Hall.
      rewrite (Hall p) in Hp; [done|]. by eapply list_elem_of_lookup_2. }
    unfold destroy. rewrite H3, Hm. done.
Qed.

End Mutex.

Lemma mutex_holder_witness :
  exists s, run (fun i => Z.of_nat i + 100) [(0%nat, Lock); (1%nat, Lock); (0%nat, Next); (0%nat, Wait); (0%nat, Next); (1%nat, Lock); (1%nat, Next)] (new 2) = Ok s /\
    (forall i j p q, pcs s !! i = Some p -> pcs s !! j = Some q -> owns p = true -> owns q = true -> i = j) /\
    (forall i, isLockedByThisThread (fun i => Z.of_nat i + 100) i s = true <-> pcs s !! i = Some In_) /\
    (Forall (fun p => p = Out) (pcs s) -> destroy s = Ok tt).
Proof. apply mutex_holder; intros; lia. Defined.

End MutexLock.

Module Condition.

Definition ETIMEDOUT : Z := 110.
Definition kNanoSecondsPerSecond : Z := 1000000000.

(** The absolute time at which the wait ends, as seconds and nanoseconds, from the
    time of the clock and the seconds to wait in nanoseconds. *)
Definition abstime (tv_sec tv_nsec nanoseconds : Z) : outcome (Z * Z) :=
  sum ← ck64 (tv_nsec + nanoseconds);
  tv_sec' ← ck64 (tv_sec + Z.quot sum kNanoSecondsPerSecond);
  Ok (tv_sec', Z.rem sum kNanoSecondsPerSecond).

(** [bool waitForSeconds(double seconds)] between giving up the holder of the
    mutex and assigning it again (steps of [MutexLock]); [timedwait] is
    pthread_cond_timedwait(3) with its result. *)
Definition waitForSeconds (timedwait : Z * Z -> Z) (now : Z * Z) (nanoseconds : Z) : outcome bool :=
  t ← abstime (now.1) (now.2) nanoseconds;
  Ok (ETIMEDOUT =? timedwait t).

(** A wait of no less than no time ends exactly that much later, at a time that
    pthread accepts; its result says whether the time was over. *)
Theorem wait_deadline timedwait tv_sec tv_nsec nanoseconds :
  0 <= tv_sec < 2 ^ 62 -> 0 <= tv_nsec < kNanoSecondsPerSecond -> 0 <= nanoseconds < 2 ^ 62 ->
  exists sec nsec, waitForSeconds timedwait (tv_sec, tv_nsec) nanoseconds = Ok (ETIMEDOUT =? timedwait (sec, nsec)) /\
    0 <= nsec < kNanoSecondsPerSecond /\
    sec * kNanoSecondsPerSecond + nsec = tv_sec * kNanoSecondsPerSecond + tv_nsec + nanoseconds.
Proof.
  intros Hs Hn Hd. unfold waitForSeconds, abstime, kNanoSecondsPerSecond in *. cbn [fst snd].
  rewrite ck64_Ok by (unfold INT64_MIN, INT64_MAX; lia). cbn [mbind outcome_bind].
  pose proof (Z.quot_rem' (tv_nsec + nanoseconds) 1000000000). pose proof (Z.rem_bound_pos (tv_nsec + nanoseconds) 1000000000 ltac:(lia) ltac:(lia)).
  rewrite ck64_Ok by (unfold INT64_MIN, INT64_MAX; lia). cbn [mbind outcome_bind].
  eexists _, _. split; [done|]. lia.
Qed.

Lemma wait_deadline_witness :
  exists sec nsec, waitForSeconds (fun _ => ETIMEDOUT) (1700000000, 900000000) 3200000000 = Ok true /\
    0 <= nsec < kNanoSecondsPerSecond /\ sec * kNanoSecondsPerSecond + nsec = 1700000000 * kNanoSecondsPerSecond + 900000000 + 3200000000.
Proof. apply (wait_deadline (fun _ => ETIMEDOUT) 1700000000 900000000 3200000000); unfold kNanoSecondsPerSecond; lia. Defined.

(** A wait for a negative time whose nanoseconds do not come out even is given to
    pthread with negative nanoseconds, which it refuses with EINVAL: the result
    says that the time was not over. *)
Theorem negative_wait_no_timeout timedwait tv_sec tv_nsec nanoseconds :
  (forall s n, n < 0 \/ kNanoSecondsPerSecond <= n -> timedwait (s, n) = 22) ->
  0 <= tv_sec < 2 ^ 62 -> 0 <= tv_nsec < kNanoSecondsPerSecond -> - 2 ^ 62 < nanoseconds < - tv_nsec ->
  Z.rem (tv_nsec + nanoseconds) kNanoSecondsPerSecond <> 0 ->
  waitForSeconds timedwait (tv_sec, tv_nsec) nanoseconds = Ok false.
Proof.
  intros Ht Hs Hn Hd Hr. unfold waitForSeconds, abstime, kNanoSecondsPerSecond in *. cbn [fst snd].
  rewrite ck64_Ok by (unfold INT64_MIN, INT64_MAX; lia). cbn [mbind outcome_bind].
  pose proof (Z.quot_rem' (tv_nsec + nanoseconds) 1000000000).
  pose proof (Z.rem_bound_pos_neg (tv_nsec + nanoseconds) 1000000000 ltac:(lia) ltac:(lia)).
  rewrite ck64_Ok by (unfold INT64_MIN, INT64_MAX; lia). cbn [mbind outcome_bind]. rewrite Ht by lia. done.
Qed.

Lemma negative_wait_no_timeout_witness :
  waitForSeconds (fun t => if (0 <=? t.2) && (t.2 <? kNanoSecondsPerSecond) then ETIMEDOUT else 22) (1700000000, 5) (-1500000000) = Ok false.
Proof.
  apply (negative_wait_no_timeout (fun t => if (0 <=? t.2) && (t.2 <? kNanoSecondsPerSecond) then ETIMEDOUT else 22)); try (unfold kNanoSecondsPerSecond; lia).
  - intros s n H. cbn [snd]. destruct (Z.leb_spec 0 n), (Z.ltb_spec n kNanoSecondsPerSecond); [lia|done..].
  - by vm_compute.
Defined.

End Condition.
