(* ===== verification/Concurrency.v ===== *)
(** * Queues, latch and thread pool

    The monitors of src/muduo/base: BlockingQueue.h, BoundedBlockingQueue.h,
    CountDownLatch.cc and ThreadPool.cc, as operations for the machine of
    Monitor.v, each with its correctness for any number of threads. *)

From S2P Require Import Prelude Monitor.

Import Monitor.

(** ** BlockingQueue *)

Module BlockingQueue.
Section Queue.
Context {T : Type}.

Inductive op := Put (x : T) | Take | Drain | Size.
Inductive ret := Unit | Item (x : T) | Items (l : list T) | Count (n : nat).
Inductive cond := NotEmpty | NoWait.

#[global] Instance cond_eq_dec : EqDecision cond.
Proof. solve_decision. Defined.

Definition cond_of (o : op) : cond := match o with Take => NotEmpty | _ => NoWait end.

Definition queue_type : Type := list T.

Definition put (x : T) (q : queue_type) : outcome (@result queue_type ret cond) :=
  Ok (Done (q ++ [x]) [(NotEmpty, false)] Unit).

Definition take (q : queue_type) : outcome (@result queue_type ret cond) :=
  match q with
  | [] => Ok Block
  | front :: q' => _ ← assert (negb (length q =? 0)); Ok (Done q' [] (Item front))
  end.

Definition drain (q : queue_type) : outcome (@result queue_type ret cond) := Ok (Done [] [] (Items q)).

Definition size (q : queue_type) : outcome (@result queue_type ret cond) := Ok (Done q [] (Count (length q))).

Definition body (o : op) (q : queue_type) : outcome (@result queue_type ret cond) :=
  match o with Put x => put x q | Take => take q | Drain => drain q | Size => size q end.

(** What was put in and what was taken out, by the finished operations. *)
Definition puts (l : list (op * ret)) : list T := omap (fun x => match x.1 with Put v => Some v | _ => None end) l.
Definition taken (l : list (op * ret)) : list T :=
  concat (map (fun x => match x.2 with Item v => [v] | Items vs => vs | _ => [] end) l).

Local Abbreviation state := (@Monitor.state queue_type op ret).

Definition inv (s : state) : Prop :=
  puts (log s) = taken (log s) ++ shared s /\
  (0 < waiting cond_of NotEmpty (threads s) -> length (shared s) <= ready cond_of NotEmpty (threads s)).

Lemma puts_app l x : puts (l ++ [x]) = puts l ++ puts [x].
Proof. apply omap_app. Qed.

Lemma taken_app l x : taken (l ++ [x]) = taken l ++ taken [x].
Proof. unfold taken. by rewrite map_app, concat_app. Qed.

Lemma queue_inv_effect s s' : inv s -> effect body cond_of s s' -> inv s'.
Proof.
  intros [Hf Hw] [->|o E1 E2 Hc|o Hb E1 E2 Hc|o notes v k ts Hb E2 E3 Hc]; [done|..].
  - unfold inv. rewrite E1, E2. split; [done|]. destruct (Hc NotEmpty) as [H1 H2]. lia.
  - unfold inv. rewrite E1, E2. split; [done|]. destruct o; cbn in Hb; try done. unfold take in Hb. destruct (shared s); [cbn; lia|done].
  - unfold inv. rewrite E2, E3, puts_app, taken_app. destruct (Hc NotEmpty) as [H1 H2]. destruct o; cbn in Hb.
    + injection Hb as <- <- <-. split; [by rewrite Hf, app_nil_r, <- app_assoc|]. cbn [notify_list].
      destruct (notify_spec cond_of NotEmpty k ts NotEmpty) as [-> ->]. rewrite length_app. cbn [length]. count_lia.
    + unfold take in Hb. destruct (shared s) as [|x q] eqn:Eq; [done|]. cbn in Hb. injection Hb as <- <- <-.
      split; [by rewrite Hf, app_nil_r, <- app_assoc|]. cbn [notify_list length] in *. count_lia.
    + injection Hb as <- <- <-. split; [rewrite Hf; unfold taken; cbn; by rewrite !app_nil_r|]. cbn [length]. count_lia.
    + injection Hb as <- <- <-. split; [by rewrite Hf, !app_nil_r|]. cbn [notify_list]. count_lia.
Qed.

Lemma queue_body_returns o q : exists r, body o q = Ok r.
Proof. destruct o; cbn; eauto. destruct q; cbn; eauto. Qed.

Lemma queue_run_inv ls n : exists s, run body cond_of ls (init [] n) = Ok s /\ inv s.
Proof.
  apply (run_invariant body cond_of (fun _ => inv)).
  - split; [done|]. unfold init. cbn [threads]. rewrite waiting_init. lia.
  - intros _ s _ o. apply queue_body_returns.
  - intros _ s s'. apply queue_inv_effect.
Qed.

(** C10: A blocking queue shared by any number of threads is first-in
    first-out and loses nothing: the items put in are, in order, those taken out
    and those still in the queue.  No consumer sleeps on: when one waits and the
    queue is not empty, at least as many consumers as there are items have
    been woken up or are about to enter. *)
Theorem blocking_queue_correct ls n :
  exists s, run body cond_of ls (init [] n) = Ok s /\
    puts (log s) = taken (log s) ++ shared s /\
    (0 < waiting cond_of NotEmpty (threads s) -> length (shared s) <= ready cond_of NotEmpty (threads s)).
Proof. destruct (queue_run_inv ls n) as (s & Hr & Hi). exists s. split; [done|exact Hi]. Qed.

End Queue.
Arguments op : clear implicits.
Arguments ret : clear implicits.
End BlockingQueue.

(** ** BoundedBlockingQueue *)

Module BoundedBlockingQueue.
Section Queue.
Context {T : Type}.

Inductive op := Put (x : T) | Take | Empty | Full | Size | Capacity.
Inductive ret := Unit | Item (x : T) | Bool (b : bool) | Count (n : nat).
Inductive cond := NotEmpty | NotFull | NoWait.

#[global] Instance cond_eq_dec : EqDecision cond.
Proof. solve_decision. Defined.

Definition cond_of (o : op) : cond := match o with Take => NotEmpty | Put _ => NotFull | _ => NoWait end.

(** [boost::circular_buffer]: its capacity and its elements. *)
Record t := mk { capacity_ : nat; queue_ : list T }.

(** The constructor; a negative size is a huge [size_t]. *)
Definition new (maxSize : Z) : outcome t :=
  if (maxSize <? 0)%Z then Fault LengthError else Ok (mk (Z.to_nat maxSize) []).

Definition is_full (s : t) : bool := length (queue_ s) =? capacity_ s.

Definition put (x : T) (s : t) : outcome (@result t ret cond) :=
  if is_full s then Ok Block
  else _ ← assert (negb (is_full s)); Ok (Done (mk (capacity_ s) (queue_ s ++ [x])) [(NotEmpty, false)] Unit).

Definition take (s : t) : outcome (@result t ret cond) :=
  match queue_ s with
  | [] => Ok Block
  | front :: q' => _ ← assert (negb (length (queue_ s) =? 0)); Ok (Done (mk (capacity_ s) q') [(NotFull, false)] (Item front))
  end.

Definition empty (s : t) : outcome (@result t ret cond) := Ok (Done s [] (Bool (length (queue_ s) =? 0))).
Definition full (s : t) : outcome (@result t ret cond) := Ok (Done s [] (Bool (is_full s))).
Definition size (s : t) : outcome (@result t ret cond) := Ok (Done s [] (Count (length (queue_ s)))).
Definition capacity (s : t) : outcome (@result t ret cond) := Ok (Done s [] (Count (capacity_ s))).

Definition body (o : op) (s : t) : outcome (@result t ret cond) :=
  match o with
  | Put x => put x s
  | Take => take s
  | Empty => empty s
  | Full => full s
  | Size => size s
  | Capacity => capacity s
  end.

Definition puts (l : list (op * ret)) : list T := omap (fun x => match x.1 with Put v => Some v | _ => None end) l.
Definition taken (l : list (op * ret)) : list T := omap (fun x => match x.2 with Item v => Some v | _ => None end) l.

Local Abbreviation state := (@Monitor.state t op ret).

Definition inv (cap : nat) (s : state) : Prop :=
  capacity_ (shared s) = cap /\ length (queue_ (shared s)) <= cap /\
  puts (log s) = taken (log s) ++ queue_ (shared s) /\
  (0 < waiting cond_of NotEmpty (threads s) -> length (queue_ (shared s)) <= ready cond_of NotEmpty (threads s)) /\
  (0 < waiting cond_of NotFull (threads s) -> cap - length (queue_ (shared s)) <= ready cond_of NotFull (threads s)).

Lemma bounded_log_app l x : puts (l ++ [x]) = puts l ++ puts [x] /\ taken (l ++ [x]) = taken l ++ taken [x].
Proof. split; apply omap_app. Qed.

Lemma bounded_inv_effect cap s s' : inv cap s -> effect body cond_of s s' -> inv cap s'.
Proof.
  intros (Hcap & Hlen & Hf & Hw & Hw') [->|o E1 E2 Hc|o Hb E1 E2 Hc|o notes v k ts Hb E2 E3 Hc]; [done|..];
    try (destruct (Hc NotEmpty) as [H1 H2], (Hc NotFull) as [H3 H4]).
  - unfold inv. rewrite E1, E2. split_and!; try done; lia.
  - unfold inv. rewrite E1, E2. destruct o; cbn [body] in Hb; try done.
    + unfold put, is_full in Hb. destruct (Nat.eqb_spec (length (queue_ (shared s))) (capacity_ (shared s))); [|done].
      split_and!; try done; count_lia.
    + unfold take in Hb. destruct (queue_ (shared s)); [|done]. cbn [length] in *. split_and!; try done; count_lia.
  - unfold inv. rewrite E2, E3. destruct (bounded_log_app (log s) (o, v)) as [-> ->].
    destruct o; cbn in Hb; try (injection Hb as <- <- <-; rewrite Hf, !app_nil_r; cbn [notify_list]; split_and!; try done; count_lia).
    + unfold put, is_full in Hb. destruct (Nat.eqb_spec (length (queue_ (shared s))) (capacity_ (shared s))); [done|].
      cbn in Hb. injection Hb as <- <- <-. cbn [notify_list capacity_ queue_].
      destruct (notify_spec cond_of NotEmpty k ts NotEmpty) as [-> ->], (notify_spec cond_of NotEmpty k ts NotFull) as [-> ->].
      rewrite length_app, Hf, app_nil_r, <- app_assoc. cbn [length] in *. split_and!; try done; count_lia.
    + unfold take in Hb. destruct (queue_ (shared s)) as [|x q] eqn:Eq; [done|]. cbn in Hb. injection Hb as <- <- <-.
      cbn [notify_list capacity_ queue_].
      destruct (notify_spec cond_of NotFull k ts NotEmpty) as [-> ->], (notify_spec cond_of NotFull k ts NotFull) as [-> ->].
      rewrite Hf, app_nil_r, <- app_assoc. cbn [length] in *. split_and!; try done; count_lia.
Qed.

Lemma bounded_body_returns o s : exists r, body o s = Ok r.
Proof.
  destruct o; cbn; eauto.
  - unfold put. destruct (is_full s); cbn; eauto.
  - unfold take. destruct (queue_ s); cbn; eauto.
Qed.

(** C33: A bounded queue shared by any number of threads never holds more
    than its capacity, is first-in first-out, and no producer or consumer
    sleeps on: when a consumer waits, as many consumers as there are items are on
    their way, and when a producer waits, as many producers as there is room. *)
Theorem bounded_queue_correct maxSize ls n :
  (0 <= maxSize)%Z ->
  exists q0 s, new maxSize = Ok q0 /\ run body cond_of ls (init q0 n) = Ok s /\ inv (Z.to_nat maxSize) s.
Proof.
  intros Hm. unfold new. rewrite (proj2 (Z.ltb_ge _ _)) by lia. eexists.
  destruct (run_invariant body cond_of (fun _ => inv (Z.to_nat maxSize)) ls (init (mk (Z.to_nat maxSize) []) n)) as (s & Hr & Hi).
  - unfold inv, init. cbn [threads shared log queue_ capacity_ length]. rewrite !waiting_init. split_and!; try done; lia.
  - intros _ s _ o. apply bounded_body_returns.
  - intros _ s s'. apply bounded_inv_effect.
  - by exists s.
Qed.

End Queue.
Arguments op : clear implicits.
Arguments ret : clear implicits.

(** A queue of one place: the second producer waits until a consumer takes. *)
Definition two_producers : list (@label (op nat)) :=
  [Call 0 (Put 7); Enter 0 0; Call 1 (Put 8); Enter 1 0; Call 2 Take; Enter 2 1; Enter 1 0].

Lemma bounded_queue_correct_witness :
  exists q0 s, new 1 = Ok q0 /\ run body cond_of two_producers (init q0 3) = Ok s /\
    inv 1 s /\ log s = [(Put 7, Unit); (Take, Item 7); (Put 8, Unit)].
Proof.
  destruct (bounded_queue_correct (T := nat) 1 two_producers 3) as (q0 & s & Hq & Hs & Hi); [vm_compute; congruence|].
  exists q0, s. split_and!; [exact Hq|exact Hs|exact Hi|]. injection Hq as <-. vm_compute in Hs. by injection Hs as <-.
Defined.

End BoundedBlockingQueue.

(** ** CountDownLatch *)

Module CountDownLatch.

Inductive op := Wait | CountDown | GetCount.
Inductive ret := Unit | Count (n : Z).
Inductive cond := Condition | NoWait.

#[global] Instance cond_eq_dec : EqDecision cond.
Proof. solve_decision. Defined.

Definition cond_of (o : op) : cond := match o with Wait => Condition | _ => NoWait end.

Definition wait (count_ : Z) : outcome (@result Z ret cond) :=
  if (0 <? count_)%Z then Ok Block else Ok (Done count_ [] Unit).

Definition countDown (count_ : Z) : outcome (@result Z ret cond) :=
  count_ ← ck32 (count_ - 1);
  Ok (Done count_ (if (count_ =? 0)%Z then [(Condition, true)] else []) Unit).

Definition getCount (count_ : Z) : outcome (@result Z ret cond) := Ok (Done count_ [] (Count count_)).

Definition body (o : op) (c : Z) : outcome (@result Z ret cond) :=
  match o with Wait => wait c | CountDown => countDown c | GetCount => getCount c end.

Local Abbreviation state := (@Monitor.state Z op ret).

(** Calls of [countDown] that have finished. *)
Definition downs (l : list (op * ret)) : Z := Z.of_nat (count (fun x => match x.1 with CountDown => true | _ => false end) l).

Lemma downs_app l x : downs (l ++ [x]) = (downs l + downs [x])%Z.
Proof. unfold downs. rewrite count_app. lia. Qed.

Definition passed (o : op * ret) : Prop := o.1 = Wait.

Definition inv (count0 : Z) (n : nat) (s : state) : Prop :=
  shared s = (count0 - downs (log s))%Z /\ (INT_MIN + Z.of_nat n <= shared s <= INT_MAX)%Z /\ (0 < waiting cond_of Condition (threads s) -> (0 < shared s)%Z) /\ (Exists passed (log s) -> (shared s <= 0)%Z).

Lemma exists_app l x : Exists passed (l ++ [x]) <-> Exists passed l \/ passed x.
Proof. rewrite Exists_app, Exists_cons, Exists_nil. tauto. Qed.

Lemma latch_inv_effect count0 n s s' : inv count0 (1 + n) s -> effect body cond_of s s' -> inv count0 n s'.
Proof.
  intros (Hc & Hr & Hw & Hp) [->|o E1 E2 Hn|o Hb E1 E2 Hn|o notes v k ts Hb E2 E3 Hn]; unfold inv.
  - split_and!; try done; lia.
  - rewrite E1, E2. destruct (Hn Condition) as [H1 _]. split_and!; try done; lia.
  - rewrite E1, E2. destruct o; cbn in Hb; try done; [|unfold countDown in Hb; by destruct (ck32 _)].
    unfold wait in Hb. destruct (Z.ltb_spec 0 (shared s)); [|done]. split_and!; try done; lia.
  - rewrite E2, E3, downs_app, exists_app. destruct (Hn Condition) as [H1 H2]. destruct o; cbn [body] in Hb.
    + unfold wait in Hb. destruct (Z.ltb_spec 0 (shared s)); [done|]. injection Hb as <- <- <-. cbn [notify_list].
      change (downs [(Wait, Unit)]) with 0%Z. split_and!; lia.
    + unfold countDown in Hb. apply bind_Ok in Hb as (c & Hck & Hb). injection Hb as <- <- <-.
      unfold ck32 in Hck. destruct (_ && _)%bool eqn:Erange; [|done]. injection Hck as Ec. change (downs [(CountDown, Unit)]) with 1%Z.
      split_and!; try lia.
      * destruct (Z.eqb_spec c 0); cbn [notify_list].
        -- destruct (notifyAll_spec cond_of Condition ts Condition) as [-> _]. decide_conds. lia.
        -- rewrite H1. intros Hx. specialize (Hw Hx). lia.
      * intros [Hx|Hx]; [specialize (Hp Hx); lia|done].
    + injection Hb as <- <- <-. cbn [notify_list]. change (downs [(GetCount, Count (shared s))]) with 0%Z.
      split_and!; try lia. intros [Hx|Hx]; [auto|done].
Qed.

(** Threads pass a latch only after it was counted down to zero, and
    none waits on after that: while one waits the count is positive. *)
Theorem latch_correct count0 ls n :
  (INT_MIN + Z.of_nat (length ls) <= count0 <= INT_MAX)%Z ->
  exists s, run body cond_of ls (init count0 n) = Ok s /\
    shared s = (count0 - downs (log s))%Z /\
    (0 < waiting cond_of Condition (threads s) -> (0 < shared s)%Z) /\
    (Exists passed (log s) -> (shared s <= 0)%Z).
Proof.
  intros Hr. destruct (run_invariant body cond_of (inv count0) ls (init count0 n)) as (s & Hs & Hi).
  - unfold inv, init. cbn [shared threads log]. rewrite waiting_init. change (downs []) with 0%Z. split_and!; try lia.
    by rewrite Exists_nil.
  - intros m s (_ & Hb & _) o. destruct o; cbn; [unfold wait; destruct (_ <? _)%Z; eauto| |unfold getCount; eauto].
    unfold countDown. rewrite ck32_Ok by lia. cbn. eauto.
  - intros m s s'. apply latch_inv_effect.
  - exists s. unfold inv in Hi. naive_solver.
Qed.

(** Two threads wait for a count of one; a third counts down. *)
Lemma latch_correct_witness :
  exists s, run body cond_of [Call 0 Wait; Enter 0 0; Call 1 Wait; Enter 1 0; Call 2 CountDown; Enter 2 0] (init 1%Z 3) = Ok s /\
    shared s = (1 - downs (log s))%Z.
Proof.
  destruct (latch_correct 1 [Call 0 Wait; Enter 0 0; Call 1 Wait; Enter 1 0; Call 2 CountDown; Enter 2 0] 3) as (s & H1 & H2 & _);
    [by split|by exists s].
Defined.

End CountDownLatch.

(** ** ThreadPool *)

Module ThreadPool.
Section Pool.
Context {Task : Type}.

Inductive op := Run (task : Task) | Take | Stop | QueueSize.
(** [Accepted] says whether [run] queued its task; [Got] is the task that
    [take] returns, if any. *)
Inductive ret := Accepted (b : bool) | Got (task : option Task) | Unit | Count (n : nat).
Inductive cond := NotEmpty | NotFull | NoWait.

#[global] Instance cond_eq_dec : EqDecision cond.
Proof. solve_decision. Defined.

Definition cond_of (o : op) : cond := match o with Take => NotEmpty | Run _ => NotFull | _ => NoWait end.

Record t := mk { queue_ : list Task; maxQueueSize_ : nat; running_ : bool }.

Definition new : t := mk [] 0 false.
Definition setMaxQueueSize (n : nat) (s : t) : t := mk (queue_ s) n (running_ s).
(** [start] before the threads run. *)
Definition start (s : t) : t := mk (queue_ s) (maxQueueSize_ s) true.

Definition isFull (s : t) : bool := (0 <? maxQueueSize_ s) && (maxQueueSize_ s <=? length (queue_ s)).

(** [run] when there are worker threads. *)
Definition run_task (task : Task) (s : t) : outcome (@result t ret cond) :=
  if isFull s && running_ s then Ok Block
  else if negb (running_ s) then Ok (Done s [] (Accepted false))
  else
    _ ← assert (negb (isFull s));
    Ok (Done (mk (queue_ s ++ [task]) (maxQueueSize_ s) (running_ s)) [(NotEmpty, false)] (Accepted true)).

Definition take (s : t) : outcome (@result t ret cond) :=
  match queue_ s with
  | [] => if running_ s then Ok Block else Ok (Done s [] (Got None))
  | front :: q =>
      Ok (Done (mk q (maxQueueSize_ s) (running_ s)) (if 0 <? maxQueueSize_ s then [(NotFull, false)] else []) (Got (Some front)))
  end.

(** [stop] up to the joins. *)
Definition stop (s : t) : outcome (@result t ret cond) :=
  Ok (Done (mk (queue_ s) (maxQueueSize_ s) false) [(NotEmpty, true); (NotFull, true)] Unit).

Definition queueSize (s : t) : outcome (@result t ret cond) := Ok (Done s [] (Count (length (queue_ s)))).

Definition body (o : op) (s : t) : outcome (@result t ret cond) :=
  match o with Run task => run_task task s | Take => take s | Stop => stop s | QueueSize => queueSize s end.

(** [run]: without worker threads the caller runs the task. *)
Definition run_inline (no_threads : bool) (task : Task) : option Task := if no_threads then Some task else None.

(** One turn of the loop of [runInThread]: whether the worker goes on to
    [take], and what it does with the result. *)
Definition worker_goes_on (s : t) : bool := running_ s.
Definition worker_runs (r : ret) : option Task := match r with Got task => task | _ => None end.

Definition accepted (l : list (op * ret)) : list Task :=
  omap (fun x => match x with (Run v, Accepted true) => Some v | _ => None end) l.
Definition taken (l : list (op * ret)) : list Task := omap (fun x => worker_runs x.2) l.

Local Abbreviation state := (@Monitor.state t op ret).

Definition inv (cap : nat) (s : state) : Prop :=
  maxQueueSize_ (shared s) = cap /\ (0 < cap -> length (queue_ (shared s)) <= cap) /\
  accepted (log s) = taken (log s) ++ queue_ (shared s) /\
  (0 < waiting cond_of NotEmpty (threads s) ->
    running_ (shared s) = true /\ length (queue_ (shared s)) <= ready cond_of NotEmpty (threads s)) /\
  (0 < waiting cond_of NotFull (threads s) ->
    running_ (shared s) = true /\ 0 < cap /\ cap - length (queue_ (shared s)) <= ready cond_of NotFull (threads s)).

Lemma pool_log_app l x : accepted (l ++ [x]) = accepted l ++ accepted [x] /\ taken (l ++ [x]) = taken l ++ taken [x].
Proof. split; apply omap_app. Qed.

Lemma inv_take cap s s' k ts v notes :
  inv cap s -> take (shared s) = Ok (Done (shared s') notes v) -> log s' = log s ++ [(Take, v)] ->
  threads s' = notify_list cond_of notes k ts ->
  (forall c, waiting cond_of c ts = waiting cond_of c (threads s) /\
             ready cond_of c ts + b (cond_of Take = c) = ready cond_of c (threads s)) -> inv cap s'.
Proof.
  intros (Hcap & Hlen & Hf & Hw & Hw') Hb E2 E3 Hc. destruct (Hc NotEmpty) as [H1 H2], (Hc NotFull) as [H3 H4].
  unfold inv. rewrite E2, E3. destruct (pool_log_app (log s) (Take, v)) as [-> ->]. unfold take in Hb. rewrite Hf.
  destruct (queue_ (shared s)) as [|x q] eqn:Eq.
  - destruct (running_ (shared s)) eqn:Er; [done|]. injection Hb as <- <- <-. cbn [notify_list]. rewrite Eq, Er, !app_nil_r.
    split_and!; try done; (intros Hx; rewrite ?H1, ?H3 in Hx; naive_solver).
  - injection Hb as <- <- <-. cbn [queue_ maxQueueSize_ running_]. rewrite app_nil_r, <- app_assoc. cbn [length] in *.
    rewrite Hcap. destruct (Nat.ltb_spec 0 cap); cbn [notify_list].
    + destruct (notify_spec cond_of NotFull k ts NotEmpty) as [-> ->], (notify_spec cond_of NotFull k ts NotFull) as [-> ->].
      unfold b in *; decide_conds; cbn [Nat.b2n] in *. split_and!; try done; try lia; intros Hx; split_and!; try lia; naive_solver lia.
    + unfold b in *; decide_conds; cbn [Nat.b2n] in *. split_and!; try done; try lia; intros Hx; split_and!; try lia; naive_solver lia.
Qed.

Lemma inv_run cap s s' task k ts v notes :
  inv cap s -> run_task task (shared s) = Ok (Done (shared s') notes v) -> log s' = log s ++ [(Run task, v)] ->
  threads s' = notify_list cond_of notes k ts ->
  (forall c, waiting cond_of c ts = waiting cond_of c (threads s) /\
             ready cond_of c ts + b (cond_of (Run task) = c) = ready cond_of c (threads s)) -> inv cap s'.
Proof.
  intros (Hcap & Hlen & Hf & Hw & Hw') Hb E2 E3 Hc. destruct (Hc NotEmpty) as [H1 H2], (Hc NotFull) as [H3 H4].
  unfold inv. rewrite E2, E3. destruct (pool_log_app (log s) (Run task, v)) as [-> ->]. unfold run_task in Hb. rewrite Hf.
  destruct (running_ (shared s)) eqn:Er.
  - destruct (isFull (shared s)) eqn:Ef; [done|]. cbn in Hb. injection Hb as <- <- <-. cbn [queue_ maxQueueSize_ running_ notify_list].
    unfold isFull in Ef. rewrite Hcap in Ef. rewrite length_app, app_nil_r, <- app_assoc. cbn [length].
    destruct (notify_spec cond_of NotEmpty k ts NotEmpty) as [-> ->], (notify_spec cond_of NotEmpty k ts NotFull) as [-> ->].
    unfold b in *; decide_conds; cbn [Nat.b2n] in *.
    assert (0 < cap -> length (queue_ (shared s)) < cap).
    { intros. apply andb_false_iff in Ef as [Ef|Ef]; [apply Nat.ltb_ge in Ef|apply Nat.leb_gt in Ef]; lia. }
    split_and!; try done; try lia; intros Hx; split_and!; try lia; naive_solver lia.
  - rewrite andb_false_r in Hb. injection Hb as <- <- <-. cbn [notify_list]. rewrite Er, !app_nil_r.
    split_and!; try done; (intros Hx; rewrite ?H1, ?H3 in Hx; naive_solver).
Qed.

Lemma pool_inv_effect cap s s' : inv cap s -> effect body cond_of s s' -> inv cap s'.
Proof.
  intros Hi [->|o E1 E2 Hc|o Hb E1 E2 Hc|o notes v k ts Hb E2 E3 Hc]; [done|..].
  - destruct Hi as (Hcap & Hlen & Hf & Hw & Hw'). destruct (Hc NotEmpty) as [H1 H2], (Hc NotFull) as [H3 H4].
    unfold inv. rewrite E1, E2. split_and!; try done; intros Hx; split_and!; try naive_solver lia.
  - destruct Hi as (Hcap & Hlen & Hf & Hw & Hw'). destruct (Hc NotEmpty) as [H1 H2], (Hc NotFull) as [H3 H4].
    unfold inv. rewrite E1, E2. destruct o; cbn [body] in Hb; try done; unfold b in *; decide_conds; cbn [Nat.b2n] in *.
    + unfold run_task in Hb. destruct (isFull (shared s)) eqn:Ef, (running_ (shared s)) eqn:Er; cbn in Hb; try done.
      unfold isFull in Ef. apply andb_prop in Ef as [Ec Ef]. apply Nat.ltb_lt in Ec. apply Nat.leb_le in Ef.
      split_and!; try done; intros Hx; split_and!; try done; try lia; naive_solver lia.
    + unfold take in Hb. destruct (queue_ (shared s)) eqn:Eq; [|done]. destruct (running_ (shared s)) eqn:Er; [|done]. cbn [length] in *.
      split_and!; try done; intros Hx; split_and!; try done; try lia; naive_solver lia.
  - destruct o; cbn [body] in Hb; [by eapply inv_run|by eapply inv_take| |];
      destruct Hi as (Hcap & Hlen & Hf & Hw & Hw'); destruct (Hc NotEmpty) as [H1 H2], (Hc NotFull) as [H3 H4];
      unfold inv; rewrite E2, E3; injection Hb as <- <- <-.
    + destruct (pool_log_app (log s) (Stop, Unit)) as [-> ->]. rewrite Hf. cbn [notify_list queue_ maxQueueSize_ running_]. rewrite !app_nil_r.
      destruct (notifyAll_spec cond_of NotFull (notifyAll cond_of NotEmpty ts) NotEmpty) as [-> _],
        (notifyAll_spec cond_of NotFull (notifyAll cond_of NotEmpty ts) NotFull) as [-> _].
      destruct (notifyAll_spec cond_of NotEmpty ts NotEmpty) as [-> _]. decide_conds. split_and!; try done; lia.
    + destruct (pool_log_app (log s) (QueueSize, Count (length (queue_ (shared s))))) as [-> ->]. rewrite Hf. cbn [notify_list].
      rewrite !app_nil_r. unfold b in *; decide_conds; cbn [Nat.b2n] in *.
      split_and!; try done; intros Hx; split_and!; try naive_solver lia.
Qed.

Lemma pool_body_returns o s : exists r, body o s = Ok r.
Proof.
  destruct o; cbn; unfold stop, queueSize; eauto.
  - unfold run_task. destruct (isFull s), (running_ s); cbn; eauto.
  - unfold take. destruct (queue_ s), (running_ s); eauto.
Qed.

(** C11: A started thread pool of any queue limit (0 for none) hands the tasks
    it accepted to its workers in order and exactly once, never queues more
    than its limit, lets no worker sleep while there are tasks for it and no
    caller of [run] while there is room; after [stop] nobody waits, so that
    the threads can be joined. *)
Theorem thread_pool_correct cap ls n :
  exists s, run body cond_of ls (init (start (setMaxQueueSize cap new)) n) = Ok s /\
    accepted (log s) = taken (log s) ++ queue_ (shared s) /\ (0 < cap -> length (queue_ (shared s)) <= cap) /\
    (0 < waiting cond_of NotEmpty (threads s) -> length (queue_ (shared s)) <= ready cond_of NotEmpty (threads s)) /\
    (0 < waiting cond_of NotFull (threads s) -> cap - length (queue_ (shared s)) <= ready cond_of NotFull (threads s)) /\
    (running_ (shared s) = false -> waiting cond_of NotEmpty (threads s) = 0 /\ waiting cond_of NotFull (threads s) = 0).
Proof.
  destruct (run_invariant body cond_of (fun _ => inv cap) ls (init (start (setMaxQueueSize cap new)) n)) as (s & Hs & Hi).
  - unfold inv, init. cbn [threads shared log start setMaxQueueSize new queue_ maxQueueSize_ running_ length]. rewrite !waiting_init.
    split_and!; try done; lia.
  - intros _ s _ o. apply pool_body_returns.
  - intros _ s s'. apply pool_inv_effect.
  - exists s. destruct Hi as (_ & H1 & H2 & H3 & H4). split_and!; try done; try naive_solver.
    intros Hr. split; apply Nat.le_0_r, Nat.nlt_ge; intros Hx; [destruct (H3 Hx)|destruct (H4 Hx)]; congruence.
Qed.

End Pool.
Arguments op : clear implicits.
Arguments ret : clear implicits.
End ThreadPool.
