(* ===== verification/LoopThreads.v ===== *)
(** * Threads with event loops

    [Module EventLoopThread]: src/muduo/net/EventLoopThread.cc, the handshake by
    which [startLoop] waits for the loop of the new thread, as operations for
    the machine of Monitor.v.  [Module EventLoopThreadPool]:
    src/muduo/net/EventLoopThreadPool.cc, which hands out loops. *)

From S2P Require Import Prelude Monitor.

Import Monitor.

Module EventLoopThread.

(** The critical sections: that of [startLoop], which returns the loop, and
    the two of [threadFunc], before and after [loop.loop()]. *)
Inductive op := StartLoop | Publish (loop : nat) | Unpublish.
Inductive ret := Loop (loop : nat) | Unit.
Inductive cond := Cond | NoWait.

#[global] Instance cond_eq_dec : EqDecision cond.
Proof. solve_decision. Defined.

Definition cond_of (o : op) : cond := match o with StartLoop => Cond | _ => NoWait end.

(** The state is [loop_]. *)
Definition startLoop (loop_ : option nat) : outcome (@result (option nat) ret cond) :=
  match loop_ with None => Ok Block | Some loop => Ok (Done loop_ [] (Loop loop)) end.

Definition publish (loop : nat) (loop_ : option nat) : outcome (@result (option nat) ret cond) :=
  Ok (Done (Some loop) [(Cond, false)] Unit).

Definition unpublish (loop_ : option nat) : outcome (@result (option nat) ret cond) := Ok (Done None [] Unit).

Definition body (o : op) (loop_ : option nat) : outcome (@result (option nat) ret cond) :=
  match o with StartLoop => startLoop loop_ | Publish loop => publish loop loop_ | Unpublish => unpublish loop_ end.

Local Abbreviation state := (@Monitor.state (option nat) op ret).

(** Thread 0 calls [startLoop]; thread 1 is the new thread. *)
Definition started : state := init None 2.

(** [startLoop] returns the loop that the new thread publishes, whichever
    of the two threads gets the mutex first, as long as the new thread's loop
    does not end before [startLoop] has seen it; if it does, [startLoop] waits
    for ever. *)
Theorem startLoop_handshake loop k :
  (exists s, run body cond_of [Call 0 StartLoop; Enter 0 k; Call 1 (Publish loop); Enter 1 k; Enter 0 k] started = Ok s /\
     (StartLoop, Loop loop) ∈ log s /\ threads s = [None; None]) /\
  (exists s, run body cond_of [Call 1 (Publish loop); Enter 1 k; Call 0 StartLoop; Enter 0 k] started = Ok s /\
     (StartLoop, Loop loop) ∈ log s /\ threads s = [None; None]) /\
  (exists s, run body cond_of [Call 0 StartLoop; Enter 0 k; Call 1 (Publish loop); Enter 1 k; Call 1 Unpublish; Enter 1 k; Enter 0 k]
       started = Ok s /\
     shared s = None /\ threads s = [Some (Waiting StartLoop); None]).
Proof.
  split_and!; eexists; cbn [run step started init threads replicate lookup list_lookup insert list_insert body startLoop publish unpublish
    mbind outcome_bind shared log notify_list app];
    unfold notify; change (positions (is_waiting cond_of Cond) [Some (Waiting StartLoop); None]) with [0];
    change (positions (is_waiting cond_of Cond) [None; None]) with (@nil nat);
    cbn [length]; rewrite ?Nat.mod_1_r; split; [reflexivity| |reflexivity| |reflexivity|]; cbn; split_and!; try done; set_solver.
Qed.

End EventLoopThread.

Module EventLoopThreadPool.

(** Loops are numbered; [baseLoop_] is the acceptor's. *)
Record t := mk { baseLoop_ : nat; started_ : bool; numThreads_ : Z; next_ : Z; loops_ : list nat }.

(** [loop->assertInLoopThread()] in the thread of loop [thread]: LOG_FATAL *)
Definition assertInLoopThread (thread loop : nat) : outcome unit := if decide (thread = loop) then Ok tt else Fault Aborted.

Definition new (baseLoop : nat) : t := mk baseLoop false 0 0 [].
Definition setThreadNum (n : Z) (s : t) : t := mk (baseLoop_ s) (started_ s) n (next_ s) (loops_ s).

(** [start]: [startLoop i] is the loop that the [i]-th [startLoop] returns; the
    second result says for which loops the callback ran in this thread, which
    is that of loop [thread]. *)
Definition start (startLoop : nat -> nat) (cb : bool) (thread : nat) (s : t) : outcome (t * list nat) :=
  _ ← assert (negb (started_ s));
  _ ← assertInLoopThread thread (baseLoop_ s);
  let loops := map startLoop (seq 0 (Z.to_nat (numThreads_ s))) in
  Ok (mk (baseLoop_ s) true (numThreads_ s) (next_ s) (loops_ s ++ loops),
      if (numThreads_ s =? 0)%Z && cb then [baseLoop_ s] else []).

(** [loops_[i]] *)
Definition at_loop (s : t) (i : Z) : outcome nat :=
  if (0 <=? i)%Z then match loops_ s !! Z.to_nat i with Some l => Ok l | None => Fault OutOfBounds end
  else Fault OutOfBounds.

Definition getNextLoop (thread : nat) (s : t) : outcome (nat * t) :=
  _ ← assertInLoopThread thread (baseLoop_ s);
  _ ← assert (started_ s);
  match loops_ s with
  | [] => Ok (baseLoop_ s, s)
  | _ =>
      loop ← at_loop s (next_ s);
      next ← ck32 (next_ s + 1);
      let next := if (zlen (loops_ s) <=? u64 next)%Z then 0%Z else next in
      Ok (loop, mk (baseLoop_ s) (started_ s) (numThreads_ s) next (loops_ s))
  end.

Definition getLoopForHash (hashCode : Z) (thread : nat) (s : t) : outcome nat :=
  _ ← assertInLoopThread thread (baseLoop_ s);
  match loops_ s with
  | [] => Ok (baseLoop_ s)
  | _ => at_loop s (hashCode mod zlen (loops_ s))%Z
  end.

Definition getAllLoops (thread : nat) (s : t) : outcome (list nat) :=
  _ ← assertInLoopThread thread (baseLoop_ s);
  _ ← assert (started_ s);
  match loops_ s with [] => Ok [baseLoop_ s] | l => Ok l end.

Fixpoint getNextLoops (k thread : nat) (s : t) : outcome (list nat * t) :=
  match k with
  | O => Ok ([], s)
  | S k' => '(l, s) ← getNextLoop thread s; '(ls, s) ← getNextLoops k' thread s; Ok (l :: ls, s)
  end.

Lemma assert_in_loop loop : assertInLoopThread loop loop = Ok tt.
Proof. unfold assertInLoopThread. by rewrite decide_True. Qed.

Lemma assert_not_in_loop thread loop : thread <> loop -> assertInLoopThread thread loop = Fault Aborted.
Proof. intros Hne. unfold assertInLoopThread. by rewrite decide_False. Qed.

(** The loops in the order in which they are handed out. *)
Definition round_robin (loops : list nat) (base : nat) (i : nat) : nat :=
  default base (loops !! (i mod length loops)).

Lemma getNextLoop_spec s i :
  started_ s = true -> (zlen (loops_ s) <= INT_MAX)%Z ->
  (loops_ s <> [] -> next_ s = Z.of_nat (i mod length (loops_ s))) ->
  exists s', getNextLoop (baseLoop_ s) s = Ok (round_robin (loops_ s) (baseLoop_ s) i, s') /\
    started_ s' = true /\ loops_ s' = loops_ s /\ baseLoop_ s' = baseLoop_ s /\
    (loops_ s <> [] -> next_ s' = Z.of_nat (S i mod length (loops_ s))).
Proof.
  intros Hst Hlen Hnext. unfold getNextLoop, round_robin. rewrite assert_in_loop, Hst. cbn [assert mbind outcome_bind].
  destruct (loops_ s) as [|l0 rest] eqn:El; [by exists s|]. rewrite <- El in *. specialize (Hnext ltac:(by rewrite El)).
  assert (0 < length (loops_ s)) as Hpos by (rewrite El; cbn; lia).
  pose proof (Nat.mod_upper_bound i (length (loops_ s)) ltac:(lia)) as Hb. unfold at_loop. rewrite Hnext.
  rewrite (proj2 (Z.leb_le _ _)) by lia. rewrite Nat2Z.id. destruct (lookup_lt_is_Some_2 (loops_ s) _ Hb) as [l Hl].
  rewrite Hl. cbn [mbind outcome_bind default]. unfold zlen in Hlen. rewrite ck32_Ok by (unfold INT_MIN, INT_MAX in *; lia).
  cbn [mbind outcome_bind]. eexists. split; [done|]. split_and!; try done. intros _. cbn [next_].
  rewrite u64_small by (unfold INT_MAX in Hlen; lia). unfold zlen.
  destruct (Z.leb_spec (Z.of_nat (length (loops_ s))) (Z.of_nat (i mod length (loops_ s)) + 1)).
  - assert (S i mod length (loops_ s) = 0) as ->; [|done]. replace (S i) with (i + 1) by lia.
    rewrite Nat.Div0.add_mod. assert (i mod length (loops_ s) = length (loops_ s) - 1) as -> by lia.
    destruct (decide (length (loops_ s) = 1)) as [->|]; [done|]. rewrite (Nat.mod_small 1) by lia.
    replace (length (loops_ s) - 1 + 1) with (length (loops_ s)) by lia. apply Nat.Div0.mod_same.
  - assert (S i mod length (loops_ s) = S (i mod length (loops_ s))) as ->; [|lia]. replace (S i) with (i + 1) by lia.
    rewrite Nat.Div0.add_mod. rewrite (Nat.mod_small 1) by lia. rewrite Nat.mod_small; lia.
Qed.

Lemma getNextLoops_spec k i s :
  started_ s = true -> (zlen (loops_ s) <= INT_MAX)%Z ->
  (loops_ s <> [] -> next_ s = Z.of_nat (i mod length (loops_ s))) ->
  exists s', getNextLoops k (baseLoop_ s) s = Ok (map (round_robin (loops_ s) (baseLoop_ s)) (seq i k), s').
Proof.
  revert i s. induction k as [|k IH]; intros i s Hst Hlen Hn; cbn; [by exists s|].
  destruct (getNextLoop_spec s i Hst Hlen Hn) as (s1 & -> & Hst1 & El & Eb & Hn1). cbn [mbind outcome_bind].
  rewrite <- El in Hn1. rewrite <- Eb. destruct (IH (S i) s1 Hst1) as (s2 & ->); [by rewrite El|done|]. cbn [mbind outcome_bind]. exists s2.
  by rewrite El, Eb.
Qed.

(** A started pool hands out its loops in turn and never indexes outside
    them: the [k]-th call of [getNextLoop] returns loop [k mod n] of the [n]
    threads, or the base loop if there are none; [getLoopForHash] is in range
    for every hash code.  A thread other than the base loop's is not let in. *)
Theorem loops_round_robin base n startLoop cb k hashCode :
  (0 <= n <= INT_MAX)%Z -> (0 <= hashCode)%Z ->
  exists s calls s', start startLoop cb base (setThreadNum n (new base)) = Ok (s, calls) /\
    getNextLoops k base s = Ok (map (fun i => if (n =? 0)%Z then base else startLoop (i mod Z.to_nat n)) (seq 0 k), s') /\
    getLoopForHash hashCode base s = Ok (if (n =? 0)%Z then base else startLoop (Z.to_nat (hashCode mod n))) /\
    forall thread, thread <> base -> start startLoop cb thread (setThreadNum n (new base)) = Fault Aborted /\
      getNextLoop thread s = Fault Aborted /\ getLoopForHash hashCode thread s = Fault Aborted /\ getAllLoops thread s = Fault Aborted.
Proof.
  intros Hn Hh. unfold start. cbn [assert negb started_ setThreadNum new mbind outcome_bind loops_ numThreads_ baseLoop_ next_ app].
  rewrite assert_in_loop. cbn [mbind outcome_bind].
  set (loops := map startLoop (seq 0 (Z.to_nat n))). set (s := mk base true n 0 loops).
  assert (length loops = Z.to_nat n) as Hlen by (unfold loops; by rewrite length_map, length_seq).
  assert (forall i, n <> 0%Z -> i < Z.to_nat n -> loops !! i = Some (startLoop i)) as Hlook.
  { intros i Hnz Hi. unfold loops. rewrite list_lookup_fmap, lookup_seq_lt by done. done. }
  destruct (getNextLoops_spec k 0 s) as (s' & Hs'); [done|unfold zlen; cbn; lia|cbn; intros _; by rewrite Nat.Div0.mod_0_l|].
  eexists s, _, s'. split; [done|]. cbn [baseLoop_ s] in Hs'. rewrite Hs'. cbn [loops_ baseLoop_ s]. split_and!.
  - do 2 f_equal. apply map_ext. intros i. unfold round_robin. rewrite Hlen. destruct (Z.eqb_spec n 0) as [->|Hnz].
    + by destruct loops.
    + rewrite Hlook; [done|done|]. apply Nat.mod_upper_bound. lia.
  - unfold getLoopForHash, at_loop. cbn [loops_ s baseLoop_]. rewrite assert_in_loop. cbn [mbind outcome_bind]. destruct (Z.eqb_spec n 0) as [->|Hnz]; [done|].
    destruct loops as [|l ls] eqn:E; [cbn in Hlen; lia|]. rewrite <- E in *. unfold zlen. rewrite Hlen, Z2Nat.id by lia.
    pose proof (Z.mod_pos_bound hashCode n ltac:(lia)). rewrite (proj2 (Z.leb_le _ _)) by lia. rewrite Hlook; [done|done|lia].
  - intros thread Ht. unfold getNextLoop, getLoopForHash, getAllLoops. cbn [baseLoop_ s]. by rewrite !assert_not_in_loop.
Qed.

Lemma loops_round_robin_witness :
  exists s calls s', start (fun i => i + 10) true 7 (setThreadNum 3 (new 7)) = Ok (s, calls) /\
    getNextLoops 4 7 s = Ok ([10; 11; 12; 10], s') /\ getLoopForHash 5 7 s = Ok 12.
Proof.
  destruct (loops_round_robin 7 3 (fun i => i + 10) true 4 5) as (s & calls & s' & H1 & H2 & H3 & _); [by split|done|].
  exists s, calls, s'. split; [exact H1|]. split; [exact H2|exact H3].
Defined.

End EventLoopThreadPool.
