(* ===== verification/LoopThreadLife.v ===== *)
(** * The life of an event loop thread

    net/EventLoopThread.cc from [startLoop] to the destructor: the owner of the
    EventLoopThread and the thread in [threadFunc], step by step, with the
    [quit_] of its loop, which EventLoop::loop clears when it begins.  How the
    two threads wait for each other in [startLoop] is in LoopThreads.v; what
    the loop does until it is asked to quit, in EventLoop.v. *)

From S2P Require Import Prelude.

Module LoopThreadLife.

(** Where the thread is in [threadFunc]: before [EventLoop loop], at the
    callback, at [loop_ = &loop], before EventLoop::loop clears [quit_], at the
    test of [quit_], at [loop_ = NULL], before [mutex_] is unlocked, or before
    the loop is destroyed. *)
Inductive pc := NotStarted | Construct | Callback | Publish | BeforeLoop | InLoop | Unpublish | Unlock | AtEnd | Ended.

(** Where the owner is: outside, waiting in [startLoop], or in the destructor
    before [quit], before [join] and in it. *)
Inductive owner := Idle | InStart | AtQuit | AtJoin | InJoin | Destroyed.

#[global] Instance pc_eq_dec : EqDecision pc.
Proof. solve_decision. Defined.
#[global] Instance owner_eq_dec : EqDecision owner.
Proof. solve_decision. Defined.

(** [loop_] is NULL or the thread's loop; [quit_] is the loop's. *)
Record t := mk { loop_ : bool; exiting_ : bool; quit_ : bool; at_ : pc; own : owner }.

Definition new : t := mk false false false NotStarted Idle.

Definition goto (p : pc) (s : t) : t := mk (loop_ s) (exiting_ s) (quit_ s) p (own s).
Definition set_own (o : owner) (s : t) : t := mk (loop_ s) (exiting_ s) (quit_ s) (at_ s) o.
Definition set_loop (b : bool) (s : t) : t := mk b (exiting_ s) (quit_ s) (at_ s) (own s).
Definition set_quit (b : bool) (s : t) : t := mk (loop_ s) (exiting_ s) b (at_ s) (own s).

(** Whether [thread_] is started, the EventLoop exists, [mutex_] is locked by
    the thread, and the EventLoopThread still exists. *)
Definition started (s : t) : bool := negb (bool_decide (at_ s = NotStarted)).
Definition loop_exists (s : t) : bool := match at_ s with NotStarted | Construct | Ended => false | _ => true end.
Definition locked (s : t) : bool := bool_decide (at_ s = Unlock).
Definition alive (s : t) : outcome unit := if decide (own s = Destroyed) then Fault OutOfBounds else Ok tt.

(** [startLoop], up to the wait and after it *)
Definition startLoop (s : t) : outcome t := _ ← assert (negb (started s)); Ok (set_own InStart (goto Construct s)).
Definition loop_seen (s : t) : t := if loop_ s then set_own Idle s else s.

(** The members are destroyed; ~MutexLock asserts that nobody holds it. *)
Definition destroyed (s : t) : outcome t := _ ← assert (negb (locked s)); Ok (set_own Destroyed s).

(** The destructor up to the test of [loop_], then [quit], then [join]. *)
Definition dtor (s : t) : outcome t :=
  let s := mk (loop_ s) true (quit_ s) (at_ s) (own s) in
  if loop_ s then Ok (set_own AtQuit s) else destroyed s.
Definition quit (s : t) : outcome t := if loop_exists s then Ok (set_quit true s) else Fault OutOfBounds.
Definition dtor_quit (s : t) : outcome t := s ← quit s; Ok (set_own AtJoin s).
Definition dtor_join (s : t) : outcome t := _ ← assert (started s); Ok (set_own InJoin s).
Definition joined (s : t) : outcome t := if decide (at_ s = Ended) then destroyed s else Ok s.

(** A step of [threadFunc] *)
Definition threadFunc (s : t) : outcome t :=
  match at_ s with
  | NotStarted | Ended => Ok s
  | Construct => Ok (goto Callback (set_quit false s))
  | Callback => _ ← alive s; Ok (goto Publish s)
  | Publish => _ ← alive s; Ok (goto BeforeLoop (set_loop true s))
  | BeforeLoop => Ok (goto InLoop (set_quit false s))
  | InLoop => if quit_ s then Ok (goto Unpublish s) else Ok s
  | Unpublish => _ ← alive s; Ok (goto Unlock (set_loop false s))
  | Unlock => _ ← alive s; Ok (goto AtEnd s)
  | AtEnd => Ok (goto Ended s)
  end.

(** [OtherQuit]: the callback, a functor or another thread calls [quit]. *)
Inductive label := StartLoop | Dtor | Owner | Child | OtherQuit.

Definition step (l : label) (s : t) : outcome t :=
  match l with
  | StartLoop => if decide (own s = Idle) then startLoop s else Ok s
  | Dtor => if decide (own s = Idle) then dtor s else Ok s
  | Owner =>
      match own s with
      | InStart => Ok (loop_seen s)
      | AtQuit => dtor_quit s
      | AtJoin => dtor_join s
      | InJoin => joined s
      | Idle | Destroyed => Ok s
      end
  | Child => threadFunc s
  | OtherQuit => if loop_exists s then quit s else Ok s
  end.

Fixpoint run (ls : list label) (s : t) : outcome t :=
  match ls with [] => Ok s | l :: ls => s ← step l s; run ls s end.

(** ** Only the destructor asks the loop to quit *)

Definition intended (l : label) (s : t) : bool :=
  match l with
  | StartLoop => negb (bool_decide (own s = Idle)) || negb (started s)
  | OtherQuit => false
  | _ => true
  end.

Inductive reachable : t -> Prop :=
  | reach_new : reachable new
  | reach_step l s s' : reachable s -> intended l s = true -> step l s = Ok s' -> reachable s'.

(** Where the thread can be for every position of the owner *)
Definition together (s : t) : bool :=
  let looping := match at_ s with BeforeLoop | InLoop => loop_ s | _ => false end in
  match own s with
  | Idle => (bool_decide (at_ s = NotStarted) && negb (loop_ s) || looping) && negb (quit_ s)
  | InStart => (match at_ s with Construct | Callback | Publish => negb (loop_ s) | _ => false end || looping) && negb (quit_ s)
  | AtQuit => looping && negb (quit_ s)
  | AtJoin | InJoin => match at_ s with BeforeLoop | InLoop | Unpublish => loop_ s | Unlock | AtEnd | Ended => negb (loop_ s) | _ => false end
  | Destroyed => match at_ s with NotStarted | Ended => true | _ => false end
  end.

Lemma together_step l s :
  together s = true -> intended l s = true -> exists s', step l s = Ok s' /\ together s' = true.
Proof.
  destruct s as [lp ex q p o], l, o; try (by intros; eexists; split; [reflexivity|]); destruct p, lp, q; cbn; try done;
    intros _ _; eexists; (split; [reflexivity|done]).
Qed.

Lemma reachable_together s : reachable s -> together s = true.
Proof.
  induction 1 as [|l s s' _ IH Hl Hs]; [done|]. destruct (together_step l s IH Hl) as (x & Hx & Ht). congruence.
Qed.

(** As long as nobody else quits the loop, no step of the owner or of the
    thread fails an assertion or uses an object that is gone, and the thread has
    ended, or never began, when the destructor is over. *)
Theorem loop_thread_safe s :
  reachable s ->
  (forall l, intended l s = true -> returns (step l s)) /\ (own s = Destroyed -> at_ s = Ended \/ at_ s = NotStarted).
Proof.
  intros Hr%reachable_together. split.
  - intros l Hl. destruct (together_step l s Hr Hl) as (s' & Hs & _). by exists s'.
  - intros Ho. unfold together in Hr. rewrite Ho in Hr. destruct (at_ s); auto; done.
Qed.

Definition owner_or_child (l : label) : bool := match l with Owner | Child => true | _ => false end.

(** *** A loop that is asked to quit while it runs *)

(** The steps that the thread needs. *)
Definition steps_left (s : t) : nat := match at_ s with InLoop => 4 | Unpublish => 3 | Unlock => 2 | AtEnd => 1 | _ => 0 end.

Definition child_steps (ls : list label) : nat := length (List.filter (fun l => if l is Child then true else false) ls).

Definition finishing (s : t) : bool :=
  match own s with
  | AtJoin | InJoin => match at_ s with InLoop => quit_ s | Unpublish | Unlock | AtEnd | Ended => true | _ => false end
  | Destroyed => bool_decide (at_ s = Ended)
  | _ => false
  end.

Lemma finishing_step l s :
  finishing s = true -> owner_or_child l = true ->
  exists s', step l s = Ok s' /\ finishing s' = true /\ steps_left s' <= steps_left s - (if l is Child then 1 else 0).
Proof.
  destruct s as [lp ex q p o], l; try done; destruct o; try done; destruct p; try done; destruct q; try done;
    intros _ _; eexists; (split; [reflexivity|]); cbn; (split; [done|lia]).
Qed.

Lemma finishing_run ls s :
  finishing s = true -> forallb owner_or_child ls = true ->
  exists s', run ls s = Ok s' /\ finishing s' = true /\ steps_left s' <= steps_left s - child_steps ls.
Proof.
  revert s. induction ls as [|l ls IH]; intros s Hs; cbn [run forallb].
  - intros _. exists s. cbn. split_and!; [done|done|lia].
  - intros [Hl Hls]%andb_prop. destruct (finishing_step l s Hs Hl) as (s1 & -> & H1 & H2). cbn [mbind outcome_bind].
    destruct (IH s1 H1 Hls) as (s' & H3 & H4 & H5). exists s'. split_and!; [done|done|]. unfold child_steps in *. destruct l; cbn in *; lia.
Qed.

Lemma loop_run_app ls ks s : run (ls ++ ks) s = (s ← run ls s; run ks s).
Proof.
  revert s. induction ls as [|l ls IH]; intros s; cbn [run app]; [done|].
  destruct (step l s); cbn [mbind outcome_bind]; [apply IH|done].
Qed.

Lemma looping_run n s : at_ s = InLoop -> quit_ s = false -> run (replicate n Child) s = Ok s.
Proof.
  intros Ha Hq. induction n as [|n IH]; [done|]. cbn [replicate run step]. unfold threadFunc at 1. rewrite Ha, Hq. exact IH.
Qed.

(** When the destructor asks a running loop to quit, it returns after the
    thread has ended, four steps later at most, in whatever order the two go
    on. *)
Theorem dtor_joins n ls s :
  reachable s -> own s = Idle -> at_ s = InLoop -> forallb owner_or_child ls = true ->
  4 <= child_steps ls ->
  exists s', run (Dtor :: replicate n Child ++ Owner :: ls ++ [Owner; Owner]) s = Ok s' /\ own s' = Destroyed /\ at_ s' = Ended.
Proof.
  intros Hr%reachable_together Ho Ha Hls Hn. destruct s as [lp ex q p o]. cbn in Ho, Ha. subst o p. destruct lp, q; try done.
  cbn [run step own]. rewrite decide_True by done. cbn [dtor loop_ mbind outcome_bind].
  rewrite loop_run_app, looping_run by done. cbn [mbind outcome_bind run step set_own own dtor_quit quit loop_exists at_].
  rewrite loop_run_app. unfold set_own, set_quit. cbn [loop_ exiting_ quit_ at_ own].
  destruct (finishing_run ls (mk true true true InLoop AtJoin) eq_refl Hls) as (s' & -> & H1 & H2). cbn [mbind outcome_bind].
  assert (steps_left s' = 0) as H0 by (cbn in H2; lia). destruct s' as [lp ex' q p o].
  destruct o; try done; destruct p; try done; by eexists.
Qed.

(** *** A loop that is asked to quit before it runs *)

Definition stuck (s : t) : bool :=
  match own s, at_ s with AtJoin, InLoop | InJoin, InLoop => negb (quit_ s) | _, _ => false end.

Lemma stuck_step l s :
  stuck s = true -> owner_or_child l = true -> exists s', step l s = Ok s' /\ stuck s' = true.
Proof.
  destruct s as [lp ex q p o], l; try done; destruct o; try done; destruct p; try done; destruct q; try done;
    intros _ _; eexists; (split; [reflexivity|done]).
Qed.

Lemma stuck_run ls s : stuck s = true -> forallb owner_or_child ls = true -> exists s', run ls s = Ok s' /\ stuck s' = true.
Proof.
  revert s. induction ls as [|l ls IH]; intros s Hs; cbn [run forallb]; [by exists s|].
  intros [Hl Hls]%andb_prop. destruct (stuck_step l s Hs Hl) as (s1 & -> & H1). by apply IH.
Qed.

(** The owner's start of the loop, after which the thread is about to call
    EventLoop::loop. *)
Definition start_up : list label := [StartLoop; Child; Child; Child; Owner].

(** C39: [startLoop] has returned; a destructor that calls [quit] before the thread
    is in [loop] waits for ever, since [loop] clears [quit_]. *)
Theorem dtor_hangs ls :
  forallb owner_or_child ls = true ->
  exists s s', run start_up new = Ok s /\ own s = Idle /\ at_ s = BeforeLoop /\
    run (Dtor :: Owner :: Child :: ls) s = Ok s' /\ at_ s' = InLoop /\ own s' <> Destroyed /\ quit_ s' = false.
Proof.
  intros Hls. exists (mk true false false BeforeLoop Idle).
  destruct (stuck_run ls (mk true true false InLoop AtJoin) eq_refl Hls) as (s' & Hr & Hs). exists s'.
  do 3 (split; [done|]). split; [exact Hr|]. destruct s' as [lp ex q p o]; destruct o; try done; destruct p; try done; by destruct q.
Qed.

(** *** A loop that somebody else asks to quit *)

(** If a functor ends the loop, the destructor may call [quit] of a loop that
    is gone, as its comment says, or destroy a mutex that the thread still
    holds. *)
Theorem quit_races :
  run (start_up ++ [Child; Dtor; OtherQuit; Child; Child; Child; Child; Owner]) new = Fault OutOfBounds /\
  run (start_up ++ [Child; OtherQuit; Child; Child; Dtor]) new = Fault AssertFailed.
Proof. by split. Qed.

(** ** At concrete inputs *)

Lemma loop_running : reachable (mk true false false InLoop Idle).
Proof.
  eapply (reach_step Child (mk true false false BeforeLoop Idle)); [|done..].
  eapply (reach_step Owner (mk true false false BeforeLoop InStart)); [|done..].
  eapply (reach_step Child (mk false false false Publish InStart)); [|done..].
  eapply (reach_step Child (mk false false false Callback InStart)); [|done..].
  eapply (reach_step Child (mk false false false Construct InStart)); [|done..].
  eapply (reach_step StartLoop new); [apply reach_new|done..].
Qed.

Lemma loop_thread_safe_witness : returns (step Dtor (mk true false false InLoop Idle)).
Proof. exact (proj1 (loop_thread_safe _ loop_running) Dtor eq_refl). Defined.

Lemma dtor_joins_witness :
  exists s', run [Dtor; Child; Child; Owner; Child; Owner; Child; Owner; Child; Child; Owner; Owner] (mk true false false InLoop Idle) = Ok s' /\
    own s' = Destroyed /\ at_ s' = Ended.
Proof. apply (dtor_joins 2 [Child; Owner; Child; Owner; Child; Child] _ loop_running); [reflexivity|reflexivity|reflexivity|cbn; lia]. Defined.

Lemma dtor_hangs_witness :
  exists s s', run start_up new = Ok s /\ own s = Idle /\ at_ s = BeforeLoop /\
    run [Dtor; Owner; Child; Owner; Child; Owner] s = Ok s' /\ at_ s' = InLoop /\ own s' <> Destroyed /\ quit_ s' = false.
Proof. apply (dtor_hangs [Owner; Child; Owner]). reflexivity. Defined.

End LoopThreadLife.
