(* ===== verification/LogStream.v ===== *)
(** * Log streams

    [Module FixedBuffer] and [Module LogStream] model src/muduo/base/LogStream.h
    and LogStream.cc: the conversion of integers and pointers to text, the
    fixed buffer that drops what does not fit, the insertion operators, and the
    formatting of quantities with SI and IEC units.  printf's conversion of
    floating-point numbers for [operator<<(double)] and [Fmt] is an argument. *)

From Stdlib Require Import SpecFloat.
From S2P Require Import Prelude Timestamp.

Local Open Scope Z_scope.

Module FixedBuffer.

(** [data_] and the distance of [cur_] from it. *)
Record t := mk { data_ : bytes; cur_ : Z }.

Definition new (SIZE : nat) : t := mk (replicate SIZE NUL) 0.

Definition length (b : t) : Z := cur_ b.
Definition avail (b : t) : Z := zlen (data_ b) - cur_ b.
Definition add (len : Z) (b : t) : t := mk (data_ b) (cur_ b + len).
Definition reset (b : t) : t := mk (data_ b) 0.
Definition bzero (b : t) : t := mk (replicate (List.length (data_ b)) NUL) (cur_ b).

Definition append (buf : bytes) (b : t) : outcome t :=
  if zlen buf <? avail b then
    d ← store (data_ b) (cur_ b) buf;
    Ok (mk d (cur_ b + zlen buf))
  else Ok b.

Definition toString (b : t) : outcome bytes := load (data_ b) 0 (length b).

(** [debugString]: it writes a NUL at the current position. *)
Definition debugString (b : t) : outcome t :=
  d ← store (data_ b) (cur_ b) [NUL]; Ok (mk d (cur_ b)).

End FixedBuffer.

Module LogStream.

(** ** Integers *)

Definition digits_table : bytes := bs "9876543210123456789" ++ [NUL].
Definition digitsHex : bytes := bs "0123456789ABCDEF" ++ [NUL].

(** [zero[lsd]] where [zero = digits + 9] *)
Definition zero_at (lsd : Z) : outcome bytes := load digits_table (9 + lsd) 1.

(** The do-while loop; the digits come out backwards. *)
Fixpoint convert_loop (fuel : nat) (i : Z) : outcome bytes :=
  match fuel with
  | O => Fault OutOfFuel
  | S fuel' =>
      c ← zero_at (Z.rem i 10);
      let i := Z.quot i 10 in
      if i =? 0 then Ok c else rest ← convert_loop fuel' i; Ok (c ++ rest)
  end.

(** What [convert] leaves in [buf], without the terminating NUL; no integer has
    more than 64 digits. *)
Definition convert (value : Z) : outcome bytes :=
  p ← convert_loop 64 value;
  Ok (rev (p ++ if value <? 0 then bs "-" else [])).

Fixpoint convertHex_loop (fuel : nat) (i : Z) : outcome bytes :=
  match fuel with
  | O => Fault OutOfFuel
  | S fuel' =>
      c ← load digitsHex (i mod 16) 1;
      let i := i / 16 in
      if i =? 0 then Ok c else rest ← convertHex_loop fuel' i; Ok (c ++ rest)
  end.

Definition convertHex (value : Z) : outcome bytes := p ← convertHex_loop 64 value; Ok (rev p).

(** ** The stream *)

Definition kSmallBuffer : nat := 4000.
Definition kMaxNumericSize : Z := 48.

Definition new : FixedBuffer.t := FixedBuffer.new kSmallBuffer.
Definition resetBuffer : FixedBuffer.t -> FixedBuffer.t := FixedBuffer.reset.

(** Text written to [buffer_.current()] with its NUL, then [add]. *)
Definition write_current (s : bytes) (b : FixedBuffer.t) : outcome FixedBuffer.t :=
  d ← store (FixedBuffer.data_ b) (FixedBuffer.cur_ b) (s ++ [NUL]);
  Ok (FixedBuffer.add (zlen s) (FixedBuffer.mk d (FixedBuffer.cur_ b))).

Definition formatInteger (v : Z) (b : FixedBuffer.t) : outcome FixedBuffer.t :=
  if kMaxNumericSize <=? FixedBuffer.avail b then
    s ← convert v;
    write_current s b
  else Ok b.

(** [operator<<(const void* p)] *)
Definition formatPointer (p : Z) (b : FixedBuffer.t) : outcome FixedBuffer.t :=
  if kMaxNumericSize <=? FixedBuffer.avail b then
    s ← convertHex p;
    write_current (bs "0x" ++ s) b
  else Ok b.

(** [operator<<(double)]: [snprintf] writes at most [kMaxNumericSize] bytes and
    returns the length of the whole text [s]. *)
Definition formatDouble (s : bytes) (b : FixedBuffer.t) : outcome FixedBuffer.t :=
  if kMaxNumericSize <=? FixedBuffer.avail b then
    d ← store (FixedBuffer.data_ b) (FixedBuffer.cur_ b) (Timestamp.snprintf 48 s ++ [NUL]);
    Ok (FixedBuffer.add (zlen s) (FixedBuffer.mk d (FixedBuffer.cur_ b)))
  else Ok b.

(** The insertion operators by the type of their argument; a [const char*] may
    be null; [Double s] is a number that printf's %.12g renders as [s]. *)
Inductive arg :=
  | Bool (v : bool)
  | Integer (v : Z)
  | Pointer (p : Z)
  | Double (s : bytes)
  | Char (c : byte)
  | CString (str : option bytes)
  | Str (s : bytes).

Definition insert (a : arg) (b : FixedBuffer.t) : outcome FixedBuffer.t :=
  match a with
  | Bool v => FixedBuffer.append (if v then bs "1" else bs "0") b
  | Integer v => formatInteger v b
  | Pointer p => formatPointer p b
  | Double s => formatDouble s b
  | Char c => FixedBuffer.append [c] b
  | CString (Some str) => FixedBuffer.append str b
  | CString None => FixedBuffer.append (bs "(null)") b
  | Str s => FixedBuffer.append s b
  end.

Fixpoint insert_all (l : list arg) (b : FixedBuffer.t) : outcome FixedBuffer.t :=
  match l with [] => Ok b | a :: l' => b ← insert a b; insert_all l' b end.

(** [Fmt]: [s] is what printf makes of the value, which must fit. *)
Definition Fmt (s : bytes) : outcome bytes :=
  _ ← assert (zlen s <? 32); Ok s.

(** ** Quantities *)

(** printf's [%.<prec>f] of a finite non-negative double: its exact value
    [m * 2 ^ e] rounded to [prec] decimals, half to even. *)
Definition round_scaled (m e : Z) (scale : Z) : Z :=
  if 0 <=? e then m * 2 ^ e * scale
  else
    let q := (m * scale) / 2 ^ (- e) in
    let r := 2 * ((m * scale) mod 2 ^ (- e)) in
    if (r <? 2 ^ (- e)) || ((r =? 2 ^ (- e)) && Z.even q) then q else q + 1.

Definition fixed (prec : nat) (x : double) : bytes :=
  match x with
  | S754_finite _ m e =>
      let scale := 10 ^ Z.of_nat prec in
      let v := round_scaled (Z.pos m) e scale in
      dec (v / scale) ++ (if (prec =? 0)%nat then [] else bs "." ++ Timestamp.dec0 prec (v mod scale))
  | _ => dec 0 ++ (if (prec =? 0)%nat then [] else bs "." ++ replicate prec (digit_char 0))
  end.

(** [%.<prec>f<unit>] of [n / div], in a buffer of 64 bytes *)
Definition quantity (prec : nat) (unit : bytes) (n div : double) : bytes :=
  Timestamp.snprintf 64 (fixed prec (d_div n div) ++ unit).

(** The table of [formatSI]: limit, precision, unit, divisor. *)
Definition si_table : list (Z * nat * bytes * Z) :=
  [(9995, 2%nat, bs "k", 10 ^ 3); (99950, 1%nat, bs "k", 10 ^ 3); (999500, 0%nat, bs "k", 10 ^ 3);
   (9995000, 2%nat, bs "M", 10 ^ 6); (99950000, 1%nat, bs "M", 10 ^ 6); (999500000, 0%nat, bs "M", 10 ^ 6);
   (9995000000, 2%nat, bs "G", 10 ^ 9); (99950000000, 1%nat, bs "G", 10 ^ 9); (999500000000, 0%nat, bs "G", 10 ^ 9);
   (9995000000000, 2%nat, bs "T", 10 ^ 12); (99950000000000, 1%nat, bs "T", 10 ^ 12); (999500000000000, 0%nat, bs "T", 10 ^ 12);
   (9995000000000000, 2%nat, bs "P", 10 ^ 15); (99950000000000000, 1%nat, bs "P", 10 ^ 15); (999500000000000000, 0%nat, bs "P", 10 ^ 15)].

(** The first entry of a table whose limit is not reached. *)
Fixpoint lookup_unit {L} (below : L -> bool) (table : list (L * nat * bytes * Z)) : option (nat * bytes * Z) :=
  match table with
  | [] => None
  | (limit, prec, unit, div) :: table' => if below limit then Some (prec, unit, div) else lookup_unit below table'
  end.

Definition formatSI (s : Z) : bytes :=
  let n := d_of_Z s in
  if s <? 1000 then Timestamp.snprintf 64 (dec s)
  else match lookup_unit (fun limit => s <? limit) si_table with
       | Some (prec, unit, div) => quantity prec unit n (d_of_Z div)
       | None => quantity 2 (bs "E") n (d_of_Z (10 ^ 18))
       end.

(** A decimal literal [num / 1000] of type double *)
Definition lit (num : Z) : double := d_div (d_of_Z num) (d_of_Z 1000).

Definition iec_rows (unit : bytes) (k : Z) : list (double * nat * bytes * Z) :=
  [(d_mul (d_of_Z k) (lit 9995), 2%nat, unit, k); (d_mul (d_of_Z k) (lit 99950), 1%nat, unit, k);
   (d_mul (d_of_Z k) (lit 1023500), 0%nat, unit, k)].

Definition iec_table : list (double * nat * bytes * Z) :=
  iec_rows (bs "Ki") (2 ^ 10) ++ iec_rows (bs "Mi") (2 ^ 20) ++ iec_rows (bs "Gi") (2 ^ 30) ++ iec_rows (bs "Ti") (2 ^ 40)
  ++ iec_rows (bs "Pi") (2 ^ 50) ++ [(d_mul (d_of_Z (2 ^ 60)) (lit 9995), 2%nat, bs "Ei", 2 ^ 60)].

Definition formatIEC (s : Z) : bytes :=
  let n := d_of_Z s in
  if d_lt n (d_of_Z 1024) then Timestamp.snprintf 64 (dec s)
  else match lookup_unit (fun limit => d_lt n limit) iec_table with
       | Some (prec, unit, div) => quantity prec unit n (d_of_Z div)
       | None => quantity 1 (bs "Ei") n (d_of_Z (2 ^ 60))
       end.

End LogStream.
