(* ===== verification/LogStreamFacts.v ===== *)
(** * Correctness of log streams

    The text of every number is right and short enough for the width reserved
    for it, the stream never writes outside its buffer, and what [formatSI]
    makes of the limits of its table. *)

From Stdlib Require Import SpecFloat.
From S2P Require Import Prelude Timestamp LogStream.

Local Open Scope Z_scope.

Import LogStream.

(** ** Integers *)

Lemma zero_at_digit d : -9 <= d <= 9 -> zero_at d = Ok [digit_char (Z.abs d)].
Proof.
  intros Hd. assert (d ∈ [-9;-8;-7;-6;-5;-4;-3;-2;-1;0;1;2;3;4;5;6;7;8;9]) as Hin by (rewrite !elem_of_cons; lia).
  rewrite !elem_of_cons in Hin. destruct_or! Hin; try (subst; reflexivity). by apply elem_of_nil in Hin.
Qed.

Lemma rem_quot_abs i : Z.abs (Z.rem i 10) = Z.abs i mod 10 /\ Z.abs (Z.quot i 10) = Z.abs i / 10 /\ -9 <= Z.rem i 10 <= 9.
Proof. Z.to_euclidean_division_equations. lia. Qed.

Lemma convert_loop_digits fuel i :
  (0 < fuel)%nat -> Z.abs i < 2 ^ Z.of_nat fuel -> convert_loop fuel i = Ok (map digit_char (digits fuel 10 (Z.abs i))).
Proof.
  revert i. induction fuel as [|fuel IH]; intros i Hf Hi; [lia|]. cbn [convert_loop digits].
  destruct (rem_quot_abs i) as (Hr & Hq & Hb). rewrite (zero_at_digit _ Hb), Hr. cbn [mbind outcome_bind].
  destruct (Z.ltb_spec (Z.abs i) 10) as [Hs|Hs].
  - rewrite (proj2 (Z.eqb_eq _ _)) by (Z.to_euclidean_division_equations; lia). rewrite Z.mod_small by lia. done.
  - assert (Z.quot i 10 <> 0) as Hnz by (Z.to_euclidean_division_equations; lia). rewrite (proj2 (Z.eqb_neq _ _)) by done.
    pose proof (div_lt_pow2 10 (Z.abs i) fuel ltac:(lia) ltac:(lia)) as Hd.
    rewrite IH, Hq; [done| |lia]. destruct fuel; [change (2 ^ Z.of_nat 0) with 1 in Hd; Z.to_euclidean_division_equations; lia|lia].
Qed.

Lemma convert_dec v : Z.abs v < 2 ^ 64 -> convert v = Ok (dec v).
Proof.
  intros Hv. unfold convert. rewrite convert_loop_digits by (done || lia). cbn [mbind outcome_bind]. unfold dec.
  rewrite rev_app_distr, <- map_rev. rewrite (digits_fuel_irrel (digit_fuel (Z.abs v)) 64) by (try apply digit_fuel_enough; unfold digit_fuel; lia).
  by destruct (v <? 0).
Qed.

Definition hex_char (d : Z) : byte := byte.of_Z (if d <? 10 then 48 + d else 55 + d).

Definition hex (z : Z) : bytes := map hex_char (rev (digits (digit_fuel z) 16 z)).

Lemma digitsHex_at d : 0 <= d < 16 -> load digitsHex d 1 = Ok [hex_char d].
Proof.
  intros Hd. assert (d ∈ [0;1;2;3;4;5;6;7;8;9;10;11;12;13;14;15]) as Hin by (rewrite !elem_of_cons; lia).
  rewrite !elem_of_cons in Hin. destruct_or! Hin; try (subst; reflexivity). by apply elem_of_nil in Hin.
Qed.

Lemma convertHex_loop_digits fuel i :
  (0 < fuel)%nat -> 0 <= i < 2 ^ Z.of_nat fuel -> convertHex_loop fuel i = Ok (map hex_char (digits fuel 16 i)).
Proof.
  revert i. induction fuel as [|fuel IH]; intros i Hf Hi; [lia|]. cbn [convertHex_loop digits].
  rewrite digitsHex_at by (apply Z.mod_pos_bound; lia). cbn [mbind outcome_bind].
  destruct (Z.ltb_spec i 16) as [Hs|Hs].
  - rewrite Z.div_small, Z.mod_small by lia. done.
  - assert (0 < i / 16) as Hnz by (apply Z.div_str_pos; lia). rewrite (proj2 (Z.eqb_neq _ _)) by lia.
    pose proof (div_lt_pow2 16 i fuel ltac:(lia) Hi) as Hd.
    rewrite IH; [done| |lia]. destruct fuel; [change (2 ^ Z.of_nat 0) with 1 in Hd; lia|lia].
Qed.

Lemma convertHex_hex v : 0 <= v < 2 ^ 64 -> convertHex v = Ok (hex v).
Proof.
  intros Hv. unfold convertHex. rewrite convertHex_loop_digits by (done || lia). cbn [mbind outcome_bind]. unfold hex.
  rewrite <- map_rev. rewrite (digits_fuel_irrel (digit_fuel v) 64) by (try apply digit_fuel_enough; unfold digit_fuel; lia). done.
Qed.

(** The number that decimal text denotes. *)
Definition undec (s : bytes) : Z :=
  match s with
  | c :: s' => if decide (c = Init.Byte.x2d) then - undigits 10 (map digit_val (rev s')) else undigits 10 (map digit_val (rev s))
  | [] => 0
  end.

Lemma undec_dec v : undec (dec v) = v.
Proof.
  unfold dec. set (ds := digits (digit_fuel (Z.abs v)) 10 (Z.abs v)).
  assert (Forall (fun d => 0 <= d < 10) ds) as Hds by (apply list.Forall_forall; intros d Hd; apply (digits_range (digit_fuel (Z.abs v)) 10 (Z.abs v)); [lia|lia|exact Hd]).
  assert (undigits 10 ds = Z.abs v) as Hu by (apply undigits_digits; [lia|split; [lia|apply digit_fuel_enough; lia]]).
  assert (map digit_val (rev (map digit_char (rev ds))) = ds) as Hm by (by rewrite <- map_rev, rev_involutive, map_digit_val by (by rewrite list.Forall_forall in Hds)).
  destruct (Z.ltb_spec v 0).
  - change (bs "-") with [Init.Byte.x2d]. cbn [app undec]. rewrite decide_True by done. rewrite Hm, Hu. lia.
  - cbn [app]. destruct (map digit_char (rev ds)) as [|c s] eqn:E.
    + apply (f_equal length) in E. rewrite length_map, length_rev in E. unfold ds, digit_fuel in E. cbn [digits] in E. by destruct (Z.abs v <? 10).
    + assert (c <> Init.Byte.x2d) as Hc.
      { assert (c ∈ map digit_char (rev ds)) as Hin by (rewrite E; by left). apply list_elem_of_fmap in Hin as (d & -> & Hd).
        apply digit_val_char. rewrite list.Forall_forall in Hds. apply Hds. apply list_elem_of_In, in_rev, list_elem_of_In. exact Hd. }
      unfold undec. rewrite decide_False by done. rewrite Hm, Hu. lia.
Qed.

(** ** The stream *)

Definition wf (b : FixedBuffer.t) : Prop := 0 <= FixedBuffer.cur_ b < zlen (FixedBuffer.data_ b).

Definition contents (b : FixedBuffer.t) : bytes := take (Z.to_nat (FixedBuffer.cur_ b)) (FixedBuffer.data_ b).

(** The text of an argument, whether it is a number, and the arguments that
    the operators take: integers and addresses of the machine, doubles whose
    text printf keeps below the width reserved for numbers. *)
Definition text (a : arg) : bytes :=
  match a with
  | Bool v => if v then bs "1" else bs "0"
  | Integer v => dec v
  | Pointer p => bs "0x" ++ hex p
  | Double s => s
  | Char c => [c]
  | CString (Some str) => str
  | CString None => bs "(null)"
  | Str s => s
  end.

Definition numeric (a : arg) : bool :=
  match a with Integer _ | Pointer _ | Double _ => true | _ => false end.

Definition arg_ok (a : arg) : Prop :=
  match a with
  | Integer v => - 2 ^ 63 <= v < 2 ^ 64
  | Pointer p => 0 <= p < 2 ^ 64
  | Double s => zlen s < 48
  | _ => True
  end.

(** The arguments that a buffer with [room] bytes left takes: a number while
    its reserved width is there, a string when it and one more byte fit. *)
Definition fits (room : Z) (a : arg) : bool := if numeric a then 48 <=? room else zlen (text a) <? room.

Fixpoint kept (room : Z) (l : list arg) : list arg :=
  match l with
  | [] => []
  | a :: l' => if fits room a then a :: kept (room - zlen (text a)) l' else kept room l'
  end.

Lemma hex_length v : 0 <= v < 2 ^ 64 -> (length (hex v) <= 16)%nat.
Proof.
  intros Hv. unfold hex. rewrite length_map, length_rev. apply digits_length; [lia..|].
  change (16 ^ Z.of_nat 16) with (2 ^ 64). lia.
Qed.

Lemma dec_length_64 v : Z.abs v < 2 ^ 64 -> (length (dec v) <= 21)%nat.
Proof.
  intros Hv. unfold dec. rewrite length_app, length_map, length_rev.
  assert (length (digits (digit_fuel (Z.abs v)) 10 (Z.abs v)) <= 20)%nat by (apply digits_length; [lia..|]; change (10 ^ Z.of_nat 20) with (10 ^ 20); lia).
  assert (length (if (v <? 0)%Z then bs "-" else []) <= 1)%nat by (destruct (v <? 0); vm_compute; lia). lia.
Qed.

(** Text that fits, stored with anything that fits behind it *)
Lemma store_contents b s rest :
  wf b -> zlen (s ++ rest) <= FixedBuffer.avail b -> 0 < FixedBuffer.avail b - zlen s ->
  exists d, store (FixedBuffer.data_ b) (FixedBuffer.cur_ b) (s ++ rest) = Ok d /\ zlen d = zlen (FixedBuffer.data_ b) /\
    wf (FixedBuffer.mk d (FixedBuffer.cur_ b + zlen s)) /\ contents (FixedBuffer.mk d (FixedBuffer.cur_ b + zlen s)) = contents b ++ s.
Proof.
  unfold wf, contents, FixedBuffer.avail. intros Hb Hr Hs. eexists. split; [apply store_Ok; lia|].
  assert (zlen (take (Z.to_nat (FixedBuffer.cur_ b)) (FixedBuffer.data_ b) ++ (s ++ rest) ++ drop (Z.to_nat (FixedBuffer.cur_ b) + length (s ++ rest)) (FixedBuffer.data_ b)) = zlen (FixedBuffer.data_ b)) as Hl
    by (eapply store_zlen, store_Ok; lia).
  cbn [FixedBuffer.data_ FixedBuffer.cur_]. rewrite Hl. split_and!; [done|unfold zlen in *; lia|lia|].
  rewrite <- app_assoc, app_assoc, take_app_le by (rewrite length_app, length_take; unfold zlen in *; lia).
  rewrite firstn_all2; [done|]. rewrite length_app, length_take. unfold zlen in *. lia.
Qed.

(** The effect of one operator, in the words of the abstract description *)
Definition inserts (a : arg) (b : FixedBuffer.t) (b' : FixedBuffer.t) : Prop :=
  zlen (FixedBuffer.data_ b') = zlen (FixedBuffer.data_ b) /\ wf b' /\
  contents b' = contents b ++ (if fits (FixedBuffer.avail b) a then text a else []) /\
  FixedBuffer.cur_ b' = FixedBuffer.cur_ b + (if fits (FixedBuffer.avail b) a then zlen (text a) else 0).

Lemma inserts_dropped a b : wf b -> fits (FixedBuffer.avail b) a = false -> inserts a b b.
Proof. intros Hb Hf. unfold inserts. rewrite Hf, app_nil_r. split_and!; [done..|lia]. Qed.

Lemma append_inserts a b :
  numeric a = false -> wf b -> exists b', FixedBuffer.append (text a) b = Ok b' /\ inserts a b b'.
Proof.
  intros Ha Hb. assert (fits (FixedBuffer.avail b) a = (zlen (text a) <? FixedBuffer.avail b)) as Hf by (unfold fits; by rewrite Ha).
  unfold FixedBuffer.append. destruct (Z.ltb_spec (zlen (text a)) (FixedBuffer.avail b)) as [Hl|Hl].
  - destruct (store_contents b (text a) [] Hb) as (d & Hd & Hz & Hw & Hc); [rewrite app_nil_r; lia|lia|].
    rewrite app_nil_r in Hd. rewrite Hd. cbn [mbind outcome_bind]. eexists. split; [done|]. unfold inserts. rewrite Hf. done.
  - exists b. split; [done|]. by apply inserts_dropped.
Qed.

(** Both ways to write a number: [cap] bytes of the text and a NUL *)
Lemma number_inserts a b :
  numeric a = true -> zlen (text a) < 48 -> wf b ->
  fits (FixedBuffer.avail b) a = (48 <=? FixedBuffer.avail b) /\
  (48 <= FixedBuffer.avail b ->
   exists d, store (FixedBuffer.data_ b) (FixedBuffer.cur_ b) (text a ++ [NUL]) = Ok d /\
     inserts a b (FixedBuffer.mk d (FixedBuffer.cur_ b + zlen (text a)))).
Proof.
  intros Ha Hl Hb. assert (fits (FixedBuffer.avail b) a = (48 <=? FixedBuffer.avail b)) as Hf by (unfold fits; by rewrite Ha).
  split; [done|]. intros Hr. assert (zlen (text a ++ [NUL]) = zlen (text a) + 1) as Hz1 by (unfold zlen; rewrite length_app; cbn; lia).
  destruct (store_contents b (text a) [NUL] Hb) as (d & Hd & Hz & Hw & Hc); [lia..|].
  exists d. split; [done|]. unfold inserts. rewrite Hf, (proj2 (Z.leb_le _ _)) by lia. done.
Qed.

Lemma text_number_short a : numeric a = true -> arg_ok a -> zlen (text a) < 48.
Proof.
  destruct a as [v|v|p|s|c|str|s]; cbn [numeric arg_ok text]; try done; intros _ H.
  - pose proof (dec_length_64 v ltac:(lia)). unfold zlen. lia.
  - pose proof (hex_length p H). unfold zlen. rewrite length_app. change (length (bs "0x")) with 2%nat. lia.
Qed.

Lemma insert_inserts a b : arg_ok a -> wf b -> exists b', insert a b = Ok b' /\ inserts a b b'.
Proof.
  intros Ha Hb. destruct (numeric a) eqn:Hn.
  - destruct (number_inserts a b Hn (text_number_short a Hn Ha) Hb) as (Hf & Hw).
    destruct (Z.leb_spec 48 (FixedBuffer.avail b)) as [Hr|Hr].
    2:{ exists b. split; [|by apply inserts_dropped]. apply Z.leb_gt in Hr.
        destruct a; try done; cbn [insert]; unfold formatInteger, formatPointer, formatDouble, kMaxNumericSize; by rewrite Hr. }
    destruct (Hw Hr) as (d & Hd & Hi). eexists. split; [|exact Hi]. pose proof (text_number_short a Hn Ha) as Hs. apply Z.leb_le in Hr.
    destruct a as [v|v|p|s|c|str|s]; try done; cbn [insert text arg_ok] in *; unfold formatInteger, formatPointer, formatDouble, kMaxNumericSize; rewrite Hr.
    + rewrite convert_dec by lia. cbn [mbind outcome_bind]. unfold write_current. by rewrite Hd.
    + rewrite convertHex_hex by lia. cbn [mbind outcome_bind]. unfold write_current. by rewrite Hd.
    + unfold Timestamp.snprintf. rewrite take_ge by (unfold zlen in Hs; lia). by rewrite Hd.
  - destruct (append_inserts a b Hn Hb) as (b' & Hb' & Hi). exists b'. split; [|done].
    by destruct a as [| | | | |[]|].
Qed.

(** [convert] writes the decimal text of every signed or unsigned integer
    of up to 64 bits, the smallest ones included, without reading outside its
    table of digits and in at most 21 characters, and the text denotes the
    number; [convertHex] writes the upper-case hexadecimal digits. *)
Theorem convert_correct v :
  - 2 ^ 63 <= v < 2 ^ 64 ->
  convert v = Ok (dec v) /\ undec (dec v) = v /\ (length (dec v) <= 21)%nat /\
  (0 <= v -> convertHex v = Ok (hex v)).
Proof.
  intros Hv. split_and!.
  - apply convert_dec. lia.
  - apply undec_dec.
  - apply dec_length_64. lia.
  - intros Hp. apply convertHex_hex. lia.
Qed.

Lemma convert_correct_witness : convert (- 2 ^ 63) = Ok (bs "-9223372036854775808").
Proof. apply (convert_correct (- 2 ^ 63)). by split. Defined.

(** C38: Whatever a statement logs, the stream never writes outside its fixed
    buffer: a number is taken while 48 bytes are left and a string when it and
    one more byte fit, the rest is dropped, and the buffer holds the texts of
    exactly the arguments taken, in order. *)
Theorem insert_all_bounded l b :
  Forall arg_ok l -> wf b ->
  exists b', insert_all l b = Ok b' /\ wf b' /\ zlen (FixedBuffer.data_ b') = zlen (FixedBuffer.data_ b) /\
    contents b' = contents b ++ concat (map text (kept (FixedBuffer.avail b) l)).
Proof.
  intros Hl. revert b. induction Hl as [|a l Ha _ IH]; intros b Hb.
  - exists b. cbn. by rewrite app_nil_r.
  - destruct (insert_inserts a b Ha Hb) as (b1 & Hi & Hz & Hw & Hc & Hcur). cbn [insert_all]. rewrite Hi. cbn [mbind outcome_bind].
    destruct (IH b1 Hw) as (b' & Hall & Hw' & Hz' & Hc'). exists b'. split_and!; [done|done|congruence|].
    rewrite Hc', Hc, <- app_assoc. f_equal. cbn [kept]. unfold FixedBuffer.avail in *. rewrite Hz, Hcur.
    destruct (fits _ a); cbn [app map concat]; [f_equal|]; do 3 f_equal; lia.
Qed.

Lemma insert_all_bounded_witness :
  exists b', insert_all [Str (bs "n="); Integer (-12); Pointer 255; CString None; Double (bs "0.5")] (FixedBuffer.new 52) = Ok b' /\
    FixedBuffer.toString b' = Ok (bs "n=-12(null)").
Proof.
  destruct (insert_all_bounded [Str (bs "n="); Integer (-12); Pointer 255; CString None; Double (bs "0.5")] (FixedBuffer.new 52)) as (b' & Hb' & _).
  - repeat constructor; vm_compute; congruence.
  - split; vm_compute; congruence.
  - exists b'. split; [exact Hb'|]. vm_compute in Hb'. injection Hb' as <-. vm_compute. reflexivity.
Defined.

(** ** Quantities *)

(** The numbers at both sides of each limit of [formatSI] *)
Definition si_edges : list Z :=
  [0; 999; 1000] ++ flat_map (fun '(limit, _, _, _) => [limit - 1; limit]) si_table ++ [2 ^ 63 - 1].

(** The first and the last number of each row of [formatIEC]: Ki, Mi and Gi *)
Definition iec_edges : list Z :=
  [0; 1023; 1024] ++ flat_map (fun k => [k * 9995 / 1000; k * 9995 / 1000 + 1; k * 9995 / 100; k * 9995 / 100 + 1; k * 2047 / 2 - 1; k * 2047 / 2])
    [2 ^ 10; 2 ^ 20; 2 ^ 30; 2 ^ 40; 2 ^ 50] ++ [2 ^ 63 - 1].

(** [formatSI] promises five characters and keeps the promise at both sides
    of every limit of its table but one: just below 99.95P the number is
    rounded when it becomes a double and prints as 100.0P, in six, and just
    below 999.5P it prints as 1000P.  [formatIEC] needs at most six at each
    of its limits, and a negative number is printed in full. *)
Theorem formatSI_six_characters :
  filter (fun s => (5 < length (formatSI s))%nat) si_edges = [99950000000000000 - 1] /\
  formatSI (99950000000000000 - 1) = bs "100.0P" /\ formatSI 99950000000000000 = bs "100P" /\
  formatSI (999500000000000000 - 1) = bs "1000P" /\ formatSI 999500000000000000 = bs "1.00E" /\
  Forall (fun s => (length (formatIEC s) <= 6)%nat) iec_edges /\
  formatSI (-1234567) = bs "-1234567".
Proof. split_and!. 6: apply (bool_decide_eq_true_1 _). all: vm_compute; reflexivity. Qed.
