(* ===== verification/Codec.v ===== *)
(** * The protobuf codec

    [Module ProtobufCodecLite] models src/muduo/net/protobuf/ProtobufCodecLite.h
    and ProtobufCodecLite.cc on the buffer of NetBuffer.v.  zlib's adler32 and
    the protobuf message class are parameters; the callbacks act on a state of
    the user's own, and the connection is part of that state. *)

From S2P Require Import Prelude NetBuffer.

Local Open Scope Z_scope.

Module ProtobufCodecLite.

Definition kHeaderLen : Z := 4.
Definition kChecksumLen : Z := 4.
Definition kMaxMessageLen : Z := 64 * 1024 * 1024.

Inductive ErrorCode :=
  | kNoError | kInvalidLength | kCheckSumError | kInvalidNameLen | kUnknownMessageType | kParseError.

#[global] Instance ErrorCode_eq_dec : EqDecision ErrorCode.
Proof. solve_decision. Defined.

Definition errorCodeToString (errorCode : ErrorCode) : bytes :=
  match errorCode with
  | kNoError => bs "NoError"
  | kInvalidLength => bs "InvalidLength"
  | kCheckSumError => bs "CheckSumError"
  | kInvalidNameLen => bs "InvalidNameLen"
  | kUnknownMessageType => bs "UnknownMessageType"
  | kParseError => bs "ParseError"
  end.

Section Codec.
Context {host : Host} {Message U : Type}.

(** zlib: the checksum of a block, from the initial value 1. *)
Context (adler32 : bytes -> Z).

(** The message class of protobuf. *)
Context (IsInitialized : Message -> bool) (ByteSize : Message -> Z)
  (SerializeWithCachedSizesToArray : Message -> bytes) (ParseFromArray : bytes -> option Message).

(** The members; [errorCallback_] is handed the buffer and may change it. *)
Record t := mk {
  tag_ : bytes;
  messageCallback_ : Message -> U -> U;
  rawCb_ : option (bytes -> U -> bool * U);
  errorCallback_ : ErrorCode -> Buffer.t -> U -> Buffer.t * U;
}.

Definition kMinMessageLen (c : t) : Z := zlen (tag_ c) + kChecksumLen.

(** A pointer is an offset [buf] into the object [mem]. *)
Definition asInt32 (mem : bytes) (buf : Z) : outcome Z :=
  be32 ← load mem buf 4;
  Ok (i32 (sockets.networkToHost32 (sockets.mem_int be32))).

Definition checksum (mem : bytes) (buf len : Z) : outcome Z :=
  d ← load mem buf len;
  Ok (i32 (adler32 d)).

Definition validateChecksum (mem : bytes) (buf len : Z) : outcome bool :=
  expectedCheckSum ← asInt32 mem (buf + len - kChecksumLen);
  checkSum ← checksum mem buf (len - kChecksumLen);
  Ok (checkSum =? expectedCheckSum).

Definition parseFromBuffer (mem : bytes) (data dataLen : Z) : outcome (option Message) :=
  d ← load mem data dataLen;
  Ok (ParseFromArray d).

(** [parse]: the error code and the message it filled in. *)
Definition parse (c : t) (mem : bytes) (buf len : Z) : outcome (ErrorCode * option Message) :=
  valid ← validateChecksum mem buf len;
  if valid : bool then
    head ← load mem buf (zlen (tag_ c));
    if decide (head = tag_ c) then
      let data := buf + zlen (tag_ c) in
      dataLen ← ck32 (len - kChecksumLen - zlen (tag_ c));
      r ← parseFromBuffer mem data dataLen;
      match r with
      | Some message => Ok (kNoError, Some message)
      | None => Ok (kParseError, None)
      end
    else Ok (kUnknownMessageType, None)
  else Ok (kCheckSumError, None).

(** [rawCb_ && !rawCb_(...)], with the user's state after the call *)
Definition refused (c : t) (frame : bytes) (u : U) : bool * U :=
  match rawCb_ c with
  | Some cb => let '(accepted, u) := cb frame u in (negb accepted, u)
  | None => (false, u)
  end.

(** The loop of [onMessage] *)
Fixpoint onMessage_loop (fuel : nat) (c : t) (b : Buffer.t) (u : U) : outcome (Buffer.t * U) :=
  match fuel with
  | O => Fault OutOfFuel
  | S fuel' =>
      if Buffer.readableBytes b <? u32 (kMinMessageLen c + kHeaderLen) then Ok (b, u)
      else
        len ← Buffer.peekInt32 b;
        if (kMaxMessageLen <? len) || (len <? kMinMessageLen c) then Ok (errorCallback_ c kInvalidLength b u)
        else
          total ← ck32 (kHeaderLen + len);
          if total <=? Buffer.readableBytes b then
            frame ← load (Buffer.buffer_ b) (Buffer.peek b) total;
            let '(skip, u) := refused c frame u in
            if skip : bool then b ← Buffer.retrieve b total; onMessage_loop fuel' c b u
            else
              r ← parse c (Buffer.buffer_ b) (Buffer.peek b + kHeaderLen) len;
              match r with
              | (kNoError, Some message) =>
                  let u := messageCallback_ c message u in
                  b ← Buffer.retrieve b total;
                  onMessage_loop fuel' c b u
              | (errorCode, _) => Ok (errorCallback_ c errorCode b u)
              end
          else Ok (b, u)
  end.

(** Each turn takes a frame off the buffer. *)
Definition onMessage (c : t) (b : Buffer.t) (u : U) : outcome (Buffer.t * U) :=
  onMessage_loop (S (length (Buffer.buffer_ b))) c b u.

(** [serializeToBuffer]; a size that does not match ends the process. *)
Definition serializeToBuffer (message : Message) (b : Buffer.t) : outcome (Z * Buffer.t) :=
  _ ← assert (IsInitialized message);
  let byte_size := ByteSize message in
  room ← ck32 (byte_size + kChecksumLen);
  b ← Buffer.ensureWritableBytes b (u64 room);
  let d := SerializeWithCachedSizesToArray message in
  v ← store (Buffer.buffer_ b) (Buffer.beginWrite b) d;
  _ ← assert (zlen d =? byte_size);
  b ← Buffer.hasWritten (Buffer.mk v (Buffer.readerIndex_ b) (Buffer.writerIndex_ b)) (u64 byte_size);
  Ok (byte_size, b).

Definition fillEmptyBuffer (c : t) (b : Buffer.t) (message : Message) : outcome Buffer.t :=
  _ ← assert (Buffer.readableBytes b =? 0);
  b ← Buffer.append b (tag_ c);
  '(byte_size, b) ← serializeToBuffer message b;
  checkSum ← checksum (Buffer.buffer_ b) (Buffer.peek b) (i32 (Buffer.readableBytes b));
  b ← Buffer.appendInt32 b checkSum;
  _ ← assert (Buffer.readableBytes b =? u64 (zlen (tag_ c) + byte_size + kChecksumLen));
  let len := i32 (sockets.hostToNetwork32 (u32 (i32 (Buffer.readableBytes b)))) in
  Buffer.prepend b (sockets.mem_bytes 4 len).

(** [send]: the buffer that it passes on to [conn->send(&buf)] *)
Definition send (c : t) (message : Message) : outcome Buffer.t :=
  b ← Buffer.new Buffer.kInitialSize;
  fillEmptyBuffer c b message.

(** The bytes of the connection arrive in chunks; after each the connection
    calls [onMessage]. *)
Fixpoint feed (c : t) (chunks : list bytes) (b : Buffer.t) (u : U) : outcome (Buffer.t * U) :=
  match chunks with
  | [] => Ok (b, u)
  | d :: chunks' =>
      b ← Buffer.append b d;
      '(b, u) ← onMessage c b u;
      feed c chunks' b u
  end.

(** ** What the bytes mean *)

(** The wire format: size, tag, payload, checksum. *)
Definition wire (c : t) (message : Message) : bytes :=
  let body := tag_ c ++ SerializeWithCachedSizesToArray message in
  sockets.be_split 4 (zlen body + kChecksumLen) ++ body ++ sockets.be_split 4 (adler32 body).

Inductive verdict :=
  | Incomplete
  | BadLength
  | Frame (frame rest : bytes).

(** The first frame of the bytes received, if it is complete. *)
Definition first_frame (c : t) (l : bytes) : verdict :=
  if zlen l <? kMinMessageLen c + kHeaderLen then Incomplete
  else
    let len := i32 (sockets.be_combine (take 4 l)) in
    if (kMaxMessageLen <? len) || (len <? kMinMessageLen c) then BadLength
    else if zlen l <? kHeaderLen + len then Incomplete
    else Frame (take (Z.to_nat (kHeaderLen + len)) l) (drop (Z.to_nat (kHeaderLen + len)) l).

(** What a complete frame says. *)
Definition decode (c : t) (frame : bytes) : ErrorCode + Message :=
  let n := (length frame - 8)%nat in
  let body := take n (drop 4 frame) in
  if negb (i32 (adler32 body) =? i32 (sockets.be_combine (drop n (drop 4 frame)))) then inl kCheckSumError
  else if decide (take (length (tag_ c)) body = tag_ c) then
    match ParseFromArray (drop (length (tag_ c)) body) with Some m => inr m | None => inl kParseError end
  else inl kUnknownMessageType.

(** The callbacks run on a stream of bytes: the error that ends it, if any, the
    bytes left and the user's state. *)
Inductive handles (c : t) : bytes -> U -> option ErrorCode * bytes * U -> Prop :=
  | handles_wait l u : first_frame c l = Incomplete -> handles c l u (None, l, u)
  | handles_length l u : first_frame c l = BadLength -> handles c l u (Some kInvalidLength, l, u)
  | handles_refused l u frame rest u' r :
      first_frame c l = Frame frame rest -> refused c frame u = (true, u') -> handles c rest u' r -> handles c l u r
  | handles_message l u frame rest u' m r :
      first_frame c l = Frame frame rest -> refused c frame u = (false, u') -> decode c frame = inr m ->
      handles c rest (messageCallback_ c m u') r -> handles c l u r
  | handles_error l u frame rest u' e :
      first_frame c l = Frame frame rest -> refused c frame u = (false, u') -> decode c frame = inl e ->
      handles c l u (Some e, l, u').

End Codec.
End ProtobufCodecLite.
