(* ===== verification/CodecFacts.v ===== *)
(** * Correctness of the protobuf codec

    [onMessage] implements the reading of a byte stream that Codec.v states
    with [handles], however the bytes arrive, and [send] writes frames that it
    reads back. *)

From S2P Require Import Prelude NetBuffer Codec.

Local Open Scope Z_scope.

Import ProtobufCodecLite.

(** Reading inside the readable bytes of a buffer *)
Lemma load_inside b i n :
  Buffer.wf b -> 0 <= i -> 0 <= n -> i + n <= zlen (Buffer.contents b) ->
  load (Buffer.buffer_ b) (Buffer.peek b + i) n = Ok (take (Z.to_nat n) (drop (Z.to_nat i) (Buffer.contents b))).
Proof.
  intros (pre & post & H)%Buffer.wf_layout Hi Hn Hle. destruct H as (E & Hr & _ & _).
  unfold Buffer.peek. rewrite Hr. set (c := Buffer.contents b) in *. pose proof (zlen_nonneg pre). pose proof (zlen_nonneg post).
  rewrite load_Ok; [|lia|lia|rewrite E, !zlen_app; lia]. rewrite E. f_equal.
  rewrite Z2Nat.inj_add, to_nat_zlen, <- drop_drop, drop_app_length by lia.
  rewrite drop_app_le by (unfold zlen in *; lia). rewrite take_app_le by (rewrite length_drop; unfold zlen in *; lia). done.
Qed.

Section Codec.
Context {host : Host} {Message U : Type}.
Context (adler32 : bytes -> Z).
Context (IsInitialized : Message -> bool) (ByteSize : Message -> Z)
  (SerializeWithCachedSizesToArray : Message -> bytes) (ParseFromArray : bytes -> option Message).
Context (c : @t Message U).

Local Abbreviation handles := (handles adler32 ParseFromArray c).
Local Abbreviation decode := (decode adler32 ParseFromArray c).
Local Abbreviation parse := (parse adler32 ParseFromArray c).
Local Abbreviation onMessage := (onMessage adler32 ParseFromArray c).
Local Abbreviation onMessage_loop := (fun fuel => onMessage_loop adler32 ParseFromArray fuel c).
Local Abbreviation feed := (feed adler32 ParseFromArray c).
Local Abbreviation wire := (wire adler32 SerializeWithCachedSizesToArray c).

(** The size of the smallest message is an [int]. *)
Definition tag_ok : Prop := zlen (tag_ c) + 8 <= INT_MAX.

Lemma first_frame_spec l frame rest :
  first_frame c l = Frame frame rest ->
  l = frame ++ rest /\ zlen frame = kHeaderLen + i32 (sockets.be_combine (take 4 l)) /\
  kMinMessageLen c <= zlen frame - kHeaderLen <= kMaxMessageLen.
Proof.
  unfold first_frame. destruct (Z.ltb_spec (zlen l) (kMinMessageLen c + kHeaderLen)); [done|].
  destruct (_ || _) eqn:Eb; [done|]. apply orb_false_iff in Eb as [Eb1%Z.ltb_ge Eb2%Z.ltb_ge].
  set (len := i32 _) in *. destruct (Z.ltb_spec (zlen l) (kHeaderLen + len)); [done|]. intros [= <- <-].
  pose proof (zlen_nonneg (tag_ c)). unfold kMinMessageLen, kHeaderLen, kChecksumLen in *.
  assert (zlen (take (Z.to_nat (4 + len)) l) = 4 + len) as Hz by (unfold zlen in *; rewrite length_take; lia).
  rewrite Hz. split_and!; [by rewrite take_drop|lia..].
Qed.

Lemma peekInt32_contents b :
  Buffer.wf b -> 4 <= zlen (Buffer.contents b) ->
  Buffer.peekInt32 b = Ok (i32 (sockets.be_combine (take 4 (Buffer.contents b)))).
Proof.
  intros Hw Hl. unfold Buffer.peekInt32. rewrite <- Buffer.contents_zlen, assert_true by (try apply Z.leb_le; done).
  cbn [mbind outcome_bind]. change 4 with (Z.of_nat 4). rewrite Buffer.load_contents by (unfold zlen in Hl; (done || lia)). cbn [mbind outcome_bind].
  unfold sockets.networkToHost32. rewrite <- sockets.htobe_mem_int, length_take. do 3 f_equal. unfold zlen in Hl. lia.
Qed.

Lemma asInt32_inside b i :
  Buffer.wf b -> 0 <= i -> i + 4 <= zlen (Buffer.contents b) ->
  asInt32 (Buffer.buffer_ b) (Buffer.peek b + i) = Ok (i32 (sockets.be_combine (take 4 (drop (Z.to_nat i) (Buffer.contents b))))).
Proof.
  intros Hw Hi Hl. unfold asInt32. rewrite load_inside by (done || lia). cbn [mbind outcome_bind].
  unfold sockets.networkToHost32. rewrite <- sockets.htobe_mem_int, length_take, length_drop. do 3 f_equal. unfold zlen in Hl. lia.
Qed.

(** [parse] on a complete frame *)
Lemma parse_decode b frame rest :
  Buffer.wf b -> Buffer.contents b = frame ++ rest -> kMinMessageLen c <= zlen frame - kHeaderLen <= INT_MAX ->
  parse (Buffer.buffer_ b) (Buffer.peek b + kHeaderLen) (zlen frame - kHeaderLen) =
  Ok (match decode frame with inl e => (e, None) | inr m => (kNoError, Some m) end).
Proof.
  intros Hw Hc [Hmin Hmax]. pose proof (zlen_nonneg (tag_ c)). pose proof (zlen_nonneg rest).
  unfold kMinMessageLen, kHeaderLen, kChecksumLen in *.
  assert (zlen (Buffer.contents b) = zlen frame + zlen rest) as Hz by (by rewrite Hc, zlen_app).
  unfold ProtobufCodecLite.parse, validateChecksum, checksum, decode, kHeaderLen, kChecksumLen.
  replace (Buffer.peek b + 4 + (zlen frame - 4) - 4) with (Buffer.peek b + (zlen frame - 4)) by lia.
  rewrite asInt32_inside by (done || lia). cbn [mbind outcome_bind].
  rewrite (load_inside b 4 (zlen frame - 4 - 4)) by (done || lia). cbn [mbind outcome_bind].
  assert (forall i n, 0 <= i -> 0 <= n -> i + n <= zlen frame ->
    take (Z.to_nat n) (drop (Z.to_nat i) (Buffer.contents b)) = take (Z.to_nat n) (drop (Z.to_nat i) frame)) as Hin.
  { intros i n Hi Hn Hle. rewrite Hc. unfold zlen in *. rewrite drop_app_le by lia. rewrite take_app_le by (rewrite length_drop; lia). done. }
  change (take 4) with (take (Z.to_nat 4) (A := byte)). rewrite !Hin by lia. change (Z.to_nat 4) with 4%nat.
  set (n := (length frame - 8)%nat). assert (Z.to_nat (zlen frame - 4 - 4) = n) as -> by (unfold zlen, n; lia).
  assert (take 4 (drop (Z.to_nat (zlen frame - 4)) frame) = drop n (drop 4 frame)) as ->.
  { rewrite drop_drop. assert (Z.to_nat (zlen frame - 4) = (4 + n)%nat) as -> by (unfold zlen, n in *; lia).
    apply take_ge. rewrite length_drop. unfold zlen, n in *. lia. }
  set (body := take n (drop 4 frame)). assert (zlen body = zlen frame - 8) as Hbody by (subst body n; unfold zlen in *; rewrite length_take, length_drop; lia).
  destruct (i32 (adler32 body) =? _); cbn [negb]; [|done].
  rewrite (load_inside b 4 (zlen (tag_ c))), Hin by (done || lia). cbn [mbind outcome_bind].
  assert (take (Z.to_nat (zlen (tag_ c))) (drop (Z.to_nat 4) frame) = take (length (tag_ c)) body) as ->.
  { rewrite to_nat_zlen. subst body. rewrite take_take. f_equal. subst n. unfold zlen in *. lia. }
  case_decide; [|done]. rewrite ck32_Ok by (unfold INT_MIN; lia). cbn [mbind outcome_bind]. unfold parseFromBuffer.
  rewrite <- Z.add_assoc, load_inside, Hin by (done || lia). cbn [mbind outcome_bind].
  assert (take (Z.to_nat (zlen frame - 4 - 4 - zlen (tag_ c))) (drop (Z.to_nat (4 + zlen (tag_ c))) frame) = drop (length (tag_ c)) body) as ->.
  { subst body. rewrite Z2Nat.inj_add, to_nat_zlen, <- drop_drop, skipn_firstn_comm by lia. f_equal. subst n. unfold zlen in *. lia. }
  by destruct (ParseFromArray _).
Qed.
(** *** The loop *)

(** What [onMessage] returns for a stream that was handled. *)
Definition answers (b' : Buffer.t) (u' : U) (r : option ErrorCode * bytes * U) : Prop :=
  match r with
  | (None, rest, u) => Buffer.wf b' /\ Buffer.contents b' = rest /\ u' = u
  | (Some e, rest, u) => exists b, Buffer.wf b /\ Buffer.contents b = rest /\ (b', u') = errorCallback_ c e b u
  end.

Lemma onMessage_loop_turn fuel b u :
  tag_ok -> Buffer.wf b ->
  onMessage_loop (S fuel) b u =
  match first_frame c (Buffer.contents b) with
  | Incomplete => Ok (b, u)
  | BadLength => Ok (errorCallback_ c kInvalidLength b u)
  | Frame frame rest =>
      let '(skip, u) := refused c frame u in
      if skip : bool then b ← Buffer.retrieve b (zlen frame); onMessage_loop fuel b u
      else match decode frame with
           | inr m => b ← Buffer.retrieve b (zlen frame); onMessage_loop fuel b (messageCallback_ c m u)
           | inl e => Ok (errorCallback_ c e b u)
           end
  end.
Proof.
  intros Ht Hw. cbn [ProtobufCodecLite.onMessage_loop]. unfold tag_ok in Ht. pose proof (zlen_nonneg (tag_ c)).
  rewrite <- Buffer.contents_zlen by done.
  assert (u32 (kMinMessageLen c + kHeaderLen) = kMinMessageLen c + kHeaderLen) as ->.
  { unfold u32, wrap_u, kMinMessageLen, kChecksumLen, kHeaderLen, INT_MAX in *. apply Z.mod_small. lia. }
  destruct (first_frame c (Buffer.contents b)) as [| |frame rest] eqn:Ef; revert Ef; unfold first_frame;
    (destruct (Z.ltb_spec (zlen (Buffer.contents b)) (kMinMessageLen c + kHeaderLen)); [done|]);
    rewrite peekInt32_contents by (try done; unfold kMinMessageLen, kHeaderLen, kChecksumLen in *; lia); cbn [mbind outcome_bind];
    (destruct (_ || _) eqn:Eb; [done|]); [|destruct (zlen (Buffer.contents b) <? kHeaderLen + _); done|];
    apply orb_false_iff in Eb as [Eb1%Z.ltb_ge Eb2%Z.ltb_ge]; set (len := i32 _) in *;
    rewrite ck32_Ok by (unfold kMinMessageLen, kHeaderLen, kChecksumLen, kMaxMessageLen, INT_MIN, INT_MAX in *; lia); cbn [mbind outcome_bind];
    destruct (Z.ltb_spec (zlen (Buffer.contents b)) (kHeaderLen + len)); try done.
  - by rewrite (proj2 (Z.leb_gt _ _)) by lia.
  - intros [= <- <-]. rewrite (proj2 (Z.leb_le _ _)) by lia.
    assert (zlen (take (Z.to_nat (kHeaderLen + len)) (Buffer.contents b)) = kHeaderLen + len) as Hz
      by (unfold kMinMessageLen, kHeaderLen, kChecksumLen, zlen in *; rewrite length_take; lia).
    replace (Buffer.peek b) with (Buffer.peek b + 0) at 1 by lia.
    rewrite load_inside by (try done; unfold kMinMessageLen, kHeaderLen, kChecksumLen in *; lia). cbn [mbind outcome_bind].
    change (Z.to_nat 0) with 0%nat. rewrite drop_0. set (frame := take (Z.to_nat (kHeaderLen + len)) (Buffer.contents b)) in *. rewrite <- Hz.
    destruct (refused c frame u) as [[] u']; [done|]. replace len with (zlen frame - kHeaderLen) by lia.
    rewrite (parse_decode b frame (drop (Z.to_nat (kHeaderLen + len)) (Buffer.contents b)));
      [|done|subst frame; by rewrite take_drop|unfold kMaxMessageLen, INT_MAX in *; lia].
    cbn [mbind outcome_bind]. by destruct (decode frame) as [[]|m].
Qed.
(** Taking a frame off the buffer *)
Lemma retrieve_frame b frame rest :
  Buffer.wf b -> first_frame c (Buffer.contents b) = Frame frame rest ->
  exists b', Buffer.retrieve b (zlen frame) = Ok b' /\ Buffer.wf b' /\ Buffer.contents b' = rest /\
    Buffer.buffer_ b' = Buffer.buffer_ b /\ (length rest < length (Buffer.contents b))%nat.
Proof.
  intros Hw Hf. pose proof (first_frame_spec _ _ _ Hf) as (Hc & Hz & Hb & _).
  destruct (Buffer.retrieve_contents b (length frame) Hw) as (b' & Hr & Hw' & Hc'); [rewrite Hc, length_app; lia|].
  exists b'. split_and!; [done|done|by rewrite Hc', Hc, drop_app_length|by eapply Buffer.retrieve_buffer|].
  rewrite Hc, length_app. pose proof (zlen_nonneg (tag_ c)). unfold kMinMessageLen, kHeaderLen, kChecksumLen, zlen in *. lia.
Qed.

Lemma onMessage_loop_handles fuel b u :
  tag_ok -> Buffer.wf b -> (length (Buffer.contents b) < fuel)%nat ->
  exists r b' u', handles (Buffer.contents b) u r /\ onMessage_loop fuel b u = Ok (b', u') /\ answers b' u' r /\
    (r.1.1 = None -> Buffer.buffer_ b' = Buffer.buffer_ b).
Proof.
  intros Ht. revert b u. induction fuel as [|fuel IH]; intros b u Hw Hf; [lia|]. rewrite onMessage_loop_turn by done.
  destruct (first_frame c (Buffer.contents b)) as [| |frame rest] eqn:Ef.
  - exists (None, Buffer.contents b, u), b, u. split; [by apply handles_wait|]. split; [done|]. by split.
  - destruct (errorCallback_ c kInvalidLength b u) as [b' u'] eqn:Ee. exists (Some kInvalidLength, Buffer.contents b, u), b', u'.
    split; [by apply handles_length|]. split; [done|]. split; [|done]. by exists b.
  - destruct (retrieve_frame b frame rest Hw Ef) as (b1 & Hr & Hw1 & Hc1 & Hm & Hlt). rewrite Hr, <- Hm, <- Hc1 in *.
    cbn [mbind outcome_bind]. destruct (refused c frame u) as [[] u1] eqn:Eu.
    + destruct (IH b1 u1 Hw1) as (r & b' & u' & Hh & Hl & Ha); [lia|]. exists r, b', u'. split; [by eapply handles_refused|done].
    + destruct (decode frame) as [e|m] eqn:Ed.
      * destruct (errorCallback_ c e b u1) as [b' u'] eqn:Ee. exists (Some e, Buffer.contents b, u1), b', u'.
        split; [by eapply handles_error|]. split; [done|]. split; [|done]. by exists b.
      * destruct (IH b1 (messageCallback_ c m u1) Hw1) as (r & b' & u' & Hh & Hl & Ha); [lia|].
        exists r, b', u'. split; [by eapply handles_message|done].
Qed.

(** *** Streams *)

Lemma handles_det l u r1 r2 : handles l u r1 -> handles l u r2 -> r1 = r2.
Proof.
  intros Hr1. revert r2. induction Hr1; intros r2 Hr2; inversion Hr2; subst;
    repeat match goal with A : ?x = _, B : ?x = _ |- _ => rewrite A in B; simplify_eq end; auto.
Qed.

Lemma handles_total l u : exists r, handles l u r.
Proof.
  remember (length l) as n eqn:E. revert l u E. induction (lt_wf n) as [n _ IH]. intros l u ->.
  destruct (first_frame c l) as [| |frame rest] eqn:Ef.
  - eexists. by apply handles_wait.
  - eexists. by apply handles_length.
  - pose proof (first_frame_spec _ _ _ Ef) as (Hc & Hz & Hb & _). pose proof (zlen_nonneg (tag_ c)).
    assert (length rest < length l)%nat as Hlt by (rewrite Hc, length_app; unfold kMinMessageLen, kHeaderLen, kChecksumLen, zlen in *; lia).
    destruct (refused c frame u) as [[] u1] eqn:Eu.
    + destruct (IH _ Hlt rest u1 eq_refl) as [r Hr]. eexists. by eapply handles_refused.
    + destruct (decode frame) as [e|m] eqn:Ed; [eexists; by eapply handles_error|].
      destruct (IH _ Hlt rest (messageCallback_ c m u1) eq_refl) as [r Hr]. eexists. by eapply handles_message.
Qed.

(** Bytes that wait for more do so again. *)
Lemma handles_rest l u rest u1 : handles l u (None, rest, u1) -> handles rest u1 (None, rest, u1).
Proof.
  intros H. apply handles_wait. remember (None, rest, u1) as r0 eqn:E. revert rest u1 E.
  induction H; intros; simplify_eq; eauto.
Qed.

(** More bytes do not change a frame or a bad length. *)
Lemma first_frame_app l d :
  match first_frame c l with
  | Incomplete => True
  | BadLength => first_frame c (l ++ d) = BadLength
  | Frame frame rest => first_frame c (l ++ d) = Frame frame (rest ++ d)
  end.
Proof.
  unfold first_frame. pose proof (zlen_nonneg (tag_ c)). pose proof (zlen_nonneg d).
  destruct (Z.ltb_spec (zlen l) (kMinMessageLen c + kHeaderLen)) as [|Hl]; [done|].
  rewrite (proj2 (Z.ltb_ge (zlen (l ++ d)) (kMinMessageLen c + kHeaderLen))) by (rewrite zlen_app; lia).
  rewrite (take_app_le l d 4) by (unfold kMinMessageLen, kHeaderLen, kChecksumLen, zlen in *; lia).
  destruct (_ || _) eqn:Eb; [done|]. set (len := i32 _) in *. destruct (Z.ltb_spec (zlen l) (kHeaderLen + len)); [done|].
  rewrite (proj2 (Z.ltb_ge (zlen (l ++ d)) (kHeaderLen + len))) by (rewrite zlen_app; lia). unfold zlen in *.
  by rewrite take_app_le, drop_app_le by lia.
Qed.

Lemma first_frame_app_Frame l d frame rest : first_frame c l = Frame frame rest -> first_frame c (l ++ d) = Frame frame (rest ++ d).
Proof. intros E. pose proof (first_frame_app l d) as H. by rewrite E in H. Qed.

Lemma handles_app l u e rest u1 d :
  handles l u (e, rest, u1) ->
  match e with
  | Some _ => handles (l ++ d) u (e, rest ++ d, u1)
  | None => forall r, handles (rest ++ d) u1 r -> handles (l ++ d) u r
  end.
Proof.
  intros H. remember (e, rest, u1) as r0 eqn:E. revert e rest u1 E.
  induction H as [l u Hf|l u Hf|l u frame rest' u' r Hf Hr _ IH|l u frame rest' u' m r Hf Hr Hd _ IH|l u frame rest' u' e' Hf Hr Hd];
    intros e rest u1 E; simplify_eq.
  - done.
  - apply handles_length. pose proof (first_frame_app rest d) as Ha. by rewrite Hf in Ha.
  - specialize (IH _ _ _ eq_refl). destruct e; [|intros r Hr'; specialize (IH r Hr')]; (eapply handles_refused; [by apply first_frame_app_Frame|done..]).
  - specialize (IH _ _ _ eq_refl). destruct e; [|intros r Hr'; specialize (IH r Hr')]; (eapply handles_message; [by apply first_frame_app_Frame|done..]).
  - eapply handles_error; [by apply first_frame_app_Frame|done..].
Qed.

(** Chunks of a stream without an error *)
Lemma feed_handles chunks b u rest u1 :
  tag_ok -> Buffer.wf b -> zlen (Buffer.buffer_ b) + zlen (concat chunks) <= Buffer.max_size ->
  handles (Buffer.contents b) u (None, Buffer.contents b, u) ->
  handles (Buffer.contents b ++ concat chunks) u (None, rest, u1) ->
  exists b', feed chunks b u = Ok (b', u1) /\ Buffer.wf b' /\ Buffer.contents b' = rest.
Proof.
  intros Ht. revert b u. induction chunks as [|d chunks IH]; intros b u Hw Hm H0 Hh; cbn [concat ProtobufCodecLite.feed] in *.
  - rewrite app_nil_r in Hh. pose proof (handles_det _ _ _ _ H0 Hh). simplify_eq. by exists b.
  - rewrite zlen_app in Hm. pose proof (zlen_nonneg (concat chunks)).
    destruct (Buffer.append_contents b d Hw) as (b1 & Ha & Hw1 & Hc1 & Hz1); [lia|]. rewrite Ha. cbn [mbind outcome_bind].
    destruct (onMessage_loop_handles (S (length (Buffer.buffer_ b1))) b1 u Ht Hw1) as ([[e rest1] u2] & b2 & u2' & Hh1 & Hl & Hans & Hbuf).
    { pose proof (Buffer.contents_le_size b1 Hw1). unfold zlen in *. lia. }
    unfold onMessage. rewrite Hl. cbn [mbind outcome_bind]. pose proof (handles_app _ _ _ _ _ (concat chunks) Hh1) as Happ.
    rewrite Hc1, <- app_assoc in Happ. destruct e as [e|]; [by pose proof (handles_det _ _ _ _ Happ Hh)|].
    destruct Hans as (Hw2 & Hc2 & ->). specialize (Hbuf eq_refl). apply IH; [done|rewrite Hbuf; lia| |].
    + rewrite Hc2. by eapply handles_rest.
    + rewrite Hc2. destruct (handles_total (rest1 ++ concat chunks) u2) as [r Hr]. pose proof (Happ r Hr) as Hr'.
      by rewrite (handles_det _ _ _ _ Hh Hr').
Qed.
(** *** Sending *)

(** The room in front of the contents that [prepend] needs *)
Lemma ensureWritableBytes_reader b len b' :
  Buffer.ensureWritableBytes b len = Ok b' -> Buffer.kCheapPrepend <= Buffer.readerIndex_ b -> Buffer.kCheapPrepend <= Buffer.readerIndex_ b'.
Proof.
  unfold Buffer.ensureWritableBytes. intros H Hr. inv_ok H. destruct (_ <? _); [|by inv_ok E].
  unfold Buffer.makeSpace in E. destruct (_ <? _); inv_ok E; [done|]. cbn. lia.
Qed.

Lemma append_reader b d b' :
  Buffer.append b d = Ok b' -> Buffer.kCheapPrepend <= Buffer.readerIndex_ b -> Buffer.kCheapPrepend <= Buffer.readerIndex_ b'.
Proof.
  unfold Buffer.append, Buffer.append_at. intros H Hr. apply bind_Ok in H as (b1 & H1 & H). apply (ensureWritableBytes_reader _ _ _ H1) in Hr.
  unfold Buffer.hasWritten in H. by inv_ok H.
Qed.

Lemma append_room b d :
  zlen d <= Buffer.writableBytes b ->
  Buffer.append b d =
  v ← store (Buffer.buffer_ b) (Buffer.beginWrite b) d;
  Buffer.hasWritten (Buffer.mk v (Buffer.readerIndex_ b) (Buffer.writerIndex_ b)) (zlen d).
Proof.
  intros Hd. unfold Buffer.append, Buffer.append_at, Buffer.ensureWritableBytes. rewrite (proj2 (Z.ltb_ge _ _)) by lia. cbn [mbind outcome_bind].
  rewrite assert_true by (apply Z.leb_le; lia). cbn [mbind outcome_bind].
  pose proof (load_mid [] d []) as L. rewrite app_nil_r in L. cbn [app] in L. change (zlen []) with 0 in L. by rewrite L.
Qed.

(** A message that the codec can send: its size is what protobuf says it is,
    and the frame's size is an [int]. *)
Definition sendable (m : Message) : Prop :=
  IsInitialized m = true /\ zlen (SerializeWithCachedSizesToArray m) = ByteSize m /\
  zlen (tag_ c) + ByteSize m + kChecksumLen <= INT_MAX.

Lemma serializeToBuffer_appends m b :
  sendable m -> Buffer.wf b -> zlen (Buffer.buffer_ b) + 2 * (ByteSize m + 4) <= Buffer.max_size -> Buffer.kCheapPrepend <= Buffer.readerIndex_ b ->
  exists b', serializeToBuffer IsInitialized ByteSize SerializeWithCachedSizesToArray m b = Ok (ByteSize m, b') /\ Buffer.wf b' /\
    Buffer.contents b' = Buffer.contents b ++ SerializeWithCachedSizesToArray m /\
    Buffer.kCheapPrepend <= Buffer.readerIndex_ b' /\ zlen (Buffer.buffer_ b') <= zlen (Buffer.buffer_ b) + 2 * (ByteSize m + 4).
Proof.
  intros (Hi & Hs & Hmax) Hw Hz Hr. set (d := SerializeWithCachedSizesToArray m) in *. pose proof (zlen_nonneg d). pose proof (zlen_nonneg (tag_ c)).
  unfold serializeToBuffer, kChecksumLen, INT_MAX in *. rewrite Hi. cbn [assert mbind outcome_bind].
  rewrite ck32_Ok by (unfold INT_MIN, INT_MAX; lia). cbn [mbind outcome_bind]. rewrite !u64_small by lia.
  destruct (Buffer.ensureWritableBytes_contents b (ByteSize m + 4) Hw) as (b1 & He & Hw1 & Hc1 & Hr1 & Hz1); [lia..|].
  rewrite He. cbn [mbind outcome_bind]. fold d.
  destruct (Buffer.append_contents b1 d Hw1) as (b2 & Ha & Hw2 & Hc2 & Hz2); [lia|].
  pose proof (append_reader _ _ _ Ha (ensureWritableBytes_reader _ _ _ He Hr)) as Hr2.
  rewrite append_room in Ha by lia. apply bind_Ok in Ha as (v & Hv & Hh). rewrite Hv. cbn [mbind outcome_bind].
  rewrite Hs, Z.eqb_refl. cbn [assert mbind outcome_bind]. rewrite <- Hs, Hh. cbn [mbind outcome_bind].
  exists b2. rewrite Hc2, Hc1. split_and!; [done..|lia].
Qed.

Lemma appendInt32_append b x : Buffer.appendInt32 b x = Buffer.append b (sockets.be_split 4 x).
Proof. apply (Buffer.appendFixed_bytes b (Buffer.I32 x)). Qed.

Lemma be_split_wrap x : sockets.be_split 4 (i32 x) = sockets.be_split 4 x.
Proof. unfold sockets.be_split. f_equal. apply (sockets.le_split_wrap 4 x). Qed.

Lemma network_bytes n : sockets.mem_bytes 4 (i32 (sockets.hostToNetwork32 (u32 (i32 n)))) = sockets.be_split 4 n.
Proof.
  unfold sockets.hostToNetwork32, i32. rewrite (sockets.mem_bytes_wrap_s 4), sockets.mem_bytes_htobe.
  rewrite <- (be_split_wrap n). unfold sockets.be_split, i32. f_equal. symmetry. apply (le_split_mod (wrap_s 32 n) 4).
Qed.
Lemma zlen_be_split x : zlen (sockets.be_split 4 x) = 4.
Proof. unfold zlen. by rewrite sockets.length_be_split. Qed.

Lemma fillEmptyBuffer_wire b m :
  sendable m -> Buffer.wf b -> Buffer.contents b = [] -> Buffer.kCheapPrepend <= Buffer.readerIndex_ b ->
  zlen (Buffer.buffer_ b) + zlen (tag_ c) + 2 * (ByteSize m + 4) + 4 <= Buffer.max_size ->
  exists b', fillEmptyBuffer adler32 IsInitialized ByteSize SerializeWithCachedSizesToArray c b m = Ok b' /\
    Buffer.wf b' /\ Buffer.contents b' = wire m.
Proof.
  intros Hm Hw Hc Hr Hz. pose proof Hm as (_ & Hs & Hmax). set (d := SerializeWithCachedSizesToArray m) in *.
  pose proof (zlen_nonneg d). pose proof (zlen_nonneg (tag_ c)). unfold fillEmptyBuffer.
  rewrite <- Buffer.contents_zlen, Hc by done. cbn [assert mbind outcome_bind zlen length Z.of_nat]. rewrite Z.eqb_refl. cbn [assert mbind outcome_bind].
  destruct (Buffer.append_contents b (tag_ c) Hw) as (b1 & Ha & Hw1 & Hc1 & Hz1); [lia|].
  pose proof (append_reader _ _ _ Ha Hr) as Hr1. rewrite Ha. cbn [mbind outcome_bind].
  destruct (serializeToBuffer_appends m b1 Hm Hw1) as (b2 & Hb2 & Hw2 & Hc2 & Hr2 & Hz2); [lia|done|]. rewrite Hb2. cbn [mbind outcome_bind].
  fold d in Hc2. rewrite Hc1, Hc in Hc2. cbn [app] in Hc2. unfold kChecksumLen in *.
  rewrite <- Buffer.contents_zlen, Hc2, zlen_app, Hs by done. rewrite i32_small by (unfold INT_MIN; lia). unfold checksum.
  replace (Buffer.peek b2) with (Buffer.peek b2 + 0) by lia. rewrite load_inside by (try done; rewrite ?Hc2, ?zlen_app; lia).
  cbn [mbind outcome_bind]. rewrite Hc2, appendInt32_append, be_split_wrap. change (Z.to_nat 0) with 0%nat. rewrite drop_0, <- Hs, <- zlen_app, to_nat_zlen, firstn_all.
  destruct (Buffer.append_contents b2 (sockets.be_split 4 (adler32 (tag_ c ++ d))) Hw2) as (b3 & Ha3 & Hw3 & Hc3 & Hz3).
  { rewrite zlen_be_split. lia. }
  pose proof (append_reader _ _ _ Ha3 Hr2) as Hr3. rewrite Ha3. cbn [mbind outcome_bind].
  assert (zlen (Buffer.contents b3) = zlen (tag_ c ++ d) + 4) as Hl3 by (by rewrite Hc3, Hc2, zlen_app, zlen_be_split).
  rewrite <- Buffer.contents_zlen, Hl3 by done. unfold INT_MAX in *. rewrite u64_small by (rewrite zlen_app; lia).
  rewrite zlen_app, Z.eqb_refl. cbn [assert mbind outcome_bind]. rewrite network_bytes.
  destruct (Buffer.prepend_contents b3 (sockets.be_split 4 (zlen (tag_ c) + zlen d + 4)) Hw3) as (b4 & Hp & Hw4 & Hc4 & _).
  { rewrite zlen_be_split. unfold Buffer.prependableBytes, Buffer.kCheapPrepend in *. lia. }
  exists b4. rewrite Hp. split_and!; [done|done|]. rewrite Hc4, Hc3, Hc2. unfold ProtobufCodecLite.wire, kChecksumLen. fold d. by rewrite zlen_app.
Qed.

Lemma send_wire m :
  sendable m ->
  exists b, send adler32 IsInitialized ByteSize SerializeWithCachedSizesToArray c m = Ok b /\ Buffer.wf b /\ Buffer.contents b = wire m.
Proof.
  intros Hm. unfold send. destruct (Buffer.new_wf Buffer.kInitialSize) as (b & Hb & Hw & Hc & Hz & Hp); [vm_compute; congruence..|].
  rewrite Hb. cbn [mbind outcome_bind]. unfold Buffer.prependableBytes in Hp. destruct Hm as (Hi & Hs & Hmax) eqn:E.
  pose proof (zlen_nonneg (tag_ c)). pose proof (zlen_nonneg (SerializeWithCachedSizesToArray m)).
  apply fillEmptyBuffer_wire; [done|done|done|lia|]. rewrite Hz. unfold kChecksumLen, INT_MAX, Buffer.max_size, Buffer.kCheapPrepend, Buffer.kInitialSize in *. lia.
Qed.

(** *** Receiving what was sent *)

Definition receivable (m : Message) : Prop :=
  sendable m /\ zlen (tag_ c) + ByteSize m + kChecksumLen <= kMaxMessageLen /\
  ParseFromArray (SerializeWithCachedSizesToArray m) = Some m.

Lemma first_frame_wire m rest :
  receivable m -> first_frame c (wire m ++ rest) = Frame (wire m) rest.
Proof.
  intros ((_ & Hs & _) & Hmax & _). set (d := SerializeWithCachedSizesToArray m) in *. pose proof (zlen_nonneg d). pose proof (zlen_nonneg (tag_ c)).
  set (len := zlen (tag_ c ++ d) + kChecksumLen). assert (zlen (tag_ c ++ d) = zlen (tag_ c) + zlen d) as Hd by apply zlen_app.
  assert (zlen (wire m) = kHeaderLen + len) as Hz.
  { unfold ProtobufCodecLite.wire. fold d. rewrite !zlen_app. rewrite !zlen_be_split. subst len. rewrite zlen_app. unfold kHeaderLen, kChecksumLen. lia. }
  assert (take 4 (wire m ++ rest) = sockets.be_split 4 len) as Ht.
  { unfold ProtobufCodecLite.wire. fold d. fold len. rewrite <- app_assoc.
    rewrite take_app_le by (by rewrite sockets.length_be_split). apply take_ge. by rewrite sockets.length_be_split. }
  pose proof (zlen_nonneg rest). unfold first_frame. rewrite zlen_app, Hz, Ht.
  assert (i32 (sockets.be_combine (sockets.be_split 4 len)) = len) as ->.
  { apply (sockets.wrap_s_be_combine_split 4 len); [lia|]. change (8 * Z.of_nat 4 - 1) with 31. unfold len, kMaxMessageLen, kChecksumLen in *. lia. }
  unfold len, kMinMessageLen, kHeaderLen, kChecksumLen, kMaxMessageLen in *.
  rewrite !(proj2 (Z.ltb_ge _ _)) by lia. cbn [orb]. rewrite <- Hz, to_nat_zlen, take_app_length, drop_app_length. done.
Qed.

Lemma decode_wire m : receivable m -> decode (wire m) = inr m.
Proof.
  intros (_ & _ & Hp). set (d := SerializeWithCachedSizesToArray m) in *. unfold ProtobufCodecLite.decode, ProtobufCodecLite.wire. fold d.
  set (body := tag_ c ++ d). set (h := sockets.be_split 4 _). set (s := sockets.be_split 4 _).
  assert (length h = 4%nat) as Hh by apply sockets.length_be_split. assert (length s = 4%nat) as Hsl by apply sockets.length_be_split.
  assert (length (h ++ body ++ s) - 8 = length body)%nat as -> by (rewrite !length_app; lia).
  rewrite <- Hh, drop_app_length, take_app_length, drop_app_length. subst s.
  assert (i32 (sockets.be_combine (sockets.be_split 4 (adler32 body))) = i32 (adler32 body)) as ->.
  { unfold i32. rewrite sockets.be_combine_split. apply (wrap_s_mod 32). lia. }
  rewrite Z.eqb_refl. cbn [negb]. subst body. rewrite take_app_length, drop_app_length, decide_True, Hp by done. done.
Qed.
(** The user's state after a message that was received: the raw callback may
    refuse it. *)
Definition deliver (u : U) (m : Message) : U :=
  let '(skip, u) := refused c (wire m) u in if skip : bool then u else messageCallback_ c m u.

Lemma first_frame_nil : first_frame c [] = Incomplete.
Proof. unfold first_frame. pose proof (zlen_nonneg (tag_ c)). by rewrite (proj2 (Z.ltb_lt _ _)) by (unfold kMinMessageLen, kChecksumLen, kHeaderLen; rewrite zlen_nil; lia). Qed.

Lemma handles_wires ms u : Forall receivable ms -> handles (concat (map wire ms)) u (None, [], foldl deliver u ms).
Proof.
  intros Hms. revert u. induction Hms as [|m ms Hm _ IH]; intros u; cbn [map concat foldl].
  - apply handles_wait, first_frame_nil.
  - specialize (IH (deliver u m)). unfold deliver in IH at 1. destruct (refused c (wire m) u) as [[] u1] eqn:Eu.
    + eapply handles_refused; [by apply first_frame_wire|done|done].
    + eapply handles_message; [by apply first_frame_wire|done|by apply decode_wire|done].
Qed.

End Codec.

(** C23: [onMessage] reads a stream of bytes as the format says.  It always
    returns; the user's callbacks run for the complete frames in order, up to the
    first frame whose length, checksum, tag or payload is wrong, which is
    reported once to the error callback and stays at the front; otherwise
    exactly the bytes of an incomplete frame are left.  No byte outside
    the readable ones is touched. *)
Theorem onMessage_handles {host : Host} {Message U : Type} adler32 ParseFromArray (c : @t Message U) b u :
  tag_ok c -> Buffer.wf b ->
  exists r b' u', handles adler32 ParseFromArray c (Buffer.contents b) u r /\
    onMessage adler32 ParseFromArray c b u = Ok (b', u') /\ answers c b' u' r.
Proof.
  intros Ht Hw. destruct (onMessage_loop_handles adler32 ParseFromArray c (S (length (Buffer.buffer_ b))) b u Ht Hw) as (r & b' & u' & Hh & Hl & Ha & _).
  - pose proof (Buffer.contents_le_size b Hw). unfold zlen in *. lia.
  - by exists r, b', u'.
Qed.

(** C22: Messages survive the network.  What [send] writes for messages of at
    most 64 MB is their frames, and when those bytes arrive in any chunks, at a
    machine of either byte order, each message is delivered once, in order, and
    nothing is left, given that protobuf writes as many bytes as it announces
    and parses what it wrote. *)
Theorem codec_round_trip (sender receiver : Host) {Message U : Type} adler32 IsInitialized ByteSize Serialize ParseFromArray
    (c : @t Message U) ms chunks b0 u :
  tag_ok c -> Forall (receivable IsInitialized ByteSize Serialize ParseFromArray c) ms ->
  Buffer.wf b0 -> Buffer.contents b0 = [] -> zlen (Buffer.buffer_ b0) + zlen (concat chunks) <= Buffer.max_size ->
  concat chunks = concat (map (wire adler32 Serialize c) ms) ->
  Forall (fun m => exists b, send (host := sender) adler32 IsInitialized ByteSize Serialize c m = Ok b /\
                     Buffer.contents b = wire adler32 Serialize c m) ms /\
  exists b', feed (host := receiver) adler32 ParseFromArray c chunks b0 u = Ok (b', foldl (deliver adler32 Serialize c) u ms) /\
    Buffer.contents b' = [].
Proof.
  intros Ht Hms Hw Hc Hz Hch. split.
  - eapply Forall_impl; [|exact Hms]. intros m (Hm & _). destruct (@send_wire sender _ _ adler32 _ _ _ c m Hm) as (b & Hs & _ & Hb). by exists b.
  - destruct (@feed_handles receiver _ _ adler32 ParseFromArray c chunks b0 u [] (foldl (deliver adler32 Serialize c) u ms)) as (b' & Hf & _ & Hb'); [done|done|done|..].
    + rewrite Hc. apply handles_wait, first_frame_nil.
    + rewrite Hc, Hch. by eapply handles_wires.
    + by exists b'.
Qed.

(** ** A codec in use *)

Module CodecDemo.

(** Messages that are byte strings, and a checksum in zlib's format of data of
    few bytes. *)
Definition adler32 (d : bytes) : Z :=
  let s := foldl (fun '(a, b) x => let a := (a + byte.unsigned x) mod 65521 in (a, (b + a) mod 65521)) (1, 0) d in
  s.2 * 65536 + s.1.

Definition codec : @t bytes (list bytes) := mk (bs "RPC0") (fun m u => u ++ [m]) None (fun e b u => (b, u ++ [errorCodeToString e])).

Definition fresh : Buffer.t := Buffer.mk (replicate 1032 NUL) 8 8.

Definition stream : bytes := concat (map (wire adler32 id codec) [bs "hello"; bs "world"]).

Lemma fresh_wf : Buffer.wf fresh.
Proof. unfold Buffer.wf. split_and!; vm_compute; congruence. Qed.

Lemma onMessage_handles_witness :
  exists r b' u', handles adler32 Some codec (Buffer.contents fresh) [] r /\
    onMessage (host := true) adler32 Some codec fresh [] = Ok (b', u') /\ answers codec b' u' r.
Proof. apply (@onMessage_handles true); [vm_compute; congruence|exact fresh_wf]. Defined.

Lemma codec_round_trip_witness :
  exists b', feed (host := false) adler32 Some codec [take 7 stream; drop 7 stream] fresh [] = Ok (b', [bs "hello"; bs "world"]) /\
    Buffer.contents b' = [].
Proof.
  destruct (codec_round_trip true false adler32 (fun _ => true) zlen id Some codec [bs "hello"; bs "world"] [take 7 stream; drop 7 stream] fresh []) as [_ H];
    [vm_compute; congruence| |exact fresh_wf|vm_compute; reflexivity|vm_compute; congruence|vm_compute; reflexivity|exact H].
  repeat constructor; vm_compute; congruence.
Defined.

End CodecDemo.
