(* ===== verification/Streams.v ===== *)
(** * Streams over a buffer

    net/protobuf/BufferStream.h ([Module BufferOutputStream]), the buffer as an
    output stream of protobuf, and net/ZlibStream.h ([Module ZlibOutputStream]),
    which compresses what is written to it into a buffer.  zlib itself is class
    [Zlib], a parameter with what zlib.h promises of it; the stored format of
    [Module Stored] is one such coder. *)

From S2P Require Import Prelude NetBuffer.

Local Open Scope Z_scope.

(** ** How far the reader's index moves *)

Module BufferRoom.
Import Buffer.

Lemma ensureWritableBytes_reader_le b len b' :
  wf b -> 0 <= len -> ensureWritableBytes b len = Ok b' -> readerIndex_ b' <= readerIndex_ b.
Proof.
  intros (Hr & Hw & Hk) Hlen H. unfold ensureWritableBytes in H. apply bind_Ok in H as (b1 & H1 & H). inv_ok H.
  destruct (_ <? _); [|by injection H1 as ->]. unfold makeSpace, kCheapPrepend in H1. destruct (_ <? _).
  - apply bind_Ok in H1 as (v & _ & [= <-]). cbn. lia.
  - apply bind_Ok in H1 as (u & Hlt & H1). apply assert_Ok, Z.ltb_lt in Hlt.
    apply bind_Ok in H1 as (d & _ & H1). apply bind_Ok in H1 as (v & _ & H1). apply bind_Ok in H1 as (u' & _ & [= <-]).
    cbn. lia.
Qed.

(** Making room in a buffer, with the size the buffer then has. *)
Lemma ensureWritableBytes_room b len :
  wf b -> 0 <= len -> readerIndex_ b + zlen (contents b) + len <= max_size ->
  exists b' pre post, ensureWritableBytes b len = Ok b' /\ layout b' pre (contents b) post /\ len <= zlen post /\
    readerIndex_ b' <= readerIndex_ b /\ zlen (buffer_ b') <= Z.max (zlen (buffer_ b)) (readerIndex_ b + zlen (contents b) + len).
Proof.
  intros Hwf Hlen Hmax. destruct (wf_layout b Hwf) as (pre & post & H). pose proof H as (_ & Hr & _).
  destruct (ensureWritableBytes_layout b pre (contents b) post len H Hlen) as (b' & pre' & post' & He & H' & Hp & Hz); [lia|].
  exists b', pre', post'. rewrite Hr. split_and!; try done. rewrite <- Hr. by eapply ensureWritableBytes_reader_le.
Qed.

(** Overwriting writable bytes and taking them in. *)
Lemma written_layout b pre c post d :
  layout b pre c post -> zlen d <= zlen post ->
  exists v b' post', store (buffer_ b) (beginWrite b) d = Ok v /\
    hasWritten (mk v (readerIndex_ b) (writerIndex_ b)) (zlen d) = Ok b' /\ layout b' pre (c ++ d) post' /\
    zlen post' = zlen post - zlen d /\ readerIndex_ b' = readerIndex_ b /\ zlen (buffer_ b') = zlen (buffer_ b).
Proof.
  intros H Hd. pose proof (layout_bytes _ _ _ _ H) as (_ & _ & _ & _ & Hbw & _). pose proof H as (E & Hr & Hw & Hm & Hk).
  destruct (list_prefix_exists post (length d)) as (y & z & -> & Ly); [unfold zlen in *; lia|].
  assert (layout (mk (pre ++ c ++ d ++ z) (readerIndex_ b) (writerIndex_ b)) pre c (d ++ z)) as Hl.
  { unfold layout. cbn. rewrite E in *. rewrite !zlen_app in *. unfold zlen in *. split_and!; try done; lia. }
  destruct (hasWritten_layout _ _ _ _ _ _ Hl eq_refl) as (b' & Hb & H' & Hv).
  exists (pre ++ c ++ d ++ z), b', z. split_and!; try done.
  - rewrite Hbw, E, app_assoc, <- zlen_app, store_mid by done. by rewrite <- app_assoc.
  - rewrite zlen_app. unfold zlen. lia.
  - destruct H' as (_ & -> & _). by rewrite Hr.
  - rewrite Hv, E. cbn. rewrite !zlen_app. unfold zlen. lia.
Qed.

End BufferRoom.

(** ** The buffer as a stream of protobuf *)

Module BufferOutputStream.
Import Buffer.

(** [Buffer* buffer_; size_t originalSize_;] with the buffer it points to. *)
Record stream := mk_stream { buffer_ : Buffer.t; originalSize_ : Z }.

Definition open (buf : Buffer.t) : stream := mk_stream buf (readableBytes buf).

(** [Next(void** data, int* size)]: the place and the number of the bytes that
    the caller may write. *)
Definition Next (s : stream) : outcome ((Z * Z) * stream) :=
  b ← ensureWritableBytes (buffer_ s) 4096;
  let data := beginWrite b in
  let size := i32 (writableBytes b) in
  b' ← hasWritten b (u64 size);
  Ok ((data, size), mk_stream b' (originalSize_ s)).

Definition BackUp (count : Z) (s : stream) : outcome stream :=
  b ← unwrite (buffer_ s) (u64 count); Ok (mk_stream b (originalSize_ s)).

Definition ByteCount (s : stream) : Z := i64 (u64 (readableBytes (buffer_ s) - originalSize_ s)).

(** What the caller does with the place it was given: it writes [d] there. *)
Definition fill (data : Z) (d : bytes) (s : stream) : outcome stream :=
  v ← store (Buffer.buffer_ (buffer_ s)) data d;
  Ok (mk_stream (mk v (readerIndex_ (buffer_ s)) (writerIndex_ (buffer_ s))) (originalSize_ s)).

(** A caller that follows the protocol of ZeroCopyOutputStream: it fills each
    place to the end and gives back what it did not need of the last. *)
Fixpoint emit (fuel : nat) (d : bytes) (s : stream) : outcome stream :=
  match fuel with
  | O => Fault OutOfFuel
  | S fuel =>
      '((data, size), s1) ← Next s;
      let chunk := take (Z.to_nat size) d in
      s2 ← fill data chunk s1;
      match drop (Z.to_nat size) d with
      | [] => BackUp (size - zlen chunk) s2
      | rest => emit fuel rest s2
      end
  end.

(** The room that the index of a buffer of at most INT_MAX bytes leaves. *)
Definition room (b : Buffer.t) (n : Z) : Prop :=
  wf b /\ zlen (Buffer.buffer_ b) <= INT_MAX /\ writerIndex_ b + n <= INT_MAX.

Lemma Next_layout s :
  room (buffer_ s) 4096 ->
  exists b pre post, Next s = Ok ((zlen pre + zlen (contents (buffer_ s)), zlen post), mk_stream b (originalSize_ s)) /\
    layout b pre (contents (buffer_ s) ++ post) [] /\ 4096 <= zlen post <= INT_MAX /\
    zlen pre <= readerIndex_ (buffer_ s) /\ zlen (Buffer.buffer_ b) <= INT_MAX.
Proof.
  intros (Hwf & Hsz & Hmax). pose proof (contents_zlen _ Hwf) as Hz. pose proof Hwf as (Hr & Hw & _).
  unfold readableBytes, max_size in *. rewrite u64_small in Hz by lia. unfold INT_MAX in *.
  destruct (BufferRoom.ensureWritableBytes_room (buffer_ s) 4096 Hwf) as (b1 & pre & post & He & H & Hp & Hri & Hs);
    [lia|unfold max_size; lia|].
  pose proof (layout_bytes _ _ _ _ H) as (_ & Hwr & _ & _ & Hbw & _). pose proof (layout_size _ _ _ _ H) as Hsz'.
  pose proof (zlen_nonneg pre). pose proof (zlen_nonneg (contents (buffer_ s))).
  assert (layout b1 pre (contents (buffer_ s)) (post ++ [])) as H' by (by rewrite app_nil_r).
  destruct (hasWritten_layout _ _ _ _ _ (zlen post) H' eq_refl) as (b' & Hb & Hl & Hv).
  exists b', pre, post. unfold Next. rewrite He. cbn [mbind outcome_bind].
  rewrite Hwr, i32_small, u64_small by (unfold INT_MIN, INT_MAX; lia).
  rewrite Hb. cbn [mbind outcome_bind]. rewrite Hbw, Hv. destruct H as (_ & Hr1 & _). split_and!; try done; lia.
Qed.

Lemma fill_layout b pre c x y d o :
  layout b pre (c ++ x ++ y) [] -> length d = length x ->
  exists b', fill (zlen pre + zlen c) d (mk_stream b o) = Ok (mk_stream b' o) /\ layout b' pre (c ++ d ++ y) [] /\
    zlen (Buffer.buffer_ b') = zlen (Buffer.buffer_ b).
Proof.
  intros (E & Hr & Hw & Hm & Hk) Hd. unfold fill. cbn [buffer_ originalSize_].
  rewrite app_nil_r, app_assoc in E. rewrite E, <- zlen_app, store_mid by done. cbn [mbind outcome_bind].
  eexists. split; [done|]. unfold layout. cbn. rewrite E in *. rewrite app_nil_r, <- !app_assoc, !zlen_app in *.
  unfold zlen in *. rewrite Hd in *. split_and!; try done; lia.
Qed.

Lemma emit_appends fuel d s :
  room (buffer_ s) (zlen d + 4096) -> zlen d < Z.of_nat fuel ->
  exists s', emit fuel d s = Ok s' /\ wf (buffer_ s') /\ contents (buffer_ s') = contents (buffer_ s) ++ d /\
    originalSize_ s' = originalSize_ s.
Proof.
  revert d s. induction fuel as [|fuel IH]; intros d s (Hwf & Hsz & Hmax) Hf; [pose proof (zlen_nonneg d); lia|].
  pose proof (zlen_nonneg d) as Hd0. destruct (Next_layout s) as (b & pre & post & Hn & H & Hp & Hri & Hs); [split_and!; [done|lia..]|].
  cbn [emit]. rewrite Hn. cbn [mbind outcome_bind]. rewrite to_nat_zlen.
  pose proof (contents_zlen _ Hwf) as Hcz. set (c := contents (buffer_ s)) in *. set (x := take (length post) d).
  assert (length x <= length post)%nat as Hx by (subst x; rewrite length_take; lia).
  destruct (list_prefix_exists post (length x) Hx) as (y & z & Epost & Hy).
  assert (layout b pre (c ++ y ++ z) []) as H1 by (by rewrite <- Epost).
  destruct (fill_layout b pre c y z x (originalSize_ s) H1) as (b2 & Hfill & H2 & Hz2); [done|].
  rewrite Hfill. cbn [mbind outcome_bind]. pose proof (take_drop (length post) d) as Ed. fold x in Ed.
  destruct (drop (length post) d) as [|r0 rest] eqn:Er.
  - rewrite app_nil_r in Ed. rewrite app_assoc in H2. destruct (unwrite_layout _ _ _ _ _ H2) as (b3 & Hu & H3).
    unfold BackUp. cbn [buffer_]. replace (u64 (zlen post - zlen x)) with (zlen z).
    + rewrite Hu. cbn [mbind outcome_bind]. eexists. split; [done|]. cbn. rewrite (layout_contents _ _ _ _ H3), Ed.
      split_and!; try done. by eapply layout_wf.
    + rewrite Epost, zlen_app, u64_small; unfold zlen, INT_MAX in *; rewrite Epost, length_app in *; lia.
  - assert (length x = length post) as Elx.
    { apply (f_equal length) in Er. rewrite length_drop in Er. cbn in Er. subst x. rewrite length_take. lia. }
    assert (z = []) as -> by (apply (f_equal length) in Epost; rewrite length_app in Epost; destruct z; [done|cbn in Epost; lia]).
    rewrite app_nil_r in H2. destruct (IH (r0 :: rest) (mk_stream b2 (originalSize_ s))) as (s' & He & Hwf' & Hc' & Ho).
    + destruct Hwf as (Hr & Hw & _). unfold readableBytes, max_size in *. rewrite u64_small in Hcz by lia.
      unfold room. cbn [buffer_]. rewrite Hz2. split_and!; [by eapply layout_wf|done|].
      pose proof H2 as (_ & _ & -> & _). rewrite zlen_app. pose proof (f_equal zlen Ed) as Hl. rewrite zlen_app in Hl. lia.
    + pose proof (f_equal zlen Ed) as Hl. rewrite zlen_app in Hl. unfold zlen in *. lia.
    + exists s'. split_and!; [done|done| |done]. rewrite Hc'. cbn [buffer_]. by rewrite (layout_contents _ _ _ _ H2), <- app_assoc, Ed.
Qed.

(** A message of any length that is written to the stream piece by piece, as
    protobuf does it, is appended to what the buffer holds, with nothing
    before, between or after it, and [ByteCount] is its length. *)
Theorem buffer_stream_appends buf d :
  wf buf -> zlen (Buffer.buffer_ buf) + zlen d + 4096 <= INT_MAX ->
  exists s, emit (S (length d)) d (open buf) = Ok s /\ wf (buffer_ s) /\ contents (buffer_ s) = contents buf ++ d /\
    ByteCount s = zlen d.
Proof.
  intros Hwf Hmax. pose proof (zlen_nonneg d). pose proof Hwf as (Hr & Hw & _).
  destruct (emit_appends (S (length d)) d (open buf)) as (s & He & Hs & Hc & Ho).
  - split_and!; [done|cbn [open buffer_]; lia..].
  - unfold zlen. lia.
  - exists s. split_and!; try done. unfold ByteCount. rewrite Ho. cbn [open originalSize_ buffer_] in *.
    rewrite <- !contents_zlen, Hc, zlen_app by done. unfold INT_MAX in *.
    replace (_ + _ - _) with (zlen d) by lia. rewrite u64_small, i64_small; unfold INT64_MIN, INT64_MAX; lia.
Qed.

Lemma buffer_stream_appends_witness :
  exists s, emit 6 (bs "hello") (open (mk (replicate 8 NUL ++ bs "abc") 8 11)) = Ok s /\
    contents (buffer_ s) = bs "abchello" /\ ByteCount s = 5.
Proof.
  destruct (buffer_stream_appends (mk (replicate 8 NUL ++ bs "abc") 8 11) (bs "hello")) as (s & He & _ & Hc & Hb).
  - unfold wf. split_and!; by vm_compute.
  - by vm_compute.
  - exists s. split_and!; [exact He|exact Hc|exact Hb].
Defined.

End BufferOutputStream.

(** ** zlib *)

Inductive flush := Z_NO_FLUSH | Z_FINISH.

Definition Z_OK : Z := 0.
Definition Z_STREAM_END : Z := 1.
Definition Z_STREAM_ERROR : Z := -2.

(** What a call of deflate did: how many bytes it took, what it wrote, what it
    returned and the state it left. *)
Record deflated (Z' : Type) := mk_deflated { consumed : nat; produced : bytes; ret : Z; after : Z' }.
Arguments mk_deflated {Z'}.
Arguments consumed {Z'}.
Arguments produced {Z'}.
Arguments ret {Z'}.
Arguments after {Z'}.

(** zlib: [deflate f z input n] with [n] bytes of output space, and the
    decoder of whole streams. *)
Class Zlib := {
  zstate : Type;
  deflateInit : Z * zstate;
  deflate : flush -> zstate -> bytes -> nat -> deflated zstate;
  deflateEnd : zstate -> Z;
  inflate : bytes -> option bytes;
}.

(** The states that a caller reaches who has given zlib the input [i] and got
    the output [o]; [Some rest] when it has begun to finish the stream and
    [rest] is the input still to be taken. *)
Inductive reached `{Zlib} : zstate -> bytes -> bytes -> option bytes -> Prop :=
  | reached_init : reached deflateInit.2 [] [] None
  | reached_deflate z i o d n :
      reached z i o None -> (0 < n)%nat -> let r := deflate Z_NO_FLUSH z d n in
      reached (after r) (i ++ take (consumed r) d) (o ++ produced r) None
  | reached_finish z i o d n :
      reached z i o None -> (0 < n)%nat -> let r := deflate Z_FINISH z d n in
      reached (after r) (i ++ take (consumed r) d) (o ++ produced r) (Some (drop (consumed r) d))
  | reached_finish_again z i o d n :
      reached z i o (Some d) -> (0 < n)%nat -> let r := deflate Z_FINISH z d n in
      reached (after r) (i ++ take (consumed r) d) (o ++ produced r) (Some (drop (consumed r) d)).

(** What zlib.h says: deflate stops when its input is empty or its output is
    full; Z_FINISH returns Z_STREAM_END once everything is written, and Z_OK when it
    needs more space; the output of a finished stream inflates to its input and
    is bounded by the length of the input. *)
Class ZlibSpec `{Zlib} := {
  deflateBound : nat -> nat;
  deflateBound_mono m n : (m <= n)%nat -> (deflateBound m <= deflateBound n)%nat;
  deflate_bounds f z d n : (consumed (deflate f z d n) <= length d)%nat /\ (length (produced (deflate f z d n)) <= n)%nat;
  deflate_no_flush z i o d n :
    reached z i o None -> d <> [] -> (0 < n)%nat -> let r := deflate Z_NO_FLUSH z d n in
    ret r = Z_OK /\ (consumed r = length d \/ length (produced r) = n);
  deflate_finish z i o d n f :
    reached z i o f -> f = None \/ f = Some d -> (0 < n)%nat -> let r := deflate Z_FINISH z d n in
    (ret r = Z_OK /\ length (produced r) = n) \/
    (ret r = Z_STREAM_END /\ inflate (o ++ produced r) = Some (i ++ d) /\ consumed r = length d /\ deflateEnd (after r) = Z_OK);
  deflate_bounded z i o f : reached z i o f -> (length o <= deflateBound (length i))%nat;
}.

Module ZlibOutputStream.
Import Buffer.

(** Memory: the objects that input pointers point into. *)
Abbreviation heap := (gmap nat bytes).
Abbreviation ptr := (option (nat * Z)).          (* NULL is [None] *)

Definition advance (p : ptr) (n : Z) : ptr := match p with Some (o, k) => Some (o, k + n) | None => None end.

Definition read (h : heap) (p : ptr) (n : Z) : outcome bytes :=
  match p with
  | Some (o, k) => match h !! o with Some m => load m k n | None => Fault OutOfBounds end
  | None => Fault OutOfBounds
  end.

Section Stream.
Context `{Zlib}.

(** [Buffer* output_] with the buffer, the fields of [zstream_] that the class
    uses, [zerror_] and [bufferSize_]. *)
Record stream := mk_stream {
  output_ : Buffer.t;
  next_in : ptr;
  avail_in : Z;
  total_in : Z;
  total_out : Z;
  zs : zstate;
  zerror_ : Z;
  bufferSize_ : Z;
}.

Definition open (output : Buffer.t) : stream :=
  mk_stream output None 0 0 0 deflateInit.2 deflateInit.1 1024.

Definition zlibErrorCode (s : stream) : Z := zerror_ s.
Definition inputBytes (s : stream) : Z := i64 (total_in s).
Definition outputBytes (s : stream) : Z := i64 (total_out s).
Definition internalOutputBufferSize (s : stream) : Z := bufferSize_ s.

Definition set_input (p : ptr) (n : Z) (s : stream) : stream :=
  mk_stream (output_ s) p n (total_in s) (total_out s) (zs s) (zerror_ s) (bufferSize_ s).
Definition set_zerror (e : Z) (s : stream) : stream :=
  mk_stream (output_ s) (next_in s) (avail_in s) (total_in s) (total_out s) (zs s) e (bufferSize_ s).

(** [int compress(int flush)]: the result of deflate is the first component. *)
Definition compress (h : heap) (f : flush) (s : stream) : outcome (Z * stream) :=
  b ← ensureWritableBytes (output_ s) (bufferSize_ s);
  let avail_out := u32 (i32 (writableBytes b)) in
  input ← (if avail_in s =? 0 then Ok [] else read h (next_in s) (avail_in s));
  let r := deflate f (zs s) input (Z.to_nat avail_out) in
  v ← store (buffer_ b) (beginWrite b) (produced r);
  let b1 := mk v (readerIndex_ b) (writerIndex_ b) in
  b2 ← hasWritten b1 (u64 (writableBytes b1 - (avail_out - zlen (produced r))));
  Ok (ret r,
      mk_stream b2 (advance (next_in s) (Z.of_nat (consumed r))) (avail_in s - Z.of_nat (consumed r))
        (u64 (total_in s + Z.of_nat (consumed r))) (u64 (total_out s + zlen (produced r))) (after r) (zerror_ s)
        (if (writableBytes b2 =? 0) && (bufferSize_ s <? 65536) then bufferSize_ s * 2 else bufferSize_ s)).

(** The loop of [write(StringPiece)] *)
Fixpoint write_loop (fuel : nat) (h : heap) (s : stream) : outcome stream :=
  if (0 <? avail_in s) && (zerror_ s =? Z_OK) then
    match fuel with
    | O => Fault OutOfFuel
    | S fuel => '(e, s') ← compress h Z_NO_FLUSH s; write_loop fuel h (set_zerror e s')
    end
  else Ok s.

(** [bool write(StringPiece buf)] *)
Definition write (fuel : nat) (h : heap) (data : ptr) (size : Z) (s : stream) : outcome (bool * stream) :=
  if negb (zerror_ s =? Z_OK) then Ok (false, s) else
  _ ← assert (bool_decide (next_in s = None) && (avail_in s =? 0));
  s1 ← write_loop fuel h (set_input data size s);
  s2 ← (if avail_in s1 =? 0 then
          _ ← assert (bool_decide (next_in s1 = advance data size));
          Ok (set_input None 0 s1)
        else Ok s1);
  Ok (zerror_ s2 =? Z_OK, s2).

(** [bool write(Buffer* input)], where [o] is the object that holds the
    memory of [input]. *)
Definition write_buffer (h : heap) (o : nat) (input : Buffer.t) (s : stream) : outcome (bool * Buffer.t * stream) :=
  if negb (zerror_ s =? Z_OK) then Ok (false, input, s) else
  let s0 := set_input (Some (o, peek input)) (u32 (i32 (readableBytes input))) s in
  s1 ← (if (0 <? avail_in s0) && (zerror_ s0 =? Z_OK) then
          '(e, s') ← compress (<[o := buffer_ input]> h) Z_NO_FLUSH s0; Ok (set_zerror e s')
        else Ok s0);
  input' ← retrieve input (u64 (readableBytes input - avail_in s1));
  Ok (zerror_ s1 =? Z_OK, input', s1).

(** The loop of [finish] *)
Fixpoint finish_loop (fuel : nat) (h : heap) (s : stream) : outcome stream :=
  if zerror_ s =? Z_OK then
    match fuel with
    | O => Fault OutOfFuel
    | S fuel => '(e, s') ← compress h Z_FINISH s; finish_loop fuel h (set_zerror e s')
    end
  else Ok s.

(** [bool finish()], which the destructor calls too *)
Definition finish (fuel : nat) (h : heap) (s : stream) : outcome (bool * stream) :=
  if negb (zerror_ s =? Z_OK) then Ok (false, s) else
  s1 ← finish_loop fuel h s;
  Ok (deflateEnd (zs s1) =? Z_OK, set_zerror Z_STREAM_END s1).

(** A caller's calls of [write(StringPiece)] *)
Fixpoint writes (fuel : nat) (h : heap) (pieces : list (ptr * Z)) (s : stream) : outcome stream :=
  match pieces with
  | [] => Ok s
  | (data, size) :: pieces => '(ok, s) ← write fuel h data size s; _ ← assert ok; writes fuel h pieces s
  end.

(** A caller that writes a buffer until it is empty *)
Fixpoint drain (fuel : nat) (h : heap) (o : nat) (input : Buffer.t) (s : stream) : outcome (Buffer.t * stream) :=
  if readableBytes input =? 0 then Ok (input, s) else
  match fuel with
  | O => Fault OutOfFuel
  | S fuel =>
      '(ok, input, s) ← write_buffer h o input s; _ ← assert ok; drain fuel h o input s
  end.

End Stream.

(** ** The compressed stream *)

Section StreamFacts.
Context `{ZlibSpec}.
(** What the output buffer held, where it was read, and how much is written *)
Variables (c0 : bytes) (r0 : Z) (N : nat).
Hypothesis capacity : r0 + zlen c0 + Z.of_nat (deflateBound N) + 65536 <= INT_MAX.

(** The output holds [o]; bufferSize_ is a power of two up to 65536. *)
Record out_ok (s : stream) (o : bytes) : Prop := {
  out_wf : wf (output_ s);
  out_size : zlen (buffer_ (output_ s)) <= INT_MAX;
  out_contents : contents (output_ s) = c0 ++ o;
  out_reader : readerIndex_ (output_ s) <= r0;
  out_step : exists k, bufferSize_ s = 1024 * 2 ^ k /\ 0 <= k <= 6;
  out_total : total_out s = u64 (zlen o);
}.

(** The input that the stream points to is [d]. *)
Definition holds (h : heap) (s : stream) (d : bytes) : Prop :=
  avail_in s = zlen d /\ (d = [] \/ read h (next_in s) (zlen d) = Ok d).

Lemma read_advance h p d n :
  read h p (zlen d) = Ok d -> (n <= length d)%nat -> read h (advance p (Z.of_nat n)) (zlen (drop n d)) = Ok (drop n d).
Proof.
  destruct p as [[o k]|]; [|done]. cbn. destruct (h !! o) as [m|]; [|done]. unfold load.
  destruct (_ && _) eqn:E; [|done]. apply andb_prop in E as [[E1%Z.leb_le E2%Z.leb_le]%andb_prop E3%Z.leb_le].
  intros [= Hd] Hn. unfold zlen in *. rewrite length_drop. rewrite !(proj2 (Z.leb_le _ _)) by lia. cbn.
  rewrite !Nat2Z.id in *. rewrite <- Hd at 2. rewrite skipn_firstn_comm, drop_drop. do 3 f_equal. lia.
Qed.

Lemma buffer_step k : 0 <= k <= 6 -> 1024 <= 1024 * 2 ^ k <= 65536.
Proof.
  intros Hk. assert (k = 0 \/ k = 1 \/ k = 2 \/ k = 3 \/ k = 4 \/ k = 5 \/ k = 6) as Hc by lia.
  destruct Hc as [->|[->|[->|[->|[->|[->| ->]]]]]]; lia.
Qed.

Lemma grow_step k (full : bool) : 0 <= k <= 6 ->
  exists k', (if full && (1024 * 2 ^ k <? 65536) then 1024 * 2 ^ k * 2 else 1024 * 2 ^ k) = 1024 * 2 ^ k' /\ 0 <= k' <= 6.
Proof.
  intros Hk. destruct full; cbn; [|by exists k]. destruct (Z.ltb_spec (1024 * 2 ^ k) 65536) as [Hlt|]; [|by exists k].
  exists (k + 1). rewrite Z.pow_add_r by lia. split; [lia|]. destruct (Z.eq_dec k 6) as [->|]; lia.
Qed.

(** One call of deflate *)
Lemma compress_out h f s o d :
  out_ok s o -> zlen o <= Z.of_nat (deflateBound N) -> holds h s d ->
  exists n s', (0 < n)%nat /\ let r := deflate f (zs s) d n in
    compress h f s = Ok (ret r, s') /\ out_ok s' (o ++ produced r) /\ holds h s' (drop (consumed r) d) /\
    next_in s' = advance (next_in s) (Z.of_nat (consumed r)) /\
    total_in s' = u64 (total_in s + Z.of_nat (consumed r)) /\ zs s' = after r /\ zerror_ s' = zerror_ s.
Proof.
  intros [Hwf Hsz Hc Hr (k & Hk & Hk6) Ht] Ho [Ha Hd]. pose proof (buffer_step k Hk6) as Hb. rewrite <- Hk in Hb.
  unfold INT_MAX in *. pose proof Hwf as (Hri & _).
  assert (zlen (contents (output_ s)) = zlen c0 + zlen o) as Hzc by (rewrite Hc, zlen_app; done).
  destruct (BufferRoom.ensureWritableBytes_room (output_ s) (bufferSize_ s) Hwf) as (b & pre & post & He & Hl & Hp & Hrb & Hzb);
    [lia|unfold max_size; lia|].
  pose proof (layout_bytes _ _ _ _ Hl) as (_ & Hwr & _ & _ & _ & Hpre & Hcc & _ & _). pose proof (layout_size _ _ _ _ Hl) as Hlz.
  pose proof (zlen_nonneg o). set (n := length post). assert (0 < n)%nat as Hn by (subst n; unfold zlen in *; lia).
  exists n. destruct (deflate_bounds f (zs s) d n) as [Hcons Hprod].
  destruct (BufferRoom.written_layout b pre _ post (produced (deflate f (zs s) d n)) Hl) as (v & b2 & post2 & Hst & Hhw & Hl2 & Hp2 & Hr2 & Hz2).
  { unfold zlen, n in *. lia. }
  assert (u32 (i32 (writableBytes b)) = zlen post) as Hav.
  { rewrite Hwr, i32_small by (unfold INT_MIN, INT_MAX; lia). apply Z.mod_small. lia. }
  assert ((if avail_in s =? 0 then Ok [] else read h (next_in s) (avail_in s)) = Ok d) as Hin.
  { rewrite Ha. destruct Hd as [->|Hd]; [done|]. destruct (Z.eqb_spec (zlen d) 0) as [Hz|]; [|done].
    destruct d; [done|]. unfold zlen in Hz. cbn in Hz. lia. }
  eexists. split; [done|]. cbn zeta. unfold compress. rewrite He. cbn [mbind outcome_bind]. rewrite Hav, Hin. cbn [mbind outcome_bind].
  rewrite to_nat_zlen. fold n. rewrite Hst. cbn [mbind outcome_bind].
  pose proof (store_zlen _ _ _ _ Hst) as Hv.
  replace (u64 (writableBytes (mk v (readerIndex_ b) (writerIndex_ b)) - (zlen post - zlen (produced (deflate f (zs s) d n)))))
    with (zlen (produced (deflate f (zs s) d n))).
  2: { unfold writableBytes in *. cbn. rewrite Hv, Hwr. pose proof (zlen_nonneg (produced (deflate f (zs s) d n))).
       assert (zlen (produced (deflate f (zs s) d n)) <= zlen post) by (unfold zlen, n in *; lia). rewrite u64_small; lia. }
  rewrite Hhw. cbn [mbind outcome_bind]. split; [done|]. split_and!.
  - constructor; cbn.
    + by eapply layout_wf.
    + rewrite Hz2. unfold INT_MAX. lia.
    + by rewrite (layout_contents _ _ _ _ Hl2), Hc, <- app_assoc.
    + lia.
    + rewrite Hk. by apply grow_step.
    + rewrite Ht, zlen_app. unfold u64, wrap_u. by rewrite Zplus_mod_idemp_l.
  - split; cbn.
    + rewrite Ha. unfold zlen. rewrite length_drop. lia.
    + destruct Hd as [->|Hd]; [left; apply drop_nil|]. right. by apply read_advance.
  - done.
  - done.
  - done.
  - done.
Qed.

(** A stream that took [i] and wrote [o]. *)
Record good (s : stream) (i o : bytes) : Prop := {
  good_out : out_ok s o;
  good_reached : reached (zs s) i o None;
  good_in : total_in s = u64 (zlen i);
  good_ok : zerror_ s = Z_OK;
}.

Lemma reached_within z i o f d : reached z i o f -> (length (i ++ d) <= N)%nat -> (length o <= deflateBound N)%nat.
Proof.
  intros Hr Hl. rewrite length_app in Hl. etransitivity; [by eapply deflate_bounded|]. apply deflateBound_mono. lia.
Qed.

Lemma u64_add a b : u64 (u64 a + b) = u64 (a + b).
Proof. apply Zplus_mod_idemp_l. Qed.

Lemma zlen_take_drop {A} n (l : list A) : (n <= length l)%nat -> zlen (take n l) = Z.of_nat n.
Proof. intros Hn. unfold zlen. rewrite length_take. lia. Qed.

Lemma out_ok_zerror s o e : out_ok s o -> out_ok (set_zerror e s) o.
Proof. by intros []. Qed.
Lemma out_ok_input s o p n : out_ok s o -> out_ok (set_input p n s) o.
Proof. by intros []. Qed.

(** One call of deflate on input that is not empty, without finishing. *)
Lemma compress_good h s i o d :
  good s i o -> holds h s d -> d <> [] -> (length (i ++ d) <= N)%nat ->
  exists s' x y p, d = x ++ y /\ compress h Z_NO_FLUSH s = Ok (Z_OK, s') /\ good (set_zerror Z_OK s') (i ++ x) (o ++ p) /\
    holds h s' y /\ next_in s' = advance (next_in s) (zlen x) /\ (y = [] \/ p <> []).
Proof.
  intros [Ho Hr Hi Hz] Hd Hne HN. pose proof (reached_within _ _ _ _ _ Hr HN) as Hb.
  destruct (compress_out h Z_NO_FLUSH s o d Ho) as (n & s' & Hn & Hc & Ho' & Hd' & Hp' & Hi' & Hs' & Hz'); [unfold zlen; lia|done|].
  destruct (deflate_no_flush (zs s) i o d n Hr Hne Hn) as [Hret Hex]. destruct (deflate_bounds Z_NO_FLUSH (zs s) d n) as [Hcons _].
  pose proof (reached_deflate (zs s) i o d n Hr Hn) as Hr'. cbn zeta in *. set (r := deflate Z_NO_FLUSH (zs s) d n) in *.
  exists s', (take (consumed r) d), (drop (consumed r) d), (produced r). rewrite take_drop, (zlen_take_drop _ _ Hcons).
  split_and!; try done.
  - by rewrite Hc, Hret.
  - constructor; cbn; [by apply out_ok_zerror|by rewrite Hs'| |done].
    by rewrite Hi', Hi, u64_add, zlen_app, (zlen_take_drop _ _ Hcons).
  - destruct Hex as [->|Hp]; [left; by rewrite drop_all|right]. intros E. rewrite E in Hp. cbn in Hp. lia.
Qed.

Lemma write_loop_done fuel h s : avail_in s = 0 -> write_loop fuel h s = Ok s.
Proof. intros Ha. destruct fuel; cbn; by rewrite Ha. Qed.

Lemma advance_advance p m n : advance (advance p m) n = advance p (m + n).
Proof. destruct p as [[o k]|]; cbn; [|done]. by rewrite Z.add_assoc. Qed.

Lemma advance_0 p : advance p 0 = p.
Proof. destruct p as [[o k]|]; cbn; [|done]. by rewrite Z.add_0_r. Qed.

Lemma write_loop_good fuel h s i o d :
  good s i o -> holds h s d -> (length (i ++ d) <= N)%nat -> (deflateBound N < fuel + length o)%nat ->
  exists s' p, write_loop fuel h s = Ok s' /\ good s' (i ++ d) (o ++ p) /\ avail_in s' = 0 /\
    next_in s' = advance (next_in s) (zlen d).
Proof.
  revert s i o d. induction fuel as [|fuel IH]; intros s i o d Hg Hd HN Hf.
  { pose proof (reached_within _ _ _ _ _ (good_reached _ _ _ Hg) HN). lia. }
  destruct (decide (d = [])) as [->|Hne].
  { exists s, []. rewrite (app_nil_r i), (app_nil_r o). split_and!; [apply write_loop_done, Hd|done|apply Hd|]. by rewrite advance_0. }
  destruct (compress_good h s i o d Hg Hd Hne HN) as (s1 & x & y & p & -> & Hc & Hg1 & Hd1 & Hp1 & Hex).
  cbn [write_loop]. rewrite (proj1 Hd), (good_ok _ _ _ Hg), (proj2 (Z.ltb_lt _ _)) by (apply zlen_pos; done). cbn [andb Z.eqb Z_OK].
  rewrite Hc. cbn [mbind outcome_bind]. rewrite zlen_app, (app_assoc i x y) in *. destruct Hex as [->|Hp].
  - exists (set_zerror Z_OK s1), p. change (zlen (@nil byte)) with 0. rewrite app_nil_r, Z.add_0_r. split_and!; [apply write_loop_done, Hd1|done|apply Hd1|done].
  - destruct (IH (set_zerror Z_OK s1) (i ++ x) (o ++ p) y Hg1) as (s' & p' & Hw & Hg' & Ha' & Hn'); [done|done| |].
    { rewrite length_app. destruct p; [done|]. cbn [length]. lia. }
    exists s', (p ++ p'). rewrite Hw, app_assoc. split_and!; try done. rewrite Hn'. cbn. by rewrite Hp1, advance_advance.
Qed.

Lemma write_good fuel h data d s i o :
  good s i o -> next_in s = None -> avail_in s = 0 -> d = [] \/ read h data (zlen d) = Ok d ->
  (length (i ++ d) <= N)%nat -> (deflateBound N < fuel)%nat ->
  exists s' p, write fuel h data (zlen d) s = Ok (true, s') /\ good s' (i ++ d) (o ++ p) /\ next_in s' = None /\ avail_in s' = 0.
Proof.
  intros Hg Hn Ha Hd HN Hf. unfold write. rewrite (good_ok _ _ _ Hg), Hn, Ha. cbn [negb Z.eqb Z_OK andb assert mbind outcome_bind].
  rewrite bool_decide_eq_true_2 by done. cbn [andb assert mbind outcome_bind].
  destruct (write_loop_good fuel h (set_input data (zlen d) s) i o d) as (s1 & p & Hw & Hg1 & Ha1 & Hn1); [|done|done|lia|].
  { destruct Hg as [Ho Hr Hi Hz]. constructor; try done. by apply out_ok_input. }
  rewrite Hw. cbn [mbind outcome_bind]. rewrite Ha1, Hn1. cbn [next_in set_input]. rewrite bool_decide_eq_true_2 by done.
  cbn [assert Z.eqb mbind outcome_bind]. exists (set_input None 0 s1), p. destruct Hg1 as [Ho Hr Hi Hz].
  split_and!; [cbn; by rewrite Hz| |done|done]. constructor; try done. by apply out_ok_input.
Qed.

(** The caller's pieces are bytes in memory. *)
Definition in_memory (h : heap) (pc : ptr * Z) (d : bytes) : Prop :=
  pc.2 = zlen d /\ (d = [] \/ read h pc.1 (zlen d) = Ok d).

Lemma writes_good fuel h pieces ds s i o :
  Forall2 (in_memory h) pieces ds -> good s i o -> next_in s = None -> avail_in s = 0 ->
  (length (i ++ concat ds) <= N)%nat -> (deflateBound N < fuel)%nat ->
  exists s' p, writes fuel h pieces s = Ok s' /\ good s' (i ++ concat ds) (o ++ p) /\ avail_in s' = 0.
Proof.
  intros Hm. revert s i o. induction Hm as [|[data size] d pieces ds [Hsize Hmem] _ IH]; intros s i o Hg Hn Ha HN Hf.
  - exists s, []. by rewrite !app_nil_r.
  - cbn in Hsize, Hmem, HN. subst size. rewrite app_assoc in HN.
    destruct (write_good fuel h data d s i o Hg Hn Ha Hmem) as (s1 & p & Hw & Hg1 & Hn1 & Ha1); [|done|].
    { rewrite length_app in HN. lia. }
    destruct (IH s1 _ _ Hg1 Hn1 Ha1 HN Hf) as (s' & p' & Hws & Hg' & Ha').
    exists s', (p ++ p'). cbn [writes]. rewrite Hw. cbn [mbind outcome_bind assert]. rewrite Hws. split_and!; [done| |done].
    cbn [concat]. by rewrite !app_assoc.
Qed.

Lemma finish_loop_ends fuel h s i o d f :
  out_ok s o -> reached (zs s) i o f -> f = None \/ f = Some d -> zerror_ s = Z_OK -> holds h s d ->
  (length (i ++ d) <= N)%nat -> (deflateBound N < fuel + length o)%nat ->
  exists s' p, finish_loop fuel h s = Ok s' /\ out_ok s' (o ++ p) /\ inflate (o ++ p) = Some (i ++ d) /\
    deflateEnd (zs s') = Z_OK /\ total_in s' = u64 (total_in s + zlen d).
Proof.
  revert s i o d f. induction fuel as [|fuel IH]; intros s i o d f Ho Hr Hf Hz Hd HN Hfu;
    pose proof (reached_within _ _ _ _ _ Hr HN) as Hb; [lia|].
  destruct (compress_out h Z_FINISH s o d Ho) as (n & s1 & Hn & Hc & Ho1 & Hd1 & _ & Hi1 & Hs1 & Hz1); [unfold zlen; lia|done|].
  destruct (deflate_bounds Z_FINISH (zs s) d n) as [Hcons _]. pose proof (deflate_finish (zs s) i o d n f Hr Hf Hn) as Hfin.
  assert (let r := deflate Z_FINISH (zs s) d n in
    reached (after r) (i ++ take (consumed r) d) (o ++ produced r) (Some (drop (consumed r) d))) as Hr1.
  { destruct Hf as [->| ->]; [by apply reached_finish|by apply reached_finish_again]. }
  cbn zeta in *. set (r := deflate Z_FINISH (zs s) d n) in *. cbn [finish_loop]. rewrite Hz, Hc. cbn [Z.eqb Z_OK mbind outcome_bind].
  destruct Hfin as [[Hret Hp]|(Hret & Hinf & Hall & Hend)].
  - rewrite Hret. rewrite <- (take_drop (consumed r) d) in HN. rewrite app_assoc in HN.
    destruct (IH (set_zerror Z_OK s1) (i ++ take (consumed r) d) (o ++ produced r) (drop (consumed r) d) (Some (drop (consumed r) d)))
      as (s' & p & Hl & Ho' & Hinf & Hend & Hi'); try done.
    + by apply out_ok_zerror.
    + cbn. by rewrite Hs1.
    + by right.
    + rewrite length_app. lia.
    + exists s', (produced r ++ p). rewrite <- app_assoc in Ho', Hinf. rewrite <- app_assoc, take_drop in Hinf. split_and!; try done.
      rewrite Hi'. cbn. rewrite Hi1, u64_add. f_equal. unfold zlen. rewrite length_drop. lia.
  - rewrite Hret. exists (set_zerror Z_STREAM_END s1), (produced r). cbn. rewrite Hs1. split_and!; try done.
    + by destruct fuel.
    + by apply out_ok_zerror.
    + rewrite Hi1, Hall. done.
Qed.

Lemma finish_good fuel h s i o d :
  good s i o -> holds h s d -> (length (i ++ d) <= N)%nat -> (deflateBound N < fuel)%nat ->
  exists s' c, finish fuel h s = Ok (true, s') /\ contents (output_ s') = c0 ++ c /\ inflate c = Some (i ++ d) /\
    zlibErrorCode s' = Z_STREAM_END /\ inputBytes s' = i64 (u64 (zlen (i ++ d))) /\ outputBytes s' = zlen c.
Proof.
  intros [Ho Hr Hi Hz] Hd HN Hf.
  destruct (finish_loop_ends fuel h s i o d None Ho Hr) as (s' & p & Hl & Ho' & Hinf & Hend & Hi'); [by left|done|done|done|lia|].
  exists (set_zerror Z_STREAM_END s'), (o ++ p). unfold finish. rewrite Hz. cbn [negb Z.eqb Z_OK]. rewrite Hl. cbn [mbind outcome_bind].
  rewrite Hend. split_and!; try done; [apply Ho'|..].
  - unfold inputBytes. cbn. by rewrite Hi', Hi, u64_add, zlen_app.
  - unfold outputBytes. cbn. destruct Ho' as [Hwf Hsz Hc _ _ ->]. pose proof (contents_le_size _ Hwf) as Hle.
    rewrite Hc, zlen_app in Hle. pose proof (zlen_nonneg c0). pose proof (zlen_nonneg (o ++ p)). unfold INT_MAX in *.
    rewrite u64_small, i64_small; unfold INT64_MIN, INT64_MAX; lia.
Qed.

Lemma peek_in_memory h k input :
  wf input -> zlen (contents input) <= INT_MAX ->
  u32 (i32 (readableBytes input)) = zlen (contents input) /\
  read (<[k := buffer_ input]> h) (Some (k, peek input)) (zlen (contents input)) = Ok (contents input).
Proof.
  intros Hwf Hmax. rewrite <- contents_zlen by done. pose proof (zlen_nonneg (contents input)). split.
  - rewrite i32_small by (unfold INT_MIN; lia). apply Z.mod_small. unfold INT_MAX in *. lia.
  - unfold read. rewrite lookup_insert_eq. unfold zlen. rewrite load_contents by done. by rewrite firstn_all.
Qed.

(** What one call of [write(Buffer* )] takes is taken out of the buffer. *)
Lemma write_buffer_good h k input s i o :
  good s i o -> wf input -> zlen (contents input) <= INT_MAX -> (length (i ++ contents input) <= N)%nat ->
  exists s' input' x p, write_buffer h k input s = Ok (true, input', s') /\ wf input' /\ contents input = x ++ contents input' /\
    good s' (i ++ x) (o ++ p) /\ avail_in s' = zlen (contents input') /\ (contents input' = [] \/ p <> []).
Proof.
  intros Hg Hwf Hmax HN. destruct (peek_in_memory h k input Hwf Hmax) as [Hlen Hmem].
  unfold write_buffer. rewrite (good_ok _ _ _ Hg), Hlen. cbn [negb Z.eqb Z_OK]. set (d := contents input) in *.
  assert (good (set_input (Some (k, peek input)) (zlen d) s) i o) as Hg0.
  { destruct Hg. constructor; try done. by apply out_ok_input. }
  cbn [avail_in zerror_ set_input]. rewrite (good_ok _ _ _ Hg). destruct (decide (d = [])) as [Ed|Hne].
  - rewrite Ed in *. change (zlen (@nil byte)) with 0 in *. cbn [Z.ltb Z.compare andb mbind outcome_bind].
    destruct (retrieve_contents input 0 Hwf) as (input' & Hr & Hwf' & Hc'); [lia|]. fold d in Hc'. rewrite Ed in Hc'.
    match goal with |- context [retrieve input ?e] => replace e with (Z.of_nat 0) end.
    + rewrite Hr. cbn [mbind outcome_bind]. exists (set_input (Some (k, peek input)) 0 s), input', [], []. cbn [zerror_ set_input avail_in].
      rewrite (good_ok _ _ _ Hg), Hc', (app_nil_r i), (app_nil_r o). split_and!; try done. by left.
    + rewrite <- contents_zlen by done. fold d. by rewrite Ed.
  - rewrite (proj2 (Z.ltb_lt _ _)) by (apply zlen_pos; done). cbn [andb Z.eqb Z_OK].
    destruct (compress_good (<[k := buffer_ input]> h) _ i o d Hg0) as (s1 & x & y & p & Ed & Hc & Hg1 & Hd1 & _ & Hex); [|done|done|].
    { split; [done|]. by right. }
    rewrite Hc. cbn [mbind outcome_bind].
    destruct (retrieve_contents input (length x) Hwf) as (input' & Hr & Hwf' & Hc').
    { fold d. rewrite Ed, length_app. lia. }
    fold d in Hc'. rewrite Ed, drop_app_length in Hc'. destruct Hd1 as [Ha1 _].
    match goal with |- context [retrieve input ?e] => replace e with (Z.of_nat (length x)) end.
    + rewrite Hr. cbn [mbind outcome_bind]. exists (set_zerror Z_OK s1), input', x, p. rewrite Hc'. split_and!; try done.
    + rewrite <- contents_zlen by done. fold d. cbn [avail_in set_zerror]. rewrite Ha1, Ed, zlen_app in *. unfold zlen, INT_MAX in *.
      rewrite u64_small; lia.
Qed.

Lemma drain_good fuel h k input s i o :
  good s i o -> wf input -> zlen (contents input) <= INT_MAX -> (length (i ++ contents input) <= N)%nat ->
  (deflateBound N < fuel + length o)%nat -> (contents input = [] -> avail_in s = 0) ->
  exists s' input' p, drain (S fuel) h k input s = Ok (input', s') /\ contents input' = [] /\
    good s' (i ++ contents input) (o ++ p) /\ avail_in s' = 0.
Proof.
  revert input s i o. induction fuel as [|fuel IH]; intros input s i o Hg Hwf Hmax HN Hf He;
    pose proof (reached_within _ _ _ _ _ (good_reached _ _ _ Hg) HN) as Hb; [lia|].
  cbn [drain]. rewrite <- contents_zlen by done. destruct (Z.eqb_spec (zlen (contents input)) 0) as [Hz|Hz].
  - assert (contents input = []) as E by (destruct (contents input); [done|unfold zlen in Hz; cbn in Hz; lia]).
    exists s, input, []. rewrite E, !app_nil_r. split_and!; try done. by apply He.
  - destruct (write_buffer_good h k input s i o Hg Hwf Hmax HN) as (s1 & input1 & x & p & Hw & Hwf1 & Ex & Hg1 & Ha1 & Hex).
    rewrite Hw. cbn [mbind outcome_bind assert]. rewrite Ex, app_assoc in HN. rewrite Ex, zlen_app in Hmax. pose proof (zlen_nonneg x).
    destruct Hex as [E|Hp].
    + rewrite <- (contents_zlen input1), E by done. rewrite E, app_nil_r in Ex. exists s1, input1, p. rewrite Ha1, E, Ex. by split_and!.
    + destruct (IH input1 s1 (i ++ x) (o ++ p)) as (s' & input' & p' & Hd & E' & Hg' & Ha'); try done.
      * lia.
      * rewrite length_app. destruct p; [done|]. cbn [length]. lia.
      * intros E. by rewrite Ha1, E.
      * cbn [drain] in Hd. rewrite Hd. exists s', input', (p ++ p'). by rewrite Ex, !app_assoc.
Qed.

End StreamFacts.

(** A new stream on a buffer with enough room *)
Lemma open_good `{ZlibSpec} output :
  deflateInit.1 = Z_OK -> wf output -> zlen (buffer_ output) <= INT_MAX ->
  good (contents output) (readerIndex_ output) (open output) [] [].
Proof.
  intros Hi Hwf Hs. constructor; cbn; try done; [|by apply reached_init]. constructor; cbn; try done; [by rewrite app_nil_r|].
  by exists 0.
Qed.

(** The room that a stream of [n] bytes needs *)
Definition fits `{ZlibSpec} (output : Buffer.t) (n : nat) : Prop :=
  wf output /\ zlen (buffer_ output) + Z.of_nat (deflateBound n) + 65536 <= INT_MAX.

Lemma fits_capacity `{ZlibSpec} output n :
  fits output n -> readerIndex_ output + zlen (contents output) + Z.of_nat (deflateBound n) + 65536 <= INT_MAX.
Proof.
  intros [Hwf Hf]. pose proof (contents_zlen _ Hwf) as Hz. destruct Hwf as (Hr & Hw & _). unfold readableBytes, max_size in *.
  rewrite u64_small in Hz by lia. lia.
Qed.

(** C26: For any zlib: what is written to a stream piece by piece, of any sizes, and
    finished is appended to the output as one zlib stream that inflates to the
    pieces in order; every call returns true, no assertion fails, the loops end,
    and the counters tell the lengths. *)
Theorem zlib_stream_round_trip `{ZlibSpec} h pieces ds output fuel :
  deflateInit.1 = Z_OK -> fits output (length (concat ds)) -> Forall2 (in_memory h) pieces ds ->
  (deflateBound (length (concat ds)) < fuel)%nat ->
  exists s s' c, writes fuel h pieces (open output) = Ok s /\ finish fuel h s = Ok (true, s') /\
    contents (output_ s') = contents output ++ c /\ inflate c = Some (concat ds) /\
    zlibErrorCode s' = Z_STREAM_END /\ inputBytes s' = i64 (u64 (zlen (concat ds))) /\ outputBytes s' = zlen c.
Proof.
  intros Hi Hfit Hm Hf. pose proof (fits_capacity _ _ Hfit) as Hcap. destruct Hfit as [Hwf Hfit].
  destruct (writes_good (contents output) (readerIndex_ output) _ Hcap fuel h pieces ds (open output) [] [] Hm)
    as (s & p & Hw & Hg & Ha); [|done|done|done|done|].
  { apply open_good; [done|done|lia]. }
  destruct (finish_good (contents output) (readerIndex_ output) _ Hcap fuel h s (concat ds) p [] Hg) as (s' & c & Hfin).
  - split; [done|by left].
  - by rewrite app_nil_r.
  - done.
  - rewrite app_nil_r in Hfin. by exists s, s', c.
Qed.

(** The same for a buffer that is written until it is empty, however much of it
    each call takes. *)
Theorem zlib_buffer_round_trip `{ZlibSpec} h k input output fuel :
  deflateInit.1 = Z_OK -> wf input -> zlen (contents input) <= INT_MAX -> fits output (length (contents input)) ->
  (deflateBound (length (contents input)) < fuel)%nat ->
  exists s input' s' c, drain (S fuel) h k input (open output) = Ok (input', s) /\ contents input' = [] /\
    finish fuel h s = Ok (true, s') /\ contents (output_ s') = contents output ++ c /\ inflate c = Some (contents input).
Proof.
  intros Hi Hwfi Hmax Hfit Hf. pose proof (fits_capacity _ _ Hfit) as Hcap. destruct Hfit as [Hwf Hfit].
  destruct (drain_good (contents output) (readerIndex_ output) _ Hcap fuel h k input (open output) [] [])
    as (s & input' & p & Hd & He & Hg & Ha); try done.
  { apply open_good; [done|done|lia]. }
  { cbn [length]. lia. }
  destruct (finish_good (contents output) (readerIndex_ output) _ Hcap fuel h s (contents input) p [] Hg) as (s' & c & Hfin & Hc & Hinf & _).
  - split; [done|by left].
  - by rewrite app_nil_r.
  - done.
  - rewrite app_nil_r in Hinf. by exists s, input', s', c.
Qed.

End ZlibOutputStream.

(** ** A coder that stores the bytes *)

Module Stored.

(** Each byte after a 1, and a 0 at the end *)
Definition encode (d : bytes) : bytes := flat_map (fun x => [Init.Byte.x01; x]) d.

Fixpoint decode (l : bytes) : option bytes :=
  match l with
  | [Init.Byte.x00] => Some []
  | Init.Byte.x01 :: x :: l' => d ← decode l'; Some (x :: d)
  | _ => None
  end.

(** Output that waits for space, and whether the end is in it *)
Definition state : Type := bytes * bool.

Definition deflate_stored (f : flush) (z : state) (d : bytes) (n : nat) : deflated state :=
  match f with
  | Z_NO_FLUSH =>
      if length z.1 <? n then
        let p := z.1 ++ encode d in mk_deflated (length d) (take n p) Z_OK (drop n p, z.2)
      else mk_deflated 0 (take n z.1) Z_OK (drop n z.1, z.2)
  | Z_FINISH =>
      let p := z.1 ++ encode d ++ (if z.2 then [] else [Init.Byte.x00]) in
      if length p <=? n then mk_deflated (length d) p Z_STREAM_END ([], true)
      else mk_deflated (length d) (take n p) Z_OK (drop n p, true)
  end%nat.

#[export] Instance stored : Zlib := {
  zstate := state;
  deflateInit := (Z_OK, ([], false));
  deflate := deflate_stored;
  deflateEnd z := if decide (z.1 = []) then Z_OK else -3;
  inflate := decode;
}.

Lemma encode_app d e : encode (d ++ e) = encode d ++ encode e.
Proof. apply flat_map_app. Qed.

Lemma encode_length d : length (encode d) = (2 * length d)%nat.
Proof. induction d as [|x d IH]; [done|]. cbn [encode flat_map app length] in *. fold (encode d). lia. Qed.

Lemma decode_encode d : decode (encode d ++ [Init.Byte.x00]) = Some d.
Proof.
  induction d as [|x d IH]; [done|]. change (encode (x :: d)) with (Init.Byte.x01 :: x :: encode d).
  cbn [app decode]. by rewrite IH.
Qed.

(** What was written and what waits are the input so far. *)
Lemma stored_inv z i o f : reached z i o f ->
  o ++ z.1 = encode i ++ (if z.2 then [Init.Byte.x00] else []) /\
  match f with None => z.2 = false | Some d => z.2 = true /\ d = [] end.
Proof.
  induction 1 as [|z i o d n _ [IH Hm] Hn r|z i o d n _ [IH Hm] Hn r|z i o d n _ [IH Hm] Hn r]; [done|..]; subst r; cbn in *.
  - rewrite Hm in *. rewrite app_nil_r in *. unfold deflate_stored. case_match; cbn; rewrite <- ?app_assoc, take_drop.
    + by rewrite firstn_all, encode_app, app_assoc, IH, app_nil_r.
    + by rewrite take_0, !app_nil_r, IH.
  - rewrite Hm in *. rewrite app_nil_r in IH. unfold deflate_stored. rewrite ?Hm.
    case_match; cbn; rewrite firstn_all, drop_all, encode_app, <- ?app_assoc, ?take_drop, ?app_nil_r; (split; [|done]);
      by rewrite app_assoc, IH.
  - destruct Hm as [Hm ->]. rewrite Hm in *. unfold deflate_stored. rewrite ?Hm. cbn. rewrite !app_nil_r.
    case_match; cbn; rewrite ?app_nil_r, <- ?app_assoc, ?take_drop; done.
Qed.

#[export] Instance stored_spec : ZlibSpec.
Proof.
  refine {| deflateBound n := (2 * n + 1)%nat |}.
  - lia.
  - intros f z d n. cbn. unfold deflate_stored. destruct f; case_match eqn:E; cbn; rewrite ?length_take; try lia.
    apply Nat.leb_le in E. lia.
  - intros z i o d n _ _ Hn. cbn. unfold deflate_stored. case_match eqn:E; cbn; (split; [done|]).
    + by left.
    + right. apply Nat.ltb_ge in E. rewrite length_take. lia.
  - intros z i o d n f Hr Hf Hn. cbn. apply stored_inv in Hr as [Ho Hf']. unfold deflate_stored.
    destruct (length (z.1 ++ encode d ++ (if z.2 then [] else [Init.Byte.x00])) <=? n)%nat eqn:E; cbn.
    + right. split_and!; try done. rewrite app_assoc, Ho. destruct Hf as [->| ->].
      * rewrite Hf', app_nil_r, app_assoc, <- encode_app. apply decode_encode.
      * destruct Hf' as [-> ->]. cbn. rewrite !app_nil_r. apply decode_encode.
    + left. split; [done|]. apply Nat.leb_gt in E. rewrite length_take. lia.
  - intros z i o f [Ho _]%stored_inv. apply (f_equal length) in Ho. rewrite !length_app, encode_length in Ho.
    destruct z.2; cbn in Ho; lia.
Defined.

End Stored.

Module ZlibDemo.
Import ZlibOutputStream Stored.

Definition output0 : Buffer.t := Buffer.mk (replicate 1032 NUL) 8 8.

(** "hello world" in two pieces of one object *)
Definition heap0 : heap := {[0%nat := bs "hello world"]}.

Lemma output0_fits n : (n <= 1000)%nat -> fits output0 n.
Proof.
  intros Hn. unfold fits. change (Z.of_nat (deflateBound n)) with (Z.of_nat (2 * n + 1)).
  change (zlen (Buffer.buffer_ output0)) with 1032. split; [|unfold INT_MAX; lia].
  unfold Buffer.wf. split_and!; by vm_compute.
Qed.

Lemma zlib_stream_round_trip_witness :
  exists s s' c, writes 30 heap0 [(Some (0%nat, 0), 6); (Some (0%nat, 6), 5)] (open output0) = Ok s /\
    finish 30 heap0 s = Ok (true, s') /\ Buffer.contents (output_ s') = c /\ inflate c = Some (bs "hello world").
Proof.
  destruct (zlib_stream_round_trip heap0 [(Some (0%nat, 0), 6); (Some (0%nat, 6), 5)] [bs "hello "; bs "world"] output0 30)
    as (s & s' & c & Hw & Hf & Hc & Hi & _).
  - done.
  - apply output0_fits. cbn. lia.
  - repeat constructor; by right.
  - cbn. lia.
  - exists s, s', c. by split_and!.
Defined.

Definition input0 : Buffer.t := Buffer.mk (replicate 8 NUL ++ bs "hello world") 8 19.

Lemma zlib_buffer_round_trip_witness :
  exists s input' s' c, drain 31 ∅ 1 input0 (open output0) = Ok (input', s) /\ Buffer.contents input' = [] /\
    finish 30 ∅ s = Ok (true, s') /\ Buffer.contents (output_ s') = c /\ inflate c = Some (bs "hello world").
Proof.
  destruct (zlib_buffer_round_trip ∅ 1 input0 output0 30) as (s & input' & s' & c & Hd & He & Hf & Hc & Hi).
  - done.
  - unfold Buffer.wf. split_and!; by vm_compute.
  - by vm_compute.
  - apply output0_fits, Nat.leb_le. by vm_compute.
  - apply Nat.ltb_lt. by vm_compute.
  - exists s, input', s', c. by split_and!.
Defined.

(** After a buffer was written, even one that was taken completely, a piece
    cannot be: write(Buffer* ) leaves [next_in] where it was, and
    write(StringPiece) asserts that it is NULL. *)
Theorem write_after_write_buffer :
  (r ← write_buffer heap0 1 input0 (open output0); write 30 heap0 (Some (0%nat, 0)) 6 r.2) = Fault AssertFailed.
Proof. vm_compute. reflexivity. Qed.

(** A buffer that one call did not take is finished all the same: finish
    compresses what [next_in] still points to, which the caller's buffer still
    holds as not yet written; when that buffer is gone, finish reads freed memory. *)
Definition long : bytes := replicate 1600 Init.Byte.x61.

Theorem finish_takes_the_rest :
  match (r ← write 30 {[0%nat := long]} (Some (0%nat, 0)) 1600 (open output0); write_buffer ∅ 1 input0 r.2) with
  | Ok (ok, input', s) =>
      ok = true /\ Buffer.contents input' = bs "hello world" /\
      match finish 30 {[1%nat := Buffer.buffer_ input']} s with
      | Ok (ok', s') => ok' = true /\ inflate (Buffer.contents (output_ s')) = Some (long ++ bs "hello world")
      | Fault _ => False
      end /\
      finish 30 ∅ s = Fault OutOfBounds
  | Fault _ => False
  end.
Proof. vm_compute. split_and!; reflexivity. Qed.

End ZlibDemo.
