(* ===== verification/Connector.v ===== *)
(** * The connector

    [Module Connector] models src/muduo/net/Connector.h and Connector.cc: the
    state machine that opens a connection, retries with a growing delay and
    hands the socket over.  What it uses of the event loop is here as well: the
    functors it queues, the timers it sets, the registration of its channel.
    The results of connect(2), of SO_ERROR and of the self-connect test are
    arguments of the steps. *)

From S2P Require Import Prelude Monitor.

Local Open Scope Z_scope.

Module Connector.

Inductive States := kDisconnected | kConnecting | kConnected.

#[global] Instance States_eq_dec : EqDecision States.
Proof. solve_decision. Defined.

Definition kMaxRetryDelayMs : Z := 30 * 1000.
Definition kInitRetryDelayMs : Z := 500.

(** What the connector queues in its loop *)
Inductive functor := StartInLoop | StopInLoop | ResetChannel.

#[global] Instance functor_eq_dec : EqDecision functor.
Proof. solve_decision. Defined.

(** What can be seen from outside *)
Inductive event :=
  | RunAfter (ms : Z)          (* a retry was scheduled *)
  | NewConnection (fd : nat)   (* [newConnectionCallback_] *)
  | GaveUp (errno : Z)         (* a failure that is not retried *)
  | Restarted.

(** The members; [channel_] is its descriptor and whether the channel is in the
    loop.  Of the loop: the queued functors, the connector's timers (those of
    this iteration cannot expire in it) and the sockets that are open. *)
Record t := mk {
  connect_ : bool;
  state_ : States;
  channel_ : option (nat * bool);
  retryDelayMs_ : Z;
  pending : list functor;
  fresh : list Z;
  armed : list Z;
  next_fd : nat;
  open : list nat;
  trace : list event;
}.

Definition new : t := mk false kDisconnected None kInitRetryDelayMs [] [] [] 0 [] [].

Definition setState (x : States) (s : t) : t :=
  mk (connect_ s) x (channel_ s) (retryDelayMs_ s) (pending s) (fresh s) (armed s) (next_fd s) (open s) (trace s).
Definition set_connect (x : bool) (s : t) : t :=
  mk x (state_ s) (channel_ s) (retryDelayMs_ s) (pending s) (fresh s) (armed s) (next_fd s) (open s) (trace s).
Definition set_channel (x : option (nat * bool)) (s : t) : t :=
  mk (connect_ s) (state_ s) x (retryDelayMs_ s) (pending s) (fresh s) (armed s) (next_fd s) (open s) (trace s).
Definition set_delay (x : Z) (s : t) : t :=
  mk (connect_ s) (state_ s) (channel_ s) x (pending s) (fresh s) (armed s) (next_fd s) (open s) (trace s).
Definition set_pending (x : list functor) (s : t) : t :=
  mk (connect_ s) (state_ s) (channel_ s) (retryDelayMs_ s) x (fresh s) (armed s) (next_fd s) (open s) (trace s).
Definition set_timers (f a : list Z) (s : t) : t :=
  mk (connect_ s) (state_ s) (channel_ s) (retryDelayMs_ s) (pending s) f a (next_fd s) (open s) (trace s).
Definition set_sockets (n : nat) (l : list nat) (s : t) : t :=
  mk (connect_ s) (state_ s) (channel_ s) (retryDelayMs_ s) (pending s) (fresh s) (armed s) n l (trace s).
Definition emit (e : event) (s : t) : t :=
  mk (connect_ s) (state_ s) (channel_ s) (retryDelayMs_ s) (pending s) (fresh s) (armed s) (next_fd s) (open s) (trace s ++ [e]).

Definition queueInLoop (f : functor) (s : t) : t := set_pending (pending s ++ [f]) s.
Definition runAfter (ms : Z) (s : t) : t := emit (RunAfter ms) (set_timers (fresh s ++ [ms]) (armed s) s).

(** A socket that leaves the connector's hands must be one that it holds. *)
Definition release (sockfd : nat) (s : t) : outcome t :=
  _ ← assert (bool_decide (sockfd ∈ open s));
  Ok (set_sockets (next_fd s) (filter (fun x => x <> sockfd) (open s)) s).

Definition close (sockfd : nat) (s : t) : outcome t := release sockfd s.

Definition newConnectionCallback_ (sockfd : nat) (s : t) : outcome t :=
  s ← release sockfd s; Ok (emit (NewConnection sockfd) s).

Definition retry (sockfd : nat) (s : t) : outcome t :=
  s ← close sockfd s;
  let s := setState kDisconnected s in
  if connect_ s then
    let s := runAfter (retryDelayMs_ s) s in
    twice ← ck32 (retryDelayMs_ s * 2);
    Ok (set_delay (Z.min twice kMaxRetryDelayMs) s)
  else Ok s.

Definition connecting (sockfd : nat) (s : t) : outcome t :=
  let s := setState kConnecting s in
  _ ← assert (match channel_ s with None => true | Some _ => false end);
  Ok (set_channel (Some (sockfd, true)) s).

(** The values of Linux *)
Definition EPERM : Z := 1.
Definition EINTR : Z := 4.
Definition EAGAIN : Z := 11.
Definition EADDRINUSE : Z := 98.
Definition EADDRNOTAVAIL : Z := 99.
Definition ENETUNREACH : Z := 101.
Definition EISCONN : Z := 106.
Definition ECONNREFUSED : Z := 111.
Definition EINPROGRESS : Z := 115.

(** [connect]; [savedErrno] is the error of connect(2), 0 for none. *)
Definition connect (savedErrno : Z) (s : t) : outcome t :=
  let sockfd := next_fd s in
  let s := set_sockets (S sockfd) (open s ++ [sockfd]) s in
  if decide (savedErrno ∈ [0; EINPROGRESS; EINTR; EISCONN]) then connecting sockfd s
  else if decide (savedErrno ∈ [EAGAIN; EADDRINUSE; EADDRNOTAVAIL; ECONNREFUSED; ENETUNREACH]) then retry sockfd s
  else s ← close sockfd s; Ok (emit (GaveUp savedErrno) s).

Definition startInLoop (savedErrno : Z) (s : t) : outcome t :=
  _ ← assert (bool_decide (state_ s = kDisconnected));
  if connect_ s then connect savedErrno s else Ok s.

(** [start], called in the loop's thread or in another one *)
Definition start (in_loop : bool) (savedErrno : Z) (s : t) : outcome t :=
  let s := set_connect true s in
  if in_loop then startInLoop savedErrno s else Ok (queueInLoop StartInLoop s).

(** A channel that is not there is a null pointer. *)
Definition removeAndResetChannel (s : t) : outcome (nat * t) :=
  match channel_ s with
  | None => Fault OutOfBounds
  | Some (sockfd, _) => Ok (sockfd, queueInLoop ResetChannel (set_channel (Some (sockfd, false)) s))
  end.

(** [channel_.reset()]: a channel that is in its loop must not be destroyed. *)
Definition resetChannel (s : t) : outcome t :=
  _ ← assert (match channel_ s with Some (_, true) => false | _ => true end);
  Ok (set_channel None s).

Definition stop (s : t) : t := queueInLoop StopInLoop (set_connect false s).

Definition stopInLoop (s : t) : outcome t :=
  if decide (state_ s = kConnecting) then
    let s := setState kDisconnected s in
    '(sockfd, s) ← removeAndResetChannel s;
    retry sockfd s
  else Ok s.

Definition restart (savedErrno : Z) (s : t) : outcome t :=
  let s := setState kDisconnected s in
  let s := set_delay kInitRetryDelayMs s in
  let s := set_connect true s in
  startInLoop savedErrno (emit Restarted s).

Definition handleWrite (err : Z) (isSelfConnect : bool) (s : t) : outcome t :=
  if decide (state_ s = kConnecting) then
    '(sockfd, s) ← removeAndResetChannel s;
    if negb (err =? 0) then retry sockfd s
    else if isSelfConnect then retry sockfd s
    else
      let s := setState kConnected s in
      if connect_ s then newConnectionCallback_ sockfd s else close sockfd s
  else
    _ ← assert (bool_decide (state_ s = kDisconnected));
    Ok s.

Definition handleError (s : t) : outcome t :=
  if decide (state_ s = kConnecting) then
    '(sockfd, s) ← removeAndResetChannel s;
    retry sockfd s
  else Ok s.

(** ** Steps *)

Definition run_functor (savedErrno : Z) (f : functor) (s : t) : outcome t :=
  match f with
  | StartInLoop => startInLoop savedErrno s
  | StopInLoop => stopInLoop s
  | ResetChannel => resetChannel s
  end.

Fixpoint run_functors (savedErrno : Z) (fs : list functor) (s : t) : outcome t :=
  match fs with
  | [] => Ok s
  | f :: fs' => s ← run_functor savedErrno f s; run_functors savedErrno fs' s
  end.

Inductive label :=
  | Start (in_loop : bool) (savedErrno : Z)
  | Stop
  | Restart (savedErrno : Z)
  | Event (error write : bool) (err : Z) (isSelfConnect : bool)
  | Timer (savedErrno : Z)
  | Functors (savedErrno : Z).

(** [Event]: the channel's callbacks, when it is in the loop.  [Functors] ends
    the iteration: the queued functors run, those they queue wait for the
    next iteration, and the timers set may expire then. *)
Definition step (l : label) (s : t) : outcome t :=
  match l with
  | Start in_loop savedErrno => start in_loop savedErrno s
  | Stop => Ok (stop s)
  | Restart savedErrno => restart savedErrno s
  | Event error write err self =>
      match channel_ s with
      | Some (_, true) =>
          s ← (if error : bool then handleError s else Ok s);
          if write : bool then handleWrite err self s else Ok s
      | _ => Ok s
      end
  | Timer savedErrno =>
      match armed s with
      | [] => Ok s
      | _ :: rest => startInLoop savedErrno (set_timers (fresh s) rest s)
      end
  | Functors savedErrno =>
      s ← run_functors savedErrno (pending s) (set_pending [] s);
      Ok (set_timers [] (armed s ++ fresh s) s)
  end.

Fixpoint run (ls : list label) (s : t) : outcome t :=
  match ls with [] => Ok s | l :: ls' => s ← step l s; run ls' s end.

End Connector.
