(* ===== verification/ConnectorFacts.v ===== *)
(** * Correctness of the connector

    Reachable states under the use that TcpClient makes of a connector: it is
    started once, stopped at any time from any thread, and restarted when the
    connection it delivered is gone, unless it was stopped. *)

From S2P Require Import Prelude Monitor Connector.

Local Open Scope Z_scope.

Import Connector.

(** The abstract back-off: the delay of the retry number [k] *)
Definition backoff (k : nat) : Z := Z.min (500 * 2 ^ Z.of_nat k) 30000.

(** The number of retries since the last restart, for a trace in which each was
    scheduled with its delay *)
Fixpoint retries (tr : list event) (k : nat) : option nat :=
  match tr with
  | [] => Some k
  | RunAfter ms :: tr' => if decide (ms = backoff k) then retries tr' (S k) else None
  | Restarted :: tr' => retries tr' 0
  | _ :: tr' => retries tr' k
  end.

Lemma retries_app tr tr' k : retries (tr ++ tr') k = retries tr k ≫= retries tr'.
Proof.
  revert k. induction tr as [|e tr IH]; intros k; [done|]. cbn [app retries]. destruct e; rewrite ?IH; try done.
  by case_decide; rewrite ?IH.
Qed.

Lemma backoff_S k : Z.min (backoff k * 2) 30000 = backoff (S k).
Proof. unfold backoff. rewrite Nat2Z.inj_succ, Z.pow_succ_r by lia. lia. Qed.

Lemma backoff_range k : 500 <= backoff k <= 30000.
Proof. unfold backoff. pose proof (Z.pow_pos_nonneg 2 (Z.of_nat k)). lia. Qed.

(** ** The invariant *)

Definition n_of (f : functor) (q : list functor) : nat := count (fun x => bool_decide (x = f)) q.

(** Nothing is left to do: the last attempt failed for good. *)
Definition gave_up (s : t) : Prop := exists tr e, trace s = tr ++ [GaveUp e].

(** [q] is the rest of the batch of functors that is being run. *)
Record inv (q : list functor) (s : t) : Prop := {
  inv_one : (n_of StartInLoop (q ++ pending s) + length (fresh s ++ armed s) + match state_ s with kDisconnected => 0 | _ => 1 end <= 1)%nat;
  inv_channel :
    match channel_ s with
    | None => n_of ResetChannel (q ++ pending s) = 0%nat /\ state_ s <> kConnecting
    | Some (_, true) => n_of ResetChannel (q ++ pending s) = 0%nat /\ state_ s = kConnecting
    | Some (_, false) => n_of ResetChannel (q ++ pending s) = 1%nat /\ state_ s <> kConnecting
    end;
  inv_quiet : channel_ s <> None -> n_of StartInLoop (q ++ pending s) = 0%nat /\ armed s = [];
  inv_stop : StopInLoop ∈ q ++ pending s -> connect_ s = false;
  inv_open : open s = match channel_ s with Some (fd, true) => [fd] | _ => [] end /\ Forall (fun fd => (fd < next_fd s)%nat) (open s);
  inv_delay : exists k, retries (trace s) 0 = Some k /\ retryDelayMs_ s = backoff k;
  inv_progress : connect_ s = true -> state_ s <> kDisconnected \/ fresh s ++ armed s <> [] \/ StartInLoop ∈ q ++ pending s \/ gave_up s;
}.

(** Functors may only run while no timer waits for a channel that is reset in
    the next iteration. *)
Definition batch (q : list functor) (s : t) : Prop :=
  inv q s /\ (ResetChannel ∈ pending s -> fresh s ++ armed s = [] /\ connect_ s = false).

Lemma n_of_app f q q' : n_of f (q ++ q') = (n_of f q + n_of f q')%nat.
Proof. apply count_app. Qed.

Lemma n_of_In f q : f ∈ q <-> (0 < n_of f q)%nat.
Proof.
  unfold n_of. rewrite count_pos, list_elem_of_lookup. split.
  - intros (i & Hi). exists i, f. split; [done|]. by apply bool_decide_eq_true.
  - intros (i & x & Hi & ->%bool_decide_eq_true). by exists i.
Qed.

Lemma n_of_self f q : n_of f (f :: q) = S (n_of f q).
Proof. unfold n_of. cbn [count]. by rewrite bool_decide_eq_true_2. Qed.

Lemma n_of_other f g q : g <> f -> n_of f (g :: q) = n_of f q.
Proof. intros H. unfold n_of. cbn [count]. by rewrite bool_decide_eq_false_2. Qed.

(** Counting the functors of a queue that is written out *)
Ltac queues := rewrite ?n_of_In in *; repeat rewrite n_of_app in *; rewrite ?n_of_self in *; rewrite ?n_of_other in * by done; rewrite ?n_of_self in *.

Ltac fields := cbn [connect_ state_ channel_ retryDelayMs_ pending fresh armed next_fd open trace] in *.

(** A retry closes the socket and, unless the connector was stopped, comes back
    after the delay that is due. *)
Lemma retry_spec fd s k :
  open s = [fd] -> retryDelayMs_ s = backoff k ->
  retry fd s = Ok (if connect_ s
    then mk true kDisconnected (channel_ s) (backoff (S k)) (pending s) (fresh s ++ [backoff k]) (armed s) (next_fd s) [] (trace s ++ [RunAfter (backoff k)])
    else mk false kDisconnected (channel_ s) (backoff k) (pending s) (fresh s) (armed s) (next_fd s) [] (trace s)).
Proof.
  intros Ho Hd. unfold retry, close, release. rewrite Ho, bool_decide_eq_true_2 by (by left). cbn [assert mbind outcome_bind].
  rewrite filter_cons_False by (intros H; by apply H). rewrite filter_nil. destruct s; fields; subst. destruct connect_0; [|done].
  cbn [runAfter emit set_timers setState set_sockets set_delay Connector.connect_ Connector.retryDelayMs_].
  pose proof (backoff_range k). unfold runAfter, emit, set_timers, setState, set_sockets. fields.
  rewrite ck32_Ok by (unfold INT_MIN, INT_MAX; lia). cbn [mbind outcome_bind]. unfold set_delay, kMaxRetryDelayMs. fields.
  by rewrite backoff_S.
Qed.

(** Nothing is under way. *)
Record idle (q : list functor) (s : t) : Prop := {
  idle_state : state_ s = kDisconnected;
  idle_channel : channel_ s = None;
  idle_start : n_of StartInLoop (q ++ pending s) = 0%nat;
  idle_reset : n_of ResetChannel (q ++ pending s) = 0%nat;
  idle_fresh : fresh s = [];
  idle_armed : armed s = [];
  idle_open : open s = [];
  idle_stop : StopInLoop ∈ q ++ pending s -> connect_ s = false;
  idle_delay : exists k, retries (trace s) 0 = Some k /\ retryDelayMs_ s = backoff k;
}.

Lemma idle_inv q s : idle q s -> connect_ s = false -> inv q s.
Proof.
  intros [Hs Hc Hn Hr Hf Ha Ho Hst Hd] Hcon. constructor; rewrite ?Hs, ?Hc, ?Hf, ?Ha, ?Ho; try done; cbn.
  - rewrite Hn. cbn. lia.
  - by rewrite Hcon.
Qed.

Lemma startInLoop_idle q e s :
  idle q s -> exists s', startInLoop e s = Ok s' /\ inv q s' /\ pending s' = pending s /\ connect_ s' = connect_ s.
Proof.
  intros Hi. pose proof Hi as [Hs Hc Hn Hr Hf Ha Ho Hst (k & Hk & Hd)]. unfold startInLoop.
  rewrite Hs, bool_decide_eq_true_2 by done. cbn [assert mbind outcome_bind]. destruct (connect_ s) eqn:Ec; [|exists s; split_and!; [done|by apply idle_inv|done|done]].
  unfold connect. rewrite Ho. cbn [app]. destruct s; fields; subst. unfold set_sockets. fields.
  assert (StopInLoop ∉ q ++ pending0) as Hns by (intros H; by specialize (Hst H)).
  repeat case_decide.
  - unfold connecting, setState, set_channel. fields. cbn [assert mbind outcome_bind]. eexists. split; [done|]. split; [|done].
    constructor; fields; cbn; rewrite ?Hn; try done; try lia.
    + split; [done|]. constructor; [lia|done].
    + by exists k.
    + by left.
  - erewrite retry_spec by done. fields. eexists. split; [done|]. split; [|done].
    constructor; fields; cbn; rewrite ?Hn; try done; try lia.
    + exists (S k). split; [|done]. rewrite retries_app, Hk. cbn. by rewrite decide_True.
    + right. by left.
  - unfold close, release. fields. rewrite bool_decide_eq_true_2 by (by left). cbn [assert mbind outcome_bind].
    rewrite filter_cons_False by (intros H'; by apply H'). rewrite filter_nil. eexists. split; [done|]. split; [|done].
    unfold emit, set_sockets. constructor; fields; cbn; rewrite ?Hn; try done; try lia.
    + exists k. by rewrite retries_app, Hk.
    + intros _. do 3 right. by eexists _, _.
Qed.

(** While a connection is being made, its channel is all there is. *)
Lemma connecting_facts q s :
  inv q s -> state_ s = kConnecting ->
  n_of StartInLoop (q ++ pending s) = 0%nat /\ n_of ResetChannel (q ++ pending s) = 0%nat /\ fresh s = [] /\ armed s = [] /\
  exists fd, channel_ s = Some (fd, true) /\ open s = [fd].
Proof.
  intros [H1 H2 _ _ [H5 _] _ _] Hs. rewrite Hs in H1. destruct (fresh s); [|cbn [length app] in H1; lia]. destruct (armed s); [|cbn [length app] in H1; lia].
  cbn [length app] in H1. destruct (channel_ s) as [[fd []]|]; destruct H2 as [H2 H3]; [|done..]. split_and!; [lia|done..|]. by exists fd.
Qed.

(** The channel is taken out of the loop and is to be reset. *)
Lemma inv_removed q s s' fd :
  inv q s -> state_ s = kConnecting -> channel_ s' = Some (fd, false) -> pending s' = pending s ++ [ResetChannel] ->
  state_ s' <> kConnecting -> armed s' = [] -> (length (fresh s') + match state_ s' with kDisconnected => 0 | _ => 1 end <= 1)%nat ->
  connect_ s' = connect_ s -> open s' = [] -> (exists k, retries (trace s') 0 = Some k /\ retryDelayMs_ s' = backoff k) ->
  (connect_ s = true -> state_ s' <> kDisconnected \/ fresh s' <> []) -> inv q s'.
Proof.
  intros Hi Hs Hc Hp Hst Ha Hf Hcon Ho Hd Hpr. destruct (connecting_facts q s Hi Hs) as (Hn & Hr & _).
  rewrite n_of_app in Hn, Hr. constructor; rewrite ?Hc, ?Hp, ?Ha, ?Hcon, ?Ho, ?app_nil_r; try done; queues.
  - change (n_of StartInLoop []) with 0%nat. lia.
  - change (n_of ResetChannel []) with 0%nat. split; [lia|done].
  - change (n_of StartInLoop []) with 0%nat. split; [lia|done].
  - intros Hq. apply (inv_stop q s Hi). queues. change (n_of StopInLoop []) with 0%nat in Hq. lia.
  - intros Hx. destruct (Hpr Hx); tauto.
Qed.

(** The attempt is given up. *)
Lemma lost q s :
  inv q s -> state_ s = kConnecting ->
  exists s', (forall st, ('(fd, s) ← removeAndResetChannel (setState st s); retry fd s) = Ok s') /\ inv q s' /\ state_ s' = kDisconnected /\
    connect_ s' = connect_ s /\ (connect_ s = false -> fresh s' ++ armed s' = []).
Proof.
  intros Hi Hs. destruct (connecting_facts q s Hi Hs) as (_ & _ & Hf & Ha & fd & Hc & Ho). destruct (inv_delay q s Hi) as (k & Hk & Hd).
  eexists. split.
  { intros st. unfold removeAndResetChannel, setState. fields. rewrite Hc. cbn [mbind outcome_bind]. unfold queueInLoop, set_pending, set_channel. fields.
    erewrite retry_spec by done. fields. reflexivity. }
  destruct (connect_ s) eqn:Ec; rewrite Hf, Ha; fields.
  - split_and!; [|done..]. eapply (inv_removed q s _ fd Hi Hs); fields; rewrite ?Ec; try done; [|by right].
    exists (S k). split; [|done]. rewrite retries_app, Hk. cbn. by rewrite decide_True.
  - split_and!; [|done..]. eapply (inv_removed q s _ fd Hi Hs); fields; rewrite ?Ec; try done; [cbn; lia|by exists k].
Qed.

Lemma setState_same s : setState (state_ s) s = s.
Proof. by destruct s. Qed.

Lemma handleError_inv s : inv [] s -> exists s', handleError s = Ok s' /\ inv [] s' /\ (state_ s = kConnecting -> state_ s' = kDisconnected).
Proof.
  intros Hi. unfold handleError. case_decide as Hs; [|by exists s]. destruct (lost [] s Hi Hs) as (s' & He & Hi' & Hs' & _).
  specialize (He (state_ s)). rewrite setState_same in He. exists s'. done.
Qed.

Lemma handleWrite_inv err self s :
  inv [] s -> state_ s <> kConnected -> exists s', handleWrite err self s = Ok s' /\ inv [] s'.
Proof.
  intros Hi Hn. unfold handleWrite. case_decide as Hs.
  2:{ exists s. rewrite bool_decide_eq_true_2 by (by destruct (state_ s)). done. }
  destruct (lost [] s Hi Hs) as (s' & He & Hi' & _). specialize (He (state_ s)). rewrite setState_same in He.
  destruct (connecting_facts [] s Hi Hs) as (_ & _ & Hf & Ha & fd & Hc & Ho). destruct (inv_delay [] s Hi) as (k & Hk & Hd).
  unfold removeAndResetChannel in *. rewrite Hc in *. cbn [mbind outcome_bind] in *.
  destruct (negb (err =? 0)); [by exists s'|]. destruct self; [by exists s'|]. clear He Hi' s'.
  unfold newConnectionCallback_, close, release, setState, queueInLoop, set_pending, set_channel, set_sockets, emit. fields.
  rewrite Ho, bool_decide_eq_true_2 by (by left). rewrite filter_cons_False by (intros H'; by apply H'). rewrite filter_nil.
  cbn [assert mbind outcome_bind]. destruct (connect_ s) eqn:Ec; (eexists; split; [done|]).
  - eapply (inv_removed [] s _ fd Hi Hs); fields; rewrite ?Ec, ?Hf; try done; [exists k; by rewrite retries_app, Hk|by left].
  - eapply (inv_removed [] s _ fd Hi Hs); fields; rewrite ?Ec, ?Hf; try done. by exists k.
Qed.

(** ** Functors *)

Lemma run_StartInLoop e q s : batch (StartInLoop :: q) s -> exists s', run_functor e StartInLoop s = Ok s' /\ batch q s'.
Proof.
  intros [[H1 H2 H3 H4 [H5 _] H6 _] _]. cbn [app] in *. rewrite n_of_self in *. rewrite !n_of_other in H2 by done.
  rewrite length_app in H1. destruct (fresh s) eqn:Ef; [|cbn [length app] in H1; lia]. destruct (armed s) eqn:Ea; [|cbn [length app] in H1; lia].
  destruct (state_ s) eqn:Es; try (cbn [length app] in H1; lia).
  destruct (channel_ s) as [c|] eqn:Ec; [by destruct H3 as [H3 _]|]. destruct H2 as [H2 _].
  destruct (startInLoop_idle q e s) as (s' & Hr & Hi & Hp & Hc).
  - constructor; try done; [cbn [length app] in H1; lia|]. intros Hin. apply H4. by right.
  - exists s'. split; [done|]. split; [done|]. rewrite Hp. queues. lia.
Qed.

Lemma run_ResetChannel e q s : batch (ResetChannel :: q) s -> exists s', run_functor e ResetChannel s = Ok s' /\ batch q s'.
Proof.
  intros [[H1 H2 H3 H4 [H5 _] H6 H7] _]. cbn [app run_functor] in *. rewrite n_of_self in *. rewrite !n_of_other in * by done.
  destruct (channel_ s) as [[fd []]|] eqn:Ec; destruct H2 as [H2 H2']; [done| |done].
  unfold resetChannel. rewrite Ec. cbn [assert mbind outcome_bind]. eexists. split; [done|]. unfold set_channel. split.
  - constructor; fields; try done; [split; [lia|done]| |by rewrite H5|].
    + intros Hin. apply H4. by right.
    + intros Hx. specialize (H7 Hx). rewrite elem_of_cons in H7. destruct H7 as [?|[?|[[?|?]|?]]]; auto; done.
  - fields. queues. lia.
Qed.

Lemma inv_drop_stop q s : inv (StopInLoop :: q) s -> inv q s.
Proof.
  intros [H1 H2 H3 H4 H5 H6 H7]. cbn [app] in *. rewrite !n_of_other in * by done. constructor; try done.
  - intros Hin. apply H4. by right.
  - intros Hx. specialize (H7 Hx). rewrite elem_of_cons in H7. destruct H7 as [?|[?|[[?|?]|?]]]; auto; done.
Qed.

Lemma run_StopInLoop e q s : batch (StopInLoop :: q) s -> exists s', run_functor e StopInLoop s = Ok s' /\ batch q s'.
Proof.
  intros [Hi Hb]. assert (connect_ s = false) as Hc by (apply (inv_stop _ _ Hi); by left). apply inv_drop_stop in Hi.
  cbn [run_functor]. unfold stopInLoop. case_decide as Hs; [|exists s; split; [done|]; split; [exact Hi|exact Hb]].
  destruct (lost q s Hi Hs) as (s' & Hr & Hi' & _ & Hc' & Ht). exists s'. split; [apply Hr|]. split; [done|]. intros _.
  rewrite Hc'. auto.
Qed.

Lemma run_functors_batch e q s : batch q s -> exists s', run_functors e q s = Ok s' /\ batch [] s'.
Proof.
  revert s. induction q as [|f q IH]; intros s Hb; [by exists s|]. cbn [run_functors].
  assert (exists s1, run_functor e f s = Ok s1 /\ batch q s1) as (s1 & Hs1 & Hb1)
    by (destruct f; eauto using run_StartInLoop, run_StopInLoop, run_ResetChannel).
  rewrite Hs1. cbn [mbind outcome_bind]. auto.
Qed.

(** ** Steps *)

(** The use of a connector that the code is made for *)
Definition intended (l : label) (s : t) : Prop :=
  match l with
  | Start _ _ => False
  | Restart _ => state_ s = kConnected /\ channel_ s = None /\ connect_ s = true
  | _ => True
  end.

Inductive reachable : t -> Prop :=
  | reach_start in_loop e s : step (Start in_loop e) new = Ok s -> reachable s
  | reach_step l s s' : reachable s -> intended l s -> step l s = Ok s' -> reachable s'.

(** The queued functors become the batch. *)
Lemma batch_begin s : inv [] s -> batch (pending s) (set_pending [] s).
Proof.
  intros [H1 H2 H3 H4 H5 H6 H7]. cbn [app] in *. unfold set_pending. split; [|fields; by intros ?%elem_of_nil].
  constructor; fields; rewrite ?app_nil_r; done.
Qed.

(** After the batch the timers that were set may expire. *)
Lemma batch_end s : batch [] s -> inv [] (set_timers [] (armed s ++ fresh s) s).
Proof.
  intros [[H1 H2 H3 H4 H5 H6 H7] Hb]. unfold set_timers.
  assert (length (fresh s ++ armed s) = length (armed s ++ fresh s)) as Hl by (rewrite !length_app; lia).
  constructor; fields; cbn [app] in *; rewrite <- ?Hl; try done.
  - intros Hc. split; [by apply H3|]. apply length_zero_iff_nil. rewrite <- Hl.
    destruct (channel_ s) as [[fd []]|] eqn:Ec; [| |done]; destruct H2 as [H2 H2'].
    + rewrite H2' in H1. lia.
    + destruct Hb as [-> _]; [|done]. queues. lia.
  - intros Hx. destruct (H7 Hx) as [?|[Hn|?]]; auto. right. left. intros E. apply Hn. apply length_zero_iff_nil. by rewrite Hl, E.
Qed.

Lemma functors_step e s : inv [] s -> exists s', step (Functors e) s = Ok s' /\ inv [] s'.
Proof.
  intros Hi. cbn [step]. destruct (run_functors_batch e (pending s) (set_pending [] s) (batch_begin s Hi)) as (s1 & Hr & Hb).
  rewrite Hr. cbn [mbind outcome_bind]. eexists. split; [done|]. by apply batch_end.
Qed.

Lemma timer_step e s : inv [] s -> exists s', step (Timer e) s = Ok s' /\ inv [] s'.
Proof.
  intros Hi. pose proof Hi as [H1 H2 H3 H4 [H5 _] H6 _]. cbn [step]. destruct (armed s) as [|ms rest] eqn:Ea; [by exists s|].
  rewrite length_app in H1. destruct (fresh s) eqn:Ef; [|cbn [length app] in H1; lia]. destruct rest; [|cbn [length app] in H1; lia]. destruct (state_ s) eqn:Es; try (cbn [length app] in H1; lia).
  destruct (channel_ s) as [c|] eqn:Ec; [by destruct H3 as [_ H3]|].
  destruct (startInLoop_idle [] e (set_timers [] [] s)) as (s' & Hr & Hi' & _); [|by exists s'].
  unfold set_timers. cbn [app] in *. constructor; fields; cbn [app]; try done; [cbn [length app] in H1; lia|by destruct H2].
Qed.

Lemma event_step error write err self s : inv [] s -> exists s', step (Event error write err self) s = Ok s' /\ inv [] s'.
Proof.
  intros Hi. cbn [step]. destruct (channel_ s) as [[fd []]|] eqn:Ec; [|by exists s..].
  assert (state_ s = kConnecting) as Hs by (pose proof (inv_channel _ _ Hi) as H; rewrite Ec in H; apply H).
  assert (exists s1, (if error : bool then handleError s else Ok s) = Ok s1 /\ inv [] s1 /\ state_ s1 <> kConnected) as (s1 & Hr & Hi1 & Hs1).
  { destruct error; [|exists s; by rewrite Hs]. destruct (handleError_inv s Hi) as (s1 & Hr & Hi1 & Hs1). exists s1. by rewrite Hs1. }
  rewrite Hr. cbn [mbind outcome_bind]. destruct write; [by apply handleWrite_inv|by exists s1].
Qed.

Lemma stop_step s : inv [] s -> inv [] (stop s).
Proof.
  intros [H1 H2 H3 H4 H5 H6 H7]. unfold stop, queueInLoop, set_pending, set_connect. cbn [app] in *.
  constructor; fields; cbn [app]; rewrite ?n_of_app; change (n_of StartInLoop [StopInLoop]) with 0%nat; change (n_of ResetChannel [StopInLoop]) with 0%nat;
    rewrite ?Nat.add_0_r; done.
Qed.

Lemma restart_step e s : inv [] s -> intended (Restart e) s -> exists s', step (Restart e) s = Ok s' /\ inv [] s'.
Proof.
  intros [H1 H2 H3 H4 [H5 _] (k & Hk & Hd) _] (Hs & Hc & Hcon). cbn [step intended app] in *. unfold restart. rewrite Hs in H1. rewrite Hc in H2, H5.
  rewrite length_app in H1. destruct (fresh s) eqn:Ef; [|cbn [length app] in H1; lia]. destruct (armed s) eqn:Ea; [|cbn [length app] in H1; lia].
  destruct (startInLoop_idle [] e (emit Restarted (set_connect true (set_delay kInitRetryDelayMs (setState kDisconnected s))))) as (s' & Hr & Hi & _); [|by exists s'].
  unfold emit, set_connect, set_delay, setState. cbn [app] in *. constructor; fields; cbn [app]; try done; [cbn [length app] in H1; lia|by destruct H2|..].
  - intros Hin. specialize (H4 Hin). congruence.
  - exists 0%nat. by rewrite retries_app, Hk.
Qed.

Lemma start_step in_loop e : exists s, step (Start in_loop e) new = Ok s /\ inv [] s.
Proof.
  cbn [step]. unfold start. destruct in_loop.
  - destruct (startInLoop_idle [] e (set_connect true new)) as (s & Hr & Hi & _); [|by exists s].
    constructor; try done; [by intros ?%elem_of_nil|by exists 0%nat].
  - eexists. split; [done|]. unfold queueInLoop, set_pending, set_connect, new. constructor; fields; cbn [app]; try done.
    + by intros [?|?%elem_of_nil]%elem_of_cons.
    + by exists 0%nat.
    + intros _. right. right. left. by left.
Qed.

Lemma step_inv l s : inv [] s -> intended l s -> exists s', step l s = Ok s' /\ inv [] s'.
Proof.
  intros Hi Hl. destruct l; [done|exists (stop s); split; [done|by apply stop_step]|..];
    eauto using restart_step, event_step, timer_step, functors_step.
Qed.

Lemma connector_reachable_inv s : reachable s -> inv [] s.
Proof.
  induction 1 as [in_loop e s H|l s s' _ IH Hl H].
  - destruct (start_step in_loop e) as (s' & Hs' & Hi). congruence.
  - destruct (step_inv l s IH Hl) as (s1 & Hs1 & Hi). congruence.
Qed.

(** C24: A connector that is started once, stopped at any time and restarted only
    when its connection is gone never fails an assertion, whatever connect(2)
    and the socket report and however its functors, timers and events are
    interleaved; and it neither leaks nor closes twice: the only socket it
    holds is that of the attempt under way, with the channel in the loop. *)
Theorem connector_safe l s :
  reachable s -> intended l s ->
  (exists s', step l s = Ok s') /\
  open s = match channel_ s with Some (fd, true) => [fd] | _ => [] end /\
  (state_ s = kConnecting <-> exists fd, channel_ s = Some (fd, true)).
Proof.
  intros Hr Hl. pose proof (connector_reachable_inv s Hr) as Hi. split_and!.
  - destruct (step_inv l s Hi Hl) as (s' & Hs & _). by exists s'.
  - apply (inv_open _ _ Hi).
  - pose proof (inv_channel _ _ Hi) as Hc. destruct (channel_ s) as [[fd []]|]; destruct Hc as [_ Hc]; naive_solver.
Qed.

(** C25: As long as it is not stopped, a connector is connecting, connected,
    waiting for its next attempt or was told by connect(2) not to try again;
    the attempts come after 500 ms, then after twice the time before, up to
    30 s, from the start or the last restart. *)
Theorem connector_retries s :
  reachable s ->
  (connect_ s = true -> state_ s <> kDisconnected \/ fresh s ++ armed s <> [] \/ StartInLoop ∈ pending s \/ gave_up s) /\
  exists k, retries (trace s) 0 = Some k /\ retryDelayMs_ s = backoff k.
Proof. intros Hr. pose proof (connector_reachable_inv s Hr) as Hi. split; [apply (inv_progress _ _ Hi)|apply (inv_delay _ _ Hi)]. Qed.

(** ** Runs *)

Module ConnectorDemo.

(** A refused attempt *)
Definition refused_once : t := mk true kDisconnected None 1000 [] [500] [] 1 [] [RunAfter 500].

Lemma refused_once_reachable : reachable refused_once.
Proof. apply (reach_start true ECONNREFUSED). vm_compute. reflexivity. Qed.

Lemma connector_safe_witness : exists s', step (Functors 0) refused_once = Ok s'.
Proof. apply (connector_safe (Functors 0) refused_once refused_once_reachable I). Defined.

Lemma connector_retries_witness : exists k, retries (trace refused_once) 0 = Some k /\ retryDelayMs_ refused_once = backoff k.
Proof. apply (connector_retries refused_once refused_once_reachable). Defined.

(** [start] is not for a connector that was used before.  When it is called
    from another thread before a [stop] has run in the loop, the next
    attempt meets the channel that is still to be reset; when a retry was
    waiting, its timer finds the new attempt under way; and after a connection
    that has ended, [start] finds the state still at connected.  Each time an
    assertion fails. *)
Theorem start_again_aborts :
  run [Start true EINPROGRESS; Stop; Start false 0; Functors EINPROGRESS] new = Fault AssertFailed /\
  run [Start true ECONNREFUSED; Functors 0; Stop; Functors 0; Start true EINPROGRESS; Timer 0] new = Fault AssertFailed /\
  run [Start true EINPROGRESS; Event false true 0 false; Functors 0; Start true 0] new = Fault AssertFailed.
Proof. split_and!; vm_compute; reflexivity. Qed.

End ConnectorDemo.
