(* ===== verification/TcpServer.v ===== *)
(** * The TCP server

    [Module Acceptor] models src/muduo/net/Acceptor.h and Acceptor.cc,
    [Module TcpServer] models src/muduo/net/TcpServer.h and TcpServer.cc: the map
    of connections and the functors that travel between the acceptor's loop
    and the loops of the connections.  Loops are numbered as in LoopThreads.v
    and each has a queue of functors; a connection is the part of its life that
    the server sees.  What accept(2) and open(2) return is an argument. *)

From S2P Require Import Prelude Timestamp LoopThreads.

Local Open Scope Z_scope.

Module Acceptor.

(** [reading]: [acceptChannel_] is enabled. *)
Record t := mk { listening_ : bool; reading : bool; idleFd_ : Z }.

Definition new (idleFd : Z) : outcome t := _ ← assert (0 <=? idleFd); Ok (mk false false idleFd).

Definition listen (a : t) : t := mk true true (idleFd_ a).

Definition EMFILE : Z := 24.

(** [handleRead]: [connfd] and [err] are what accept(2) returns and [errno];
    [second] and [idle] what the calls in the branch for EMFILE return.  The
    results: the descriptor handed to the callback, those closed. *)
Definition handleRead (has_callback : bool) (connfd err second idle : Z) (a : t) : option Z * list Z * t :=
  if 0 <=? connfd then
    if has_callback then (Some connfd, [], a) else (None, [connfd], a)
  else if err =? EMFILE then (None, [idleFd_ a; second], mk (listening_ a) (reading a) idle)
  else (None, [], a).

End Acceptor.

Module TcpServer.

(** What the server queues in the loops; a connection is its number. *)
Inductive functor :=
  | Listen
  | ConnectEstablished (conn : nat)
  | RemoveConnectionInLoop (conn : nat)
  | ConnectDestroyed (conn : nat).

#[global] Instance functor_eq_dec : EqDecision functor.
Proof. solve_decision. Defined.

(** The life of a connection: made, established, closed (its close callback has
    run), taken out of the map, destroyed. *)
Inductive life := New | Up | Closed | Removed | Gone.

#[global] Instance life_eq_dec : EqDecision life.
Proof. solve_decision. Defined.

Record conn := mkConn { conn_name : bytes; conn_loop : nat; conn_life : life }.

Record t := mk {
  ipPort_ : bytes;
  name_ : bytes;
  acceptor_ : Acceptor.t;
  threadPool_ : EventLoopThreadPool.t;
  started_ : bool;
  nextConnId_ : Z;
  connections_ : gmap bytes nat;
  conns : list conn;                 (* the connection objects *)
  queues : gmap nat (list functor);  (* the functors queued in each loop *)
  alive : bool;                      (* the server object exists *)
}.

Definition loop_ (s : t) : nat := EventLoopThreadPool.baseLoop_ (threadPool_ s).

Definition new (loop : nat) (ipPort nameArg : bytes) (a : Acceptor.t) : t :=
  mk ipPort nameArg a (EventLoopThreadPool.new loop) false 1 ∅ [] ∅ true.

Definition with_queues (q : gmap nat (list functor)) (s : t) : t :=
  mk (ipPort_ s) (name_ s) (acceptor_ s) (threadPool_ s) (started_ s) (nextConnId_ s) (connections_ s) (conns s) q (alive s).
Definition with_conns (m : gmap bytes nat) (l : list conn) (s : t) : t :=
  mk (ipPort_ s) (name_ s) (acceptor_ s) (threadPool_ s) (started_ s) (nextConnId_ s) m l (queues s) (alive s).
Definition with_pool (p : EventLoopThreadPool.t) (s : t) : t :=
  mk (ipPort_ s) (name_ s) (acceptor_ s) p (started_ s) (nextConnId_ s) (connections_ s) (conns s) (queues s) (alive s).
Definition with_started (b : bool) (s : t) : t :=
  mk (ipPort_ s) (name_ s) (acceptor_ s) (threadPool_ s) b (nextConnId_ s) (connections_ s) (conns s) (queues s) (alive s).
Definition with_acceptor (a : Acceptor.t) (s : t) : t :=
  mk (ipPort_ s) (name_ s) a (threadPool_ s) (started_ s) (nextConnId_ s) (connections_ s) (conns s) (queues s) (alive s).
Definition with_nextConnId (n : Z) (s : t) : t :=
  mk (ipPort_ s) (name_ s) (acceptor_ s) (threadPool_ s) (started_ s) n (connections_ s) (conns s) (queues s) (alive s).
Definition with_alive (b : bool) (s : t) : t :=
  mk (ipPort_ s) (name_ s) (acceptor_ s) (threadPool_ s) (started_ s) (nextConnId_ s) (connections_ s) (conns s) (queues s) b.

Definition queue (s : t) (l : nat) : list functor := default [] (queues s !! l).

Definition queueInLoop (l : nat) (f : functor) (s : t) : t := with_queues (<[l := queue s l ++ [f]]> (queues s)) s.

(** Connection [p] goes from one of the lives [from] to the next. *)
Definition advance (from : list life) (to : life) (p : nat) (s : t) : outcome t :=
  match conns s !! p with
  | None => Fault OutOfBounds
  | Some c =>
      _ ← assert (bool_decide (conn_life c ∈ from));
      Ok (with_conns (connections_ s) (<[p := mkConn (conn_name c) (conn_loop c) to]> (conns s)) s)
  end.

(** [assertInLoopThread] of the server's loop and of a connection's *)
Definition in_loop (thread : nat) (s : t) : outcome unit := EventLoopThreadPool.assertInLoopThread thread (loop_ s).
Definition in_conn_loop (thread p : nat) (s : t) : outcome unit :=
  match conns s !! p with
  | None => Fault OutOfBounds
  | Some c => EventLoopThreadPool.assertInLoopThread thread (conn_loop c)
  end.

Definition removeConnectionInLoop (thread p : nat) (s : t) : outcome t :=
  _ ← (if alive s then Ok tt else Fault OutOfBounds);
  _ ← in_loop thread s;
  match conns s !! p with
  | None => Fault OutOfBounds
  | Some c =>
      _ ← assert (bool_decide (connections_ s !! conn_name c <> None));
      let s := with_conns (delete (conn_name c) (connections_ s)) (conns s) s in
      s ← advance [Closed] Removed p s;
      Ok (queueInLoop (conn_loop c) (ConnectDestroyed p) s)
  end.

(** A functor runs in the thread of loop [thread]; [TcpConnection::connectEstablished] asserts that
    the connection is new and [connectDestroyed] may find it in any state. *)
Definition run_functor (thread : nat) (f : functor) (s : t) : outcome t :=
  match f with
  | Listen => _ ← in_loop thread s; Ok (with_acceptor (Acceptor.listen (acceptor_ s)) s)
  | ConnectEstablished p => _ ← in_conn_loop thread p s; advance [New] Up p s
  | RemoveConnectionInLoop p => removeConnectionInLoop thread p s
  | ConnectDestroyed p => _ ← in_conn_loop thread p s; advance [New; Up; Closed; Removed] Gone p s
  end.

(** [l->runInLoop(f)], called by the thread of loop [thread] *)
Definition runInLoop (thread l : nat) (f : functor) (s : t) : outcome t :=
  if decide (thread = l) then run_functor thread f s else Ok (queueInLoop l f s).

Definition setThreadNum (numThreads : Z) (s : t) : outcome t :=
  _ ← assert (0 <=? numThreads);
  Ok (with_pool (EventLoopThreadPool.setThreadNum numThreads (threadPool_ s)) s).

(** [start], called by the thread of loop [thread] *)
Definition start (startLoop : nat -> nat) (cb : bool) (thread : nat) (s : t) : outcome t :=
  if started_ s then Ok s
  else
    let s := with_started true s in
    r ← EventLoopThreadPool.start startLoop cb thread (threadPool_ s);
    let s := with_pool (r.1) s in
    _ ← assert (negb (Acceptor.listening_ (acceptor_ s)));
    runInLoop thread (loop_ s) Listen s.

Definition connection_name (name ipPort : bytes) (id : Z) : bytes :=
  name ++ Timestamp.snprintf 64 (bs "-" ++ ipPort ++ bs "#" ++ dec id).

Definition newConnection (thread : nat) (s : t) : outcome t :=
  _ ← in_loop thread s;
  '(ioLoop, pool) ← EventLoopThreadPool.getNextLoop thread (threadPool_ s);
  let s := with_pool pool s in
  let connName := connection_name (name_ s) (ipPort_ s) (nextConnId_ s) in
  next ← ck32 (nextConnId_ s + 1);
  let s := with_nextConnId next s in
  let p := length (conns s) in
  let s := with_conns (<[connName := p]> (connections_ s)) (conns s ++ [mkConn connName ioLoop New]) s in
  runInLoop thread ioLoop (ConnectEstablished p) s.

(** The close callback, called by the thread of the connection's loop *)
Definition removeConnection (p : nat) (s : t) : outcome t :=
  s ← advance [Up] Closed p s;
  match conns s !! p with
  | None => Fault OutOfBounds
  | Some c => runInLoop (conn_loop c) (loop_ s) (RemoveConnectionInLoop p) s
  end.

Fixpoint destroy_all (thread : nat) (ps : list nat) (s : t) : outcome t :=
  match ps with
  | [] => Ok s
  | p :: ps' =>
      match conns s !! p with
      | None => Fault OutOfBounds
      | Some c => s ← runInLoop thread (conn_loop c) (ConnectDestroyed p) s; destroy_all thread ps' s
      end
  end.

(** The destructor *)
Definition destroy (thread : nat) (s : t) : outcome t :=
  _ ← in_loop thread s;
  s ← destroy_all thread (map snd (map_to_list (connections_ s))) s;
  Ok (with_alive false s).

(** ** Steps *)

Inductive label :=
  | Accept (connfd err second idle : Z)   (* the acceptor's channel is readable *)
  | Close (p : nat)                       (* connection [p], which is up, ends *)
  | Run (l : nat).                        (* loop [l] runs its first functor *)

Definition step (a : label) (s : t) : outcome t :=
  match a with
  | Accept connfd err second idle =>
      if Acceptor.reading (acceptor_ s) then
        let '(accepted, _, ac) := Acceptor.handleRead true connfd err second idle (acceptor_ s) in
        let s := with_acceptor ac s in
        match accepted with Some _ => newConnection (loop_ s) s | None => Ok s end
      else Ok s
  | Close p =>
      match conns s !! p with
      | Some c => if decide (conn_life c = Up) then removeConnection p s else Ok s
      | None => Ok s
      end
  | Run l =>
      match queue s l with
      | [] => Ok s
      | f :: fs => run_functor l f (with_queues (<[l := fs]> (queues s)) s)
      end
  end.

Fixpoint run (ls : list label) (s : t) : outcome t :=
  match ls with [] => Ok s | a :: ls' => s ← step a s; run ls' s end.

End TcpServer.
