(* ===== verification/TcpServerFacts.v ===== *)
(** * Correctness of the TCP server

    However the loops interleave, the map holds exactly the connections that
    are not removed yet, every removal finds its connection, connections are
    established before they are destroyed and each once, and they are spread
    over the loops in turn. *)

From S2P Require Import Prelude Monitor Timestamp LoopThreads LogStream LogStreamFacts TcpServer.

Local Open Scope Z_scope.

Import TcpServer.

(** ** Names *)

Lemma connection_name_inj nm ip a b :
  (length ip <= 51)%nat -> 0 < a <= INT_MAX -> 0 < b <= INT_MAX ->
  connection_name nm ip a = connection_name nm ip b -> a = b.
Proof.
  intros Hip Ha Hb. unfold connection_name, Timestamp.snprintf.
  assert (forall z, 0 < z <= INT_MAX -> (length (bs "-" ++ ip ++ bs "#" ++ dec z) <= 63)%nat) as Hl.
  { intros z Hz. rewrite !length_app. change (length (bs "-")) with 1%nat. change (length (bs "#")) with 1%nat.
    pose proof (dec_length z 10 ltac:(lia) ltac:(lia)) as Hd. unfold INT_MAX in *. change (10 ^ Z.of_nat 10) with (10 ^ 10) in Hd. lia. }
  rewrite !take_ge by (by apply Hl). intros E%app_inv_head%app_inv_head%app_inv_head%app_inv_head.
  by rewrite <- (undec_dec a), E, undec_dec.
Qed.

(** ** Functors under way *)

(** The functor that a connection's next step waits for, and its loop *)
Definition job (base p : nat) (c : conn) : option (nat * functor) :=
  match conn_life c with
  | New => Some (conn_loop c, ConnectEstablished p)
  | Closed => Some (base, RemoveConnectionInLoop p)
  | Removed => Some (conn_loop c, ConnectDestroyed p)
  | Up | Gone => None
  end.

Definition target (f : functor) : option nat :=
  match f with Listen => None | ConnectEstablished p | RemoveConnectionInLoop p | ConnectDestroyed p => Some p end.

Definition one (o : option (nat * functor)) (l : nat) (f : functor) : nat := Nat.b2n (bool_decide (o = Some (l, f))).

Definition owed (base : nat) (cs : list conn) (l : nat) (f : functor) : nat :=
  match target f with
  | Some p => match cs !! p with Some c => one (job base p c) l f | None => 0 end
  | None => 0
  end%nat.

Definition pend (s : t) (l : nat) (f : functor) : nat := count (fun x => bool_decide (x = f)) (queue s l).

(** Each functor is queued as often as it is owed: once or not at all.  (The
    acceptor listens at once, since [start] is called in its thread.) *)
Definition jobs_ok (s : t) : Prop := forall l f, pend s l f = owed (loop_ s) (conns s) l f.

Lemma job_target base p c l f : job base p c = Some (l, f) -> target f = Some p.
Proof. unfold job. destruct (conn_life c); naive_solver. Qed.

Lemma one_other base p c l f : target f <> Some p -> one (job base p c) l f = 0%nat.
Proof. intros Ht. unfold one. rewrite bool_decide_eq_false_2; [done|]. intros E. by apply job_target in E. Qed.

Lemma owed_insert base cs p c c' l f :
  cs !! p = Some c ->
  (owed base (<[p := c']> cs) l f + one (job base p c) l f = owed base cs l f + one (job base p c') l f)%nat.
Proof.
  intros Hp. unfold owed. destruct (target f) as [p'|] eqn:Ht; [|by rewrite !one_other by (by rewrite Ht)].
  destruct (decide (p' = p)) as [->|Hne].
  - rewrite Hp, list_lookup_insert_eq by (by eapply lookup_lt_Some). lia.
  - rewrite list_lookup_insert_ne by done. by rewrite !one_other by (rewrite Ht; congruence).
Qed.

Lemma owed_app base cs c l f : owed base (cs ++ [c]) l f = (owed base cs l f + one (job base (length cs) c) l f)%nat.
Proof.
  unfold owed. destruct (target f) as [p|] eqn:Ht; [|by rewrite one_other by (by rewrite Ht)].
  destruct (decide (p = length cs)) as [->|Hne].
  - rewrite list_lookup_middle by done. by rewrite (lookup_ge_None_2 cs) by lia.
  - rewrite one_other by (rewrite Ht; congruence). rewrite Nat.add_0_r. destruct (cs !! p) as [c'|] eqn:Ec.
    + by rewrite lookup_app_l_Some with (x := c').
    + apply lookup_ge_None in Ec. rewrite lookup_ge_None_2; [done|]. rewrite length_app. cbn. lia.
Qed.

Lemma queue_with l q s l' : queue (with_queues (<[l := q]> (queues s)) s) l' = if decide (l' = l) then q else queue s l'.
Proof. unfold queue, with_queues. cbn [queues]. case_decide; [subst; by rewrite lookup_insert_eq|by rewrite lookup_insert_ne]. Qed.

Lemma pend_queue l0 f0 s l f : pend (queueInLoop l0 f0 s) l f = (pend s l f + one (Some (l0, f0)) l f)%nat.
Proof.
  unfold pend, queueInLoop. rewrite queue_with. unfold one. case_decide as Hl.
  - subst. rewrite count_app. cbn [count]. rewrite Nat.add_0_r. f_equal. unfold Nat.b2n.
    destruct (decide (f0 = f)) as [->|]; [by rewrite !bool_decide_eq_true_2 by done|by rewrite !bool_decide_eq_false_2 by congruence].
  - rewrite bool_decide_eq_false_2 by congruence. cbn. lia.
Qed.

Lemma pend_pop l0 f0 fs s l f :
  queue s l0 = f0 :: fs ->
  (pend (with_queues (<[l0 := fs]> (queues s)) s) l f + one (Some (l0, f0)) l f = pend s l f)%nat.
Proof.
  intros Hq. unfold pend. rewrite queue_with. unfold one. case_decide as Hl.
  - subst. rewrite Hq. cbn [count]. unfold Nat.b2n.
    destruct (decide (f0 = f)) as [->|]; [rewrite !bool_decide_eq_true_2 by done|rewrite !bool_decide_eq_false_2 by congruence]; lia.
  - rewrite bool_decide_eq_false_2 by congruence. cbn. lia.
Qed.

Lemma job_waiting s l f fs :
  jobs_ok s -> queue s l = f :: fs ->
  exists p c, target f = Some p /\ conns s !! p = Some c /\ job (loop_ s) p c = Some (l, f).
Proof.
  intros Hj Hq. specialize (Hj l f). unfold pend in Hj. rewrite Hq in Hj. cbn [count] in Hj. rewrite bool_decide_eq_true_2 in Hj by done.
  unfold owed, one in Hj. destruct (target f) as [p|]; [|done]. destruct (conns s !! p) as [c|] eqn:Ec; [|done].
  destruct (bool_decide (job (loop_ s) p c = Some (l, f))) eqn:E; [|done]. apply bool_decide_eq_true in E. by exists p, c.
Qed.

(** ** The invariant *)

Definition live (c : conn) : Prop := conn_life c ∈ [New; Up; Closed].

Definition map_ok (m : gmap bytes nat) (cs : list conn) : Prop :=
  forall nm p, m !! nm = Some p <-> exists c, cs !! p = Some c /\ conn_name c = nm /\ live c.

Record inv (s : t) : Prop := {
  inv_jobs : jobs_ok s;
  inv_map : map_ok (connections_ s) (conns s);
  inv_names : forall p c, conns s !! p = Some c -> conn_name c = connection_name (name_ s) (ipPort_ s) (1 + Z.of_nat p);
  inv_next : nextConnId_ s = 1 + zlen (conns s) /\ zlen (conns s) < INT_MAX;
  inv_loops : forall p c, conns s !! p = Some c ->
    conn_loop c = EventLoopThreadPool.round_robin (EventLoopThreadPool.loops_ (threadPool_ s)) (loop_ s) p;
  inv_pool : EventLoopThreadPool.started_ (threadPool_ s) = true /\ zlen (EventLoopThreadPool.loops_ (threadPool_ s)) <= INT_MAX /\
    (EventLoopThreadPool.loops_ (threadPool_ s) <> [] ->
     EventLoopThreadPool.next_ (threadPool_ s) = Z.of_nat (length (conns s) mod length (EventLoopThreadPool.loops_ (threadPool_ s))));
  inv_alive : alive s = true;
  inv_ip : (length (ipPort_ s) <= 51)%nat;
}.

(** Two connections of one name are one. *)
Lemma names_unique s p p' c c' :
  inv s -> conns s !! p = Some c -> conns s !! p' = Some c' -> conn_name c = conn_name c' -> p = p'.
Proof.
  intros Hi Hc Hc' Hn. rewrite (inv_names s Hi p c Hc), (inv_names s Hi p' c' Hc') in Hn. destruct (inv_next s Hi) as [_ Hm].
  apply connection_name_inj in Hn; [lia|apply (inv_ip s Hi)|..]; apply lookup_lt_Some in Hc, Hc'; unfold zlen in Hm; lia.
Qed.

Lemma map_ok_insert m cs p c to :
  map_ok m cs -> cs !! p = Some c -> (live c <-> live (mkConn (conn_name c) (conn_loop c) to)) ->
  map_ok m (<[p := mkConn (conn_name c) (conn_loop c) to]> cs).
Proof.
  intros Hm Hc Hl nm q. rewrite (Hm nm q). destruct (decide (q = p)) as [->|Hne].
  - rewrite list_lookup_insert_eq by (by eapply lookup_lt_Some). rewrite Hc. split; intros (c' & [= <-] & Hn & Hlv); eexists; (split; [done|]); split; try done; tauto.
  - by rewrite list_lookup_insert_ne by done.
Qed.

Lemma map_ok_delete s p c :
  inv s -> conns s !! p = Some c -> live c ->
  map_ok (delete (conn_name c) (connections_ s)) (<[p := mkConn (conn_name c) (conn_loop c) Removed]> (conns s)).
Proof.
  intros Hi Hc Hl nm q. rewrite lookup_delete_Some, (inv_map s Hi nm q). destruct (decide (q = p)) as [->|Hne].
  - rewrite list_lookup_insert_eq by (by eapply lookup_lt_Some). split.
    + intros (Hn & c' & Hc' & <- & _). by simplify_eq.
    + intros (c' & [= <-] & _ & Hlv). unfold live in Hlv. cbn in Hlv. set_solver.
  - rewrite list_lookup_insert_ne by done. split; [by intros [_ ?]|]. intros (c' & Hc' & <- & Hlv).
    split; [|by exists c']. intros Hn. apply Hne. by eapply names_unique.
Qed.

(** A connection goes on. *)
Lemma inv_advance s s' p c to m q :
  inv s -> conns s !! p = Some c ->
  s' = with_queues q (with_conns m (<[p := mkConn (conn_name c) (conn_loop c) to]> (conns s)) s) ->
  jobs_ok s' -> map_ok m (conns s') -> inv s'.
Proof.
  intros Hi Hc -> Hj Hm. cbn [conns with_conns with_queues] in Hm.
  assert (forall r c', <[p := mkConn (conn_name c) (conn_loop c) to]> (conns s) !! r = Some c' ->
            exists c0, conns s !! r = Some c0 /\ conn_name c' = conn_name c0 /\ conn_loop c' = conn_loop c0) as Hsame.
  { intros r c'. destruct (decide (r = p)) as [->|]; [|rewrite list_lookup_insert_ne by done; eauto].
    rewrite list_lookup_insert_eq by (by eapply lookup_lt_Some). intros [= <-]. eauto. }
  constructor; try done; cbn; unfold zlen; rewrite ?length_insert; try apply Hi.
  - intros r c' (c0 & Hc0 & -> & _)%Hsame. by apply (inv_names s Hi).
  - intros r c' (c0 & Hc0 & _ & ->)%Hsame. by apply (inv_loops s Hi).
Qed.

Lemma jobs_move s p c c' q m :
  jobs_ok s -> conns s !! p = Some c ->
  (forall l f, (pend (with_queues q s) l f + one (job (loop_ s) p c) l f = pend s l f + one (job (loop_ s) p c') l f)%nat) ->
  jobs_ok (with_queues q (with_conns m (<[p := c']> (conns s)) s)).
Proof.
  intros Hj Hc Hq l f. specialize (Hq l f). pose proof (owed_insert (loop_ s) (conns s) p c c' l f Hc) as Ho. rewrite (Hj l f) in Hq.
  change (pend (with_queues q s) l f = owed (loop_ s) (<[p := c']> (conns s)) l f). lia.
Qed.

Lemma one_None l f : one None l f = 0%nat.
Proof. done. Qed.

(** ** Steps *)

Ltac server_fields :=
  unfold queueInLoop, queue, with_queues, with_conns, with_pool, with_nextConnId, with_acceptor, loop_;
  cbn [ipPort_ name_ acceptor_ threadPool_ started_ nextConnId_ connections_ conns queues alive].

Lemma established_step s l p fs :
  inv s -> queue s l = ConnectEstablished p :: fs ->
  exists s', run_functor l (ConnectEstablished p) (with_queues (<[l := fs]> (queues s)) s) = Ok s' /\ inv s' /\ length (conns s') = length (conns s).
Proof.
  intros Hi Hq. destruct (job_waiting s l _ fs (inv_jobs s Hi) Hq) as (p' & c & [= <-] & Hc & Hjob).
  assert (conn_life c = New /\ conn_loop c = l) as [Hl <-] by (unfold job in Hjob; destruct (conn_life c); try done; injection Hjob; auto).
  cbn [run_functor]. unfold advance, in_conn_loop. cbn [conns with_queues]. rewrite Hc, EventLoopThreadPool.assert_in_loop. cbn [mbind outcome_bind].
  rewrite Hl, bool_decide_eq_true_2 by (by left). cbn [assert mbind outcome_bind].
  eexists. split; [done|]. split; [|cbn; by rewrite length_insert]. eapply (inv_advance s _ p c Up); [done|done|reflexivity|..].
  - apply (jobs_move s p c); [apply Hi|done|]. intros l' f. rewrite Hjob. cbn [job conn_life]. rewrite one_None, Nat.add_0_r. by apply pend_pop.
  - apply map_ok_insert; [apply Hi|done|]. unfold live. rewrite Hl. cbn. set_solver.
Qed.

Lemma destroyed_step s l p fs :
  inv s -> queue s l = ConnectDestroyed p :: fs ->
  exists s', run_functor l (ConnectDestroyed p) (with_queues (<[l := fs]> (queues s)) s) = Ok s' /\ inv s' /\ length (conns s') = length (conns s).
Proof.
  intros Hi Hq. destruct (job_waiting s l _ fs (inv_jobs s Hi) Hq) as (p' & c & [= <-] & Hc & Hjob).
  assert (conn_life c = Removed /\ conn_loop c = l) as [Hl <-] by (unfold job in Hjob; destruct (conn_life c); try done; injection Hjob; auto).
  cbn [run_functor]. unfold advance, in_conn_loop. cbn [conns with_queues]. rewrite Hc, EventLoopThreadPool.assert_in_loop. cbn [mbind outcome_bind].
  rewrite Hl, bool_decide_eq_true_2 by set_solver. cbn [assert mbind outcome_bind].
  eexists. split; [done|]. split; [|cbn; by rewrite length_insert]. eapply (inv_advance s _ p c Gone); [done|done|reflexivity|..].
  - apply (jobs_move s p c); [apply Hi|done|]. intros l' f. rewrite Hjob. cbn [job conn_life]. rewrite one_None, Nat.add_0_r. by apply pend_pop.
  - apply map_ok_insert; [apply Hi|done|]. unfold live. rewrite Hl. cbn. set_solver.
Qed.

(** The removal from the map, of a connection in either of the states it may
    be in, from a server whose queues were changed *)
Lemma removed_step s p c q s1 :
  inv s -> conns s !! p = Some c -> conn_life c = Up \/ conn_life c = Closed ->
  s1 = with_queues q (with_conns (connections_ s) (<[p := mkConn (conn_name c) (conn_loop c) Closed]> (conns s)) s) ->
  (forall l f, (pend (with_queues q s) l f + one (job (loop_ s) p c) l f = pend s l f)%nat) ->
  exists s', run_functor (loop_ s) (RemoveConnectionInLoop p) s1 = Ok s' /\ inv s' /\ length (conns s') = length (conns s).
Proof.
  intros Hi Hc Hl -> Hq. pose proof (lookup_lt_Some _ _ _ Hc) as Hlt. cbn [run_functor]. unfold removeConnectionInLoop, in_loop, loop_. cbn.
  rewrite (inv_alive s Hi), EventLoopThreadPool.assert_in_loop. cbn [mbind outcome_bind]. rewrite list_lookup_insert_eq by done. cbn [conn_name conn_loop].
  assert (live c) as Hlive by (unfold live; destruct Hl as [E|E]; rewrite E; set_solver).
  assert (connections_ s !! conn_name c = Some p) as Hm by (apply (inv_map s Hi); by exists c).
  rewrite Hm, bool_decide_eq_true_2 by done. cbn [assert mbind outcome_bind]. unfold advance. cbn. rewrite list_lookup_insert_eq by done.
  cbn [conn_life conn_name conn_loop]. rewrite bool_decide_eq_true_2 by (by left). cbn [assert mbind outcome_bind]. rewrite list_insert_insert_eq.
  set (q' := <[conn_loop c := queue (with_queues q s) (conn_loop c) ++ [ConnectDestroyed p]]> q).
  exists (with_queues q' (with_conns (delete (conn_name c) (connections_ s)) (<[p := mkConn (conn_name c) (conn_loop c) Removed]> (conns s)) s)).
  split; [by server_fields|]. split; [|cbn; by rewrite length_insert].
  eapply (inv_advance s _ p c Removed); [done|done|reflexivity|..].
  - apply (jobs_move s p c); [apply Hi|done|]. intros l f. rewrite <- (Hq l f). cbn [job conn_life conn_loop].
    assert (pend (with_queues q' s) l f = (pend (with_queues q s) l f + one (Some (conn_loop c, ConnectDestroyed p)) l f)%nat) as ->
      by exact (pend_queue (conn_loop c) (ConnectDestroyed p) (with_queues q s) l f).
    lia.
  - cbn. by apply map_ok_delete.
Qed.

Lemma run_step s l : inv s -> exists s', step (Run l) s = Ok s' /\ inv s' /\ length (conns s') = length (conns s).
Proof.
  intros Hi. cbn [step]. destruct (queue s l) as [|f fs] eqn:Hq; [by exists s|]. destruct f as [|p|p|p].
  - by destruct (job_waiting s l _ fs (inv_jobs s Hi) Hq) as (p & c & ? & _).
  - by apply established_step.
  - destruct (job_waiting s l _ fs (inv_jobs s Hi) Hq) as (p' & c & [= <-] & Hc & Hjob).
    assert (conn_life c = Closed /\ l = loop_ s) as [Hl ->] by (unfold job in Hjob; destruct (conn_life c); try done; injection Hjob; auto).
    apply (removed_step s p c (<[loop_ s := fs]> (queues s))); [done|done|by right| |].
    + rewrite <- Hl. assert (mkConn (conn_name c) (conn_loop c) (conn_life c) = c) as -> by (by destruct c).
      rewrite list_insert_id by done. by destruct s.
    + intros l' f. rewrite Hjob. by apply pend_pop.
  - by apply destroyed_step.
Qed.

Lemma close_step s p : inv s -> exists s', step (Close p) s = Ok s' /\ inv s' /\ length (conns s') = length (conns s).
Proof.
  intros Hi. cbn [step]. destruct (conns s !! p) as [c|] eqn:Hc; [|by exists s]. case_decide as Hl; [|by exists s].
  pose proof (lookup_lt_Some _ _ _ Hc) as Hlt. unfold removeConnection, advance. rewrite Hc, Hl, bool_decide_eq_true_2 by (by left).
  cbn [assert mbind outcome_bind]. cbn [conns with_conns]. rewrite list_lookup_insert_eq by done. cbn [conn_loop]. unfold runInLoop.
  assert (job (loop_ s) p c = None) as Hjob by (unfold job; by rewrite Hl).
  case_decide as He.
  - replace (run_functor (conn_loop c)) with (run_functor (loop_ s)) by (f_equal; symmetry; exact He).
    apply (removed_step s p c (queues s)); [done|done|by left|by destruct s|]. intros l f. rewrite Hjob, one_None, Nat.add_0_r. by destruct s.
  - eexists. split; [done|]. split; [|cbn; by rewrite length_insert].
    set (q' := <[loop_ s := queue s (loop_ s) ++ [RemoveConnectionInLoop p]]> (queues s)).
    eapply (inv_advance s _ p c Closed (connections_ s) q'); [done|done|by server_fields|..].
    + assert (jobs_ok (with_queues q' (with_conns (connections_ s) (<[p := mkConn (conn_name c) (conn_loop c) Closed]> (conns s)) s))) as H; [|exact H].
      apply (jobs_move s p c); [apply Hi|done|]. intros l f. rewrite Hjob, one_None, Nat.add_0_r. cbn [job conn_life]. apply pend_queue.
    + apply map_ok_insert; [apply Hi|done|]. unfold live. rewrite Hl. cbn. set_solver.
Qed.

(** A new connection, with the server's next loop and number *)
Lemma inv_append s s' lf pool q ac :
  let io := EventLoopThreadPool.round_robin (EventLoopThreadPool.loops_ (threadPool_ s)) (loop_ s) (length (conns s)) in
  let c := mkConn (connection_name (name_ s) (ipPort_ s) (nextConnId_ s)) io lf in
  inv s -> zlen (conns s) + 1 < INT_MAX -> live c ->
  EventLoopThreadPool.started_ pool = true -> EventLoopThreadPool.loops_ pool = EventLoopThreadPool.loops_ (threadPool_ s) ->
  EventLoopThreadPool.baseLoop_ pool = loop_ s ->
  (EventLoopThreadPool.loops_ (threadPool_ s) <> [] ->
   EventLoopThreadPool.next_ pool = Z.of_nat (S (length (conns s)) mod length (EventLoopThreadPool.loops_ (threadPool_ s)))) ->
  s' = mk (ipPort_ s) (name_ s) ac pool (started_ s) (nextConnId_ s + 1) (<[conn_name c := length (conns s)]> (connections_ s)) (conns s ++ [c]) q (alive s) ->
  (forall l f, pend (with_queues q s) l f = (pend s l f + one (job (loop_ s) (length (conns s)) c) l f)%nat) -> inv s'.
Proof.
  intros io c Hi Hfew Hlive Hst Hlo Hba Hnx -> Hq. pose proof Hi as [Hj Hm Hn [Hx Hx'] Hl (Hp1 & Hp2 & _) Ha Hip].
  assert (conn_name c = connection_name (name_ s) (ipPort_ s) (1 + Z.of_nat (length (conns s)))) as Hname by (cbn; unfold zlen in Hx; f_equal; lia).
  assert (forall p c0, (conns s ++ [c]) !! p = Some c0 -> conns s !! p = Some c0 \/ p = length (conns s) /\ c0 = c) as Hsplit.
  { intros p c0. rewrite lookup_app_Some. intros [?|[Hge Hp]]; [by left|right]. apply list_lookup_singleton_Some in Hp as [Hz ->]. split; [lia|done]. }
  assert (zlen (conns s ++ [c]) = zlen (conns s) + 1) as Hzl by (rewrite zlen_app; done).
  constructor; unfold loop_; cbn [ipPort_ name_ acceptor_ threadPool_ started_ nextConnId_ connections_ conns queues alive]; rewrite ?Hlo, ?Hba; try done.
  - intros l f. unfold loop_. cbn [threadPool_ conns]. rewrite Hba, owed_app, <- (Hj l f), <- Hq. done.
  - intros nm p. rewrite lookup_insert_Some, (Hm nm p). split.
    + intros [[<- <-]|[Hne (c0 & Hc0 & <- & Hlv)]]; [exists c; by rewrite list_lookup_middle|].
      exists c0. split; [|done]. by apply lookup_app_l_Some.
    + intros (c0 & [Hc0|[-> ->]]%Hsplit & <- & Hlv); [right|by left]. split; [|by exists c0]. intros E.
      rewrite Hname, (Hn p c0 Hc0) in E. apply connection_name_inj in E; [|done|..]; apply lookup_lt_Some in Hc0; unfold zlen in *; lia.
  - intros p c0 [Hc0|[-> ->]]%Hsplit; [by apply Hn|exact Hname].
  - rewrite Hzl. lia.
  - intros p c0 [Hc0|[-> ->]]%Hsplit; [by apply Hl|done].
  - split_and!; [done|done|]. intros Hne. rewrite Hnx, length_app by done. cbn [length]. do 2 f_equal. lia.
Qed.

Lemma accept_step s connfd err second idle :
  inv s -> zlen (conns s) + 1 < INT_MAX ->
  exists s', step (Accept connfd err second idle) s = Ok s' /\ inv s' /\ (length (conns s') <= S (length (conns s)))%nat.
Proof.
  intros Hi Hfew. cbn [step]. destruct (Acceptor.reading (acceptor_ s)); [|exists s; split_and!; [done..|lia]].
  destruct (Acceptor.handleRead true connfd err second idle (acceptor_ s)) as [[accepted closed] ac].
  destruct accepted as [fd|].
  2:{ exists (with_acceptor ac s). split_and!; [done| |cbn; lia]. destruct Hi. by constructor. }
  pose proof Hi as [_ _ _ [Hx Hx'] _ (Hp1 & Hp2 & Hp3) _ _]. unfold newConnection, in_loop. cbn [threadPool_ with_acceptor].
  rewrite EventLoopThreadPool.assert_in_loop. cbn [mbind outcome_bind].
  destruct (EventLoopThreadPool.getNextLoop_spec (threadPool_ s) (length (conns s)) Hp1 Hp2 Hp3) as (pool & Hg & Hst & Hlo & Hba & Hnx).
  change (loop_ (with_acceptor ac s)) with (EventLoopThreadPool.baseLoop_ (threadPool_ s)). rewrite Hg.
  cbn [mbind outcome_bind nextConnId_ with_pool with_acceptor name_ ipPort_]. pose proof (zlen_nonneg (conns s)).
  rewrite ck32_Ok by (unfold INT_MIN; lia). cbn [mbind outcome_bind].
  set (io := EventLoopThreadPool.round_robin _ _ _). set (nm := connection_name _ _ _). unfold runInLoop, loop_. server_fields.
  fold (loop_ s). case_decide as He; cbn [run_functor].
  - unfold advance, in_conn_loop. cbn [conns]. rewrite list_lookup_middle by done. cbn [conn_loop].
    assert (EventLoopThreadPool.assertInLoopThread (loop_ s) io = Ok tt) as -> by (rewrite <- He; apply EventLoopThreadPool.assert_in_loop).
    cbn [mbind outcome_bind]. cbn [conn_life]. rewrite bool_decide_eq_true_2 by (by left).
    cbn [assert mbind outcome_bind]. eexists. split; [done|]. split; [|cbn; rewrite length_insert, length_app; cbn; lia].
    eapply (inv_append s _ Up pool (queues s) ac); try done; [unfold live; set_solver|..].
    all: try (intros l f; cbn [job conn_life]; rewrite one_None, Nat.add_0_r; by destruct s).
    server_fields. rewrite insert_app_r_alt by lia. by rewrite Nat.sub_diag.
  - eexists. split; [done|]. split; [|cbn; rewrite length_app; cbn; lia].
    eapply (inv_append s _ New pool _ ac); try done; [unfold live; set_solver|]. intros l f. cbn [job conn_life conn_loop]. apply pend_queue.
Qed.

Lemma server_step_inv a s :
  inv s -> zlen (conns s) + 1 < INT_MAX -> exists s', step a s = Ok s' /\ inv s' /\ (length (conns s') <= S (length (conns s)))%nat.
Proof.
  intros Hi Hfew. destruct a; [by apply accept_step| |].
  - destruct (close_step s p Hi) as (s' & Hs & Hi' & Hl). exists s'. split_and!; [done..|lia].
  - destruct (run_step s l Hi) as (s' & Hs & Hi' & Hl). exists s'. split_and!; [done..|lia].
Qed.

(** The loops stay what they are. *)
Definition loops_of (s : t) : nat * list nat := (loop_ s, EventLoopThreadPool.loops_ (threadPool_ s)).

Lemma advance_loops from to p s s' : advance from to p s = Ok s' -> loops_of s' = loops_of s.
Proof. unfold advance. destruct (conns s !! p); [|done]. intros H. by inv_ok H. Qed.

Lemma run_functor_loops th f s s' : run_functor th f s = Ok s' -> loops_of s' = loops_of s.
Proof.
  destruct f; cbn [run_functor]; [|intros (u & _ & H)%bind_Ok; by apply advance_loops in H| |intros (u & _ & H)%bind_Ok; by apply advance_loops in H].
  { intros (u & _ & [= <-])%bind_Ok. done. }
  unfold removeConnectionInLoop. intros (u & _ & H)%bind_Ok. apply bind_Ok in H as (v & _ & H). destruct (conns s !! conn0); [|done].
  apply bind_Ok in H as (u' & _ & H). by apply bind_Ok in H as (s1 & H%advance_loops & [= <-]).
Qed.

Lemma runInLoop_loops th l f s s' : runInLoop th l f s = Ok s' -> loops_of s' = loops_of s.
Proof. unfold runInLoop. case_decide; [apply run_functor_loops|by intros [= <-]]. Qed.

Lemma getNextLoop_loops th p l p' :
  EventLoopThreadPool.getNextLoop th p = Ok (l, p') ->
  EventLoopThreadPool.loops_ p' = EventLoopThreadPool.loops_ p /\ EventLoopThreadPool.baseLoop_ p' = EventLoopThreadPool.baseLoop_ p.
Proof.
  unfold EventLoopThreadPool.getNextLoop. intros H. inv_ok H. destruct (EventLoopThreadPool.loops_ p) eqn:El; [by simplify_eq|].
  inv_ok H. by simplify_eq.
Qed.

Lemma step_loops a s s' : step a s = Ok s' -> loops_of s' = loops_of s.
Proof.
  destruct a as [connfd err second idle|p|l]; cbn [step].
  - destruct (Acceptor.reading _); [|by intros [= <-]]. destruct (Acceptor.handleRead _ _ _ _ _ _) as [[[fd|] cl] ac]; [|by intros [= <-]].
    unfold newConnection. cbn [threadPool_ with_acceptor]. intros H. apply bind_Ok in H as (u & _ & H). apply bind_Ok in H as ([l p] & Hg & H). apply bind_Ok in H as (nx & _ & H).
    apply getNextLoop_loops in Hg as [Hlo Hba]. apply runInLoop_loops in H. rewrite H. unfold loops_of, loop_. cbn. by rewrite Hlo, Hba.
  - destruct (conns s !! p) as [c|]; [|by intros [= <-]]. case_decide as Hup; [|by intros [= <-]]. unfold removeConnection. intros H.
    apply bind_Ok in H as (s1 & H1 & H). apply advance_loops in H1. destruct (conns s1 !! p); [|done]. apply runInLoop_loops in H. congruence.
  - destruct (queue s l); [by intros [= <-]|]. intros H. apply run_functor_loops in H. by rewrite H.
Qed.

Lemma run_inv ls s :
  inv s -> zlen (conns s) + Z.of_nat (length ls) < INT_MAX -> exists s', run ls s = Ok s' /\ inv s' /\ loops_of s' = loops_of s.
Proof.
  revert s. induction ls as [|a ls IH]; intros s Hi Hfew; [by exists s|]. cbn [run length] in *.
  destruct (server_step_inv a s Hi) as (s1 & Hs & Hi1 & Hl); [lia|]. rewrite Hs. cbn [mbind outcome_bind]. apply step_loops in Hs.
  rewrite <- Hs. apply IH; [done|]. unfold zlen in *. lia.
Qed.

(** When nothing is queued, nothing is owed. *)
Lemma no_job s p c : inv s -> (forall l, queue s l = []) -> conns s !! p = Some c -> job (loop_ s) p c = None.
Proof.
  intros Hi Hq Hc. destruct (job (loop_ s) p c) as [[l f]|] eqn:Ej; [|done]. pose proof (job_target _ _ _ _ _ Ej) as Ht.
  pose proof (inv_jobs s Hi l f) as Hj. unfold pend, owed, one in Hj.
  by rewrite Hq, Ht, Hc, Ej, bool_decide_eq_true_2 in Hj.
Qed.

(** A server with [n] threads after [start] *)
Definition started (base : nat) (ip nm : bytes) (idle n : Z) (startLoop : nat -> nat) (cb : bool) (thread : nat) : outcome t :=
  a ← Acceptor.new idle;
  s ← setThreadNum n (new base ip nm a);
  start startLoop cb thread s.

Lemma inv_initial s :
  conns s = [] -> connections_ s = ∅ -> nextConnId_ s = 1 -> (forall l f, pend s l f = 0%nat) ->
  EventLoopThreadPool.started_ (threadPool_ s) = true -> zlen (EventLoopThreadPool.loops_ (threadPool_ s)) <= INT_MAX ->
  EventLoopThreadPool.next_ (threadPool_ s) = 0 -> alive s = true -> (length (ipPort_ s) <= 51)%nat -> inv s.
Proof.
  intros Hc Hm Hn Hp Hs Hl Hx Ha Hip. constructor; rewrite ?Hc, ?Hm; try done.
  - intros l f. rewrite Hp, Hc. unfold owed. by destruct (target f).
  - intros nm p. rewrite lookup_empty. split; [done|]. intros (c & Hl' & _). by rewrite lookup_nil in Hl'.
  - split_and!; [done|done|]. intros _. rewrite Hx. cbn [length]. by rewrite Nat.Div0.mod_0_l.
Qed.

Lemma started_inv base ip nm idle n startLoop cb :
  0 <= idle -> 0 <= n <= INT_MAX -> (length ip <= 51)%nat ->
  exists s, started base ip nm idle n startLoop cb base = Ok s /\ inv s /\ conns s = [] /\ loop_ s = base /\
    EventLoopThreadPool.loops_ (threadPool_ s) = map startLoop (seq 0 (Z.to_nat n)).
Proof.
  intros Hidle Hn Hip. unfold started, Acceptor.new. rewrite (proj2 (Z.leb_le _ _)) by lia. cbn [assert mbind outcome_bind].
  unfold setThreadNum. rewrite (proj2 (Z.leb_le _ _)) by lia. cbn [assert mbind outcome_bind]. unfold start, EventLoopThreadPool.start. cbn.
  rewrite EventLoopThreadPool.assert_in_loop. cbn. unfold runInLoop, loop_. cbn. rewrite decide_True by done.
  cbn. unfold in_loop, loop_. cbn. rewrite EventLoopThreadPool.assert_in_loop. cbn.
  assert (zlen (map startLoop (seq 0 (Z.to_nat n))) <= INT_MAX) as Hz by (unfold zlen; rewrite length_map, length_seq; lia).
  eexists. split; [done|]. split; [|done]. by apply inv_initial.
Qed.

(** C18: A server that was started in the thread of its loop keeps its books
    right under every interleaving of accepted and closed connections with the
    functors of its loops: no assertion fails (every removal finds its
    connection, each connection is established once and before it is destroyed,
    and every function runs in the thread of its loop); the map holds exactly
    the connections not yet removed, under distinct names; the connections are
    spread over the threads in turn; and once all functors have run, every
    connection is up, and then in the map, or destroyed.  In any other thread
    [start] aborts the process. *)
Theorem server_connections base ip nm idle n startLoop cb ls :
  0 <= idle -> 0 <= n <= INT_MAX -> (length ip <= 51)%nat -> Z.of_nat (length ls) < INT_MAX ->
  (exists s0 s, started base ip nm idle n startLoop cb base = Ok s0 /\ run ls s0 = Ok s /\
    map_ok (connections_ s) (conns s) /\
    (forall p c, conns s !! p = Some c -> conn_loop c = if n =? 0 then base else startLoop (p mod Z.to_nat n)%nat) /\
    ((forall l, queue s l = []) -> forall p c, conns s !! p = Some c ->
      conn_life c = Up /\ connections_ s !! conn_name c = Some p \/ conn_life c = Gone)) /\
  forall thread, thread <> base -> started base ip nm idle n startLoop cb thread = Fault Aborted.
Proof.
  intros Hidle Hn Hip Hls. split.
  - destruct (started_inv base ip nm idle n startLoop cb Hidle Hn Hip) as (s0 & Hs0 & Hi0 & Hc0 & Hb & Hlo).
    destruct (run_inv ls s0 Hi0) as (s & Hs & Hi & Hsame); [rewrite Hc0, zlen_nil; lia|]. exists s0, s. split_and!; [done|done|apply Hi| |].
    + intros p c Hc. unfold loops_of in Hsame. rewrite Hb, Hlo in Hsame. injection Hsame as Hb' Hlo'.
      rewrite (inv_loops s Hi p c Hc), Hb', Hlo'. unfold EventLoopThreadPool.round_robin. rewrite length_map, length_seq.
      destruct (Z.eqb_spec n 0) as [->|Hnz]; [done|]. rewrite list_lookup_fmap, lookup_seq_lt; [done|]. apply Nat.mod_upper_bound. lia.
    + intros Hq p c Hc. pose proof (no_job s p c Hi Hq Hc) as Hj. unfold job in Hj. destruct (conn_life c) eqn:El; try done; [left|by right].
      split; [done|]. apply (inv_map s Hi). exists c. split_and!; [done..|]. unfold live. rewrite El. set_solver.
  - intros thread Ht. unfold started, Acceptor.new. rewrite (proj2 (Z.leb_le _ _)) by lia. cbn [assert mbind outcome_bind].
    unfold setThreadNum. rewrite (proj2 (Z.leb_le _ _)) by lia. cbn [assert mbind outcome_bind]. unfold start, EventLoopThreadPool.start. cbn.
    by rewrite EventLoopThreadPool.assert_not_in_loop.
Qed.

Module ServerDemo.

Definition server : outcome t := started 0 (bs "0.0.0.0:80") (bs "echo") 3 1 S true 0.

(** Two connections to a server with one thread, loop 1; the first ends. *)
Lemma server_connections_witness :
  (exists s0 s, server = Ok s0 /\ run [Accept 7 0 0 0; Run 1; Accept 8 0 0 0; Close 0; Run 0; Run 1; Run 1] s0 = Ok s /\
    map_ok (connections_ s) (conns s)) /\
  started 0 (bs "0.0.0.0:80") (bs "echo") 3 1 S true 5 = Fault Aborted.
Proof.
  destruct (server_connections 0 (bs "0.0.0.0:80") (bs "echo") 3 1 S true [Accept 7 0 0 0; Run 1; Accept 8 0 0 0; Close 0; Run 0; Run 1; Run 1])
    as [(s0 & s & H1 & H2 & H3 & _) H4]; [vm_compute; congruence|split; vm_compute; congruence|vm_compute; lia|vm_compute; reflexivity|].
  split; [|apply H4; lia]. exists s0, s. exact (conj H1 (conj H2 H3)).
Defined.

(** Destroying a server while the close of a connection is on its way from
    another thread leaves a functor behind that uses the destroyed server. *)
Theorem destroy_with_close_pending :
  (s ← server; s ← run [Accept 7 0 0 0; Run 1; Close 0] s; s ← destroy 0 s; run [Run 0] s) = Fault OutOfBounds.
Proof. vm_compute. reflexivity. Qed.

End ServerDemo.
