(* ===== verification/TcpClient.v ===== *)
(** * The TCP client

    [Module TcpClient] models src/muduo/net/TcpClient.h and TcpClient.cc: one
    connection after the other over a connector, which is the one of
    Connector.v.  The loop's queue of functors has those of the client and of
    its connections in their order, and a [ConnectorJob] for each functor in
    the connector's own queue.  A connection is the part of its life that the
    client sees; [connectErrno n] is what connect(2) reports for socket [n]. *)

From S2P Require Import Prelude Timestamp TcpConnection Connector.

Local Open Scope Z_scope.

Module TcpClient.
Abbreviation StateE := TcpConnection.StateE.
Abbreviation kDisconnected := TcpConnection.kDisconnected.
Abbreviation kConnecting := TcpConnection.kConnecting.
Abbreviation kConnected := TcpConnection.kConnected.
Abbreviation kDisconnecting := TcpConnection.kDisconnecting.

(** [closeCallback_] of a connection: TcpClient::removeConnection of the client
    or detail::removeConnection. *)
Inductive closeCallback := OfClient | OfDetail.

#[global] Instance closeCallback_eq_dec : EqDecision closeCallback.
Proof. solve_decision. Defined.

Inductive functor :=
  | ConnectorJob                  (* the next functor of the connector *)
  | ShutdownInLoop (conn : nat)
  | SetCloseCallback (conn : nat)
  | ForceCloseInLoop (conn : nat)
  | ConnectDestroyed (conn : nat).

#[global] Instance functor_eq_dec : EqDecision functor.
Proof. solve_decision. Defined.

Record conn := mkConn {
  conn_name : bytes;
  conn_fd : nat;
  conn_state : StateE;
  conn_shut : bool;              (* shutdownInLoop has run *)
  conn_close : closeCallback;
  conn_polled : bool;            (* its channel has been in a poll *)
  conn_destroyed : bool;         (* connectDestroyed has run *)
}.

Definition set_state (x : StateE) (c : conn) : conn := mkConn (conn_name c) (conn_fd c) x (conn_shut c) (conn_close c) (conn_polled c) (conn_destroyed c).
Definition set_shut (c : conn) : conn := mkConn (conn_name c) (conn_fd c) (conn_state c) true (conn_close c) (conn_polled c) (conn_destroyed c).
Definition set_close (x : closeCallback) (c : conn) : conn := mkConn (conn_name c) (conn_fd c) (conn_state c) (conn_shut c) x (conn_polled c) (conn_destroyed c).
Definition set_polled (c : conn) : conn := mkConn (conn_name c) (conn_fd c) (conn_state c) (conn_shut c) (conn_close c) true (conn_destroyed c).
Definition set_destroyed (c : conn) : conn := mkConn (conn_name c) (conn_fd c) (conn_state c) (conn_shut c) (conn_close c) (conn_polled c) true.

Definition is_open (c : conn) : bool := bool_decide (conn_state c = kConnected) || bool_decide (conn_state c = kDisconnecting).

(** The members of the client, the connection objects and the queue of the
    loop.  [owned]: the client, or after it the timer that the destructor sets,
    holds a reference to the connector; retry timers hold one as well. *)
Record t := mk {
  connector_ : Connector.t;
  name_ : bytes;
  retry_ : bool;
  connect_ : bool;
  nextConnId_ : Z;
  connection_ : option nat;
  conns : list conn;
  queue : list functor;
  alive : bool;
  owned : bool;
}.

Definition new (nameArg : bytes) : t := mk Connector.new nameArg false true 1 None [] [] true true.

Definition set_flags (retry connect : bool) (s : t) : t :=
  mk (connector_ s) (name_ s) retry connect (nextConnId_ s) (connection_ s) (conns s) (queue s) (alive s) (owned s).
Definition set_id (n : Z) (s : t) : t :=
  mk (connector_ s) (name_ s) (retry_ s) (connect_ s) n (connection_ s) (conns s) (queue s) (alive s) (owned s).
Definition set_connection (p : option nat) (s : t) : t :=
  mk (connector_ s) (name_ s) (retry_ s) (connect_ s) (nextConnId_ s) p (conns s) (queue s) (alive s) (owned s).
Definition set_conns (l : list conn) (s : t) : t :=
  mk (connector_ s) (name_ s) (retry_ s) (connect_ s) (nextConnId_ s) (connection_ s) l (queue s) (alive s) (owned s).
Definition set_queue (q : list functor) (s : t) : t :=
  mk (connector_ s) (name_ s) (retry_ s) (connect_ s) (nextConnId_ s) (connection_ s) (conns s) q (alive s) (owned s).
Definition set_dead (owned : bool) (s : t) : t :=
  mk (connector_ s) (name_ s) (retry_ s) (connect_ s) (nextConnId_ s) None (conns s) (queue s) false owned.
Definition set_owned (owned : bool) (s : t) : t :=
  mk (connector_ s) (name_ s) (retry_ s) (connect_ s) (nextConnId_ s) (connection_ s) (conns s) (queue s) (alive s) owned.

Definition queueInLoop (f : functor) (s : t) : t := set_queue (queue s ++ [f]) s.

(** The connector has changed; what it queued is in the loop's queue. *)
Definition set_connector (c : Connector.t) (s : t) : t :=
  mk c (name_ s) (retry_ s) (connect_ s) (nextConnId_ s) (connection_ s) (conns s)
    (queue s ++ replicate (length (Connector.pending c) - length (Connector.pending (connector_ s))) ConnectorJob) (alive s) (owned s).

(** An object that does not exist any more must not be used. *)
Definition exists_ (b : bool) : outcome unit := if b then Ok tt else Fault OutOfBounds.

Definition connector_exists (s : t) : bool :=
  owned s || negb (bool_decide (Connector.fresh (connector_ s) ++ Connector.armed (connector_ s) = [])).

(** The connector's destructor runs when its last reference is gone. *)
Definition drop_connector (s : t) : outcome t :=
  if connector_exists s then Ok s
  else _ ← assert (bool_decide (Connector.channel_ (connector_ s) = None)); Ok s.

Section Client.
Variable connectErrno : nat -> Z.

Definition errno_of (s : t) : Z := connectErrno (Connector.next_fd (connector_ s)).

Definition with_conn (p : nat) (f : conn -> outcome t) (s : t) : outcome t :=
  match conns s !! p with Some c => f c | None => Fault OutOfBounds end.
Definition update (p : nat) (c : conn) (s : t) : t := set_conns (<[p := c]> (conns s)) s.

(** ** The connection, as far as the client is concerned *)

Definition connectDestroyed (p : nat) (s : t) : outcome t :=
  with_conn p (fun c =>
    let c := if decide (conn_state c = kConnected) then set_state kDisconnected c else c in
    _ ← assert (bool_decide (conn_state c = kDisconnected));   (* channel_->remove() *)
    _ ← assert (negb (conn_destroyed c));
    Ok (update p (set_destroyed c) s)) s.

Definition shutdown (in_loop : bool) (p : nat) (s : t) : outcome t :=
  with_conn p (fun c =>
    if decide (conn_state c = kConnected) then
      let c := set_state kDisconnecting c in
      if in_loop then Ok (update p (set_shut c) s) else Ok (queueInLoop (ShutdownInLoop p) (update p c s))
    else Ok s) s.

Definition forceClose (p : nat) (s : t) : outcome t :=
  with_conn p (fun c =>
    if is_open c then Ok (queueInLoop (ForceCloseInLoop p) (update p (set_state kDisconnecting c) s)) else Ok s) s.

(** ** TcpClient *)

Definition connect (in_loop : bool) (s : t) : outcome t :=
  let s := set_flags (retry_ s) true s in
  c ← Connector.start in_loop (errno_of s) (connector_ s);
  Ok (set_connector c s).

Definition disconnect (in_loop : bool) (s : t) : outcome t :=
  let s := set_flags (retry_ s) false s in
  match connection_ s with Some p => shutdown in_loop p s | None => Ok s end.

Definition stop (s : t) : t :=
  let s := set_flags (retry_ s) false s in set_connector (Connector.stop (connector_ s)) s.

Definition enableRetry (s : t) : t := set_flags true (connect_ s) s.

Definition connection_name (name peerIpPort : bytes) (id : Z) : bytes :=
  name ++ Timestamp.snprintf 32 (bs ":" ++ peerIpPort ++ bs "#" ++ dec id).

(** [newConnection]; connectEstablished makes the connection connected. *)
Definition newConnection (sockfd : nat) (peerIpPort : bytes) (s : t) : outcome t :=
  _ ← exists_ (alive s);
  let connName := connection_name (name_ s) peerIpPort (nextConnId_ s) in
  next ← ck32 (nextConnId_ s + 1);
  let p := length (conns s) in
  Ok (set_connection (Some p)
       (set_conns (conns s ++ [mkConn connName sockfd kConnected false OfClient false false]) (set_id next s))).

Definition removeConnection (p : nat) (s : t) : outcome t :=
  _ ← exists_ (alive s);
  _ ← assert (bool_decide (connection_ s = Some p));
  let s := queueInLoop (ConnectDestroyed p) (set_connection None s) in
  if retry_ s && connect_ s then
    c ← Connector.restart (errno_of s) (connector_ s);
    Ok (set_connector c s)
  else Ok s.

(** TcpConnection::handleClose, with the close callback *)
Definition handleClose (p : nat) (s : t) : outcome t :=
  with_conn p (fun c =>
    _ ← assert (is_open c);
    let s := update p (set_state kDisconnected c) s in
    match conn_close c with
    | OfClient => removeConnection p s
    | OfDetail => Ok (queueInLoop (ConnectDestroyed p) s)
    end) s.

Definition forceCloseInLoop (p : nat) (s : t) : outcome t :=
  with_conn p (fun c => if is_open c then handleClose p s else Ok s) s.

Definition setCloseCallback (p : nat) (s : t) : outcome t :=
  with_conn p (fun c => Ok (update p (set_close OfDetail c) s)) s.

(** The destructor; [unique]: no one else holds the connection. *)
Definition destroy (in_loop unique : bool) (s : t) : outcome t :=
  match connection_ s with
  | Some p =>
      s ← (if in_loop then setCloseCallback p s else Ok (queueInLoop (SetCloseCallback p) s));
      s ← (if unique then forceClose p s else Ok s);
      drop_connector (set_dead false s)
  | None => Ok (set_dead true (set_connector (Connector.stop (connector_ s)) s))
  end.

(** ** Steps *)

Definition run_functor (f : functor) (s : t) : outcome t :=
  match f with
  | ConnectorJob => Ok s
  | ShutdownInLoop p => with_conn p (fun c => Ok (update p (set_shut c) s)) s
  | SetCloseCallback p => setCloseCallback p s
  | ForceCloseInLoop p => forceCloseInLoop p s
  | ConnectDestroyed p => connectDestroyed p s
  end.

(** The functors of one iteration; [jobs] are those of the connector. *)
Fixpoint run_batch (fs : list functor) (jobs : list Connector.functor) (s : t) : outcome t :=
  match fs with
  | [] => Ok s
  | ConnectorJob :: fs =>
      match jobs with
      | [] => Fault OutOfBounds
      | f :: jobs =>
          _ ← exists_ (connector_exists s);
          c ← Connector.run_functor (errno_of s) f (connector_ s);
          run_batch fs jobs (set_connector c s)
      end
  | f :: fs => s ← run_functor f s; run_batch fs jobs s
  end.

(** The new connection of an event, if there is one *)
Definition made (before after : list Connector.event) : option nat :=
  match rev (drop (length before) after) with Connector.NewConnection fd :: _ => Some fd | _ => None end.

Inductive label :=
  | Disconnect (in_loop : bool)
  | Stop
  | EnableRetry
  | Event (error write : bool) (err : Z) (isSelfConnect : bool) (peerIpPort : bytes)   (* on the connector's channel *)
  | RetryTimer
  | PeerClose (p : nat)                 (* the socket of connection [p] is closed by the peer *)
  | ForceClose (p : nat)
  | Functors                            (* the end of an iteration *)
  | Destroy (in_loop unique : bool)
  | ReleaseConnector.                   (* the timer of the destructor *)

Definition step (l : label) (s : t) : outcome t :=
  match l with
  | Disconnect in_loop => _ ← exists_ (alive s); disconnect in_loop s
  | Stop => _ ← exists_ (alive s); Ok (stop s)
  | EnableRetry => _ ← exists_ (alive s); Ok (enableRetry s)
  | Event error write err self peer =>
      c ← Connector.step (Connector.Event error write err self) (connector_ s);
      let m := made (Connector.trace (connector_ s)) (Connector.trace c) in
      let s := set_connector c s in
      match m with Some fd => newConnection fd peer s | None => Ok s end
  | RetryTimer =>
      c ← Connector.step (Connector.Timer (errno_of s)) (connector_ s);
      drop_connector (set_connector c s)
  | PeerClose p => with_conn p (fun c => if is_open c && conn_polled c then handleClose p s else Ok s) s
  | ForceClose p => forceClose p s
  | Functors =>
      let c := connector_ s in
      s ← run_batch (queue s) (Connector.pending c) (set_connector (Connector.set_pending [] c) (set_queue [] s));
      let c := connector_ s in
      Ok (set_conns (map set_polled (conns s)) (set_connector (Connector.set_timers [] (Connector.armed c ++ Connector.fresh c) c) s))
  | Destroy in_loop unique => _ ← exists_ (alive s); destroy in_loop unique s
  | ReleaseConnector => if alive s then Ok s else drop_connector (set_owned false s)
  end.

Fixpoint run (ls : list label) (s : t) : outcome t :=
  match ls with [] => Ok s | l :: ls => s ← step l s; run ls s end.

End Client.
End TcpClient.
