(* ===== verification/TcpClientFacts.v ===== *)
(** * Facts about the TCP client

    A client used as intended never fails an assertion nor uses an object that
    is gone, holds at most one connection, destroys each connection that has
    closed exactly once, and goes on to the next one when it is to retry. *)

From S2P Require Import Prelude Monitor Timestamp TcpConnection Connector ConnectorFacts TcpClient.

Local Open Scope Z_scope.

Module TcpClientFacts.
Import TcpClient.

Section Client.
Variable connectErrno : nat -> Z.

(** ** The connections *)

Definition target (f : functor) : option nat :=
  match f with
  | ConnectorJob => None
  | ShutdownInLoop p | SetCloseCallback p | ForceCloseInLoop p | ConnectDestroyed p => Some p
  end.

(** What the loop still has to do for a connection. *)
Definition owes (c : conn) : nat :=
  if bool_decide (conn_state c = kDisconnected) && negb (conn_destroyed c) then 1%nat else 0%nat.

Definition due (p : nat) (q : list functor) : nat := count (fun f => bool_decide (f = ConnectDestroyed p)) q.
Definition njobs (q : list functor) : nat := count (fun f => bool_decide (f = ConnectorJob)) q.

Lemma due_app p q q' : due p (q ++ q') = (due p q + due p q')%nat.
Proof. apply count_app. Qed.
Lemma njobs_app q q' : njobs (q ++ q') = (njobs q + njobs q')%nat.
Proof. apply count_app. Qed.
Lemma njobs_replicate n : njobs (replicate n ConnectorJob) = n.
Proof. induction n as [|n IH]; [done|]. unfold njobs in *. cbn [replicate count]. rewrite IH, bool_decide_eq_true_2 by done. done. Qed.
Lemma due_replicate p n : due p (replicate n ConnectorJob) = 0%nat.
Proof. by induction n. Qed.

Lemma due_self p q : due p (ConnectDestroyed p :: q) = S (due p q).
Proof. unfold due. cbn [count]. by rewrite bool_decide_eq_true_2. Qed.
Lemma due_other p f q : f <> ConnectDestroyed p -> due p (f :: q) = due p q.
Proof. intros Hf. unfold due. cbn [count]. by rewrite bool_decide_eq_false_2. Qed.
Lemma due_nil p : due p [] = 0%nat.
Proof. done. Qed.
Lemma due_none p q : ConnectDestroyed p ∉ q -> due p q = 0%nat.
Proof.
  intros Hq. induction q as [|f q IH]; [done|]. apply not_elem_of_cons in Hq as [Hf Hq]. rewrite due_other by congruence. by apply IH.
Qed.
Lemma njobs_job q : njobs (ConnectorJob :: q) = S (njobs q).
Proof. unfold njobs. cbn [count]. by rewrite bool_decide_eq_true_2. Qed.
Lemma njobs_other f q : f <> ConnectorJob -> njobs (f :: q) = njobs q.
Proof. intros Hf. unfold njobs. cbn [count]. by rewrite bool_decide_eq_false_2. Qed.

(** A connection belongs to the client while it is open and closes through it;
    a closed one is to be destroyed once. *)
Record conns_ok (fs : list functor) (s : t) : Prop := {
  ok_current p : connection_ s = Some p -> alive s = true /\ exists c, conns s !! p = Some c /\ is_open c = true /\ conn_close c = OfClient;
  ok_open p c : conns s !! p = Some c -> is_open c = true -> conn_close c = OfClient -> connection_ s = Some p;
  ok_state p c : conns s !! p = Some c -> (is_open c = true \/ conn_state c = kDisconnected) /\ (conn_destroyed c = true -> conn_state c = kDisconnected);
  ok_due p c : conns s !! p = Some c -> due p (fs ++ queue s) = owes c;
  ok_target f p : f ∈ fs ++ queue s -> target f = Some p -> is_Some (conns s !! p);
}.

Ltac cl := cbn [connector_ name_ retry_ connect_ nextConnId_ connection_ conns queue alive owned
                set_flags set_id set_connection set_conns set_queue set_dead set_owned queueInLoop set_connector update] in *.

Lemma open_not_closed c : is_open c = true -> conn_state c <> kDisconnected.
Proof. unfold is_open. intros [H|H]%orb_true_iff; apply bool_decide_eq_true in H; congruence. Qed.

(** A connection changes without being opened or closed. *)
Lemma conns_update fs s p c c' :
  conns_ok fs s -> conns s !! p = Some c -> is_open c' = is_open c -> owes c' = owes c -> conn_close c' = conn_close c ->
  ((is_open c' = true \/ conn_state c' = kDisconnected) /\ (conn_destroyed c' = true -> conn_state c' = kDisconnected)) ->
  conns_ok fs (update p c' s).
Proof.
  intros [H1 H2 H3 H4 H5] Hc Ho Hw Hcl Hst. pose proof (lookup_lt_Some _ _ _ Hc) as Hlt. constructor; cl.
  - intros p' Hp. destruct (H1 p' Hp) as (Ha & x & Hx & Hox & Hcx). split; [done|].
    destruct (decide (p = p')) as [<-|Hne]; [|exists x; by rewrite list_lookup_insert_ne].
    exists c'. rewrite list_lookup_insert_eq by done. rewrite Hx in Hc. injection Hc as ->. by rewrite Ho, Hcl.
  - intros p' x. destruct (decide (p = p')) as [<-|Hne].
    + rewrite list_lookup_insert_eq by done. intros [= <-]. rewrite Ho, Hcl. by apply H2.
    + rewrite list_lookup_insert_ne by done. apply H2.
  - intros p' x. destruct (decide (p = p')) as [<-|Hne]; [rewrite list_lookup_insert_eq by done; by intros [= <-]|].
    rewrite list_lookup_insert_ne by done. apply H3.
  - intros p' x. destruct (decide (p = p')) as [<-|Hne].
    + rewrite list_lookup_insert_eq by done. intros [= <-]. rewrite Hw. by apply H4.
    + rewrite list_lookup_insert_ne by done. apply H4.
  - intros f p' Hf Ht. destruct (H5 f p' Hf Ht) as [x Hx]. destruct (decide (p = p')) as [<-|Hne]; [rewrite list_lookup_insert_eq by done; by eexists|].
    rewrite list_lookup_insert_ne by done. by eexists.
Qed.

(** A functor that destroys nothing is queued. *)
Lemma conns_queue fs s f :
  conns_ok fs s -> (forall p, target f = Some p -> is_Some (conns s !! p)) -> (forall p, f <> ConnectDestroyed p) -> conns_ok fs (queueInLoop f s).
Proof.
  intros [H1 H2 H3 H4 H5] Ht Hf. constructor; cl; try done.
  - intros p c Hc. rewrite <- (H4 p c Hc), app_assoc, due_app, due_other, due_nil by done. lia.
  - intros g p. rewrite app_assoc, elem_of_app, list_elem_of_singleton. intros [Hg| ->]; [by apply H5|apply Ht].
Qed.

(** The next functor of the batch runs and is not one that destroys. *)
Lemma conns_pop f fs s : conns_ok (f :: fs) s -> (forall p, f <> ConnectDestroyed p) -> conns_ok fs s.
Proof.
  intros [H1 H2 H3 H4 H5] Hf. constructor; try done.
  - intros p c Hc. rewrite <- (H4 p c Hc). cbn [app]. by rewrite due_other.
  - intros g p Hg. apply H5. by right.
Qed.

(** What does not touch the connections. *)
Lemma conns_same fs s s' n :
  conns_ok fs s -> conns s' = conns s -> connection_ s' = connection_ s -> alive s' = alive s ->
  queue s' = queue s ++ replicate n ConnectorJob -> conns_ok fs s'.
Proof.
  intros [H1 H2 H3 H4 H5] Hc Hp Ha Hq. constructor; rewrite ?Hc, ?Hp, ?Ha, ?Hq; try done.
  - intros p c Hx. rewrite <- (H4 p c Hx), app_assoc, due_app, due_replicate. lia.
  - intros f p. rewrite app_assoc, elem_of_app. intros [Hf|Hf]; [by apply H5|].
    by apply elem_of_replicate_inv in Hf as ->.
Qed.

(** A connection closes: it is to be destroyed, and is not the client's. *)
Lemma conns_close fs s p c :
  conns_ok fs s -> conns s !! p = Some c -> is_open c = true ->
  conns_ok fs (queueInLoop (ConnectDestroyed p)
    (set_connection (if decide (conn_close c = OfClient) then None else connection_ s) (update p (set_state kDisconnected c) s))).
Proof.
  intros [H1 H2 H3 H4 H5] Hc Ho. pose proof (lookup_lt_Some _ _ _ Hc) as Hlt. pose proof (open_not_closed c Ho) as Hns.
  assert (Hother : forall p', connection_ s = Some p' -> conn_close c <> OfClient -> p <> p').
  { intros p' Hp' Hcl <-. destruct (H1 p Hp') as (_ & x & Hx & _ & Hcx). congruence. }
  constructor; cl.
  - intros p'. case_decide as Hcl; [done|]. intros Hp. destruct (H1 p' Hp) as (Ha & x & Hx & Hox). split; [done|].
    exists x. rewrite list_lookup_insert_ne by (by apply Hother). done.
  - intros p' x. destruct (decide (p = p')) as [<-|Hne].
    + rewrite list_lookup_insert_eq by done. by intros [= <-].
    + rewrite list_lookup_insert_ne by done. intros Hx Hox Hcx. pose proof (H2 p' x Hx Hox Hcx) as Hp'.
      case_decide as Hcl; [|done]. pose proof (H2 p c Hc Ho Hcl). congruence.
  - intros p' x. destruct (decide (p = p')) as [<-|Hne]; [rewrite list_lookup_insert_eq by done|rewrite list_lookup_insert_ne by done; apply H3].
    intros [= <-]. split; [by right|done].
  - intros p' x. rewrite app_assoc, due_app. destruct (decide (p = p')) as [<-|Hne].
    + rewrite list_lookup_insert_eq by done. intros [= <-]. rewrite (H4 p c Hc), due_self, due_nil.
      unfold owes. rewrite (bool_decide_eq_false_2 (conn_state c = _)) by done. cbn.
      destruct (conn_destroyed c) eqn:Ed; [|done]. by destruct Hns; apply (H3 p c Hc).
    + rewrite list_lookup_insert_ne by done. intros Hx. rewrite (H4 p' x Hx), due_other, due_nil by congruence. lia.
  - intros f p'. rewrite app_assoc, elem_of_app, list_elem_of_singleton. intros Hf Ht.
    assert (is_Some (conns s !! p')) as [x Hx] by (destruct Hf as [Hf| ->]; [by eapply H5|injection Ht as <-; by eexists]).
    destruct (decide (p = p')) as [<-|Hne]; [rewrite list_lookup_insert_eq by done|rewrite list_lookup_insert_ne by done]; by eexists.
Qed.

(** connectDestroyed runs. *)
Lemma conns_destroyed fs s p :
  conns_ok (ConnectDestroyed p :: fs) s ->
  exists s', connectDestroyed p s = Ok s' /\ conns_ok fs s' /\ (exists cs, s' = set_conns cs s).
Proof.
  intros Hok. pose proof Hok as [H1 H2 H3 H4 H5]. destruct (H5 (ConnectDestroyed p) p ltac:(by left) eq_refl) as [c Hc].
  pose proof (H4 p c Hc) as Hd. cbn [app] in Hd. rewrite due_self in Hd.
  unfold owes in Hd. destruct (bool_decide (conn_state c = kDisconnected)) eqn:Es; [|done]. apply bool_decide_eq_true in Es.
  destruct (conn_destroyed c) eqn:Ed; [done|]. cbn [andb negb] in Hd.
  unfold connectDestroyed, with_conn. rewrite Hc, decide_False by congruence. rewrite Es, Ed. rewrite bool_decide_eq_true_2 by done.
  cbn [assert negb mbind outcome_bind]. eexists. split; [done|]. split; [|by eexists].
  pose proof (lookup_lt_Some _ _ _ Hc) as Hlt. constructor; cl.
  - intros p' Hp. destruct (H1 p' Hp) as (Ha & x & Hx & Hox). split; [done|]. exists x.
    rewrite list_lookup_insert_ne; [done|]. intros <-. apply (open_not_closed x); [apply Hox|congruence].
  - intros p' x. destruct (decide (p = p')) as [<-|Hne]; [rewrite list_lookup_insert_eq by done|rewrite list_lookup_insert_ne by done; apply H2].
    intros [= <-] Hox. exfalso. apply (open_not_closed _ Hox). exact Es.
  - intros p' x. destruct (decide (p = p')) as [<-|Hne]; [rewrite list_lookup_insert_eq by done|rewrite list_lookup_insert_ne by done; apply H3].
    intros [= <-]. split; [by right|by intros _].
  - intros p' x. destruct (decide (p = p')) as [<-|Hne].
    + rewrite list_lookup_insert_eq by done. intros [= <-]. unfold owes. cbn. rewrite andb_false_r. unfold due in *. lia.
    + rewrite list_lookup_insert_ne by done. intros Hx. rewrite <- (H4 p' x Hx). cbn [app]. by rewrite due_other by congruence.
  - intros f p' Hf Ht. destruct (H5 f p' ltac:(by right) Ht) as [x Hx].
    destruct (decide (p = p')) as [<-|Hne]; [rewrite list_lookup_insert_eq by done|rewrite list_lookup_insert_ne by done]; by eexists.
Qed.

(** ** The connector under the client *)

Lemma retry_facts fd c c' :
  Connector.retry fd c = Ok c' ->
  Connector.connect_ c' = Connector.connect_ c /\ Connector.pending c' = Connector.pending c /\ Connector.state_ c' = Connector.kDisconnected.
Proof.
  unfold Connector.retry, Connector.close, Connector.release. destruct (assert _); cbn [mbind outcome_bind]; [|done].
  cbn. destruct (Connector.connect_ c) eqn:Ec; [|by intros [= <-]].
  destruct (ck32 _); cbn [mbind outcome_bind]; [|done]. by intros [= <-].
Qed.

Lemma startInLoop_facts e c c' :
  Connector.startInLoop e c = Ok c' ->
  Connector.connect_ c' = Connector.connect_ c /\ Connector.pending c' = Connector.pending c /\
  (Connector.connect_ c = false -> c' = c) /\ Connector.state_ c' <> Connector.kConnected.
Proof.
  unfold Connector.startInLoop. destruct (bool_decide (Connector.state_ c = _)) eqn:Es; [|done]. apply bool_decide_eq_true in Es.
  cbn [assert mbind outcome_bind]. destruct (Connector.connect_ c) eqn:Ec; [|intros [= <-]; rewrite Es; done].
  unfold Connector.connect. repeat case_decide.
  - unfold Connector.connecting. destruct (assert _); cbn [mbind outcome_bind]; [|done]. intros [= <-]. by cbn.
  - intros H1. apply retry_facts in H1 as (E1 & E2 & E3). cbn in *. rewrite E1, E2, E3. done.
  - unfold Connector.close, Connector.release. destruct (assert _); cbn [mbind outcome_bind]; [|done]. intros [= <-]. cbn. by rewrite Es.
Qed.

(** What a functor of the connector does to what the client relies on. *)
Lemma job_facts e f c c' :
  Connector.run_functor e f c = Ok c' ->
  Connector.connect_ c' = Connector.connect_ c /\ (exists k, Connector.pending c' = Connector.pending c ++ k) /\
  (Connector.state_ c = Connector.kConnected -> f <> Connector.StartInLoop ->
     Connector.state_ c' = Connector.kConnected /\
     Connector.channel_ c' = match f with Connector.ResetChannel => None | _ => Connector.channel_ c end) /\
  (Connector.connect_ c = false -> Connector.state_ c' = Connector.kConnecting ->
     Connector.state_ c = Connector.kConnecting /\ f <> Connector.StopInLoop).
Proof.
  destruct f; cbn [Connector.run_functor].
  - intros H. apply startInLoop_facts in H as (E1 & E2 & E3 & _). rewrite E1, E2. split_and!; [done|exists []; by rewrite app_nil_r|done|].
    intros Hc. by rewrite (E3 Hc).
  - unfold Connector.stopInLoop. case_decide as Hs.
    + unfold Connector.removeAndResetChannel. destruct (Connector.channel_ _) as [[fd b]|] eqn:Ech; cbn [mbind outcome_bind]; [|done].
      intros H. apply retry_facts in H as (E1 & E2 & E3). cbn in E1, E2. rewrite E1, E2, E3. split_and!; [done|by eexists|congruence|done].
    + intros [= <-]. split_and!; [done|exists []; by rewrite app_nil_r|done|done].
  - unfold Connector.resetChannel. destruct (assert _); cbn [mbind outcome_bind]; [|done]. intros [= <-]. cbn.
    split_and!; [done|exists []; by rewrite app_nil_r|done|done].
Qed.

(** A connector that is connected and has its channel reset starts again. *)
Lemma restart_ok e q c :
  inv q c -> Connector.state_ c = Connector.kConnected -> Connector.channel_ c = None -> Connector.connect_ c = true ->
  exists c', Connector.restart e c = Ok c' /\ inv q c' /\ Connector.pending c' = Connector.pending c /\ Connector.connect_ c' = true /\
    Connector.state_ c' <> Connector.kConnected /\ Connector.ResetChannel ∉ q ++ Connector.pending c.
Proof.
  intros [I1 I2 I3 I4 [I5 _] (k & Hk & Hd) _] Hs Hch Hcon. rewrite Hs in I1. rewrite Hch in I2, I5.
  rewrite length_app in I1. destruct (Connector.fresh c) eqn:Ef; [|cbn [length] in I1; lia]. destruct (Connector.armed c) eqn:Ea; [|cbn [length] in I1; lia].
  unfold Connector.restart.
  destruct (startInLoop_idle q e (Connector.emit Connector.Restarted (Connector.set_connect true
    (Connector.set_delay Connector.kInitRetryDelayMs (Connector.setState Connector.kDisconnected c))))) as (c' & Hr & Hi & Hp & Hc).
  - unfold Connector.emit, Connector.set_connect, Connector.set_delay, Connector.setState. constructor; cbn; try done.
    + cbn in I1. lia.
    + by destruct I2.
    + intros Hin. specialize (I4 Hin). congruence.
    + exists 0%nat. by rewrite retries_app, Hk.
  - exists c'. cbn in Hp, Hc. apply startInLoop_facts in Hr as Hf. destruct Hf as (_ & _ & _ & Hst). split_and!; try done.
    destruct I2 as [I2 _]. rewrite n_of_In. lia.
Qed.

(** ** The invariant *)

Abbreviation cc s := (connector_ s).

Record core (fs : list functor) (q : list Connector.functor) (s : t) : Prop := {
  core_conns : conns_ok fs s;
  core_tags : njobs fs = length q /\ njobs (queue s) = length (Connector.pending (cc s));
  core_set p : SetCloseCallback p ∉ fs ++ queue s;
  core_link p : connection_ s = Some p -> Connector.state_ (cc s) = Connector.kConnected;
  core_retry : alive s = true -> connect_ s = true -> Connector.connect_ (cc s) = true;
  core_dead : alive s = false -> owned s = true -> Connector.connect_ (cc s) = false /\
    (Connector.state_ (cc s) = Connector.kConnecting -> Connector.StopInLoop ∈ q ++ Connector.pending (cc s));
  core_freed : owned s = false -> alive s = false /\ q ++ Connector.pending (cc s) = [] /\ Connector.channel_ (cc s) = None /\
    (Connector.fresh (cc s) ++ Connector.armed (cc s) = [] \/ Connector.connect_ (cc s) = false);
}.

(** The channel of the connection attempt is reset before anything in the queue
    closes the connection made by it. *)
Definition reset_ok (fs : list functor) (q : list Connector.functor) (s : t) : Prop :=
  forall p, connection_ s = Some p -> Connector.channel_ (cc s) <> None ->
  exists l1 l2, fs = l1 ++ ConnectorJob :: l2 /\ ForceCloseInLoop p ∉ l1 /\ q !! njobs l1 = Some Connector.ResetChannel.

(** While the functors of an iteration run: [fs] and [q] are left. *)
Definition running (fs : list functor) (q : list Connector.functor) (s : t) : Prop :=
  core fs q s /\ batch q (cc s) /\ reset_ok fs q s.

Lemma reset_ok_pop f fs q s : reset_ok (f :: fs) q s -> f <> ConnectorJob -> reset_ok fs q s.
Proof.
  intros Hr Hf p Hp Hch. destruct (Hr p Hp Hch) as ([|g l1] & l2 & E & Hn & Hq); injection E as E1 E2; [congruence|subst g].
  exists l1, l2. apply not_elem_of_cons in Hn as [_ Hn]. rewrite njobs_other in Hq by done. done.
Qed.

(** The functor of the connector that is next. *)
Lemma running_job fs q s g :
  running (ConnectorJob :: fs) (g :: q) s ->
  exists c, Connector.run_functor (errno_of connectErrno s) g (cc s) = Ok c /\ running fs q (set_connector c s) /\ connector_exists s = true.
Proof.
  intros ([Hc [Ht1 Ht2] Hset Hl Hr Hd Hfr] & Hb & Hres).
  assert (owned s = true) as Hown by (destruct (owned s); [done|by destruct (Hfr eq_refl) as (_ & ? & _)]).
  assert (exists c, Connector.run_functor (errno_of connectErrno s) g (cc s) = Ok c /\ batch q c) as (c & Hrun & Hb')
    by (destruct g; eauto using run_StartInLoop, run_StopInLoop, run_ResetChannel).
  exists c. split; [done|]. split; [|unfold connector_exists; by rewrite Hown].
  destruct (job_facts _ _ _ _ Hrun) as (E1 & (k & E2) & E3 & E4).
  assert (Hg : Connector.state_ (cc s) = Connector.kConnected -> g <> Connector.StartInLoop).
  { intros Hs ->. destruct Hb as [[I1 _ _ _ _ _ _] _]. rewrite Hs in I1. cbn [app] in I1. rewrite n_of_self in I1. lia. }
  split; [|split; [exact Hb'|]].
  - constructor; cl.
    + apply (conns_same fs s _ (length (Connector.pending c) - length (Connector.pending (cc s)))); try done. by apply (conns_pop ConnectorJob).
    + rewrite njobs_job in Ht1. cbn [length] in Ht1. split; [lia|]. rewrite njobs_app, njobs_replicate, Ht2, E2, length_app. lia.
    + intros p Hin. apply (Hset p). rewrite app_assoc in Hin. apply elem_of_app in Hin as [Hin|Hin]; [by right|].
      by apply elem_of_replicate_inv in Hin.
    + intros p Hp. pose proof (Hl p Hp) as Hs. by apply E3, Hg.
    + intros Ha Hcon. rewrite E1. by apply Hr.
    + intros Ha Ho. destruct (Hd Ha Ho) as [Hcon Hstop]. rewrite E1. split; [done|]. intros Hk. destruct (E4 Hcon Hk) as [Hk0 Hns].
      specialize (Hstop Hk0). rewrite E2, app_assoc. apply elem_of_app. left. cbn [app] in Hstop.
      apply elem_of_cons in Hstop as [Hstop|Hstop]; [congruence|done].
    + congruence.
  - intros p Hp Hch. cl. pose proof (Hl p Hp) as Hs. destruct (E3 Hs (Hg Hs)) as [_ Ech].
    assert (g <> Connector.ResetChannel) as Hgr by (intros ->; congruence).
    destruct (Hres p Hp) as ([|x l1] & l2 & E & Hn & Hq); [rewrite Ech in Hch; by destruct g| |]; injection E as E; subst.
    + injection Hq as ->. done.
    + exists l1, l2. apply not_elem_of_cons in Hn as [_ Hn]. rewrite njobs_job in Hq. done.
Qed.

(** ** A connection closes *)

Lemma queue_set_same c s : Connector.pending c = Connector.pending (cc s) -> queue (set_connector c s) = queue s.
Proof. intros E. cl. rewrite E, Nat.sub_diag. apply app_nil_r. Qed.

(** What the close of connection [p] leaves. *)
Record closed (p : nat) (s s' : t) : Prop := {
  closed_queue : queue s' = queue s ++ [ConnectDestroyed p];
  closed_pending : Connector.pending (cc s') = Connector.pending (cc s);
  closed_same : cc s' = cc s \/ Connector.ResetChannel ∉ Connector.pending (cc s');
  closed_current : connection_ s' = None \/ (connection_ s' = connection_ s /\ cc s' = cc s /\ connection_ s <> Some p);
  closed_others p' : p' <> p -> conns s' !! p' = conns s !! p';
  closed_alive : alive s' = alive s;
  closed_retry : connection_ s = Some p -> retry_ s && connect_ s = true -> Connector.connect_ (cc s') = true /\ Connector.state_ (cc s') <> Connector.kConnected;
}.

Lemma core_queue fs q s f :
  core fs q s -> (forall p, target f = Some p -> is_Some (conns s !! p)) -> (forall p, f <> ConnectDestroyed p) -> f <> ConnectorJob ->
  (forall p, f <> SetCloseCallback p) -> core fs q (queueInLoop f s).
Proof.
  intros [Hc [Ht1 Ht2] Hset Hl Hr Hd Hfr] Ht Hnd Hnj Hns. constructor; cl; try done.
  - by apply (conns_queue fs s f).
  - by rewrite njobs_app, njobs_other, Nat.add_0_r.
  - intros p. rewrite app_assoc, elem_of_app, list_elem_of_singleton. intros [Hin|Hin]; [by apply (Hset p)|by apply (Hns p)].
Qed.

Lemma core_update fs q s p c c' :
  core fs q s -> conns s !! p = Some c -> is_open c' = is_open c -> owes c' = owes c -> conn_close c' = conn_close c ->
  ((is_open c' = true \/ conn_state c' = kDisconnected) /\ (conn_destroyed c' = true -> conn_state c' = kDisconnected)) ->
  core fs q (update p c' s).
Proof. intros [Hc Ht Hset Hl Hr Hd Hfr] Hp Ho Hw Hcl Hst. constructor; try done. by apply (conns_update fs s p c). Qed.

Lemma handleClose_ok fs q s p c :
  core fs q s -> inv q (cc s) -> conns s !! p = Some c -> is_open c = true ->
  (connection_ s = Some p -> Connector.channel_ (cc s) = None) ->
  exists s', handleClose connectErrno p s = Ok s' /\ core fs q s' /\ inv q (cc s') /\ closed p s s'.
Proof.
  intros [Hc [Ht1 Ht2] Hset Hl Hr Hd Hfr] Hi Hp Ho Hch. pose proof (conns_close fs s p c Hc Hp Ho) as Hok.
  unfold handleClose, with_conn. rewrite Hp, Ho. cbn [assert mbind outcome_bind].
  assert (Hqueue : forall x, queue (queueInLoop (ConnectDestroyed p) x) = queue x ++ [ConnectDestroyed p]) by done.
  assert (Hset' : forall p', SetCloseCallback p' ∉ fs ++ queue s ++ [ConnectDestroyed p]).
  { intros p'. rewrite app_assoc, elem_of_app, list_elem_of_singleton. intros [Hin|Hin]; [by apply (Hset p')|done]. }
  assert (Hj : njobs (queue s ++ [ConnectDestroyed p]) = length (Connector.pending (cc s))) by (by rewrite njobs_app, njobs_other, Nat.add_0_r).
  destruct (conn_close c) eqn:Ecl; [rewrite decide_True in Hok by done|rewrite decide_False in Hok by done].
  - pose proof (ok_open _ _ Hc p c Hp Ho Ecl) as Hcur. destruct (ok_current _ _ Hc p Hcur) as [Ha _].
    unfold removeConnection. cl. rewrite Ha, Hcur, bool_decide_eq_true_2 by done. cbn [exists_ assert mbind outcome_bind].
    destruct (retry_ s && connect_ s) eqn:Erc.
    + apply andb_true_iff in Erc as [Er Ec]. specialize (Hr Ha Ec).
      destruct (restart_ok (connectErrno (Connector.next_fd (cc s))) q (cc s) Hi (Hl p Hcur) (Hch Hcur) Hr) as (c' & Hrs & Hi' & Hpe & Hcon & Hst & Hno).
      unfold errno_of. cl. rewrite Hrs. cbn [mbind outcome_bind]. eexists. split; [reflexivity|]. unfold set_connector. cl.
      rewrite Hpe, Nat.sub_diag. cbn [replicate]. rewrite app_nil_r. split; [|split; [exact Hi'|]].
      * constructor; cl; try done; [|by split; [|rewrite Hpe]|intros Ha'; congruence|].
        { apply (conns_same fs _ _ 0 Hok); cl; by rewrite ?app_nil_r. }
        intros How. destruct (Hfr How) as (? & _). congruence.
      * constructor; cl; try done; [|by left|intros p' Hne; by rewrite list_lookup_insert_ne].
        right. rewrite Hpe. intros Hin. apply Hno, elem_of_app. by right.
    + eexists. split; [reflexivity|]. split; [|split; [exact Hi|]].
      * by constructor; cl.
      * constructor; cl; try done; [by left|by left|intros p' Hne; by rewrite list_lookup_insert_ne|congruence].
  - assert (connection_ s <> Some p) as Hnc.
    { intros Hcur. destruct (ok_current _ _ Hc p Hcur) as (_ & x & Hx & _ & Hxc). congruence. }
    eexists. split; [reflexivity|]. split; [|split; [exact Hi|]].
    + by constructor; cl.
    + constructor; cl; try done; [by left|by right|]. intros p' Hne. by rewrite list_lookup_insert_ne.
Qed.

(** ** The functors of an iteration *)

Lemma core_pop f fs q s : core (f :: fs) q s -> f <> ConnectorJob -> (forall p, f <> ConnectDestroyed p) -> core fs q s.
Proof.
  intros [Hc [Ht1 Ht2] Hset Hl Hr Hd Hfr] Hj Hnd. constructor; try done.
  - by apply (conns_pop f).
  - by rewrite njobs_other in Ht1.
  - intros p Hin. apply (Hset p). by right.
Qed.

Lemma reset_ok_same fs q s s' :
  reset_ok fs q s -> connection_ s' = None \/ (connection_ s' = connection_ s /\ cc s' = cc s) -> reset_ok fs q s'.
Proof. intros Hr [E|[E1 E2]] p Hp Hch; [congruence|]. rewrite E2 in Hch. apply Hr; congruence. Qed.

(** The channel has been reset when the close of the connection is next. *)
Lemma reset_ok_close p fs q s :
  reset_ok (ForceCloseInLoop p :: fs) q s -> connection_ s = Some p -> Connector.channel_ (cc s) = None.
Proof.
  intros Hr Hp. destruct (Connector.channel_ (cc s)) as [x|] eqn:E; [|done].
  destruct (Hr p Hp ltac:(congruence)) as ([|g l1] & l2 & El & Hn & _); injection El as E1 E2; [done|]. subst g. by destruct Hn; left.
Qed.

Lemma running_functor f fs q s :
  running (f :: fs) q s -> f <> ConnectorJob -> exists s', run_functor connectErrno f s = Ok s' /\ running fs q s'.
Proof.
  intros (Hcore & Hb & Hr) Hf. pose proof (reset_ok_pop f fs q s Hr Hf) as Hr'.
  pose proof (core_conns _ _ _ Hcore) as Hok.
  assert (Htar : forall p, target f = Some p -> exists c, conns s !! p = Some c).
  { intros p Hp. by apply (ok_target _ _ Hok f p); [left|]. }
  destruct f as [|p|p|p|p]; [done|..]; cbn [run_functor].
  - destruct (Htar p eq_refl) as [c Hc]. unfold with_conn. rewrite Hc. eexists. split; [done|].
    split; [|split; [exact Hb|by apply (reset_ok_same fs q s _ Hr'); right]].
    apply (core_update fs q s p c); [by apply (core_pop (ShutdownInLoop p))|done..|]. by apply (ok_state _ _ Hok p c).
  - exfalso. apply (core_set _ _ _ Hcore p). by left.
  - destruct (Htar p eq_refl) as [c Hc]. apply core_pop in Hcore as Hcore'; [|done..]. unfold forceCloseInLoop, with_conn. rewrite Hc.
    destruct (is_open c) eqn:Ho; [|exists s; split; [done|]; by split].
    destruct (handleClose_ok fs q s p c Hcore' (proj1 Hb) Hc Ho (reset_ok_close p fs q s Hr)) as (s' & Hs' & Hcs & His & [_ Hpe Hsame Hcur _ _ _]).
    exists s'. split; [done|]. split; [done|]. split.
    + split; [done|]. destruct Hsame as [-> |Hno]; [apply Hb|done].
    + apply (reset_ok_same fs q s); [done|]. destruct Hcur as [?|(? & ? & _)]; auto.
  - destruct (conns_destroyed fs s p Hok) as (s' & Hs' & Hok' & cs & ->). eexists. split; [done|].
    split; [|split; [exact Hb|by apply (reset_ok_same fs q s _ Hr'); right]].
    destruct Hcore as [Hc [Ht1 Ht2] Hset Hl Hre Hd Hfr]. rewrite njobs_other in Ht1 by done.
    constructor; try done. intros p' Hin. apply (Hset p'). by right.
Qed.

Lemma run_batch_ok fs q s : running fs q s -> exists s', run_batch connectErrno fs q s = Ok s' /\ running [] [] s'.
Proof.
  revert q s. induction fs as [|f fs IH]; intros q s Hrun.
  - assert (q = []) as -> by (apply length_zero_iff_nil; by rewrite <- (proj1 (core_tags _ _ _ (proj1 Hrun)))). by exists s.
  - destruct (decide (f = ConnectorJob)) as [->|Hf].
    + destruct q as [|g q]; [by destruct Hrun as ([_ [Ht _] _ _ _ _ _] & _); rewrite njobs_job in Ht|].
      destruct (running_job fs q s g Hrun) as (c & Hc & Hrun' & He). cbn [run_batch]. rewrite He. cbn [exists_ mbind outcome_bind].
      rewrite Hc. cbn [mbind outcome_bind]. by apply IH.
    + destruct (running_functor f fs q s Hrun Hf) as (s1 & Hs1 & Hrun').
      assert (run_batch connectErrno (f :: fs) q s = (s ← run_functor connectErrno f s; run_batch connectErrno fs q s)) as -> by (by destruct f).
      rewrite Hs1. cbn [mbind outcome_bind]. by apply IH.
Qed.

(** ** Between the iterations *)

(** The connection is polled only after the channel of its attempt is reset. *)
Definition polled_ok (s : t) : Prop :=
  forall p c, connection_ s = Some p -> conns s !! p = Some c -> conn_polled c = true -> Connector.channel_ (cc s) = None.

Definition good (s : t) : Prop :=
  core [] [] s /\ inv [] (cc s) /\ reset_ok (queue s) (Connector.pending (cc s)) s /\ polled_ok s /\ 1 <= nextConnId_ s.

Lemma lookup_prefix {A} (l k : list A) i x : l !! i = Some x -> (l ++ k) !! i = Some x.
Proof. intros H. rewrite lookup_app_l; [done|]. by eapply lookup_lt_Some. Qed.

(** What is appended to the queues comes later. *)
Lemma reset_ok_app fs q s s' x y :
  reset_ok fs q s -> connection_ s' = None \/ (connection_ s' = connection_ s /\ Connector.channel_ (cc s') = Connector.channel_ (cc s)) ->
  reset_ok (fs ++ x) (q ++ y) s'.
Proof.
  intros Hr [E|[E1 E2]] p Hp Hch; [congruence|]. rewrite E1 in Hp. rewrite E2 in Hch.
  destruct (Hr p Hp Hch) as (l1 & l2 & -> & Hn & Hq). exists l1, (l2 ++ x). rewrite <- app_assoc. split_and!; [done..|by apply lookup_prefix].
Qed.

(** The functors of one iteration *)
Lemma conns_start s : conns_ok [] s -> conns_ok (queue s) (set_connector (Connector.set_pending [] (cc s)) (set_queue [] s)).
Proof. intros [H1 H2 H3 H4 H5]. constructor; cl; rewrite ?app_nil_r; done. Qed.

Lemma conns_polled s : conns_ok [] s -> conns_ok [] (set_conns (map set_polled (conns s)) s).
Proof.
  intros [H1 H2 H3 H4 H5].
  assert (Hl : forall p x, map set_polled (conns s) !! p = Some x -> exists c, conns s !! p = Some c /\ x = set_polled c).
  { intros p x. change (map set_polled (conns s)) with (set_polled <$> conns s). rewrite list_lookup_fmap. destruct (conns s !! p); cbn; [intros [= <-]; by eexists|done]. }
  assert (Hr : forall p c, conns s !! p = Some c -> map set_polled (conns s) !! p = Some (set_polled c)).
  { intros p c Hc. change (map set_polled (conns s)) with (set_polled <$> conns s). by rewrite list_lookup_fmap, Hc. }
  constructor; cl.
  - intros p Hp. destruct (H1 p Hp) as (Ha & c & Hc & Ho). split; [done|]. exists (set_polled c). split; [by apply Hr|exact Ho].
  - intros p x Hx. destruct (Hl p x Hx) as (c & Hc & ->). exact (H2 p c Hc).
  - intros p x Hx. destruct (Hl p x Hx) as (c & Hc & ->). exact (H3 p c Hc).
  - intros p x Hx. destruct (Hl p x Hx) as (c & Hc & ->). exact (H4 p c Hc).
  - intros f p Hf Ht. destruct (H5 f p Hf Ht) as [c Hc]. exists (set_polled c). by apply Hr.
Qed.

Lemma run_functor_id f s s' : run_functor connectErrno f s = Ok s' -> nextConnId_ s' = nextConnId_ s.
Proof.
  assert (Hr : forall p x y, removeConnection connectErrno p x = Ok y -> nextConnId_ y = nextConnId_ x).
  { intros p x y. unfold removeConnection, exists_. destruct (alive x); cbn [mbind outcome_bind]; [|done]. destruct (assert _); cbn [mbind outcome_bind]; [|done].
    case_match; [|by intros [= <-]]. destruct (Connector.restart _ _); cbn [mbind outcome_bind]; [|done]. by intros [= <-]. }
  destruct f; cbn [run_functor]; [by intros [= <-]|..]; unfold setCloseCallback, forceCloseInLoop, connectDestroyed, with_conn;
    (destruct (conns s !! conn0) as [c|]; [|done]); try (by intros [= <-]).
  - destruct (is_open c); [|by intros [= <-]]. unfold handleClose, with_conn. destruct (conns s !! conn0) as [c'|]; [|done].
    destruct (assert _); cbn [mbind outcome_bind]; [|done]. destruct (conn_close c'); [|by intros [= <-]]. intros H. by apply Hr in H.
  - cbv zeta. destruct (assert (bool_decide _)); cbn [mbind outcome_bind]; [|done]. destruct (assert _); cbn [mbind outcome_bind]; [|done]. by intros [= <-].
Qed.

Lemma run_batch_id fs q s s' : run_batch connectErrno fs q s = Ok s' -> nextConnId_ s' = nextConnId_ s.
Proof.
  revert q s. induction fs as [|f fs IH]; intros q s; [by intros [= <-]|].
  destruct (decide (f = ConnectorJob)) as [->|Hf].
  - cbn [run_batch]. destruct q as [|g q]; [done|]. unfold exists_. destruct (connector_exists s); cbn [mbind outcome_bind]; [|done].
    destruct (Connector.run_functor _ _ _); cbn [mbind outcome_bind]; [|done]. intros H. by apply IH in H.
  - assert (run_batch connectErrno (f :: fs) q s = (s ← run_functor connectErrno f s; run_batch connectErrno fs q s)) as -> by (by destruct f).
    destruct (run_functor connectErrno f s) as [s1|] eqn:E; cbn [mbind outcome_bind]; [|done]. intros H. apply IH in H. by apply run_functor_id in E as <-.
Qed.

Lemma functors_good s : good s -> exists s', step connectErrno Functors s = Ok s' /\ good s'.
Proof.
  intros ([Hc [Ht1 Ht2] Hset Hl Hr Hd Hfr] & Hi & Hres & Hpol & Hid). cbn [step].
  set (s0 := set_connector _ _).
  assert (Hrun : running (queue s) (Connector.pending (cc s)) s0).
  { split; [|split; [by apply batch_begin|exact Hres]]. unfold s0. constructor; cl; cbn [app] in *; rewrite ?app_nil_r; try done. by apply conns_start. }
  destruct (run_batch_ok _ _ _ Hrun) as (s1 & Hs1 & [Hc1 [Ht3 Ht4] Hset1 Hl1 Hr1 Hd1 Hfr1] & Hb1 & Hres1). rewrite Hs1. cbn [mbind outcome_bind].
  pose proof (run_batch_id _ _ _ _ Hs1) as Hid1.
  assert (Hnone : forall p, connection_ s1 = Some p -> Connector.channel_ (cc s1) = None).
  { intros p Hp. destruct (Connector.channel_ (cc s1)) as [x|] eqn:E; [|done]. by destruct (Hres1 p Hp ltac:(congruence)) as ([|] & ? & ? & _). }
  eexists. split; [done|]. unfold set_connector. cl. rewrite Nat.sub_diag, app_nil_r.
  split; [|split; [by apply batch_end|split; [|split]]].
  - constructor; cl; try done.
    + apply (conns_same [] (set_conns (map set_polled (conns s1)) s1) _ 0); try done; [by apply conns_polled|by rewrite app_nil_r].
    + intros Ho. destruct (Hfr1 Ho) as (? & ? & ? & Ht). split_and!; try done. destruct Ht as [Ht|?]; [left|by right].
      cbn. apply app_nil in Ht as [-> ->]. done.
  - intros p Hp Hch. exfalso. apply Hch, (Hnone p Hp).
  - intros p c Hp _ _. apply (Hnone p Hp).
  - cl. rewrite Hid1. exact Hid.
Qed.

(** Between the iterations the connector does something. *)
Lemma good_connector s c k :
  good s -> inv [] c -> Connector.pending c = Connector.pending (cc s) ++ k ->
  (forall p, connection_ s = Some p -> Connector.state_ c = Connector.kConnected /\ Connector.channel_ c = Connector.channel_ (cc s)) ->
  (alive s = true -> connect_ s = true -> Connector.connect_ c = true) ->
  (alive s = false -> owned s = true -> Connector.connect_ c = false /\
     (Connector.state_ c = Connector.kConnecting -> Connector.StopInLoop ∈ Connector.pending c)) ->
  (owned s = false -> k = [] /\ Connector.channel_ c = None /\ (Connector.fresh c ++ Connector.armed c = [] \/ Connector.connect_ c = false)) ->
  good (set_connector c s).
Proof.
  intros ([Hc [Ht1 Ht2] Hset Hl Hr Hd Hfr] & Hi & Hres & Hpol & Hid) Hi' Hp Hst Hre Hde Hfre. cbn [app] in *.
  split; [|split; [exact Hi'|split; [|split; [|exact Hid]]]].
  - constructor; cl; cbn [app]; try done.
    + by apply (conns_same [] s _ (length (Connector.pending c) - length (Connector.pending (cc s)))).
    + split; [done|]. rewrite njobs_app, njobs_replicate, Ht2, Hp, length_app. lia.
    + intros p Hin. apply elem_of_app in Hin as [Hin|Hin]; [by apply (Hset p)|by apply elem_of_replicate_inv in Hin].
    + intros p Hc'. by apply (Hst p).
    + intros Ho. destruct (Hfr Ho) as (Ha & Hpe & _). destruct (Hfre Ho) as (-> & Hch & Hti). rewrite Hp, app_nil_r. done.
  - cl. rewrite Hp. apply (reset_ok_app _ _ s); [done|]. cl. destruct (connection_ s) as [p|] eqn:E; [right|by left]. split; [done|]. by apply (Hst p).
  - intros p x Hc' Hx Hpo. cl. destruct (Hst p Hc') as [_ ->]. by apply (Hpol p x).
Qed.

Lemma good_flags r b s : good s -> (b = true -> connect_ s = true) -> good (set_flags r b s).
Proof.
  intros ([Hc Ht Hset Hl Hr Hd Hfr] & Hi & Hres & Hpol & Hid) Hb. split; [|by split; [|split; [|split]]].
  constructor; try done. { apply (conns_same [] s _ 0); try done. by rewrite app_nil_r. } intros Ha Hcon. cl. apply Hr; [done|by apply Hb].
Qed.

Lemma good_update s p c c' :
  good s -> conns s !! p = Some c -> is_open c' = is_open c -> owes c' = owes c -> conn_close c' = conn_close c -> conn_polled c' = conn_polled c ->
  ((is_open c' = true \/ conn_state c' = kDisconnected) /\ (conn_destroyed c' = true -> conn_state c' = kDisconnected)) ->
  good (update p c' s).
Proof.
  intros (Hc & Hi & Hres & Hpol & Hid) Hp Ho Hw Hcl Hpo Hst. pose proof (lookup_lt_Some _ _ _ Hp) as Hlt.
  split; [by apply (core_update [] [] s p c)|]. split; [done|]. split; [done|]. split; [|done].
  intros p' x Hp' Hx. cl. destruct (decide (p = p')) as [<-|Hne].
  - rewrite list_lookup_insert_eq in Hx by done. injection Hx as <-. rewrite Hpo. by apply (Hpol p c).
  - rewrite list_lookup_insert_ne in Hx by done. by apply (Hpol p' x).
Qed.

Lemma good_queue s f :
  good s -> (forall p, target f = Some p -> is_Some (conns s !! p)) -> (forall p, f <> ConnectDestroyed p) -> f <> ConnectorJob ->
  (forall p, f <> SetCloseCallback p) -> good (queueInLoop f s).
Proof.
  intros (Hc & Hi & Hres & Hpol & Hid) H1 H2 H3 H4. split; [by apply core_queue|]. split; [done|]. split; [|done].
  cl. rewrite <- (app_nil_r (Connector.pending (cc s))). apply (reset_ok_app _ _ s); [done|by right].
Qed.

Lemma open_owes c : is_open c = true -> conn_destroyed c = false \/ conn_destroyed c = true -> owes c = 0%nat.
Proof. intros Ho _. unfold owes. by rewrite bool_decide_eq_false_2 by by apply open_not_closed. Qed.

Lemma closing_facts c :
  is_open c = true -> is_open (set_state kDisconnecting c) = is_open c /\ owes (set_state kDisconnecting c) = owes c.
Proof. intros Ho. rewrite Ho. split; [done|]. rewrite (open_owes c); [|done|by destruct (conn_destroyed c); [right|left]]. done. Qed.

Lemma forceClose_good s p : good s -> is_Some (conns s !! p) -> exists s', forceClose p s = Ok s' /\ good s' /\ connection_ s' = connection_ s /\ cc s' = cc s /\ alive s' = alive s.
Proof.
  intros Hg [c Hc]. pose proof (ok_state _ _ (core_conns _ _ _ (proj1 Hg)) p c Hc) as [Hst Hde].
  unfold forceClose, with_conn. rewrite Hc. destruct (is_open c) eqn:Ho; [|by exists s]. destruct (closing_facts c Ho) as [E1 E2].
  eexists. split; [done|]. split; [|done]. apply good_queue; try done.
  - apply (good_update s p c); try done. split; [left; by rewrite E1|]. cbn. intros Hd. by destruct (open_not_closed c Ho); apply Hde.
  - intros p' [= <-]. cl. rewrite list_lookup_insert_eq by (by eapply lookup_lt_Some). by eexists.
Qed.

Lemma disconnect_good s in_loop : good s -> exists s', disconnect in_loop s = Ok s' /\ good s'.
Proof.
  intros Hg. apply (good_flags (retry_ s) false) in Hg as Hg'; [|done]. unfold disconnect. cl.
  destruct (connection_ s) as [p|] eqn:Ep; [|by eexists].
  destruct (ok_current _ _ (core_conns _ _ _ (proj1 Hg)) p Ep) as (_ & c & Hc & Ho & Hcl).
  pose proof (ok_state _ _ (core_conns _ _ _ (proj1 Hg)) p c Hc) as [Hst Hde]. destruct (closing_facts c Ho) as [E1 E2].
  assert (Hnd : conn_destroyed c = true -> kDisconnecting = kDisconnected) by (intros Hd; by destruct (open_not_closed c Ho); apply Hde).
  unfold shutdown, with_conn. cl. rewrite Hc. destruct (decide _); [|by eexists]. destruct in_loop; (eexists; split; [done|]).
  - apply (good_update _ p c); [exact Hg'|exact Hc|exact E1|exact E2|done|done|]. split; [left; by rewrite <- Ho, <- E1|exact Hnd].
  - apply good_queue; try done.
    + apply (good_update _ p c); [exact Hg'|exact Hc|exact E1|exact E2|done|done|]. split; [left; by rewrite <- Ho, <- E1|exact Hnd].
    + intros p' [= <-]. cl. rewrite list_lookup_insert_eq by (by eapply lookup_lt_Some). by eexists.
Qed.

Lemma stop_good s : good s -> alive s = true -> good (stop s).
Proof.
  intros Hg Ha. pose proof Hg as ([_ _ _ Hl _ Hd Hfr] & Hi & _). unfold stop. apply (good_connector _ _ [Connector.StopInLoop]).
  - by apply good_flags.
  - cl. by apply stop_step.
  - done.
  - cl. intros p Hp. split; [by apply (Hl p)|done].
  - done.
  - cl. congruence.
  - cl. intros Ho. destruct (Hfr Ho) as [? _]. congruence.
Qed.

(** ** Events and timers *)

Lemma made_same tr : made tr tr = None.
Proof. unfold made. by rewrite drop_all. Qed.

Lemma made_app tr e : made tr (tr ++ [e]) = match e with Connector.NewConnection fd => Some fd | _ => None end.
Proof. unfold made. rewrite drop_app_length. by destruct e. Qed.

Lemma retry_event fd c c' :
  Connector.retry fd c = Ok c' -> Connector.channel_ c' = Connector.channel_ c /\ made (Connector.trace c) (Connector.trace c') = None.
Proof.
  unfold Connector.retry, Connector.close, Connector.release. destruct (assert _); cbn [mbind outcome_bind]; [|done].
  cbn. destruct (Connector.connect_ c) eqn:Ec; [|intros [= <-]; cbn; by rewrite made_same].
  destruct (ck32 _); cbn [mbind outcome_bind]; [|done]. intros [= <-]. cbn. by rewrite made_app.
Qed.

(** An event ends the attempt: with a retry or a stop, or with a connection. *)
Record ended (c c' : Connector.t) : Prop := {
  ended_state : Connector.state_ c' <> Connector.kConnecting;
  ended_connect : Connector.connect_ c' = Connector.connect_ c;
  ended_pending : Connector.pending c' = Connector.pending c ++ [Connector.ResetChannel];
  ended_made : match made (Connector.trace c) (Connector.trace c') with
               | Some _ => Connector.state_ c' = Connector.kConnected /\ Connector.connect_ c = true
               | None => True end;
}.

Lemma lost_ended c c' :
  ('(fd, c) ← Connector.removeAndResetChannel c; Connector.retry fd c) = Ok c' -> ended c c' /\ Connector.state_ c' = Connector.kDisconnected.
Proof.
  unfold Connector.removeAndResetChannel. destruct (Connector.channel_ c) as [[fd b]|]; cbn [mbind outcome_bind]; [|done].
  intros H. apply retry_facts in H as Hf. destruct Hf as (E1 & E2 & E3). apply retry_event in H as [_ E4]. cbn in *.
  split; [|done]. constructor; try done; [by rewrite E3|by rewrite E4].
Qed.

Lemma write_ended err self c c' :
  Connector.state_ c = Connector.kConnecting -> Connector.handleWrite err self c = Ok c' -> ended c c'.
Proof.
  intros Hs. unfold Connector.handleWrite. rewrite decide_True by done. pose proof (lost_ended c c') as Hlost. revert Hlost.
  unfold Connector.removeAndResetChannel. destruct (Connector.channel_ c) as [[fd b]|]; cbn [mbind outcome_bind]; [|done].
  intros Hlost. destruct (negb (err =? 0)); [intros H; by apply Hlost|]. destruct self; [intros H; by apply Hlost|]. clear Hlost. cbn.
  unfold Connector.newConnectionCallback_, Connector.close, Connector.release.
  destruct (Connector.connect_ c) eqn:Ec; (destruct (assert _); cbn [mbind outcome_bind]; [|done]); intros [= <-]; constructor; cbn; try done.
  - by rewrite made_app.
  - by rewrite made_same.
Qed.

Lemma event_facts error write err self c c' :
  Connector.step (Connector.Event error write err self) c = Ok c' ->
  (match Connector.channel_ c with Some (_, true) => Connector.state_ c = Connector.kConnecting | _ => True end) ->
  c' = c \/ ended c c' /\ Connector.state_ c = Connector.kConnecting.
Proof.
  cbn [Connector.step]. destruct (Connector.channel_ c) as [[fd []]|]; try (by intros [= <-]; left).
  intros H Hs. destruct error.
  - unfold Connector.handleError in H. rewrite decide_True in H by done.
    destruct (x ← Connector.removeAndResetChannel c; (let '(fd, c) := x in Connector.retry fd c)) as [c1|] eqn:E; cbn [mbind outcome_bind] in H; [|done].
    apply lost_ended in E as [He Hd]. right. split; [|done]. destruct write; [|by injection H as <-].
    unfold Connector.handleWrite in H. rewrite decide_False in H by congruence. rewrite bool_decide_eq_true_2 in H by done. by injection H as <-.
  - cbn [mbind outcome_bind] in H. destruct write; [|injection H as <-; by left]. right. split; [by apply (write_ended err self)|done].
Qed.

Lemma inv_live c : inv [] c -> match Connector.channel_ c with Some (_, true) => Connector.state_ c = Connector.kConnecting | _ => True end.
Proof. intros Hi. pose proof (inv_channel _ _ Hi) as H. destruct (Connector.channel_ c) as [[fd []]|]; [apply H|done..]. Qed.

Lemma inv_connecting c : inv [] c -> Connector.state_ c = Connector.kConnecting -> Connector.channel_ c <> None.
Proof. intros Hi Hs. pose proof (inv_channel _ _ Hi) as H. destruct (Connector.channel_ c) as [[fd []]|]; [done|done|]. by destruct H. Qed.

Lemma new_conn_ok s cn :
  conns_ok [] s -> alive s = true -> connection_ s = None -> conn_state cn = kConnected -> conn_close cn = OfClient -> conn_destroyed cn = false ->
  conns_ok [] (set_connection (Some (length (conns s))) (set_conns (conns s ++ [cn]) s)).
Proof.
  intros [H1 H2 H3 H4 H5] Ha Hn Hst Hcl Hde. assert (is_open cn = true) as Ho by (unfold is_open; by rewrite Hst).
  assert (Hcase : forall p x, (conns s ++ [cn]) !! p = Some x -> conns s !! p = Some x \/ (p = length (conns s) /\ x = cn)).
  { intros p x Hx. apply lookup_app_Some in Hx as [Hx|[Hle Hx]]; [by left|]. apply list_lookup_singleton_Some in Hx as [Hi <-]. right. split; [lia|done]. }
  constructor; cl.
  - intros p [= <-]. split; [done|]. exists cn. rewrite lookup_app_r, Nat.sub_diag by lia. done.
  - intros p x Hx Hox Hcx. destruct (Hcase p x Hx) as [Hx'|[-> ->]]; [|done]. pose proof (H2 p x Hx' Hox Hcx). congruence.
  - intros p x Hx. destruct (Hcase p x Hx) as [Hx'|[-> ->]]; [by apply (H3 p x)|]. split; [by left|congruence].
  - intros p x Hx. destruct (Hcase p x Hx) as [Hx'|[-> ->]]; [by apply H4|]. unfold owes. rewrite Hst. cbn [app] in *.
    apply due_none. intros Hf. destruct (H5 _ _ Hf eq_refl) as [y Hy]. apply lookup_lt_Some in Hy. lia.
  - intros f p Hf Ht. destruct (H5 f p Hf Ht) as [y Hy]. exists y. by apply lookup_prefix.
Qed.

Lemma event_good s error write err self peer :
  good s -> nextConnId_ s < INT_MAX -> exists s', step connectErrno (Event error write err self peer) s = Ok s' /\ good s'.
Proof.
  intros Hg Hmax. pose proof Hg as ([Hc [Ht1 Ht2] Hset Hl Hr Hd Hfr] & Hi & Hres & Hpol & Hid). unfold step. cbn [app] in *.
  destruct (event_step error write err self (cc s) Hi) as (c & Hstep & Hi'). rewrite Hstep. cbn [mbind outcome_bind].
  destruct (event_facts _ _ _ _ _ _ Hstep (inv_live _ Hi)) as [->|[[E1 E2 E3 E4] Hk]].
  { rewrite made_same. eexists. split; [done|]. apply (good_connector s _ []); try done; [by rewrite app_nil_r|intros p Hp; split; [by apply (Hl p)|done]|].
    intros Ho. split; [done|]. apply (Hfr Ho). }
  assert (Hnone : connection_ s = None) by (destruct (connection_ s) as [p|] eqn:Ep; [|done]; pose proof (Hl p eq_refl); congruence).
  assert (Hown : owned s = true) by (destruct (owned s); [done|]; destruct (Hfr eq_refl) as (_ & _ & Hch & _); by apply inv_connecting in Hi).
  assert (Hg' : good (set_connector c s)).
  { apply (good_connector s c [Connector.ResetChannel]); try done; [by rewrite Hnone|by rewrite E2| |congruence].
    intros Ha Ho. rewrite E2. split; [by apply Hd|done]. }
  destruct (made _ _) as [fd|] eqn:Em; [|by eexists]. destruct E4 as [E4 Ecn].
  assert (Ha : alive s = true) by (destruct (alive s); [done|]; destruct (Hd eq_refl Hown); congruence).
  unfold newConnection. cl. rewrite Ha. cbn [exists_ mbind outcome_bind].
  rewrite ck32_Ok by (unfold INT_MIN in *; lia). cbn [mbind outcome_bind]. eexists. split; [done|].
  destruct Hg' as ([Hc' Ht' Hset' Hl' Hr' Hd' Hfr'] & _ & _ & _ & _).
  split; [|split; [exact Hi'|split; [|split]]].
  - constructor; try done.
    + refine (conns_same [] _ _ 0 (new_conn_ok (set_connector c s) (mkConn (connection_name (name_ s) peer (nextConnId_ s)) fd kConnected false OfClient false false) Hc' Ha Hnone eq_refl eq_refl eq_refl) _ _ _ _); try done. by rewrite app_nil_r.
  - intros p [= <-] _. cl. rewrite E3. exists (queue s), []. split_and!.
    + rewrite length_app. cbn [length]. by replace (length (Connector.pending (cc s)) + 1 - length (Connector.pending (cc s)))%nat with 1%nat by lia.
    + intros Hin. destruct (ok_target _ _ Hc _ _ Hin eq_refl) as [y Hy]. apply lookup_lt_Some in Hy. lia.
    + rewrite Ht2, lookup_app_r, Nat.sub_diag by lia. done.
  - intros p x [= <-] Hx Hpo. cl. rewrite lookup_app_r, Nat.sub_diag in Hx by lia. by injection Hx as <-.
  - cl. lia.
Qed.

Lemma drop_ok s : (connector_exists s = false -> Connector.channel_ (cc s) = None) -> drop_connector s = Ok s.
Proof.
  intros H. unfold drop_connector. destruct (connector_exists s); [done|]. by rewrite bool_decide_eq_true_2 by auto.
Qed.

Lemma timer_good s : good s -> exists s', step connectErrno RetryTimer s = Ok s' /\ good s'.
Proof.
  intros Hg. pose proof Hg as ([Hc [Ht1 Ht2] Hset Hl Hr Hd Hfr] & Hi & Hres & Hpol & Hid). unfold step. cbn [app] in *.
  destruct (timer_step (errno_of connectErrno s) (cc s) Hi) as (c & Hstep & Hi'). rewrite Hstep. cbn [mbind outcome_bind].
  assert (Hf : Connector.pending c = Connector.pending (cc s) /\ Connector.connect_ c = Connector.connect_ (cc s) /\
               (Connector.state_ (cc s) = Connector.kConnected -> c = cc s) /\
               (Connector.connect_ (cc s) = false -> Connector.state_ c = Connector.state_ (cc s) /\ Connector.channel_ c = Connector.channel_ (cc s) /\
                  (Connector.fresh (cc s) ++ Connector.armed (cc s) = [] -> c = cc s))).
  { cbn [Connector.step] in Hstep. destruct (Connector.armed (cc s)) as [|ms rest] eqn:Ea; [by injection Hstep as <-|].
    apply startInLoop_facts in Hstep as (E1 & E2 & E3 & _). cbn in E1, E2, E3. split_and!; try done.
    - intros Hs. destruct Hi as [I1 _ _ _ _ _ _]. rewrite Hs, Ea, length_app in I1. cbn [length] in I1. lia.
    - intros Hcf. rewrite (E3 Hcf). cbn. split_and!; try done. by intros [_ ?]%app_nil. }
  destruct Hf as (E1 & E2 & E3 & E4).
  assert (Hg' : good (set_connector c s)).
  { apply (good_connector s c []); try done.
    - by rewrite app_nil_r.
    - intros p Hp. pose proof (Hl p Hp) as Hs. rewrite (E3 Hs). done.
    - rewrite E2. done.
    - intros Ha Ho. destruct (Hd Ha Ho) as [Hcf Hst]. rewrite E2, E1. split; [done|]. destruct (E4 Hcf) as (-> & _ & _). done.
    - intros Ho. destruct (Hfr Ho) as (_ & _ & Hch & [Hn|Hcf]).
      + cbn [Connector.step] in Hstep. apply app_nil in Hn as [Hn1 Hn2]. rewrite Hn2 in Hstep. injection Hstep as <-. rewrite Hn1, Hn2. auto.
      + destruct (E4 Hcf) as (_ & -> & _). rewrite E2. auto. }
  exists (set_connector c s). split; [|done]. apply drop_ok. intros Hex. unfold connector_exists in Hex. cl.
  destruct (owned s) eqn:Ho; [done|]. destruct Hg' as ([_ _ _ _ _ _ Hfr'] & _). by destruct (Hfr' Ho) as (_ & _ & ? & _).
Qed.

Lemma peer_close_good s p c :
  good s -> conns s !! p = Some c -> is_open c = true -> conn_polled c = true ->
  exists s', handleClose connectErrno p s = Ok s' /\ good s' /\ closed p s s'.
Proof.
  intros (Hc & Hi & Hres & Hpol & Hid) Hp Ho Hpo.
  destruct (handleClose_ok [] [] s p c Hc Hi Hp Ho) as (s' & Hs & Hc' & Hi' & Hcl).
  { intros Hcur. by apply (Hpol p c). }
  exists s'. split; [done|]. split; [|done]. pose proof Hcl as [Eq Ep Es Ecur Eoth Eal _].
  split; [done|]. split; [done|]. split; [|split].
  - rewrite Eq, Ep, <- (app_nil_r (Connector.pending (cc s))). apply (reset_ok_app _ _ s); [done|].
    destruct Ecur as [?|(? & E & _)]; [by left|right]. by rewrite E.
  - intros p' x Hp' Hx. destruct Ecur as [?|(E1 & E2 & E3)]; [congruence|]. rewrite E2. apply (Hpol p' x); [congruence|].
    rewrite <- (Eoth p'); [done|]. intros ->. congruence.
  - assert (run_functor connectErrno (ForceCloseInLoop p) s = Ok s') as Hrun.
    { cbn [run_functor]. unfold forceCloseInLoop, with_conn. by rewrite Hp, Ho. }
    by rewrite (run_functor_id _ _ _ Hrun).
Qed.

(** ** The destructor *)

Lemma conns_detach s p c b :
  conns_ok [] s -> connection_ s = Some p -> conns s !! p = Some c -> conns_ok [] (set_dead b (update p (set_close OfDetail c) s)).
Proof.
  intros [H1 H2 H3 H4 H5] Hcur Hp. pose proof (lookup_lt_Some _ _ _ Hp) as Hlt. constructor; cl.
  - done.
  - intros p' x. destruct (decide (p = p')) as [<-|Hne].
    + rewrite list_lookup_insert_eq by done. by intros [= <-].
    + rewrite list_lookup_insert_ne by done. intros Hx Hox Hcx. pose proof (H2 p' x Hx Hox Hcx). congruence.
  - intros p' x. destruct (decide (p = p')) as [<-|Hne]; [rewrite list_lookup_insert_eq by done|rewrite list_lookup_insert_ne by done; apply H3].
    intros [= <-]. exact (H3 p c Hp).
  - intros p' x. destruct (decide (p = p')) as [<-|Hne]; [rewrite list_lookup_insert_eq by done|rewrite list_lookup_insert_ne by done; apply H4].
    intros [= <-]. exact (H4 p c Hp).
  - intros f p' Hf Ht. destruct (H5 f p' Hf Ht) as [x Hx].
    destruct (decide (p = p')) as [<-|Hne]; [rewrite list_lookup_insert_eq by done|rewrite list_lookup_insert_ne by done]; by eexists.
Qed.

Lemma forceClose_dead p b s : forceClose p (set_dead b s) = (s ← forceClose p s; Ok (set_dead b s)).
Proof. unfold forceClose, with_conn. cl. destruct (conns s !! p) as [c|]; [|done]. by destruct (is_open c). Qed.

Lemma good_dead s :
  good s -> connection_ s = None -> owned s = true -> Connector.connect_ (cc s) = false ->
  (Connector.state_ (cc s) = Connector.kConnecting -> Connector.StopInLoop ∈ Connector.pending (cc s)) -> good (set_dead true s).
Proof.
  intros ([Hc [Ht1 Ht2] Hset Hl Hr Hd Hfr] & Hi & Hres & Hpol & Hid) Hn Ho Hcf Hst.
  split; [|split; [exact Hi|split; [by intros ? ?|split; [by intros ? ?|done]]]]. constructor; try done.
  destruct Hc as [H1 H2 H3 H4 H5]. constructor; try done. intros p c Hp Hop Hcl. cl. specialize (H2 p c Hp Hop Hcl). congruence.
Qed.

Lemma good_dead_flags s r b : good s -> alive s = false -> good (set_flags r b s).
Proof.
  intros ([Hc Ht Hset Hl Hr Hd Hfr] & Hi & Hres & Hpol & Hid) Ha. split; [|by split; [|split; [|split]]].
  constructor; try done; [|cl; congruence]. apply (conns_same [] s _ 0); try done. by rewrite app_nil_r.
Qed.

Lemma destroy_good s unique :
  good s -> alive s = true -> (connection_ s = None \/ (Connector.channel_ (cc s) = None /\ Connector.pending (cc s) = [])) ->
  exists s', destroy true unique s = Ok s' /\ good s'.
Proof.
  intros Hg Ha Hq. pose proof Hg as ([Hc [Ht1 Ht2] Hset Hl Hr Hd Hfr] & Hi & Hres & Hpol & Hid). cbn [app] in *.
  unfold destroy. destruct (connection_ s) as [p|] eqn:Ep.
  - destruct Hq as [?|[Hch Hpe]]; [done|]. destruct (ok_current _ _ Hc p Ep) as (_ & c & Hp & Ho & Hcl).
    unfold setCloseCallback, with_conn. rewrite Hp. cbn [mbind outcome_bind]. set (s1 := update p _ s).
    assert (Hg1 : good (set_dead false s1)).
    { split; [|split; [exact Hi|split; [by intros ? ?|split; [by intros ? ?|done]]]]. constructor; try done.
      - by apply conns_detach.
      - intros _. split_and!; try done. left. destruct Hi as [I1 _ _ _ _ _ _]. rewrite (Hl p eq_refl) in I1.
        apply length_zero_iff_nil. unfold s1. cl. lia. }
    assert (exists s2, (if unique then forceClose p s1 else Ok s1) = Ok s2 /\ good (set_dead false s2)) as (s2 & -> & Hg2).
    { destruct unique; [|by exists s1]. destruct (forceClose_good (set_dead false s1) p Hg1) as (s2 & Hs2 & Hg2 & _).
      { unfold s1. cl. rewrite list_lookup_insert_eq by (by eapply lookup_lt_Some). by eexists. }
      rewrite forceClose_dead in Hs2. destruct (forceClose p s1) as [s3|]; cbn [mbind outcome_bind] in Hs2; [|done].
      injection Hs2 as <-. by exists s3. }
    cbn [mbind outcome_bind]. exists (set_dead false s2). split; [|done]. apply drop_ok. intros _.
    destruct Hg2 as ([_ _ _ _ _ _ Hfr2] & _). by destruct (Hfr2 eq_refl) as (_ & _ & ? & _).
  - eexists. split; [done|].
    change (good (set_flags (retry_ s) (connect_ s) (set_dead true (stop s)))). apply good_dead_flags; [|done].
    apply good_dead; [by apply stop_good|exact Ep| |done|].
    + change (owned s = true). destruct (owned s); [done|]. destruct (Hfr eq_refl) as [? _]. congruence.
    + intros _. cbn. apply elem_of_app. right. by left.
Qed.

Lemma release_good s :
  good s -> (alive s = true \/ Connector.pending (cc s) = []) -> exists s', step connectErrno ReleaseConnector s = Ok s' /\ good s'.
Proof.
  intros Hg Hq. pose proof Hg as ([Hc [Ht1 Ht2] Hset Hl Hr Hd Hfr] & Hi & Hres & Hpol & Hid). unfold step. cbn [app] in *.
  destruct (alive s) eqn:Ha; [by exists s|]. destruct Hq as [?|Hpe]; [done|].
  assert (Hch : Connector.channel_ (cc s) = None).
  { destruct (owned s) eqn:Ho; [|by apply Hfr]. destruct (Hd eq_refl eq_refl) as [Hcf Hst]. rewrite Hpe in Hst.
    pose proof (inv_channel _ _ Hi) as H. rewrite Hpe in H. destruct (Connector.channel_ (cc s)) as [[fd []]|]; [|by destruct H|done].
    destruct H as [_ Hk]. by apply Hst in Hk as ?%elem_of_nil. }
  exists (set_owned false s). split; [by apply drop_ok|]. split; [|by split; [|split; [|split]]].
  constructor; try done.
  - apply (conns_same [] s _ 0); try done. by rewrite app_nil_r.
  - cl. congruence.
  - intros _. split_and!; try done. destruct (owned s) eqn:Ho; [right; by apply Hd|]. by destruct (Hfr eq_refl) as (_ & _ & _ & ?).
Qed.

(** ** Runs of a client *)

(** The use that the code is made for: a client is used while it exists; it is
    destroyed in the loop's thread, not before the channel of its last attempt
    is reset and the connector's functors have run; and the loop runs its
    functors before the timer of the destructor, a second later. *)
Definition intended (l : label) (s : t) : Prop :=
  match l with
  | Disconnect _ | Stop | EnableRetry => alive s = true
  | Event _ _ _ _ _ => nextConnId_ s < INT_MAX
  | RetryTimer | Functors => True
  | PeerClose p | ForceClose p => is_Some (conns s !! p)
  | Destroy in_loop _ => alive s = true /\ in_loop = true /\
      (connection_ s = None \/ (Connector.channel_ (cc s) = None /\ Connector.pending (cc s) = []))
  | ReleaseConnector => alive s = true \/ Connector.pending (cc s) = []
  end.

Inductive reachable : t -> Prop :=
  | reach_connect name retry in_loop s : connect connectErrno in_loop (set_flags retry true (new name)) = Ok s -> reachable s
  | reach_step l s s' : reachable s -> intended l s -> step connectErrno l s = Ok s' -> reachable s'.

Lemma connect_good name retry in_loop :
  exists s, connect connectErrno in_loop (set_flags retry true (new name)) = Ok s /\ good s.
Proof.
  unfold connect. cl. destruct (start_step in_loop (connectErrno 0%nat)) as (c & Hs & Hi). change (errno_of _ _) with (connectErrno 0%nat).
  cbn [Connector.step new connector_] in *. rewrite Hs. cbn [mbind outcome_bind]. eexists. split; [done|].
  assert (Hcon : Connector.connect_ c = true).
  { unfold Connector.start in Hs. destruct in_loop; [|by injection Hs as <-]. by apply startInLoop_facts in Hs as (-> & _). }
  split; [|split; [exact Hi|split; [by intros ? ?|split; [by intros ? ?|done]]]].
  constructor; try done.
  - constructor; try done. intros f p Hf. cl. cbn [new queue app] in Hf. by apply elem_of_replicate_inv in Hf as ->.
  - cl. cbn [new queue connector_ Connector.new Connector.pending length app]. rewrite Nat.sub_0_r, njobs_replicate. done.
  - intros p Hf. cl. cbn [new queue app] in Hf. by apply elem_of_replicate_inv in Hf.
Qed.

Lemma client_step_good l s : good s -> intended l s -> exists s', step connectErrno l s = Ok s' /\ good s'.
Proof.
  intros Hg Hl. destruct l as [in_loop| | |error write err self peer| |p|p| |in_loop unique|]; cbn [intended] in Hl.
  - unfold step. rewrite Hl. cbn [exists_ mbind outcome_bind]. by apply disconnect_good.
  - unfold step. rewrite Hl. cbn [exists_ mbind outcome_bind]. eexists. split; [done|]. by apply stop_good.
  - unfold step. rewrite Hl. cbn [exists_ mbind outcome_bind]. eexists. split; [done|]. by apply good_flags.
  - by apply event_good.
  - by apply timer_good.
  - unfold step, with_conn. destruct Hl as [c Hc]. rewrite Hc. destruct (is_open c && conn_polled c) eqn:E; [|by exists s].
    apply andb_true_iff in E as [E1 E2]. destruct (peer_close_good s p c Hg Hc E1 E2) as (s' & Hs & Hg' & _). by exists s'.
  - destruct (forceClose_good s p Hg Hl) as (s' & Hs & Hg' & _). by exists s'.
  - by apply functors_good.
  - unfold step. destruct Hl as (Ha & -> & Hq). rewrite Ha. cbn [exists_ mbind outcome_bind]. by apply destroy_good.
  - by apply release_good.
Qed.

Lemma reachable_good s : reachable s -> good s.
Proof.
  induction 1 as [name retry in_loop s H|l s s' _ IH Hl H].
  - destruct (connect_good name retry in_loop) as (s' & Hs' & Hg). congruence.
  - destruct (client_step_good l s IH Hl) as (s1 & Hs1 & Hg). congruence.
Qed.

(** C19: A client that is used as intended never fails an assertion and never uses a
    client, connector or connection that is gone, whatever connect(2), the
    peer, the retry timers and other threads do and however they interleave.
    It has at most one open connection that closes through it, the one in
    [connection_], and then its connector is connected; and for a connection
    exactly one connectDestroyed is queued if it has closed and was not
    destroyed, and none otherwise. *)
Theorem client_safe l s :
  reachable s -> intended l s ->
  (exists s', step connectErrno l s = Ok s') /\
  (forall p, connection_ s = Some p -> Connector.state_ (connector_ s) = Connector.kConnected /\
     exists c, conns s !! p = Some c /\ is_open c = true /\ conn_close c = OfClient) /\
  (forall p c, conns s !! p = Some c -> is_open c = true -> conn_close c = OfClient -> connection_ s = Some p) /\
  (forall p c, conns s !! p = Some c -> due p (queue s) = owes c).
Proof.
  intros Hr Hl. pose proof (reachable_good s Hr) as Hg. pose proof Hg as (Hc & _). pose proof (core_conns _ _ _ Hc) as Hok. split_and!.
  - destruct (client_step_good l s Hg Hl) as (s' & Hs & _). by exists s'.
  - intros p Hp. split; [by apply (core_link _ _ _ Hc p)|]. by apply (ok_current _ _ Hok p).
  - apply (ok_open _ _ Hok).
  - apply (ok_due _ _ Hok).
Qed.

(** A client that is to retry goes on when its connection ends: it is connecting
    or waits for the next attempt, unless connect(2) has told its connector not
    to try again. *)
Theorem client_retries s p c :
  reachable s -> connection_ s = Some p -> conns s !! p = Some c -> conn_polled c = true -> retry_ s = true -> connect_ s = true ->
  exists s', step connectErrno (PeerClose p) s = Ok s' /\ connection_ s' = None /\
    (Connector.state_ (connector_ s') = Connector.kConnecting \/
     Connector.fresh (connector_ s') ++ Connector.armed (connector_ s') <> [] \/
     Connector.StartInLoop ∈ Connector.pending (connector_ s') \/ gave_up (connector_ s')).
Proof.
  intros Hr Hp Hc Hpo Hre Hcon. pose proof (reachable_good s Hr) as Hg.
  destruct (ok_current _ _ (core_conns _ _ _ (proj1 Hg)) p Hp) as (_ & c' & Hc' & Ho & _). rewrite Hc in Hc'. injection Hc' as <-.
  destruct (peer_close_good s p c Hg Hc Ho Hpo) as (s' & Hs & Hg' & [_ _ _ Ecur _ _ Ere]).
  exists s'. split; [unfold step, with_conn; by rewrite Hc, Ho, Hpo|]. split; [destruct Ecur as [?|(_ & _ & ?)]; done|].
  destruct (Ere Hp) as [E1 E2]; [by rewrite Hre, Hcon|]. destruct Hg' as (_ & Hi & _).
  destruct (inv_progress _ _ Hi E1) as [Hst|[Ht|[Hq|Hgu]]]; auto. left. by destruct (Connector.state_ (cc s')).
Qed.

End Client.

(** ** Clients at work *)

Module ClientDemo.

Definition errno (_ : nat) : Z := Connector.EINPROGRESS.
Definition peer : bytes := bs "10.0.0.1:80".
Definition started (ls : list label) : outcome t :=
  s ← connect errno true (set_flags true true (new (bs "client"))); run errno ls s.

Lemma run_reachable ls s s' :
  reachable errno s -> (fix ok ls s := match ls with [] => True | l :: ls => intended l s /\
    match step errno l s with Ok s => ok ls s | Fault _ => True end end) ls s -> run errno ls s = Ok s' -> reachable errno s'.
Proof.
  revert s. induction ls as [|l ls IH]; intros s Hr Hok; cbn [run]; [by intros [= <-]|].
  destruct Hok as [Hl Hok]. destruct (step errno l s) as [s1|] eqn:E; cbn [mbind outcome_bind]; [|done].
  apply IH; [|done]. by apply (reach_step _ l s).
Qed.

(** A connection is up and has been polled. *)
Definition up : t :=
  mk (Connector.mk true Connector.kConnected None 500 [] [] [] 1 [] [Connector.NewConnection 0]) (bs "client") true true 2 (Some 0%nat)
    [mkConn (bs "client:10.0.0.1:80#1") 0 kConnected false OfClient true false] [] true true.

Lemma client_up_reachable : reachable errno up.
Proof.
  destruct (connect errno true (set_flags true true (new (bs "client")))) as [s|] eqn:E; [|by vm_compute in E].
  apply (run_reachable [Event false true 0 false peer; Functors] s).
  - by apply (reach_connect _ (bs "client") true true).
  - vm_compute in E. injection E as <-. split; [vm_compute; done|]. vm_compute. done.
  - vm_compute in E. injection E as <-. vm_compute. reflexivity.
Qed.

Lemma client_safe_witness :
  (exists s', step errno (PeerClose 0) up = Ok s') /\
  (forall p, connection_ up = Some p -> Connector.state_ (connector_ up) = Connector.kConnected /\
     exists c, conns up !! p = Some c /\ is_open c = true /\ conn_close c = OfClient) /\
  (forall p c, conns up !! p = Some c -> is_open c = true -> conn_close c = OfClient -> connection_ up = Some p) /\
  (forall p c, conns up !! p = Some c -> due p (queue up) = owes c).
Proof. apply (client_safe errno (PeerClose 0) up client_up_reachable). by eexists. Defined.

Lemma client_retries_witness :
  exists s', step errno (PeerClose 0) up = Ok s' /\ connection_ s' = None /\
    (Connector.state_ (connector_ s') = Connector.kConnecting \/
     Connector.fresh (connector_ s') ++ Connector.armed (connector_ s') <> [] \/
     Connector.StartInLoop ∈ Connector.pending (connector_ s') \/ gave_up (connector_ s')).
Proof. apply (client_retries errno up 0%nat (mkConn (bs "client:10.0.0.1:80#1") 0 kConnected false OfClient true false) client_up_reachable); reflexivity. Defined.

(** What goes wrong with other uses: a client destroyed in the callback of its
    new connection takes the connector with it before its channel is reset; one
    that is stopped and then destroyed with its connection leaves the
    connector's stopInLoop behind; one destroyed in another thread is called
    when the connection closes first; and when the loop is late, the timer
    destroys a connector that has yet to reset its channel. *)
Theorem destroy_too_early :
  started [Event false true 0 false peer; Destroy true false] = Fault AssertFailed /\
  started [Event false true 0 false peer; Functors; Stop; Destroy true true; Functors] = Fault OutOfBounds /\
  started [Event false true 0 false peer; Functors; Destroy false true; PeerClose 0] = Fault OutOfBounds /\
  started [Destroy true true; Functors; ReleaseConnector] = Fault AssertFailed.
Proof. split_and!; vm_compute; reflexivity. Qed.

(** [disconnect] does nothing to an attempt under way: the connection comes up. *)
Theorem disconnect_while_connecting :
  match started [Disconnect true; Event false true 0 false peer] with
  | Ok s => connection_ s = Some 0%nat /\ connect_ s = false
  | Fault _ => False
  end.
Proof. vm_compute. split; reflexivity. Qed.

(** The buffer for the name holds 31 characters: the address of an IPv6 peer
    pushes the number out, and the connections of a client get the same name. *)
Theorem connection_names_repeat :
  connection_name (bs "c") (bs "[2001:db8:85a3:8d3:1319:8a2e:370:7348]:443") 1 =
  connection_name (bs "c") (bs "[2001:db8:85a3:8d3:1319:8a2e:370:7348]:443") 2.
Proof. vm_compute. reflexivity. Qed.

End ClientDemo.
End TcpClientFacts.
