(* ===== verification/AsyncLogging.v ===== *)
(** * Asynchronous logging

    [Module AsyncLogging] models src/muduo/base/AsyncLogging.h and
    AsyncLogging.cc: threads append lines to a buffer, a background thread
    takes the full buffers over and writes them.  Each critical section is one
    step; the wait for [flushInterval_] seconds may end at any time (by
    notification, by timeout or spuriously).  The log file is the sequence of
    the pieces appended to it; the text that reports dropped buffers, which
    holds a time stamp, is a parameter, and so is the size of a buffer
    (4000 * 1000 in the code). *)

From S2P Require Import Prelude Timestamp LogStream LogStreamFacts.

Local Open Scope Z_scope.

Module AsyncLogging.
Section Logging.
Context (SIZE : nat) (dropped_message : nat -> bytes).

(** Where [threadFunc] is: at the loop's test, in the wait, between the two
    critical sections with [buffersToWrite], or at its end *)
Inductive position := Top | Waiting | Writing (buffersToWrite : list FixedBuffer.t) | Done.

(** The members, then the locals of [threadFunc] and the pieces appended to
    [output]; [lines] and [batches] record the lines appended and the contents
    of the buffers taken over. *)
Record t := mk {
  running_ : bool;
  currentBuffer_ : FixedBuffer.t;
  nextBuffer_ : option FixedBuffer.t;
  buffers_ : list FixedBuffer.t;
  pc : position;
  newBuffer1 : option FixedBuffer.t;
  newBuffer2 : option FixedBuffer.t;
  output : list bytes;
  lines : list bytes;
  batches : list (list bytes);
}.

(** After [start] *)
Definition started : t :=
  let b := FixedBuffer.bzero (FixedBuffer.new SIZE) in
  mk true b (Some b) [] Top (Some b) (Some b) [] [] [].

Definition append (logline : bytes) (s : t) : outcome t :=
  if zlen logline <? FixedBuffer.avail (currentBuffer_ s) then
    c ← FixedBuffer.append logline (currentBuffer_ s);
    Ok (mk (running_ s) c (nextBuffer_ s) (buffers_ s) (pc s) (newBuffer1 s) (newBuffer2 s) (output s) (lines s ++ [logline]) (batches s))
  else
    let buffers := buffers_ s ++ [currentBuffer_ s] in
    let c := match nextBuffer_ s with Some b => b | None => FixedBuffer.new SIZE end in
    c ← FixedBuffer.append logline c;
    Ok (mk (running_ s) c None buffers (pc s) (newBuffer1 s) (newBuffer2 s) (output s) (lines s ++ [logline]) (batches s)).

(** [stop] up to the join *)
Definition stop (s : t) : t :=
  mk false (currentBuffer_ s) (nextBuffer_ s) (buffers_ s) (pc s) (newBuffer1 s) (newBuffer2 s) (output s) (lines s) (batches s).

Definition set_pc (p : position) (s : t) : t :=
  mk (running_ s) (currentBuffer_ s) (nextBuffer_ s) (buffers_ s) p (newBuffer1 s) (newBuffer2 s) (output s) (lines s) (batches s).

(** The critical section after the wait; a moved-from pointer is null. *)
Definition take_over (s : t) : outcome t :=
  let buffersToWrite := buffers_ s ++ [currentBuffer_ s] in
  match newBuffer1 s with
  | None => Fault OutOfBounds
  | Some b1 =>
      let '(next, new2) := match nextBuffer_ s with Some b => (Some b, newBuffer2 s) | None => (newBuffer2 s, None) end in
      Ok (mk (running_ s) b1 next [] (Writing buffersToWrite) None new2 (output s) (lines s) (batches s ++ [map contents buffersToWrite]))
  end.

(** [newBuffer = std::move(buffersToWrite.back()); pop_back(); reset()] unless
    the buffer is still there *)
Definition refill (new : option FixedBuffer.t) (bufs : list FixedBuffer.t) : outcome (option FixedBuffer.t * list FixedBuffer.t) :=
  match new with
  | Some b => Ok (Some b, bufs)
  | None =>
      match rev bufs with
      | [] => Fault AssertFailed
      | back :: front => Ok (Some (FixedBuffer.reset back), rev front)
      end
  end.

Fixpoint write_all (bufs : list FixedBuffer.t) : outcome (list bytes) :=
  match bufs with
  | [] => Ok []
  | b :: bufs' => x ← FixedBuffer.toString b; xs ← write_all bufs'; Ok (x :: xs)
  end.

(** Outside the mutex *)
Definition write (bufs : list FixedBuffer.t) (s : t) : outcome t :=
  _ ← assert (negb (length bufs =? 0)%nat);
  let '(note, bufs) := if (25 <? length bufs)%nat then ([dropped_message (length bufs - 2)], take 2 bufs) else ([], bufs) in
  texts ← write_all bufs;
  let bufs := if (2 <? length bufs)%nat then take 2 bufs else bufs in
  '(new1, bufs) ← refill (newBuffer1 s) bufs;
  '(new2, _) ← refill (newBuffer2 s) bufs;
  Ok (mk (running_ s) (currentBuffer_ s) (nextBuffer_ s) (buffers_ s) Top new1 new2 (output s ++ note ++ texts) (lines s) (batches s)).

Definition is_empty_buffer (b : option FixedBuffer.t) : bool :=
  match b with Some b => FixedBuffer.length b =? 0 | None => false end.

(** The background thread *)
Definition thread_step (s : t) : outcome t :=
  match pc s with
  | Top =>
      if running_ s then
        _ ← assert (is_empty_buffer (newBuffer1 s));
        _ ← assert (is_empty_buffer (newBuffer2 s));
        match buffers_ s with [] => Ok (set_pc Waiting s) | _ => take_over s end
      else Ok (set_pc Done s)
  | Waiting => take_over s
  | Writing bufs => write bufs s
  | Done => Ok s
  end.

Inductive label := Append (logline : bytes) | Stop | Thread.

Definition step (a : label) (s : t) : outcome t :=
  match a with Append logline => append logline s | Stop => Ok (stop s) | Thread => thread_step s end.

Fixpoint run (ls : list label) (s : t) : outcome t :=
  match ls with [] => Ok s | a :: ls' => s ← step a s; run ls' s end.

(** ** Correctness *)

(** A line that no buffer can hold is not stored. *)
Definition stored (logline : bytes) : bytes := if zlen logline <? Z.of_nat SIZE then logline else [].

(** What is written for the buffers taken over together *)
Definition batch_text (batch : list bytes) : bytes :=
  if (25 <? length batch)%nat then dropped_message (length batch - 2) ++ concat (take 2 batch) else concat batch.

Definition good (b : FixedBuffer.t) : Prop := wf b /\ zlen (FixedBuffer.data_ b) = Z.of_nat SIZE.
Definition clean (b : FixedBuffer.t) : Prop := good b /\ FixedBuffer.cur_ b = 0.

(** The text of the batch that is being written *)
Definition writing (p : position) : bytes := match p with Writing bufs => batch_text (map contents bufs) | _ => [] end.

Record inv (s : t) : Prop := {
  inv_lines : concat (map stored (lines s)) =
    concat (map (@concat byte) (batches s)) ++ concat (map contents (buffers_ s)) ++ contents (currentBuffer_ s);
  inv_output : concat (output s) ++ writing (pc s) = concat (map batch_text (batches s));
  inv_current : good (currentBuffer_ s);
  inv_buffers : Forall good (buffers_ s);
  inv_spare : match nextBuffer_ s with Some b => clean b | None => buffers_ s <> [] end;
  inv_thread :
    match pc s with
    | Top | Waiting => (exists b, newBuffer1 s = Some b /\ clean b) /\ exists b, newBuffer2 s = Some b /\ clean b
    | Writing bufs => newBuffer1 s = None /\ Forall good bufs /\ bufs <> [] /\
        match newBuffer2 s with Some b => clean b | None => (2 <= length bufs)%nat end
    | Done => running_ s = false
    end;
}.

Lemma clean_contents b : clean b -> contents b = [].
Proof. intros [_ Hc]. unfold contents. by rewrite Hc. Qed.

Lemma clean_avail b : clean b -> FixedBuffer.avail b = Z.of_nat SIZE.
Proof. intros [[_ Hz] Hc]. unfold FixedBuffer.avail. rewrite Hc. lia. Qed.

Lemma append_good l b :
  good b -> exists b', FixedBuffer.append l b = Ok b' /\ good b' /\
    contents b' = contents b ++ (if zlen l <? FixedBuffer.avail b then l else []).
Proof.
  intros [Hw Hz]. destruct (append_inserts (LogStream.Str l) b eq_refl Hw) as (b' & Hb & Hz' & Hw' & Hc & _). exists b'. split; [done|].
  split; [split; [done|by rewrite Hz']|exact Hc].
Qed.

Lemma new_clean : (0 < SIZE)%nat -> clean (FixedBuffer.new SIZE).
Proof. intros H. unfold clean, good, wf, FixedBuffer.new. cbn. unfold zlen. rewrite length_replicate. lia. Qed.

Lemma append_line l s :
  (0 < SIZE)%nat -> inv s -> exists s', append l s = Ok s' /\ inv s'.
Proof.
  intros Hsz [Hl Ho Hc Hb Hs Ht]. unfold append. destruct (append_good l (currentBuffer_ s) Hc) as (b' & Hb' & Hg' & Hc').
  destruct (Z.ltb_spec (zlen l) (FixedBuffer.avail (currentBuffer_ s))) as [Hfit|Hfit].
  - rewrite Hb'. cbn [mbind outcome_bind]. eexists. split; [done|]. constructor; cbn; try done.
    assert (stored l = l) as Hst.
    { unfold stored. destruct Hc as [Hw Hz]. unfold FixedBuffer.avail, wf in *. by rewrite (proj2 (Z.ltb_lt _ _)) by lia. }
    rewrite map_app, concat_app, Hl, Hc'. cbn. by rewrite Hst, app_nil_r, <- !app_assoc.
  - set (c := match nextBuffer_ s with Some b => b | None => FixedBuffer.new SIZE end).
    assert (clean c) as Hclean by (subst c; destruct (nextBuffer_ s); [done|by apply new_clean]).
    destruct (append_good l c (proj1 Hclean)) as (c' & Hc1 & Hg1 & Hc2). rewrite Hc1. cbn [mbind outcome_bind]. eexists. split; [done|].
    constructor; cbn; try done; [|apply Forall_app; by split; [|constructor]|by destruct (buffers_ s)].
    rewrite (clean_avail c Hclean), (clean_contents c Hclean) in Hc2. fold (stored l) in Hc2. rewrite !map_app, !concat_app, Hl, Hc2. cbn.
    by rewrite !app_nil_r, <- !app_assoc.
Qed.

Lemma take_over_inv s : inv s -> pc s = Top \/ pc s = Waiting -> exists s', take_over s = Ok s' /\ inv s'.
Proof.
  intros [Hl Ho Hc Hb Hs Ht] Hpc. unfold take_over.
  assert (writing (pc s) = [] /\ (exists b, newBuffer1 s = Some b /\ clean b) /\ exists b, newBuffer2 s = Some b /\ clean b)
    as (Hw & (b1 & H1 & Hc1) & b2 & H2 & Hc2) by (destruct Hpc as [E|E]; rewrite E in *; by split).
  rewrite H1, H2. rewrite Hw, app_nil_r in Ho.
  assert (Forall good (buffers_ s ++ [currentBuffer_ s])) as Hg by (apply Forall_app; by split; [|constructor]).
  assert (buffers_ s ++ [currentBuffer_ s] <> []) as Hne by (by destruct (buffers_ s)).
  assert (concat (map stored (lines s)) = concat (map (@concat byte) (batches s ++ [map contents (buffers_ s ++ [currentBuffer_ s])]))) as Hl'.
  { rewrite Hl, map_app, concat_app. cbn. rewrite map_app, concat_app. cbn. by rewrite !app_nil_r. }
  destruct (nextBuffer_ s) as [nb|] eqn:En; (eexists; split; [done|]); constructor; cbn; rewrite ?(clean_contents b1 Hc1), ?app_nil_r; try done; try apply Hc1.
  - rewrite (map_app batch_text), concat_app, Ho. cbn. by rewrite app_nil_r.
  - rewrite (map_app batch_text), concat_app, Ho. cbn. by rewrite app_nil_r.
  - split_and!; try done. rewrite length_app. cbn. destruct (buffers_ s); [done|cbn; lia].
Qed.

Lemma write_all_contents bufs : Forall good bufs -> write_all bufs = Ok (map contents bufs).
Proof.
  induction 1 as [|b bufs [Hw Hz] _ IH]; [done|]. cbn [write_all]. unfold FixedBuffer.toString, FixedBuffer.length. unfold wf in Hw.
  rewrite load_Ok by lia. cbn [mbind outcome_bind]. rewrite IH. done.
Qed.

Lemma reset_clean b : good b -> clean (FixedBuffer.reset b).
Proof. intros [Hw Hz]. unfold wf in Hw. split; [split; [unfold wf; cbn; lia|done]|done]. Qed.

Lemma refill_clean new bufs :
  Forall good bufs -> match new with Some b => clean b | None => bufs <> [] end ->
  exists b bufs', refill new bufs = Ok (Some b, bufs') /\ clean b /\ Forall good bufs' /\
    length bufs' = (length bufs - match new with Some _ => 0 | None => 1 end)%nat.
Proof.
  intros Hg Hn. unfold refill. destruct new as [b|]; [exists b, bufs; split_and!; [done..|lia]|].
  destruct (rev bufs) as [|back front] eqn:E; [apply (f_equal (@rev _)) in E; rewrite rev_involutive in E; by subst|].
  assert (bufs = rev front ++ [back]) as -> by (by rewrite <- (rev_involutive bufs), E). apply Forall_app in Hg as [Hf Hb].
  eexists _, _. split; [done|]. split_and!; [apply reset_clean; by inversion Hb|done|rewrite length_app; cbn; lia].
Qed.
(** What is written is the text of the batch. *)
Lemma batch_text_split bufs :
  let '(note, kept) := if (25 <? length bufs)%nat then ([dropped_message (length bufs - 2)], take 2 bufs) else ([], bufs) in
  concat (note ++ map contents kept) = batch_text (map contents bufs).
Proof.
  unfold batch_text. rewrite length_map. destruct (25 <? length bufs)%nat; [|done]. cbn [app concat]. f_equal. by rewrite firstn_map.
Qed.

Lemma write_inv bufs s : inv s -> pc s = Writing bufs -> exists s', write bufs s = Ok s' /\ inv s'.
Proof.
  intros [Hl Ho Hc Hb Hs Ht] Hpc. rewrite Hpc in Ho, Ht. destruct Ht as (H1 & Hg & Hne & H2). cbn [writing] in Ho. unfold write.
  assert (length bufs <> 0)%nat as Hlen by (by destruct bufs). rewrite (proj2 (Nat.eqb_neq _ _)) by done. cbn [negb assert mbind outcome_bind].
  pose proof (batch_text_split bufs) as Hbt.
  destruct (if (25 <? length bufs)%nat then _ else _) as [note kept] eqn:Ek.
  assert (Forall good kept /\ (Nat.min 2 (length bufs) <= length kept)%nat) as [Hgk Hlk].
  { destruct (25 <? length bufs)%nat; simplify_eq; [split; [by apply Forall_take|rewrite length_take; lia]|split; [done|lia]]. }
  rewrite write_all_contents by done. cbn [mbind outcome_bind].
  set (kept2 := if (2 <? length kept)%nat then take 2 kept else kept).
  assert (Forall good kept2 /\ (Nat.min 2 (length bufs) <= length kept2)%nat) as [Hg2 Hl2].
  { subst kept2. destruct (2 <? length kept)%nat; [split; [by apply Forall_take|rewrite length_take; lia]|split; [done|lia]]. }
  destruct (refill_clean (newBuffer1 s) kept2 Hg2) as (b1 & bufs1 & Hr1 & Hc1 & Hgb1 & Hlb1).
  { rewrite H1. intros E. rewrite E in Hl2. cbn [length] in Hl2. lia. }
  rewrite Hr1. cbn [mbind outcome_bind]. rewrite H1 in Hlb1.
  destruct (refill_clean (newBuffer2 s) bufs1 Hgb1) as (b2 & bufs2 & Hr2 & Hc2 & _).
  { destruct (newBuffer2 s); [done|]. intros E. rewrite E in Hlb1. cbn [length] in Hlb1. lia. }
  rewrite Hr2. cbn [mbind outcome_bind]. eexists. split; [done|]. constructor; cbn; try done.
  - rewrite app_nil_r, concat_app, Hbt. done.
  - split; eauto.
Qed.

Lemma thread_inv s : inv s -> exists s', thread_step s = Ok s' /\ inv s'.
Proof.
  intros Hi. unfold thread_step. destruct (pc s) as [| |bufs|] eqn:Ep.
  - pose proof Hi as [Hl Ho Hc Hb Hs Ht]. rewrite Ep in Ho, Ht. destruct (running_ s) eqn:Er.
    + destruct Ht as [(b1 & H1 & [Hg1 Hc1]) (b2 & H2 & [Hg2 Hc2])]. unfold is_empty_buffer, FixedBuffer.length. rewrite H1, H2, Hc1, Hc2, Z.eqb_refl.
      cbn [assert mbind outcome_bind]. destruct (buffers_ s) as [|b bs0] eqn:Eb; [|apply take_over_inv; auto].
      eexists. split; [done|]. unfold set_pc. destruct Hi as [Hl' _ _ Hb' Hs' _]. constructor; cbn; try done. split; eexists; (split; [done|]); by split.
    + eexists. split; [done|]. by constructor.
  - apply take_over_inv; auto.
  - by apply write_inv.
  - by exists s.
Qed.

Lemma logging_run_inv ls s : (0 < SIZE)%nat -> inv s -> exists s', run ls s = Ok s' /\ inv s'.
Proof.
  intros Hsz. revert s. induction ls as [|a ls IH]; intros s Hi; [by exists s|]. cbn [run].
  assert (exists s1, step a s = Ok s1 /\ inv s1) as (s1 & Hs & Hi1).
  { destruct a; cbn [step]; [by apply append_line| |by apply thread_inv]. eexists. split; [done|]. destruct Hi. constructor; cbn; try done. by destruct (pc s). }
  rewrite Hs. cbn [mbind outcome_bind]. auto.
Qed.

Lemma started_logging : (0 < SIZE)%nat -> inv started.
Proof.
  intros Hsz. assert (clean (FixedBuffer.bzero (FixedBuffer.new SIZE))) as Hc.
  { unfold clean, good, wf, FixedBuffer.bzero, FixedBuffer.new. cbn. unfold zlen. rewrite !length_replicate. lia. }
  constructor; cbn; try done; [apply Hc|]. split; eauto.
Qed.

(** *** What the background thread leaves behind *)

Lemma take_over_next s s' : inv s -> pc s = Top \/ pc s = Waiting -> take_over s = Ok s' ->
  running_ s' = running_ s /\ lines s' = lines s /\ buffers_ s' = [] /\ contents (currentBuffer_ s') = [] /\ exists bufs, pc s' = Writing bufs.
Proof.
  intros Hi Hpc. unfold take_over. destruct (newBuffer1 s) as [b1|] eqn:E1; [|done].
  assert (clean b1) as Hb by (pose proof (inv_thread s Hi) as Ht; destruct Hpc as [E|E]; rewrite E, E1 in Ht; destruct Ht as [(b & [= <-] & Hb) _]; exact Hb).
  apply clean_contents in Hb. destruct (nextBuffer_ s); intros [= <-]; cbn; split_and!; eauto.
Qed.

Lemma write_next bufs s s' : write bufs s = Ok s' ->
  running_ s' = running_ s /\ lines s' = lines s /\ buffers_ s' = buffers_ s /\ currentBuffer_ s' = currentBuffer_ s /\ pc s' = Top.
Proof.
  unfold write. intros (u & _ & H)%bind_Ok. destruct (if (25 <? length bufs)%nat then _ else _) as [note kept].
  apply bind_Ok in H as (texts & _ & H). apply bind_Ok in H as ([n1 k1] & _ & H). apply bind_Ok in H as ([n2 k2] & _ & [= <-]). done.
Qed.

Lemma top_step s : inv s -> running_ s = true -> pc s = Top ->
  thread_step s = match buffers_ s with [] => Ok (set_pc Waiting s) | _ => take_over s end.
Proof.
  intros [_ _ _ _ _ Ht] Hr Hp. unfold thread_step. rewrite Hp in *. destruct Ht as [(b1 & H1 & [_ Hc1]) (b2 & H2 & [_ Hc2])].
  unfold is_empty_buffer, FixedBuffer.length. rewrite Hr, H1, H2, Hc1, Hc2. done.
Qed.

(** A batch is taken over and written. *)
Lemma batch_turn s : inv s -> pc s = Top \/ pc s = Waiting -> thread_step s = take_over s ->
  exists s', run [Thread; Thread] s = Ok s' /\ inv s' /\ lines s' = lines s /\ pc s' = Top /\
    buffers_ s' = [] /\ contents (currentBuffer_ s') = [].
Proof.
  intros Hi Hpc Ht. destruct (take_over_inv s Hi Hpc) as (s1 & H1 & Hi1).
  destruct (take_over_next s s1 Hi Hpc H1) as (_ & L1 & B1 & C1 & bufs & P1). destruct (write_inv bufs s1 Hi1 P1) as (s2 & H2 & Hi2).
  destruct (write_next _ _ _ H2) as (_ & L2 & B2 & C2 & P2). exists s2. split; [|split_and!; congruence].
  cbn [run step]. rewrite Ht, H1. cbn [mbind outcome_bind]. unfold thread_step. by rewrite P1, H2.
Qed.

(** From the top of its loop the running thread takes everything over and
    writes it. *)
Lemma turn_from_top s : inv s -> running_ s = true -> pc s = Top \/ pc s = Waiting ->
  exists n s', (n <= 3)%nat /\ run (replicate n Thread) s = Ok s' /\ inv s' /\ lines s' = lines s /\ pc s' = Top /\
    buffers_ s' = [] /\ contents (currentBuffer_ s') = [].
Proof.
  intros Hi Hr [Hp|Hp].
  - pose proof (top_step s Hi Hr Hp) as Ht. destruct (buffers_ s) as [|b bufs] eqn:Eb.
    + destruct (thread_inv s Hi) as (s1 & Hs1 & Hi1). rewrite Ht in Hs1. injection Hs1 as <-.
      destruct (batch_turn (set_pc Waiting s) Hi1) as (s' & Hrun & H); [by right|done|]. exists 3%nat, s'. split; [lia|].
      split; [|exact H]. cbn [replicate]. cbn [run step]. rewrite Ht. exact Hrun.
    + destruct (batch_turn s Hi (or_introl Hp) Ht) as (s' & H). exists 2%nat, s'. by split; [lia|].
  - destruct (batch_turn s Hi (or_intror Hp)) as (s' & H); [unfold thread_step; by rewrite Hp|]. exists 2%nat, s'. by split; [lia|].
Qed.

Lemma turn s : inv s -> running_ s = true ->
  exists n s', (n <= 4)%nat /\ run (replicate n Thread) s = Ok s' /\ inv s' /\ lines s' = lines s /\ pc s' = Top /\
    buffers_ s' = [] /\ contents (currentBuffer_ s') = [].
Proof.
  intros Hi Hr. destruct (pc s) as [| |bufs|] eqn:Ep.
  - destruct (turn_from_top s Hi Hr (or_introl Ep)) as (n & s' & Hn & H). exists n, s'. split; [lia|done].
  - destruct (turn_from_top s Hi Hr (or_intror Ep)) as (n & s' & Hn & H). exists n, s'. split; [lia|done].
  - destruct (write_inv bufs s Hi Ep) as (s1 & H1 & Hi1). destruct (write_next _ _ _ H1) as (R1 & L1 & _ & _ & P1).
    destruct (turn_from_top s1 Hi1) as (n & s' & Hn & H2 & Hi' & L2 & H); [congruence|by left|].
    exists (S n), s'. split; [lia|]. split; [|split_and!; [done|congruence|apply H..]].
    cbn [replicate run step]. unfold thread_step. rewrite Ep, H1. exact H2.
  - pose proof (inv_thread s Hi) as Ht. rewrite Ep in Ht. congruence.
Qed.

(** C20: Whatever threads log and however they interleave with the background
    thread and [stop], no assertion of the thread fails and what is logged is
    neither reordered nor duplicated: the lines that a buffer can hold (a longer
    one is dropped) are, in order, those of the batches taken over, of the full
    buffers and of the current one; and the file receives each batch, in order
    and once, whole unless it has more than 25 buffers, when the report and its
    first two buffers are written.  While the logger is not stopped, four more
    steps of the thread write all that was logged so far; when the thread
    has ended after [stop], the file has the batches and what is left in the
    buffers is never written. *)
Theorem async_logging_order ls :
  (0 < SIZE)%nat ->
  exists s, run ls started = Ok s /\
    concat (map stored (lines s)) = concat (map (@concat byte) (batches s)) ++ concat (map contents (buffers_ s)) ++ contents (currentBuffer_ s) /\
    concat (output s) ++ writing (pc s) = concat (map batch_text (batches s)) /\
    (running_ s = true -> exists n s', (n <= 4)%nat /\ run (replicate n Thread) s = Ok s' /\ lines s' = lines s /\
      concat (map stored (lines s)) = concat (map (@concat byte) (batches s')) /\ concat (output s') = concat (map batch_text (batches s'))) /\
    (pc s = Done -> concat (output s) = concat (map batch_text (batches s)) /\ forall n, run (replicate n Thread) s = Ok s).
Proof.
  intros Hsz. destruct (logging_run_inv ls started Hsz (started_logging Hsz)) as (s & Hs & Hi). pose proof Hi as [H1 H2 _ _ _ _].
  exists s. split_and!; [done..| |].
  - intros Hr. destruct (turn s Hi Hr) as (n & s' & Hn & Hrun & [H1' H2' _ _ _ _] & Hl & Hp & Hb & Hc). exists n, s'. split_and!; [done..| |].
    + rewrite <- Hl, H1', Hb, Hc. cbn. by rewrite !app_nil_r.
    + rewrite Hp in H2'. cbn [writing] in H2'. by rewrite app_nil_r in H2'.
  - intros Hd. split; [rewrite Hd in H2; cbn [writing] in H2; by rewrite app_nil_r in H2|].
    induction n as [|n IH]; [done|]. cbn [replicate run step]. unfold thread_step. rewrite Hd. exact IH.
Qed.

End Logging.

Lemma async_logging_order_witness :
  exists s, run 8 (fun _ => []) [Append (bs "abc"); Append (bs "defgh"); Thread; Thread] (started 8) = Ok s /\
    concat (output s) = bs "abcdefgh".
Proof.
  destruct (async_logging_order 8 (fun _ => []) [Append (bs "abc"); Append (bs "defgh"); Thread; Thread] ltac:(lia)) as (s & Hs & _).
  exists s. split; [exact Hs|]. vm_compute in Hs. injection Hs as <-. reflexivity.
Defined.

(** A line logged while the background thread is writing is lost when the
    logger is stopped before the thread is back at its loop. *)
Theorem stop_loses_lines :
  exists s, run 8 (fun _ => []) [Append (bs "abc"); Thread; Thread; Append (bs "def"); Stop; Thread; Thread] (started 8) = Ok s /\
    pc s = Done /\ output s = [bs "abc"] /\ lines s = [bs "abc"; bs "def"] /\ contents (currentBuffer_ s) = bs "def".
Proof. eexists. split; [vm_compute; reflexivity|]. split_and!; reflexivity. Qed.

End AsyncLogging.
