(* ===== verification/FileUtil.v ===== *)
(** * Files

    base/FileUtil.h and FileUtil.cc.  [Module AppendFile] writes through a stdio
    stream, [Module ReadSmallFile] reads with read(2) and pread(2).
    What the C library and the kernel decide (how much a call accepts or
    delivers, whether it fails, how much of a stream reaches the disk) is an
    argument; the predicates [fwrite_ok] and [read_ok] say what is
    documented of it. *)

From S2P Require Import Prelude.

Local Open Scope Z_scope.

(** ** Streams *)

Module AppendFile.

(** The files on the disk by name, and an open stream: the file's name, the
    bytes that stdio holds back, and writtenBytes_. *)
Abbreviation disk := (gmap bytes bytes).

Record t := mk { name_ : bytes; pending : bytes; writtenBytes_ : Z }.

(** fopen(filename, "ae"): the file is created when it is not there and never
    truncated.  [opens] tells whether that works. *)
Definition ctor (filename : bytes) (opens : bool) (d : disk) : outcome (t * disk) :=
  _ ← assert opens;
  Ok (mk filename [] 0, <[filename := default [] (d !! filename)]> d).

(** Bytes handed to the kernel are appended to the file. *)
Definition to_disk (f : t) (b : bytes) (d : disk) : disk :=
  <[name_ f := default [] (d !! name_ f) ++ b]> d.

Definition fflush (f : t) (d : disk) : t * disk :=
  (mk (name_ f) [] (writtenBytes_ f), to_disk f (pending f) d).

Definition flush (f : t) (d : disk) : t * disk := fflush f d.

(** The destructor: fclose flushes. *)
Definition dtor (f : t) (d : disk) : disk := to_disk f (pending f) d.

(** What one fwrite_unlocked did: how many bytes it accepted, the error
    indicator of the stream afterwards, and how many of the bytes held back it
    handed to the kernel. *)
Record result := mkResult { accepted : Z; ferror : bool; flushed : nat }.

Definition write (logline : bytes) (r : result) (f : t) (d : disk) : t * disk :=
  let all := pending f ++ take (Z.to_nat (accepted r)) logline in
  (mk (name_ f) (drop (flushed r) all) (writtenBytes_ f), to_disk f (take (flushed r) all) d).

(** The C standard: a short count only with the error indicator set. *)
Definition fwrite_ok (len : Z) (r : result) : Prop :=
  0 <= accepted r <= len /\ (accepted r <> len -> ferror r = true).

(** The loop of append; [rs] are the results of its calls in turn, and
    [written] the bytes it counted. *)
Fixpoint append_loop (rs : list result) (logline : bytes) (written : Z) (f : t) (d : disk) : outcome (Z * t * disk) :=
  if written =? zlen logline then Ok (written, f, d) else
  match rs with
  | [] => Fault OutOfFuel
  | r :: rs =>
      let remain := u64 (zlen logline - written) in
      let '(f, d) := write (drop (Z.to_nat written) logline) r f d in
      if negb (accepted r =? remain) && ferror r then Ok (written, f, d)
      else append_loop rs logline (u64 (written + accepted r)) f d
  end.

Definition append (logline : bytes) (rs : list result) (f : t) (d : disk) : outcome (t * disk) :=
  p ← append_loop rs logline 0 f d;
  let '(written, f, d) := p in
  w ← ck64 (writtenBytes_ f + written);
  Ok (mk (name_ f) (pending f) w, d).

(** *** What a file holds: the disk and what stdio holds back *)

Definition contents (f : t) (d : disk) : bytes := default [] (d !! name_ f) ++ pending f.

Lemma contents_write logline r f d :
  let p := write logline r f d in
  contents (fst p) (snd p) = contents f d ++ take (Z.to_nat (accepted r)) logline /\
  name_ (fst p) = name_ f /\ writtenBytes_ (fst p) = writtenBytes_ f /\
  (forall n, n <> name_ f -> snd p !! n = d !! n) /\ is_Some (snd p !! name_ f).
Proof.
  unfold write, contents, to_disk. cbn. rewrite lookup_insert_eq. cbn.
  rewrite <- !app_assoc, take_drop. split; [done|]. split; [done|]. split; [done|].
  split; [intros n Hn; by rewrite lookup_insert_ne|by eexists].
Qed.

Lemma contents_flush f d :
  contents (fst (flush f d)) (snd (flush f d)) = contents f d /\
  snd (flush f d) !! name_ f = Some (contents f d).
Proof.
  unfold flush, fflush, contents, to_disk. cbn. rewrite lookup_insert_eq. cbn. by rewrite app_nil_r.
Qed.

(** A line that stdio accepts is appended in one piece; when it does not, a
    prefix of it is, and the count does not change. *)
Lemma append_ok logline r rs f d :
  fwrite_ok (zlen logline) r -> 0 <= writtenBytes_ f -> writtenBytes_ f + zlen logline <= INT64_MAX ->
  exists f' d', append logline (r :: rs) f d = Ok (f', d') /\ name_ f' = name_ f /\
    (forall n, n <> name_ f -> d' !! n = d !! n) /\
    (ferror r = false \/ accepted r = zlen logline ->
      contents f' d' = contents f d ++ logline /\ writtenBytes_ f' = writtenBytes_ f + zlen logline) /\
    (accepted r <> zlen logline ->
      contents f' d' = contents f d ++ take (Z.to_nat (accepted r)) logline /\ writtenBytes_ f' = writtenBytes_ f).
Proof.
  intros [Hacc Herr] Hw Hmax. pose proof (zlen_nonneg logline). unfold INT64_MAX in *.
  unfold append. cbn [append_loop].
  assert (Hck : forall n, 0 <= n <= zlen logline -> ck64 (writtenBytes_ f + n) = Ok (writtenBytes_ f + n)).
  { intros n Hn. apply ck64_Ok. unfold INT64_MIN, INT64_MAX. lia. }
  destruct (Z.eqb_spec 0 (zlen logline)) as [E|E].
  - cbn [mbind outcome_bind]. rewrite Hck by lia. eexists _, _. split; [done|]. cbn [name_ writtenBytes_].
    assert (logline = []) as -> by (destruct logline; [done|unfold zlen in E; cbn in E; lia]).
    split; [done|]. split; [done|]. unfold contents. cbn. change (zlen (@nil byte)) with 0.
    rewrite take_nil, !app_nil_r, Z.add_0_r. done.
  - rewrite Z.sub_0_r, u64_small by lia. change (Z.to_nat 0) with 0%nat. rewrite drop_0.
    pose proof (contents_write logline r f d) as Hc. destruct (write logline r f d) as [f1 d1]. cbn in Hc.
    destruct Hc as (Hc & Hn & Hb & Hd & Hs).
    destruct (Z.eqb_spec (accepted r) (zlen logline)) as [Ea|Ea]; cbn [negb andb].
    + cbn [append_loop]. rewrite Z.add_0_l, u64_small by lia. rewrite Ea.
      assert (Hl : forall rs, append_loop rs logline (zlen logline) f1 d1 = Ok (zlen logline, f1, d1)).
      { intros []; cbn [append_loop]; by rewrite Z.eqb_refl. }
      rewrite Hl. cbn [mbind outcome_bind]. rewrite Hb, Hck by lia. eexists _, _. split; [done|]. cbn [name_ writtenBytes_].
      split; [done|]. split; [done|]. split; [|done]. intros _. split; [|done].
      change (contents f1 d1 = contents f d ++ logline). by rewrite Hc, Ea, to_nat_zlen, take_ge.
    + rewrite (Herr Ea). cbn [mbind outcome_bind]. rewrite Hb, Hck by lia. eexists _, _. split; [done|]. cbn [name_ writtenBytes_].
      split; [done|]. split; [done|]. split; [by intros [?|?]; congruence|]. intros _. split; [|lia]. exact Hc.
Qed.

End AppendFile.

(** ** Small files *)

Module ReadSmallFile.

Definition kBufferSize : Z := 64 * 1024.

(** [err_] is 0 when the file was opened. *)
Record t := mk { fd_ : Z; err_ : Z; buf_ : bytes }.

(** The constructor: open(2) gives a descriptor, or fails with an errno. *)
Definition ctor (opened : Z + Z) : t :=
  let buf := replicate (Z.to_nat kBufferSize) NUL in
  match opened with inl fd => mk fd 0 buf | inr errno => mk (-1) errno buf end.

(** The destructor closes the descriptor it has. *)
Definition dtor (f : t) : list Z := if 0 <=? fd_ f then [fd_ f] else [].

(** struct stat, as far as it is used *)
Inductive file_kind := Regular | Directory | Other.
Record stat := mkStat { st_kind : file_kind; st_size : Z; st_mtime : Z; st_ctime : Z }.

(** What the pointer arguments received, when they were given and written. *)
Record outputs := mkOutputs {
  err : Z; content : bytes; fileSize : option Z; modifyTime : option Z; createTime : option Z }.

(** The fstat(2) part, when fileSize is asked for; reserve() throws on a
    negative size. *)
Definition read_stat (maxSize : Z) (wantModify wantCreate : bool) (fstat : stat + Z) (o : outputs) : outcome outputs :=
  match fstat with
  | inl st =>
      '(e, size) ← (match st_kind st with
                    | Regular => if Z.min maxSize (st_size st) <? 0 then Fault LengthError else Ok (err o, Some (st_size st))
                    | Directory => Ok (21, fileSize o)     (* EISDIR *)
                    | Other => Ok (err o, fileSize o)
                    end);
      Ok (mkOutputs e (content o) size (if wantModify then Some (st_mtime st) else modifyTime o)
            (if wantCreate then Some (st_ctime st) else createTime o))
  | inr errno => Ok (mkOutputs errno (content o) (fileSize o) (modifyTime o) (createTime o))
  end.

(** The loop: [reads] are the results of read(2) in turn. *)
Fixpoint read_loop (maxSize : Z) (reads : list (bytes + Z)) (o : outputs) : outcome outputs :=
  if zlen (content o) <? u64 maxSize then
    match reads with
    | [] => Fault OutOfFuel
    | inl [] :: _ => Ok o
    | inl b :: reads =>
        (* read(2) must not deliver more than it was asked for *)
        if Z.min (u64 maxSize - zlen (content o)) kBufferSize <? zlen b then Fault OutOfBounds else
        read_loop maxSize reads (mkOutputs (err o) (content o ++ b) (fileSize o) (modifyTime o) (createTime o))
    | inr errno :: _ => Ok (mkOutputs errno (content o) (fileSize o) (modifyTime o) (createTime o))
    end
  else Ok o.

Definition readToString (f : t) (maxSize : Z) (wantSize wantModify wantCreate : bool)
    (fstat : stat + Z) (reads : list (bytes + Z)) (before : bytes) : outcome outputs :=
  if 0 <=? fd_ f then
    let o := mkOutputs (err_ f) [] None None None in
    o ← (if wantSize then read_stat maxSize wantModify wantCreate fstat o else Ok o);
    read_loop maxSize reads o
  else Ok (mkOutputs (err_ f) before None None None).

(** readFile: the constructor, readToString and the destructor. *)
Definition readFile (opened : Z + Z) (maxSize : Z) (wantSize wantModify wantCreate : bool)
    (fstat : stat + Z) (reads : list (bytes + Z)) (before : bytes) : outcome outputs :=
  readToString (ctor opened) maxSize wantSize wantModify wantCreate fstat reads before.

(** readToBuffer: the errno, the size stored through the pointer if anything
    was read, and the buffer. *)
Definition readToBuffer (f : t) (pread : bytes + Z) : outcome (Z * option Z * t) :=
  if 0 <=? fd_ f then
    match pread with
    | inl b =>
        if kBufferSize - 1 <? zlen b then Fault OutOfBounds else
        d ← store (buf_ f) 0 (b ++ [NUL]);
        Ok (err_ f, Some (zlen b), mk (fd_ f) (err_ f) d)
    | inr errno => Ok (errno, None, f)
    end
  else Ok (err_ f, None, f).

(** ** What the kernel may answer *)

(** [reads_of maxSize rest size reads]: [size] bytes have been read and [rest]
    is what the file holds behind them; each read(2) delivers some of the bytes it
    was asked for, and none only at the end of the file. *)
Inductive reads_of (maxSize : Z) : bytes -> Z -> list (bytes + Z) -> Prop :=
  | reads_full rest size reads : maxSize <= size -> reads_of maxSize rest size reads
  | reads_eof size reads : size < maxSize -> reads_of maxSize [] size (inl [] :: reads)
  | reads_some b rest size reads :
      size < maxSize -> b <> [] -> zlen b <= Z.min (maxSize - size) kBufferSize ->
      reads_of maxSize rest (size + zlen b) reads -> reads_of maxSize (b ++ rest) size (inl b :: reads).

Lemma read_loop_reads maxSize rest size reads o :
  0 <= maxSize <= INT_MAX -> reads_of maxSize rest size reads -> zlen (content o) = size ->
  read_loop maxSize reads o =
  Ok (mkOutputs (err o) (content o ++ take (Z.to_nat (maxSize - size)) rest) (fileSize o) (modifyTime o) (createTime o)).
Proof.
  intros Hmax Hr. unfold INT_MAX in Hmax. revert o.
  induction Hr as [rest size reads Hs|size reads Hs|b rest size reads Hs Hb Hl Hr IH]; intros o Hsize.
  - replace (Z.to_nat (maxSize - size)) with 0%nat by lia. rewrite take_0, app_nil_r.
    destruct reads; cbn [read_loop]; rewrite Hsize, u64_small, (proj2 (Z.ltb_ge _ _)) by lia; by destruct o.
  - cbn [read_loop]. rewrite Hsize, u64_small, (proj2 (Z.ltb_lt _ _)), take_nil, app_nil_r by lia. by destruct o.
  - cbn [read_loop]. rewrite Hsize, u64_small, (proj2 (Z.ltb_lt _ _)) by lia.
    destruct b as [|x b']; [done|]. set (b := x :: b') in *. rewrite (proj2 (Z.ltb_ge _ _)) by lia.
    rewrite IH by (cbn [content]; rewrite zlen_app; lia). cbn [err content fileSize modifyTime createTime].
    rewrite <- app_assoc, take_app, (take_ge b) by (unfold zlen in *; lia).
    replace (Z.to_nat (maxSize - (size + zlen b))) with (Z.to_nat (maxSize - size) - length b)%nat
      by (unfold zlen in *; lia). done.
Qed.

(** Reading a file of contents [d] with a limit gives its first maxSize
    bytes however read(2) splits them, never asks for more than the buffer
    holds, and reports success; with fileSize asked for, the size that fstat(2)
    gives comes along. *)
Theorem readFile_reads fd maxSize d reads before mtime ctime wantSize wantModify wantCreate :
  0 <= fd -> 0 <= maxSize <= INT_MAX -> reads_of maxSize d 0 reads ->
  readFile (inl fd) maxSize wantSize wantModify wantCreate (inl (mkStat Regular (zlen d) mtime ctime)) reads before =
  Ok (mkOutputs 0 (take (Z.to_nat maxSize) d) (if wantSize then Some (zlen d) else None)
        (if wantSize && wantModify then Some mtime else None) (if wantSize && wantCreate then Some ctime else None)).
Proof.
  intros Hfd Hmax Hr. pose proof (zlen_nonneg d). unfold readFile, readToString, ctor. cbn [fd_ err_].
  rewrite (proj2 (Z.leb_le _ _)) by lia.
  destruct wantSize; unfold read_stat; cbn [mbind outcome_bind st_kind st_size st_mtime st_ctime].
  - rewrite (proj2 (Z.ltb_ge _ _)) by lia. cbn [mbind outcome_bind].
    rewrite (read_loop_reads maxSize d 0) by done. cbn [err content fileSize modifyTime createTime app].
    rewrite Z.sub_0_r. by destruct wantModify, wantCreate.
  - rewrite (read_loop_reads maxSize d 0) by done. cbn [err content fileSize modifyTime createTime app].
    by rewrite Z.sub_0_r.
Qed.

Lemma readFile_reads_witness :
  reads_of 4 (bs "abcde") 0 [inl (bs "abc"); inl (bs "d")] /\
  readFile (inl 3) 4 true true false (inl (mkStat Regular 5 77 88)) [inl (bs "abc"); inl (bs "d")] [] =
  Ok (mkOutputs 0 (bs "abcd") (Some 5) (Some 77) None).
Proof.
  assert (Hr : reads_of 4 (bs "abcde") 0 [inl (bs "abc"); inl (bs "d")]).
  { apply (reads_some 4 (bs "abc") (bs "de")); [lia|done|vm_compute; congruence|].
    apply (reads_some 4 (bs "d") (bs "e")); [vm_compute; congruence|done|vm_compute; congruence|].
    apply reads_full. vm_compute. congruence. }
  split; [exact Hr|].
  apply (readFile_reads 3 4 (bs "abcde") _ [] 77 88 true true false); [lia|vm_compute; split; congruence|exact Hr].
Defined.

(** A negative limit with fileSize asked for makes reserve() throw. *)
Lemma readFile_negative fd maxSize (d : bytes) reads before mtime ctime wantModify wantCreate :
  0 <= fd -> maxSize < 0 ->
  readFile (inl fd) maxSize true wantModify wantCreate (inl (mkStat Regular (zlen d) mtime ctime)) reads before =
  Fault LengthError.
Proof.
  intros Hfd Hmax. unfold readFile, readToString, ctor. cbn [fd_ err_]. rewrite (proj2 (Z.leb_le _ _)) by lia.
  unfold read_stat. cbn [st_kind st_size]. by rewrite (proj2 (Z.ltb_lt _ _)) by lia.
Qed.

End ReadSmallFile.
