(* ===== verification/GzipFile.v ===== *)
(** * The owners of gzip files

    base/GzipFile.h: objects that own a gzFile, hand it over by moves and close
    it when they are destroyed.  Objects live at addresses; zlib's files are
    numbered in the order of gzopen(3), and what zlib answers is an argument. *)

From S2P Require Import Prelude.

Module GzipFile.

(** The four ways to open *)
Inductive opening := openForRead | openForAppend | openForWriteExclusive | openForWriteTruncate.

Definition mode (o : opening) : bytes :=
  match o with
  | openForRead => bs "rbe"
  | openForAppend => bs "abe"
  | openForWriteExclusive => bs "wbxe"
  | openForWriteTruncate => bs "wbe"
  end.

(** The objects with their [file_], and zlib's side: the files opened, with name
    and mode, and the calls of gzclose *)
Record t := mk { objects : gmap nat (option nat); opened : list (bytes * bytes); closed : list nat }.

Definition empty : t := mk ∅ [] [].

Definition set_file (x : nat) (f : option nat) (s : t) : t := mk (<[x := f]> (objects s)) (opened s) (closed s).

(** The [file_] of an object, which must exist *)
Definition file_ (x : nat) (s : t) : outcome (option nat) :=
  match objects s !! x with Some f => Ok f | None => Fault OutOfBounds end.

(** A constructor makes an object where there is none. *)
Definition fresh (x : nat) (s : t) : outcome unit :=
  match objects s !! x with Some _ => Fault OutOfBounds | None => Ok tt end.

(** gzclose of a file that is open; another one is undefined behaviour. *)
Definition gzclose (h : nat) (s : t) : outcome t :=
  if decide (h ∈ closed s) then Fault OutOfBounds else Ok (mk (objects s) (opened s) (closed s ++ [h])).

(** [openFor...]: gzopen gives a file or NULL. *)
Definition open (o : opening) (name : bytes) (ok : bool) (x : nat) (s : t) : outcome t :=
  _ ← fresh x s;
  if ok then Ok (mk (<[x := Some (length (opened s))]> (objects s)) (opened s ++ [(name, mode o)]) (closed s))
  else Ok (set_file x None s).

(** The move constructor *)
Definition move (x rhs : nat) (s : t) : outcome t :=
  _ ← fresh x s;
  f ← file_ rhs s;
  Ok (set_file rhs None (set_file x f s)).

Definition swap (x rhs : nat) (s : t) : outcome t :=
  f ← file_ x s;
  g ← file_ rhs s;
  Ok (set_file rhs f (set_file x g s)).

(** operator= *)
Definition assign (x rhs : nat) (s : t) : outcome t := swap x rhs s.

Definition valid (x : nat) (s : t) : outcome bool :=
  f ← file_ x s; Ok (match f with Some _ => true | None => false end).

Definition destroy (x : nat) (s : t) : outcome t :=
  f ← file_ x s;
  s ← match f with Some h => gzclose h s | None => Ok s end;
  Ok (mk (delete x (objects s)) (opened s) (closed s)).

(** [read], [write], [tell], [offset]: the answer of zlib, which gives an error
    for NULL and needs an open file otherwise *)
Definition use (x : nat) (null answer : Z) (s : t) : outcome Z :=
  f ← file_ x s;
  match f with
  | Some h => if decide (h ∈ closed s) then Fault OutOfBounds else Ok answer
  | None => Ok null
  end.

Definition read (x : nat) (answer : Z) (s : t) : outcome Z := use x (-1) answer s.
Definition write (x : nat) (answer : Z) (s : t) : outcome Z := use x 0 answer s.
Definition tell (x : nat) (answer : Z) (s : t) : outcome Z := use x (-1) answer s.
Definition offset (x : nat) (answer : Z) (s : t) : outcome Z := use x (-1) answer s.
Definition setBuffer (x : nat) (answer : Z) (s : t) : outcome bool := r ← use x (-1) answer s; Ok (r =? 0)%Z.

Inductive call := Open (o : opening) (name : bytes) (ok : bool) (x : nat) | Move (x rhs : nat) | Assign (x rhs : nat)
  | Swap (x rhs : nat) | Destroy (x : nat) | Use (x : nat) (answer : Z).

Definition step (c : call) (s : t) : outcome t :=
  match c with
  | Open o name ok x => open o name ok x s
  | Move x rhs => move x rhs s
  | Assign x rhs => assign x rhs s
  | Swap x rhs => swap x rhs s
  | Destroy x => destroy x s
  | Use x answer => _ ← use x (-1) answer s; Ok s
  end.

Fixpoint run (cs : list call) (s : t) : outcome t :=
  match cs with [] => Ok s | c :: cs => s ← step c s; run cs s end.

(** What C++ asks of a program: constructors where there is no object, the rest
    on objects that exist. *)
Definition here (x : nat) (s : t) : bool := match objects s !! x with Some _ => true | None => false end.

Definition lawful (c : call) (s : t) : bool :=
  match c with
  | Open _ _ _ x => negb (here x s)
  | Move x rhs => negb (here x s) && here rhs s
  | Assign x rhs | Swap x rhs => here x s && here rhs s
  | Destroy x | Use x _ => here x s
  end.

Inductive reachable : t -> Prop :=
  | reach_empty : reachable empty
  | reach_step c s s' : reachable s -> lawful c s = true -> step c s = Ok s' -> reachable s'.

(** Every file is open in exactly one object, or was closed once. *)
Record inv (s : t) : Prop := {
  inv_open x h : objects s !! x = Some (Some h) -> h < length (opened s) /\ h ∉ closed s;
  inv_one x y h : objects s !! x = Some (Some h) -> objects s !! y = Some (Some h) -> x = y;
  inv_all h : h < length (opened s) -> h ∈ closed s \/ exists x, objects s !! x = Some (Some h);
  inv_closed : NoDup (closed s) /\ (forall h, h ∈ closed s -> h < length (opened s));
}.

Lemma here_file x s : here x s = true -> exists f, objects s !! x = Some f /\ file_ x s = Ok f.
Proof. unfold here, file_. destruct (objects s !! x); [eauto|done]. Qed.

Lemma here_not x s : negb (here x s) = true -> objects s !! x = None /\ fresh x s = Ok tt.
Proof. unfold here, fresh. by destruct (objects s !! x). Qed.

(** Two objects exchange their files; one of them may be new. *)
Lemma exchange_inv x y f g s :
  inv s -> (x = y -> f = g) -> objects s !! y = Some g -> objects s !! x = Some f \/ (objects s !! x = None /\ f = None) ->
  inv (set_file y f (set_file x g s)).
Proof.
  intros [H1 H2 H3 H4] Hxy Hy Hx. assert (forall z h, <[y := f]> (<[x := g]> (objects s)) !! z = Some (Some h) ->
    exists w, objects s !! w = Some (Some h) /\ (z = y /\ w = x \/ z = x /\ w = y \/ z <> x /\ z <> y /\ w = z)) as Hl.
  { intros z h. destruct (decide (y = z)) as [<-|Hyz].
    - rewrite lookup_insert_eq. intros [= ->]. exists x. destruct Hx as [Hx|[_ ?]]; [auto|done].
    - rewrite lookup_insert_ne by done. destruct (decide (x = z)) as [<-|Hxz].
      + rewrite lookup_insert_eq. intros [= ->]. exists y. auto.
      + rewrite lookup_insert_ne by done. intros. exists z. split; [done|]. right. right. done. }
  constructor; cbn [set_file objects opened closed]; [| | |done].
  - intros z h (w & Hw & _)%Hl. by eapply H1.
  - intros z z' h (w & Hw & Hz)%Hl (w' & Hw' & Hz')%Hl. specialize (H2 _ _ _ Hw Hw'). destruct_or!; destruct_and!; congruence.
  - intros h [Hh|[z Hz]]%H3; [by left|]. right. destruct (decide (z = x)) as [->|Hzx]; [|destruct (decide (z = y)) as [->|Hzy]].
    + exists y. rewrite lookup_insert_eq. destruct Hx as [Hx|[Hx _]]; congruence.
    + exists x. rewrite lookup_insert_ne by done. rewrite lookup_insert_eq. congruence.
    + exists z. by rewrite !lookup_insert_ne by done.
Qed.

Lemma open_inv o name ok x s :
  inv s -> objects s !! x = None -> fresh x s = Ok tt -> exists s', open o name ok x s = Ok s' /\ inv s'.
Proof.
  intros [H1 H2 H3 [H4 H5]] Hx Hf. unfold open. rewrite Hf. cbn [mbind outcome_bind]. destruct ok; eexists; (split; [done|]).
  - assert (length (opened s) ∉ closed s) as Hn by (intros Hh%H5; lia).
    constructor; cbn [objects opened closed]; rewrite ?length_app; cbn [length].
    + intros z h [[<- [= <-]]|[Hz Hl]]%lookup_insert_Some; [split; [lia|done]|]. destruct (H1 _ _ Hl). split; [lia|done].
    + intros z z' h [[<- [= <-]]|[Hz Hl]]%lookup_insert_Some [[<- Hh]|[Hz' Hl']]%lookup_insert_Some; try done.
      * destruct (H1 _ _ Hl') as [H _]. lia.
      * injection Hh as <-. destruct (H1 _ _ Hl) as [H _]. lia.
      * by eapply H2.
    + intros h Hh. destruct (decide (h = length (opened s))) as [->|Hne].
      * right. exists x. by rewrite lookup_insert_eq.
      * destruct (H3 h) as [?|[z Hz]]; [lia|by left|]. right. exists z. rewrite lookup_insert_ne by congruence. done.
    + split; [done|]. intros h Hh%H5. lia.
  - constructor; cbn [set_file objects opened closed]; [| | |done].
    + intros z h [[_ ?]|[_ Hl]]%lookup_insert_Some; [done|by eapply H1].
    + intros z z' h [[_ ?]|[_ Hl]]%lookup_insert_Some [[_ ?]|[_ Hl']]%lookup_insert_Some; try done. by eapply H2.
    + intros h [?|[z Hz]]%H3; [by left|]. right. exists z. rewrite lookup_insert_ne by congruence. done.
Qed.

Lemma destroy_inv x s f :
  inv s -> objects s !! x = Some f -> file_ x s = Ok f -> exists s', destroy x s = Ok s' /\ inv s'.
Proof.
  intros [H1 H2 H3 [H4 H5]] Hx Hf. unfold destroy. rewrite Hf. cbn [mbind outcome_bind]. destruct f as [h|].
  - destruct (H1 _ _ Hx) as [Hh Hc]. unfold gzclose. rewrite decide_False by done. cbn [mbind outcome_bind objects opened closed].
    eexists. split; [done|]. constructor; cbn [objects opened closed].
    + intros z k [Hz Hl]%lookup_delete_Some. destruct (H1 _ _ Hl). split; [done|].
      intros [?| ->%list_elem_of_singleton]%elem_of_app; [done|]. destruct Hz. by eapply H2.
    + intros z z' k [_ Hl]%lookup_delete_Some [_ Hl']%lookup_delete_Some. by eapply H2.
    + intros k [Hk|[z Hz]]%H3; [left; set_solver|]. destruct (decide (z = x)) as [->|Hne]; [left; set_solver|].
      right. exists z. by rewrite lookup_delete_ne.
    + split; [apply list.NoDup_app; split_and!; [done|set_solver|apply NoDup_singleton]|set_solver].
  - eexists. split; [done|]. constructor; cbn [objects opened closed]; [| | |done].
    + intros z k [_ Hl]%lookup_delete_Some. by eapply H1.
    + intros z z' k [_ Hl]%lookup_delete_Some [_ Hl']%lookup_delete_Some. by eapply H2.
    + intros k [?|[z Hz]]%H3; [by left|]. right. exists z. rewrite lookup_delete_ne; [done|congruence].
Qed.

Lemma use_ok x null answer s :
  inv s -> here x s = true -> exists r, use x null answer s = Ok r.
Proof.
  intros [H1 _ _ _] (f & Hx & Hf)%here_file. unfold use. rewrite Hf. cbn [mbind outcome_bind]. destruct f as [h|]; [|eauto].
  rewrite decide_False by (by eapply H1). eauto.
Qed.

Lemma gzip_step_inv c s : inv s -> lawful c s = true -> exists s', step c s = Ok s' /\ inv s'.
Proof.
  intros Hinv. destruct c as [o name ok x|x rhs|x rhs|x rhs|x|x answer]; cbn [lawful step].
  - intros [Hx Hf]%here_not. by apply open_inv.
  - intros [[Hx Hf]%here_not (g & Hr & Hg)%here_file]%andb_prop. unfold move. rewrite Hf. cbn [mbind outcome_bind]. rewrite Hg.
    cbn [mbind outcome_bind]. eexists. split; [done|]. apply exchange_inv; [done|congruence|done|by right].
  - intros [(f & Hx & Hf)%here_file (g & Hr & Hg)%here_file]%andb_prop. unfold assign, swap. rewrite Hf. cbn [mbind outcome_bind]. rewrite Hg.
    cbn [mbind outcome_bind]. eexists. split; [done|]. apply exchange_inv; [done|congruence|done|by left].
  - intros [(f & Hx & Hf)%here_file (g & Hr & Hg)%here_file]%andb_prop. unfold swap. rewrite Hf. cbn [mbind outcome_bind]. rewrite Hg.
    cbn [mbind outcome_bind]. eexists. split; [done|]. apply exchange_inv; [done|congruence|done|by left].
  - intros (f & Hx & Hf)%here_file. by eapply destroy_inv.
  - intros Hx. destruct (use_ok x (-1) answer s Hinv Hx) as [r Hr]. rewrite Hr. cbn [mbind outcome_bind]. by exists s.
Qed.

Lemma gzip_reachable_inv s : reachable s -> inv s.
Proof.
  induction 1 as [|c s s' _ IH Hl Hs].
  - constructor; cbn; [done|done|lia|]. split; [apply NoDup_nil_2|]. intros h Hh. by apply elem_of_nil in Hh.
  - destruct (gzip_step_inv c s IH Hl) as (x & Hx & Hi). congruence.
Qed.

(** Whatever a lawful program does with its objects, no file is used or closed
    after it was closed; every file is open in one object or was closed once,
    and when no object is left all files are closed. *)
Theorem gzip_files_owned s :
  reachable s ->
  (forall c, lawful c s = true -> returns (step c s)) /\ NoDup (closed s) /\
  (forall h, h < length (opened s) -> (h ∈ closed s /\ forall x, objects s !! x <> Some (Some h)) \/
     (h ∉ closed s /\ exists x, forall y, objects s !! y = Some (Some h) <-> y = x)) /\
  (objects s = ∅ -> closed s ≡ₚ seq 0 (length (opened s))).
Proof.
  intros Hinv%gzip_reachable_inv. pose proof Hinv as [H1 H2 H3 [H4 H5]]. split_and!; [|done| |].
  - intros c Hc. destruct (gzip_step_inv c s Hinv Hc) as (s' & Hs & _). by exists s'.
  - intros h Hh. destruct (H3 h Hh) as [Hc|[x Hx]].
    + left. split; [done|]. intros x Hx. by destruct (H1 _ _ Hx).
    + right. split; [by eapply H1|]. exists x. intros y. split; [intros Hy; by eapply H2|by intros ->].
  - intros He. apply NoDup_Permutation; [done|apply NoDup_seq|]. intros h. rewrite elem_of_seq. split; [intros Hh%H5; lia|].
    intros [_ Hh]. destruct (H3 h Hh) as [?|[x Hx]]; [done|]. rewrite He, lookup_empty in Hx. done.
Qed.

(** Move assignment exchanges the files: that of the left-hand side stays open
    in the right-hand side until that one is destroyed. *)
Theorem assign_keeps_open x y f g s :
  x <> y -> objects s !! x = Some f -> objects s !! y = Some g ->
  exists s', assign x y s = Ok s' /\ objects s' !! x = Some g /\ objects s' !! y = Some f /\ closed s' = closed s /\
    (forall z, z <> x -> z <> y -> objects s' !! z = objects s !! z).
Proof.
  intros Hne Hx Hy. unfold assign, swap, file_. rewrite Hx. cbn [mbind outcome_bind]. rewrite Hy. cbn [mbind outcome_bind].
  eexists. split; [done|]. cbn [set_file objects closed]. rewrite lookup_insert_eq, lookup_insert_ne, lookup_insert_eq by done.
  split_and!; try done. intros z Hz Hz'. by rewrite !lookup_insert_ne by done.
Qed.

(** ** At concrete inputs *)

Definition two : t := mk {[0 := Some 0; 1 := Some 1]} [(bs "a.gz", bs "rbe"); (bs "b.gz", bs "wbe")] [].

Lemma two_reachable : reachable two.
Proof.
  eapply (reach_step (Open openForWriteTruncate (bs "b.gz") true 1) (mk {[0 := Some 0]} [(bs "a.gz", bs "rbe")] [])); [|done|].
  - eapply (reach_step (Open openForRead (bs "a.gz") true 0) empty); [apply reach_empty|done|by vm_compute].
  - by vm_compute.
Qed.

Lemma gzip_files_owned_witness : returns (step (Assign 0 1) two) /\ NoDup (closed two).
Proof.
  destruct (gzip_files_owned two two_reachable) as (H1 & H2 & _). split; [exact (H1 (Assign 0 1) eq_refl)|exact H2].
Defined.

Lemma assign_keeps_open_witness :
  exists s', assign 0 1 two = Ok s' /\ objects s' !! 0 = Some (Some 1) /\ objects s' !! 1 = Some (Some 0) /\ closed s' = closed two /\
    (forall z, z <> 0 -> z <> 1 -> objects s' !! z = objects two !! z).
Proof. apply (assign_keeps_open 0 1 (Some 0) (Some 1) two); [lia|reflexivity|reflexivity]. Defined.

End GzipFile.
