(* ===== verification/Clock.v ===== *)
(** * Broken-down time as text

    gmtime_r and the conversions of printf and strftime that base/Timestamp.cc,
    LogFile.cc and Logging.cc use, and Timestamp::toFormattedString on them.
    For the years 1970 to 9999 the texts have a fixed length and a time can be read
    back from them. *)

From S2P Require Import Prelude Timestamp Calendar.

Local Open Scope Z_scope.

Module Clock.

(** struct tm, as far as it is used *)
Record tm := mkTm { tm_year : Z; tm_mon : Z; tm_mday : Z; tm_hour : Z; tm_min : Z; tm_sec : Z }.

Definition day_seconds : Z := 24 * 60 * 60.

(** gmtime_r: the proleptic Gregorian calendar, in UTC. *)
Definition gmtime (t : Z) : tm :=
  let ymd := Date.gregorian (t / day_seconds + Date.kJulianDayOf1970_01_01) in
  let s := t mod day_seconds in
  mkTm (Date.year ymd - 1900) (Date.month ymd - 1) (Date.day ymd) (s / 3600) (s mod 3600 / 60) (s mod 60).

Definition timegm (x : tm) : Z :=
  (Date.julian (Date.mkYMD (tm_year x + 1900) (tm_mon x + 1) (tm_mday x)) - Date.kJulianDayOf1970_01_01) * day_seconds
  + tm_hour x * 3600 + tm_min x * 60 + tm_sec x.

(** "%4d%02d%02d" and "%02d:%02d:%02d" *)
Definition date_text (y m d : Z) : bytes :=
  Date.pad 4 (dec y) ++ Timestamp.dec0 2 m ++ Timestamp.dec0 2 d.
Definition time_text (h m s : Z) : bytes :=
  Timestamp.dec0 2 h ++ bs ":" ++ Timestamp.dec0 2 m ++ bs ":" ++ Timestamp.dec0 2 s.

Definition toFormattedString (showMicroseconds : bool) (ts : Timestamp.t) : bytes :=
  let seconds := Z.quot ts Timestamp.kMicroSecondsPerSecond in
  let x := gmtime seconds in
  let text := date_text (tm_year x + 1900) (tm_mon x + 1) (tm_mday x) ++ bs " " ++
              time_text (tm_hour x) (tm_min x) (tm_sec x) in
  Timestamp.snprintf 64
    (if showMicroseconds
     then text ++ bs "." ++ Timestamp.dec0 6 (i32 (Z.rem ts Timestamp.kMicroSecondsPerSecond))
     else text).

(** ** Numbers of a fixed width *)

Definition num (s : bytes) : Z := undigits 10 (map digit_val (rev s)).

Lemma undigits_zeros l n : undigits 10 (l ++ replicate n 0) = undigits 10 l.
Proof.
  induction l as [|d l IH]; cbn [app undigits]; [|by rewrite IH].
  induction n as [|n IH]; cbn [replicate undigits]; [done|lia].
Qed.

Lemma digits_ok z : 0 <= z ->
  (forall d, d ∈ digits (digit_fuel z) 10 z -> 0 <= d < 10) /\ undigits 10 (digits (digit_fuel z) 10 z) = z.
Proof.
  intros Hz. split; [intros d Hd; by eapply digits_range, Hd|].
  apply undigits_digits; [lia|]. split; [done|]. by apply digit_fuel_enough.
Qed.

Lemma num_digits n z : 0 <= z ->
  num (replicate n (digit_char 0) ++ map digit_char (rev (digits (digit_fuel z) 10 z))) = z.
Proof.
  intros Hz. destruct (digits_ok z Hz) as [Hd Hu]. unfold num.
  rewrite rev_app_distr, <- map_rev, rev_involutive, map_app, (map_digit_val _ Hd).
  replace (map digit_val (rev (replicate n (digit_char 0)))) with (replicate n 0); [by rewrite undigits_zeros|].
  clear. induction n as [|n IH]; [done|]. rewrite (replicate_S_end n (digit_char 0)), rev_app_distr, map_app, <- IH. done.
Qed.

(** [%0wd] of a number with at most [w] digits *)
Lemma dec0_fixed w z : (0 < w)%nat -> 0 <= z < 10 ^ Z.of_nat w ->
  length (Timestamp.dec0 w z) = w /\ num (Timestamp.dec0 w z) = z.
Proof.
  intros Hw Hz. unfold Timestamp.dec0. rewrite (proj2 (Z.ltb_ge z 0)), Z.abs_eq by lia. cbn [app length].
  pose proof (digits_length (digit_fuel z) 10 z w ltac:(lia) ltac:(lia) Hw ltac:(lia)).
  rewrite length_app, length_replicate, length_map, length_rev. split; [lia|]. apply num_digits. lia.
Qed.

Lemma undigits_lt l : (forall d, d ∈ l -> 0 <= d < 10) -> undigits 10 l < 10 ^ Z.of_nat (length l).
Proof.
  induction l as [|d l IH]; intros Hl; [done|]. cbn [undigits length].
  rewrite Nat2Z.inj_succ, Z.pow_succ_r by lia.
  assert (0 <= d < 10) by (apply Hl; by left). assert (undigits 10 l < 10 ^ Z.of_nat (length l)); [|lia].
  apply IH. intros x Hx. apply Hl. by right.
Qed.

(** [%d] of a year with four digits *)
Lemma dec_four z : 1000 <= z <= 9999 -> dec z = Timestamp.dec0 4 z /\ Date.pad 4 (dec z) = Timestamp.dec0 4 z.
Proof.
  intros Hz. unfold Date.pad.
  assert (E : dec z = Timestamp.dec0 4 z).
  { unfold dec, Timestamp.dec0. rewrite (proj2 (Z.ltb_ge z 0)), Z.abs_eq by lia. cbn [app length].
    rewrite length_map, length_rev. replace (4 - 0 - _)%nat with 0%nat; [done|].
    assert (3 < length (digits (digit_fuel z) 10 z))%nat; [|lia].
    apply Nat.nle_gt. intros Hle. destruct (digits_ok z ltac:(lia)) as [Hd Hu].
    pose proof (undigits_lt _ Hd) as Hlt.
    assert (10 ^ Z.of_nat (length (digits (digit_fuel z) 10 z)) <= 10 ^ 3) by (apply Z.pow_le_mono_r; lia). lia. }
  split; [done|]. rewrite E. destruct (dec0_fixed 4 z ltac:(lia) ltac:(lia)) as [-> _]. done.
Qed.

(** ** Years 1970 to 9999 *)

Definition last_second : Z := 253402300799.

Lemma year_range x :
  1 <= Date.month x <= 12 -> 1 <= Date.day x <= 31 -> 2440588 <= Date.julian x <= 5373484 ->
  1970 <= Date.year x <= 9999.
Proof.
  intros Hm Hd. unfold Date.julian. rewrite <- Date.years_days.
  unfold Date.march_year, Date.march_month, Date.month_days.
  destruct (Z.leb_spec (Date.month x) 2); dlia.
Qed.

(** What gmtime_r gives in those years, and that timegm inverts it. *)
Lemma gmtime_range t : 0 <= t <= last_second ->
  let x := gmtime t in
  1970 <= tm_year x + 1900 <= 9999 /\ 1 <= tm_mon x + 1 <= 12 /\ 1 <= tm_mday x <= 31 /\
  0 <= tm_hour x < 24 /\ 0 <= tm_min x < 60 /\ 0 <= tm_sec x < 60 /\ timegm x = t.
Proof.
  intros Ht x. unfold last_second in Ht. set (days := t / day_seconds). set (s := t mod day_seconds).
  assert (Hdays : 0 <= days <= 2932896) by (unfold days, day_seconds; dlia).
  assert (Hs : 0 <= s < 86400) by (unfold s, day_seconds; dlia).
  assert (Et : t = days * day_seconds + s) by (unfold days, s, day_seconds; dlia).
  set (j := days + Date.kJulianDayOf1970_01_01).
  assert (Hj : 2440588 <= j <= 5373484) by (unfold j, Date.kJulianDayOf1970_01_01; lia).
  destruct (Date.julian_gregorian j) as [(Hy & Hm & Hd) Hinv]; [unfold Date.first_day; lia|lia|].
  pose proof (Date.month_length_bounds (Date.year (Date.gregorian j)) (Date.month (Date.gregorian j))).
  assert (Hyear : 1970 <= Date.year (Date.gregorian j) <= 9999) by (apply year_range; [done|lia|by rewrite Hinv]).
  assert (Ex : x = mkTm (Date.year (Date.gregorian j) - 1900) (Date.month (Date.gregorian j) - 1)
    (Date.day (Date.gregorian j)) (s / 3600) (s mod 3600 / 60) (s mod 60)) by done.
  assert (Ej : j = days + Date.kJulianDayOf1970_01_01) by done.
  clearbody x j s days. subst x. cbn [tm_year tm_mon tm_mday tm_hour tm_min tm_sec]. unfold timegm.
  cbn [tm_year tm_mon tm_mday tm_hour tm_min tm_sec].
  rewrite !Z.sub_add. replace (Date.mkYMD _ _ _) with (Date.gregorian j) by by destruct (Date.gregorian j).
  rewrite Hinv. split; [done|]. split; [done|]. split; [lia|]. rewrite Ej, Z.add_simpl_r. clear -Hs Et.
  split; [dlia|]. split; [dlia|]. split; [dlia|]. rewrite Et. clear Et. dlia.
Qed.

(** ** Reading the text back *)

Definition slice (i n : nat) (s : bytes) : bytes := take n (drop i s).

(** "YYYYMMDD", a separator, "HH:MM:SS" *)
Definition read_formatted (s : bytes) : tm :=
  mkTm (num (slice 0 4 s) - 1900) (num (slice 4 2 s) - 1) (num (slice 6 2 s))
       (num (slice 9 2 s)) (num (slice 12 2 s)) (num (slice 15 2 s)).

(** Fields of a fixed width are where they are expected. *)
Lemma fields (y mo d h mi s : bytes) (sep c1 c2 : byte) rest :
  length y = 4%nat -> length mo = 2%nat -> length d = 2%nat -> length h = 2%nat -> length mi = 2%nat -> length s = 2%nat ->
  let text := (y ++ mo ++ d) ++ [sep] ++ (h ++ [c1] ++ mi ++ [c2] ++ s) ++ rest in
  slice 0 4 text = y /\ slice 4 2 text = mo /\ slice 6 2 text = d /\ slice 9 2 text = h /\
  slice 12 2 text = mi /\ slice 15 2 text = s /\ drop 17 text = rest.
Proof.
  intros Hy Hmo Hd Hh Hmi Hs. cbv zeta.
  destruct y as [|? [|? [|? [|? [|]]]]]; try discriminate.
  repeat match goal with
  | l : bytes |- _ => match goal with Hl : length l = 2%nat |- _ =>
      destruct l as [|? [|? [|]]]; try discriminate; clear Hl end
  end.
  done.
Qed.

(** The text of a time in those years: its length, and the time in it. *)
Lemma text_read_back t rest : 0 <= t <= last_second ->
  let x := gmtime t in
  let text := date_text (tm_year x + 1900) (tm_mon x + 1) (tm_mday x) ++ bs " " ++
              time_text (tm_hour x) (tm_min x) (tm_sec x) in
  length text = 17%nat /\ timegm (read_formatted (text ++ rest)) = t /\ drop 17 (text ++ rest) = rest.
Proof.
  intros Ht x text. pose proof (gmtime_range t Ht) as (Hy & Hmo & Hd & Hh & Hmi & Hs & Hinv). fold x in Hy, Hmo, Hd, Hh, Hmi, Hs, Hinv.
  destruct (dec_four (tm_year x + 1900)) as [_ Ey]; [lia|].
  destruct (dec0_fixed 4 (tm_year x + 1900)) as [Ly Ny]; [lia|lia|].
  destruct (dec0_fixed 2 (tm_mon x + 1)) as [Lmo Nmo]; [lia|lia|].
  destruct (dec0_fixed 2 (tm_mday x)) as [Ld Nd]; [lia|lia|].
  destruct (dec0_fixed 2 (tm_hour x)) as [Lh Nh]; [lia|lia|].
  destruct (dec0_fixed 2 (tm_min x)) as [Lmi Nmi]; [lia|lia|].
  destruct (dec0_fixed 2 (tm_sec x)) as [Ls Ns]; [lia|lia|].
  unfold text, date_text, time_text. rewrite Ey. split.
  { repeat (rewrite length_app || cbn [length]). change (length (bs " ")) with 1%nat. change (length (bs ":")) with 1%nat. lia. }
  pose proof (fields _ _ _ _ _ _ Init.Byte.x20 Init.Byte.x3a Init.Byte.x3a rest Ly Lmo Ld Lh Lmi Ls) as HF.
  cbv zeta in HF. change (bs " ") with [Init.Byte.x20]. change (bs ":") with [Init.Byte.x3a].
  rewrite <- !app_assoc in *. destruct HF as (F1 & F2 & F3 & F4 & F5 & F6 & F7).
  split; [|exact F7]. unfold read_formatted. 
  rewrite F1, F2, F3, F4, F5, F6, Ny, Nmo, Nd, Nh, Nmi, Ns, !Z.add_simpl_r. by destruct x.
Qed.

(** For a time stamp of the years 1970 to 9999 toFormattedString gives
    17 characters, or 24 with the microseconds, and the time stamp can be read back
    from them: distinct times print differently. *)
Theorem formatted_read_back ts :
  0 <= ts -> ts / Timestamp.kMicroSecondsPerSecond <= last_second ->
  let s := toFormattedString false ts in
  let s' := toFormattedString true ts in
  length s = 17%nat /\ length s' = 24%nat /\
  timegm (read_formatted s) = ts / Timestamp.kMicroSecondsPerSecond /\
  timegm (read_formatted s') * Timestamp.kMicroSecondsPerSecond + num (drop 18 s') = ts.
Proof.
  intros Hts Hlast. assert (Hq : Z.quot ts Timestamp.kMicroSecondsPerSecond = ts / Timestamp.kMicroSecondsPerSecond).
  { apply Z.quot_div_nonneg; unfold Timestamp.kMicroSecondsPerSecond; lia. }
  assert (Hr : Z.rem ts Timestamp.kMicroSecondsPerSecond = ts mod Timestamp.kMicroSecondsPerSecond).
  { apply Z.rem_mod_nonneg; unfold Timestamp.kMicroSecondsPerSecond; lia. }
  pose proof (Z.mod_pos_bound ts Timestamp.kMicroSecondsPerSecond ltac:(done)) as Hm.
  assert (Hus : 0 <= ts mod Timestamp.kMicroSecondsPerSecond < 1000000) by exact Hm.
  set (t := ts / Timestamp.kMicroSecondsPerSecond) in *. set (us := ts mod Timestamp.kMicroSecondsPerSecond) in *.
  assert (Ht : 0 <= t <= last_second) by (split; [|done]; unfold t; apply Z.div_pos; [lia|done]).
  unfold toFormattedString. rewrite Hq, Hr, i32_small by (unfold INT_MIN, INT_MAX; lia).
  destruct (dec0_fixed 6 us) as [L6 N6]; [lia|lia|].
  pose proof (text_read_back t [] Ht) as (HL & HR & _). pose proof (text_read_back t (bs "." ++ Timestamp.dec0 6 us) Ht) as (_ & HR' & HD).
  cbv zeta in *. rewrite app_nil_r in HR. set (text := date_text _ _ _ ++ _) in *. clearbody text.
  assert (HL' : length (text ++ bs "." ++ Timestamp.dec0 6 us) = 24%nat).
  { rewrite !length_app, HL, L6. done. }
  unfold Timestamp.snprintf. rewrite !take_ge by lia. split; [done|]. split; [done|]. split; [done|].
  rewrite HR'. change 18%nat with (17 + 1)%nat. rewrite <- drop_drop, HD.
  change (drop 1 (bs "." ++ Timestamp.dec0 6 us)) with (Timestamp.dec0 6 us). rewrite N6.
  unfold t, us. rewrite Z.mul_comm. symmetry. by apply Z.div_mod.
Qed.

Lemma formatted_read_back_witness :
  toFormattedString true 1700000000123456 = bs "20231114 22:13:20.123456" /\
  timegm (read_formatted (toFormattedString false 1700000000123456)) = 1700000000.
Proof.
  split; [vm_compute; reflexivity|].
  apply (formatted_read_back 1700000000123456); [lia|vm_compute; congruence].
Defined.

End Clock.
