(* ===== verification/LogFile.v ===== *)
(** * Log files

    base/LogFile.h and LogFile.cc: lines are appended to a file that is replaced
    by a new one when it is too large or a new day begins, at most once in a
    second, and flushed now and then.  The clock, the results of fwrite and the
    success of fopen are arguments of each call; the file system is the map of
    files of FileUtil.v.  A LogFile that is shared by threads does each
    operation under its mutex, so operations follow each other. *)

From stdpp Require Import sorting.
From S2P Require Import Prelude Timestamp Calendar Clock FileUtil.

Local Open Scope Z_scope.

Module LogFile.
Section LogFile.

(** ProcessInfo::hostname() and pid() *)
Context (hostname : bytes) (pid : Z).

Definition kRollPerSeconds_ : Z := 60 * 60 * 24.

Record t := mk {
  basename_ : bytes;
  rollSize_ : Z;
  flushInterval_ : Z;
  checkEveryN_ : Z;
  count_ : Z;
  startOfPeriod_ : Z;
  lastRoll_ : Z;
  lastFlush_ : Z;
  file_ : option AppendFile.t;
}.

Definition with_count n l := mk (basename_ l) (rollSize_ l) (flushInterval_ l) (checkEveryN_ l) n
  (startOfPeriod_ l) (lastRoll_ l) (lastFlush_ l) (file_ l).
Definition with_file f l := mk (basename_ l) (rollSize_ l) (flushInterval_ l) (checkEveryN_ l) (count_ l)
  (startOfPeriod_ l) (lastRoll_ l) (lastFlush_ l) (Some f).
Definition with_lastFlush n l := mk (basename_ l) (rollSize_ l) (flushInterval_ l) (checkEveryN_ l) (count_ l)
  (startOfPeriod_ l) (lastRoll_ l) n (file_ l).

(** strftime's ".%Y%m%d-%H%M%S." *)
Definition time_part (now : Z) : bytes :=
  let x := Clock.gmtime now in
  bs "." ++ dec (Clock.tm_year x + 1900) ++ Timestamp.dec0 2 (Clock.tm_mon x + 1) ++ Timestamp.dec0 2 (Clock.tm_mday x) ++
  bs "-" ++ Timestamp.dec0 2 (Clock.tm_hour x) ++ Timestamp.dec0 2 (Clock.tm_min x) ++ Timestamp.dec0 2 (Clock.tm_sec x) ++ bs ".".

(** getLogFileName at the time [now] *)
Definition getLogFileName (basename : bytes) (now : Z) : bytes :=
  basename ++ time_part now ++ hostname ++ Timestamp.snprintf 32 (bs "." ++ dec pid) ++ bs ".log".

(** The start of the period of a time; the division truncates. *)
Definition period (now : Z) : Z := Z.quot now kRollPerSeconds_ * kRollPerSeconds_.

(** rollFile at the time [now]: whether it rolled.  The new file is opened
    before the old one is closed. *)
Definition rollFile (now : Z) (opens : bool) (l : t) (d : AppendFile.disk) : outcome (bool * t * AppendFile.disk) :=
  let filename := getLogFileName (basename_ l) now in
  let start := period now in
  if lastRoll_ l <? now then
    p ← AppendFile.ctor filename opens d;
    let d := match file_ l with Some f => AppendFile.dtor f (snd p) | None => snd p end in
    Ok (true, mk (basename_ l) (rollSize_ l) (flushInterval_ l) (checkEveryN_ l) (count_ l)
                start now now (Some (fst p)), d)
  else Ok (false, l, d).

(** The constructor; [basename] must not have a slash. *)
Definition ctor (basename : bytes) (rollSize flushInterval checkEveryN now : Z) (opens : bool)
    (d : AppendFile.disk) : outcome (t * AppendFile.disk) :=
  _ ← assert (bool_decide (Init.Byte.x2f ∉ basename));
  p ← rollFile now opens (mk basename rollSize flushInterval checkEveryN 0 0 0 0 None) d;
  Ok (snd (fst p), snd p).

(** [file_->...] on a null pointer *)
Definition get_file (l : t) : outcome AppendFile.t :=
  match file_ l with Some f => Ok f | None => Fault OutOfBounds end.

Definition flush (l : t) (d : AppendFile.disk) : outcome (t * AppendFile.disk) :=
  f ← get_file l;
  let '(f, d) := AppendFile.flush f d in Ok (with_file f l, d).

(** What the environment does during one append: the results of fwrite, the
    time when append_unlocked asks for it and when rollFile does, and whether
    fopen succeeds. *)
Record env := mkEnv { e_writes : list AppendFile.result; e_now : Z; e_roll : Z; e_opens : bool }.

Definition append_unlocked (logline : bytes) (e : env) (l : t) (d : AppendFile.disk) : outcome (t * AppendFile.disk) :=
  f ← get_file l;
  p ← AppendFile.append logline (e_writes e) f d;
  let '(f, d) := p in
  let l := with_file f l in
  if rollSize_ l <? AppendFile.writtenBytes_ f then
    p ← rollFile (e_roll e) (e_opens e) l d; Ok (snd (fst p), snd p)
  else
    n ← ck32 (count_ l + 1);
    let l := with_count n l in
    if checkEveryN_ l <=? count_ l then
      let l := with_count 0 l in
      let now := e_now e in
      if negb (period now =? startOfPeriod_ l) then
        p ← rollFile (e_roll e) (e_opens e) l d; Ok (snd (fst p), snd p)
      else if flushInterval_ l <? now - lastFlush_ l then
        let '(f, d) := AppendFile.flush f d in
        Ok (with_file f (with_lastFlush now l), d)
      else Ok (l, d)
    else Ok (l, d).

Definition append (logline : bytes) (e : env) (l : t) (d : AppendFile.disk) : outcome (t * AppendFile.disk) :=
  append_unlocked logline e l d.

(** The destructor closes the file. *)
Definition dtor (l : t) (d : AppendFile.disk) : AppendFile.disk :=
  match file_ l with Some f => AppendFile.dtor f d | None => d end.

(** The operations of a client *)
Inductive op :=
  | Append (logline : bytes) (e : env)
  | Flush
  | Roll (now : Z) (opens : bool).

Definition run_op (o : op) (l : t) (d : AppendFile.disk) : outcome (t * AppendFile.disk) :=
  match o with
  | Append logline e => append logline e l d
  | Flush => flush l d
  | Roll now opens => p ← rollFile now opens l d; Ok (snd (fst p), snd p)
  end.

Fixpoint run (ops : list op) (l : t) (d : AppendFile.disk) : outcome (t * AppendFile.disk) :=
  match ops with [] => Ok (l, d) | o :: ops => p ← run_op o l d; run ops (fst p) (snd p) end.

(** ** Names *)

Lemma time_part_read t : 0 <= t <= Clock.last_second ->
  length (time_part t) = 17%nat /\
  Clock.timegm (Clock.mkTm (Clock.num (Clock.slice 1 4 (time_part t)) - 1900) (Clock.num (Clock.slice 5 2 (time_part t)) - 1)
    (Clock.num (Clock.slice 7 2 (time_part t))) (Clock.num (Clock.slice 10 2 (time_part t)))
    (Clock.num (Clock.slice 12 2 (time_part t))) (Clock.num (Clock.slice 14 2 (time_part t)))) = t.
Proof.
  intros Ht. pose proof (Clock.gmtime_range t Ht) as (Hy & Hmo & Hd & Hh & Hmi & Hs & Hinv). unfold time_part.
  set (x := Clock.gmtime t) in *. destruct (Clock.dec_four (Clock.tm_year x + 1900)) as [-> _]; [lia|].
  destruct (Clock.dec0_fixed 4 (Clock.tm_year x + 1900)) as [Ly Ny]; [lia|lia|].
  destruct (Clock.dec0_fixed 2 (Clock.tm_mon x + 1)) as [Lmo Nmo]; [lia|lia|].
  destruct (Clock.dec0_fixed 2 (Clock.tm_mday x)) as [Ld Nd]; [lia|lia|].
  destruct (Clock.dec0_fixed 2 (Clock.tm_hour x)) as [Lh Nh]; [lia|lia|].
  destruct (Clock.dec0_fixed 2 (Clock.tm_min x)) as [Lmi Nmi]; [lia|lia|].
  destruct (Clock.dec0_fixed 2 (Clock.tm_sec x)) as [Ls Ns]; [lia|lia|].
  assert (HF : forall y mo d h mi s : bytes, length y = 4%nat -> length mo = 2%nat -> length d = 2%nat ->
    length h = 2%nat -> length mi = 2%nat -> length s = 2%nat ->
    let p := bs "." ++ y ++ mo ++ d ++ bs "-" ++ h ++ mi ++ s ++ bs "." in
    length p = 17%nat /\ Clock.slice 1 4 p = y /\ Clock.slice 5 2 p = mo /\ Clock.slice 7 2 p = d /\
    Clock.slice 10 2 p = h /\ Clock.slice 12 2 p = mi /\ Clock.slice 14 2 p = s).
  { clear. intros y mo d h mi s Hy Hmo Hd Hh Hmi Hs.
    destruct y as [|? [|? [|? [|? [|]]]]]; try discriminate.
    destruct mo as [|? [|? [|]]]; try discriminate. destruct d as [|? [|? [|]]]; try discriminate.
    destruct h as [|? [|? [|]]]; try discriminate. destruct mi as [|? [|? [|]]]; try discriminate.
    destruct s as [|? [|? [|]]]; try discriminate. done. }
  destruct (HF _ _ _ _ _ _ Ly Lmo Ld Lh Lmi Ls) as (HL & -> & -> & -> & -> & -> & ->). split; [exact HL|].
  rewrite Ny, Nmo, Nd, Nh, Nmi, Ns, !Z.add_simpl_r. by destruct x.
Qed.

(** Files rolled at different times have different names. *)
Lemma name_inj basename t t' :
  0 <= t <= Clock.last_second -> 0 <= t' <= Clock.last_second ->
  getLogFileName basename t = getLogFileName basename t' -> t = t'.
Proof.
  intros Ht Ht' E. unfold getLogFileName in E. apply app_inv_head in E.
  destruct (time_part_read t Ht) as [L R], (time_part_read t' Ht') as [L' R'].
  apply app_inj_1 in E as [E _]; [|by rewrite L, L']. rewrite E in R. congruence.
Qed.

(** ** Which lines are in which file *)

(** [segs] are the files so far, in the order they were opened: the time of each
    and its lines.  [d0] is the disk before the LogFile was made. *)
Record Inv (d0 : AppendFile.disk) (l : t) (d : AppendFile.disk) (segs : list (Z * list bytes)) : Prop := {
  i_file : exists closed time ls f, segs = closed ++ [(time, ls)] /\ lastRoll_ l = time /\
    file_ l = Some f /\ AppendFile.name_ f = getLogFileName (basename_ l) time /\
    AppendFile.contents f d = default [] (d0 !! getLogFileName (basename_ l) time) ++ concat ls /\
    0 <= AppendFile.writtenBytes_ f <= zlen (concat (concat (map snd segs))) /\
    forall t ls', (t, ls') ∈ closed -> t < time /\
      d !! getLogFileName (basename_ l) t = Some (default [] (d0 !! getLogFileName (basename_ l) t) ++ concat ls');
  i_times : forall t, t ∈ map fst segs -> 0 < t <= Clock.last_second;
  i_order : StronglySorted Z.lt (map fst segs);
  i_others : forall n, n ∉ map (getLogFileName (basename_ l)) (map fst segs) -> d !! n = d0 !! n;
  i_count : 0 <= count_ l /\ (count_ l < checkEveryN_ l \/ count_ l = 0) /\ checkEveryN_ l <= INT_MAX;
}.

(** The lines of the operations, and what an operation needs: fwrite accepts
    the line, fopen works, and the clock is in the years that names cover. *)
Definition op_line (o : op) : list bytes := match o with Append logline _ => [logline] | _ => [] end.
Definition op_ok (o : op) : Prop :=
  match o with
  | Append logline e =>
      (exists r rs, e_writes e = r :: rs /\ AppendFile.fwrite_ok (zlen logline) r /\ AppendFile.accepted r = zlen logline) /\
      e_roll e <= Clock.last_second /\ e_opens e = true
  | Flush => True
  | Roll now opens => now <= Clock.last_second /\ opens = true
  end.

Lemma name_ne basename t t' :
  0 < t <= Clock.last_second -> 0 < t' <= Clock.last_second -> t <> t' ->
  getLogFileName basename t <> getLogFileName basename t'.
Proof. intros Ht Ht' Hne E. apply Hne. eapply name_inj, E; lia. Qed.

Lemma concat_snd_snoc (segs : list (Z * list bytes)) t ls :
  concat (map snd (segs ++ [(t, ls)])) = concat (map snd segs) ++ ls.
Proof. by rewrite map_app, concat_app; cbn; rewrite app_nil_r. Qed.

Lemma closed_apart d0 l d segs closed time ls :
  Inv d0 l d segs -> segs = closed ++ [(time, ls)] ->
  (0 < time <= Clock.last_second) /\
  forall t ls', (t, ls') ∈ closed -> getLogFileName (basename_ l) t <> getLogFileName (basename_ l) time.
Proof.
  intros HI Hsegs. destruct HI.
  assert (Htime : forall t ls', (t, ls') ∈ segs -> 0 < t <= Clock.last_second).
  { intros t ls' Hin. apply i_times0. apply list_elem_of_In, (in_map fst), list_elem_of_In in Hin. done. }
  assert (Hlast : 0 < time <= Clock.last_second).
  { apply (Htime time ls). rewrite Hsegs. apply elem_of_app. right. by left. }
  split; [done|]. intros t ls' Hin. destruct i_file0 as (closed' & time' & ls2 & f & Hsegs' & _ & _ & _ & _ & _ & Hcl).
  rewrite Hsegs in Hsegs'. apply app_inj_tail in Hsegs' as [<- [= <- <-]].
  destruct (Hcl t ls' Hin) as [Hlt _]. apply name_ne; [|done|lia]. apply (Htime t ls'). rewrite Hsegs. apply elem_of_app. by left.
Qed.

(** A file that is full is closed and a new one begun. *)
Lemma roll_inv d0 l d segs now :
  Inv d0 l d segs -> now <= Clock.last_second ->
  exists b l' d' segs', rollFile now true l d = Ok (b, l', d') /\ Inv d0 l' d' segs' /\
    concat (map snd segs') = concat (map snd segs) /\ basename_ l' = basename_ l.
Proof.
  intros HI Hnow. unfold rollFile. destruct (Z.ltb_spec (lastRoll_ l) now) as [Hlt|Hge]; [|by exists false, l, d, segs].
  pose proof (fun closed time ls => closed_apart d0 l d segs closed time ls HI) as Hap. destruct HI.
  destruct i_file0 as (closed & time & ls & f & Hsegs & Hlast & Hf & Hname & Hcont & Hw & Hclosed).
  destruct (Hap closed time ls Hsegs) as [Htime Hne]. clear Hap.
  set (name := getLogFileName (basename_ l)) in *.
  assert (Hnew : forall t, t ∈ map fst segs -> t <= time /\ name t <> name now).
  { intros t Hin. assert (t <= time).
    { rewrite Hsegs, map_app, elem_of_app in Hin. destruct Hin as [Hin| ->%list_elem_of_singleton]; [|done].
      apply list_elem_of_In, in_map_iff in Hin as ([t' ls'] & <- & Hin). apply list_elem_of_In in Hin.
      destruct (Hclosed t' ls' Hin). cbn. lia. }
    split; [done|]. pose proof (i_times0 t Hin). apply name_ne; lia. }
  assert (Hfresh : d !! name now = d0 !! name now).
  { apply i_others0. intros Hin. apply list_elem_of_In, in_map_iff in Hin as (t & Ht & Hin). apply list_elem_of_In in Hin.
    by destruct (Hnew t Hin). }
  assert (Hname_ne : name now <> name time).
  { apply not_eq_sym, (Hnew time). rewrite Hsegs, map_app. apply elem_of_app. right. by left. }
  unfold AppendFile.ctor. cbn [assert mbind outcome_bind fst snd]. rewrite Hf.
  eexists true, _, _, (segs ++ [(now, [])]). split; [done|]. split; [|by rewrite concat_snd_snoc, app_nil_r].
  unfold AppendFile.dtor, AppendFile.to_disk. rewrite Hname. fold name. rewrite (lookup_insert_ne d) by done.
  unfold AppendFile.contents in Hcont. rewrite Hname in Hcont. fold name in Hcont. rewrite Hcont. split; cbn [basename_ count_ checkEveryN_ lastRoll_ file_].
  - exists segs, now, []. eexists. split; [done|]. split; [done|]. split; [done|]. cbn [AppendFile.name_ AppendFile.writtenBytes_].
    split; [done|]. split; [|split; [pose proof (zlen_nonneg (concat (concat (map snd (segs ++ [(now, [])]))))); lia|]].
    + unfold AppendFile.contents. cbn. rewrite lookup_insert_ne, lookup_insert_eq by done. fold name. cbn. by rewrite Hfresh.
    + intros t ls' Hin. rewrite Hsegs in Hin. apply elem_of_app in Hin as [Hin|[= -> ->]%list_elem_of_singleton].
      * destruct (Hclosed t ls' Hin) as [Hlt' Hd]. split; [lia|]. fold name.
        rewrite lookup_insert_ne by (by apply not_eq_sym, (Hne t ls')). rewrite lookup_insert_ne; [done|].
        apply not_eq_sym, (Hnew t). rewrite Hsegs, map_app. apply elem_of_app. left.
        by apply list_elem_of_In, (in_map fst), list_elem_of_In in Hin.
      * split; [lia|]. fold name. by rewrite lookup_insert_eq.
  - intros t. rewrite map_app, elem_of_app. intros [Hin| ->%list_elem_of_singleton]; [by apply i_times0|cbn; lia].
  - rewrite map_app. apply StronglySorted_app. split_and!; [|done|by repeat constructor].
    intros t x Hin ->%list_elem_of_singleton. cbn. destruct (Hnew t); [done|lia].
  - intros n Hn. fold name in Hn. rewrite !map_app, !not_elem_of_app in Hn. destruct Hn as [Hn1 Hn2]. cbn in Hn2.
    rewrite !lookup_insert_ne.
    + by apply i_others0.
    + intros <-. apply Hn2. by left.
    + intros <-. apply Hn1. rewrite Hsegs, !map_app. apply elem_of_app. right. by left.
  - done.
Qed.

(** The open file gets more lines, or is flushed. *)
Lemma log_write_inv d0 l d segs :
  Inv d0 l d segs ->
  exists f, file_ l = Some f /\ 0 <= AppendFile.writtenBytes_ f <= zlen (concat (concat (map snd segs))) /\
    forall f' d' lines, AppendFile.name_ f' = AppendFile.name_ f ->
      (forall n, n <> AppendFile.name_ f -> d' !! n = d !! n) ->
      AppendFile.contents f' d' = AppendFile.contents f d ++ concat lines ->
      AppendFile.writtenBytes_ f' = AppendFile.writtenBytes_ f + zlen (concat lines) ->
      exists segs', Inv d0 (with_file f' l) d' segs' /\ concat (map snd segs') = concat (map snd segs) ++ lines.
Proof.
  intros HI. pose proof (fun closed time ls => closed_apart d0 l d segs closed time ls HI) as Hap. destruct HI.
  destruct i_file0 as (closed & time & ls & f & Hsegs & Hlast & Hf & Hname & Hcont & Hw & Hclosed).
  destruct (Hap closed time ls Hsegs) as [Htime Hne]. clear Hap.
  exists f. split; [done|]. split; [done|]. intros f' d' lines Hname' Hd' Hcont' Hw'.
  assert (Ecat : concat (map snd (closed ++ [(time, ls ++ lines)])) = concat (map snd segs) ++ lines).
  { by rewrite Hsegs, !concat_snd_snoc, app_assoc. }
  assert (Efst : map fst (closed ++ [(time, ls ++ lines)]) = map fst segs) by (by rewrite Hsegs, !map_app).
  exists (closed ++ [(time, ls ++ lines)]). split; [|done].
  split; rewrite ?Efst; cbn [with_file basename_ count_ checkEveryN_ lastRoll_ file_]; try done.
  - exists closed, time, (ls ++ lines), f'. rewrite Ecat, !concat_app, zlen_app, app_assoc.
    split; [done|]. split; [done|]. split; [done|]. split; [congruence|]. split; [by rewrite Hcont', Hcont|].
    split; [pose proof (zlen_nonneg (concat lines)); lia|].
    intros t ls' Hin. destruct (Hclosed t ls' Hin) as [Hlt Hd]. split; [done|].
    rewrite Hd'; [done|]. rewrite Hname. by apply (Hne t ls').
  - intros n Hn. rewrite Hd'; [by apply i_others0|]. intros ->. apply Hn. rewrite Hname.
    apply list_elem_of_In, (in_map (getLogFileName (basename_ l))), list_elem_of_In.
    rewrite Hsegs, map_app. apply elem_of_app. right. by left.
Qed.

Lemma count_inv d0 l d segs n m :
  Inv d0 l d segs -> 0 <= n -> (n < checkEveryN_ l \/ n = 0) -> Inv d0 (with_lastFlush m (with_count n l)) d segs.
Proof. intros [] H1 H2. split; try done. cbn. destruct i_count0 as (_ & _ & ?). done. Qed.

Lemma with_count_lastFlush n l : with_count n l = with_lastFlush (lastFlush_ l) (with_count n l).
Proof. done. Qed.

Lemma log_flush_inv d0 l d segs :
  Inv d0 l d segs ->
  exists f l' d' segs', file_ l = Some f /\ flush l d = Ok (l', d') /\ l' = with_file (fst (AppendFile.flush f d)) l /\
    d' = snd (AppendFile.flush f d) /\ Inv d0 l' d' segs' /\ concat (map snd segs') = concat (map snd segs).
Proof.
  intros HI. destruct (log_write_inv d0 l d segs HI) as (f & Hf & _ & Hup).
  destruct (AppendFile.contents_flush f d) as [Hc _].
  destruct (Hup (fst (AppendFile.flush f d)) (snd (AppendFile.flush f d)) []) as (segs' & HI' & Hs); [done| | |cbn; by rewrite Z.add_0_r|].
  - intros n Hn. cbn. unfold AppendFile.to_disk. by rewrite lookup_insert_ne.
  - by rewrite Hc, app_nil_r.
  - rewrite app_nil_r in Hs. eexists f, _, _, segs'. split; [done|]. split; [|done].
    unfold flush, get_file. by rewrite Hf.
Qed.

(** One line. *)
Lemma append_inv d0 l d segs logline e :
  Inv d0 l d segs -> op_ok (Append logline e) ->
  zlen (concat (concat (map snd segs) ++ [logline])) <= INT64_MAX ->
  exists l' d' segs', append logline e l d = Ok (l', d') /\ Inv d0 l' d' segs' /\
    concat (map snd segs') = concat (map snd segs) ++ [logline].
Proof.
  intros HI ((r & rs & Hrs & Hr & Hacc) & Hroll & Hopens) Hmax.
  destruct (log_write_inv d0 l d segs HI) as (f & Hf & Hw & Hup). rewrite concat_app, zlen_app in Hmax. cbn [concat] in Hmax.
  rewrite app_nil_r in Hmax.
  destruct (AppendFile.append_ok logline r rs f d Hr) as (f' & d' & Ha & Hn & Hd & Hok & _); [lia|lia|].
  destruct (Hok (or_intror Hacc)) as [Hc Hb].
  destruct (Hup f' d' [logline] Hn Hd) as (segs' & HI' & Hs); [cbn; by rewrite app_nil_r|cbn; by rewrite app_nil_r|].
  unfold append, append_unlocked, get_file. rewrite Hf, Hrs. cbn [mbind outcome_bind]. rewrite Ha, Hopens. cbn [mbind outcome_bind].
  assert (Hrolled : forall l2, Inv d0 l2 d' segs' -> exists l' d2 segs2,
    (p ← rollFile (e_roll e) true l2 d'; Ok (snd (fst p), snd p)) = Ok (l', d2) /\ Inv d0 l' d2 segs2 /\
    concat (map snd segs2) = concat (map snd segs) ++ [logline]).
  { intros l2 HI2. destruct (roll_inv d0 l2 d' segs' (e_roll e) HI2 Hroll) as (b & l3 & d3 & segs3 & -> & HI3 & Hs3 & _).
    exists l3, d3, segs3. split; [done|]. split; [done|]. by rewrite Hs3. }
  destruct (rollSize_ (with_file f' l) <? AppendFile.writtenBytes_ f'); [by apply Hrolled|].
  destruct (i_count _ _ _ _ HI) as (Hcnt & Hcnt' & HN). change (count_ (with_file f' l)) with (count_ l).
  rewrite ck32_Ok by (unfold INT_MIN, INT_MAX in *; lia). cbn [mbind outcome_bind].
  change (checkEveryN_ (with_count (count_ l + 1) (with_file f' l))) with (checkEveryN_ l).
  change (count_ (with_count (count_ l + 1) (with_file f' l))) with (count_ l + 1).
  destruct (Z.leb_spec (checkEveryN_ l) (count_ l + 1)) as [Hle|Hlt].
  - assert (HI0 : forall m, Inv d0 (with_lastFlush m (with_count 0 (with_file f' l))) d' segs').
    { intros m. apply count_inv; [done|lia|by right]. }
    assert (HI1 : Inv d0 (with_count 0 (with_count (count_ l + 1) (with_file f' l))) d' segs') by exact (HI0 (lastFlush_ l)).
    case_match; [by apply Hrolled|]. case_match; [|by eexists _, _, segs'].
    destruct (log_flush_inv d0 _ d' segs' (HI0 (e_now e))) as (f2 & l3 & d3 & segs3 & Hf2 & _ & El & Ed & HI3 & Hs3).
    cbn in Hf2. injection Hf2 as <-. subst l3 d3. eexists _, _, segs3. split; [done|]. split; [exact HI3|by rewrite Hs3].
  - eexists _, _, segs'. split; [done|]. split; [|done]. rewrite with_count_lastFlush. apply count_inv; [done|lia|left; cbn; lia].
Qed.

Lemma rollFile_basename now opens l d b l' d' : rollFile now opens l d = Ok (b, l', d') -> basename_ l' = basename_ l.
Proof.
  unfold rollFile. case_match; [|by intros [= <- <- <-]]. unfold AppendFile.ctor.
  destruct opens; cbn; [|done]. by intros [= <- <- <-].
Qed.

Lemma append_basename logline e l d l' d' : append logline e l d = Ok (l', d') -> basename_ l' = basename_ l.
Proof.
  unfold append, append_unlocked. intros H. apply bind_Ok in H as (f & Hf & H). apply bind_Ok in H as ([f1 d1] & _ & H).
  assert (Hroll : forall l2, basename_ l2 = basename_ l ->
    (p ← rollFile (e_roll e) (e_opens e) l2 d1; Ok (snd (fst p), snd p)) = Ok (l', d') -> basename_ l' = basename_ l).
  { intros l2 E Hr. apply bind_Ok in Hr as ([[b l3] d3] & Hr & [= <- <-]). apply rollFile_basename in Hr. congruence. }
  case_match; [by eapply Hroll, H|]. apply bind_Ok in H as (n & _ & H).
  repeat case_match; try (injection H as <- <-; done); by eapply Hroll, H.
Qed.

Lemma log_run_inv ops d0 l d segs :
  Inv d0 l d segs -> Forall op_ok ops ->
  zlen (concat (concat (map snd segs) ++ concat (map op_line ops))) <= INT64_MAX ->
  exists l' d' segs', run ops l d = Ok (l', d') /\ Inv d0 l' d' segs' /\ basename_ l' = basename_ l /\
    concat (map snd segs') = concat (map snd segs) ++ concat (map op_line ops).
Proof.
  revert l d segs. induction ops as [|o ops IH]; intros l d segs HI Hok Hmax.
  { exists l, d, segs. cbn. by rewrite app_nil_r. }
  apply list.Forall_cons in Hok as [Ho Hok]. cbn [run map concat] in *.
  assert (Hstep : exists l1 d1 segs1, run_op o l d = Ok (l1, d1) /\ Inv d0 l1 d1 segs1 /\ basename_ l1 = basename_ l /\
    concat (map snd segs1) = concat (map snd segs) ++ op_line o).
  { destruct o as [logline e| |now opens]; cbn [run_op op_line] in *.
    - destruct (append_inv d0 l d segs logline e HI Ho) as (l1 & d1 & segs1 & H1 & HI1 & Hs1).
      { rewrite !concat_app, !zlen_app in *. pose proof (zlen_nonneg (concat (concat (map op_line ops)))). lia. }
      exists l1, d1, segs1. split; [done|]. split; [done|]. split; [|done]. by apply append_basename in H1.
    - destruct (log_flush_inv d0 l d segs HI) as (f & l1 & d1 & segs1 & _ & H1 & -> & _ & HI1 & Hs1).
      eexists _, d1, segs1. split; [exact H1|]. split; [done|]. split; [done|]. by rewrite app_nil_r.
    - destruct Ho as [Hnow ->]. destruct (roll_inv d0 l d segs now HI Hnow) as (b & l1 & d1 & segs1 & -> & HI1 & Hs1 & Hb).
      exists l1, d1, segs1. split; [done|]. rewrite app_nil_r. done. }
  destruct Hstep as (l1 & d1 & segs1 & -> & HI1 & Hb1 & Hs1). cbn [mbind outcome_bind fst snd].
  destruct (IH l1 d1 segs1 HI1 Hok) as (l' & d' & segs' & Hr & HI' & Hb & Hs); [by rewrite Hs1, <- app_assoc|].
  exists l', d', segs'. split; [done|]. split; [done|]. split; [congruence|]. by rewrite Hs, Hs1, app_assoc.
Qed.

Lemma ctor_inv basename rollSize flushInterval checkEveryN now d0 :
  Init.Byte.x2f ∉ basename -> 0 < now <= Clock.last_second -> checkEveryN <= INT_MAX ->
  exists l d, ctor basename rollSize flushInterval checkEveryN now true d0 = Ok (l, d) /\
    Inv d0 l d [(now, [])] /\ basename_ l = basename.
Proof.
  intros Hb Hnow HN. unfold ctor, rollFile. rewrite assert_true by by apply bool_decide_eq_true_2.
  cbn [mbind outcome_bind basename_ lastRoll_ file_ rollSize_ flushInterval_ checkEveryN_ count_].
  rewrite (proj2 (Z.ltb_lt _ _)) by lia. unfold AppendFile.ctor. cbn [assert mbind outcome_bind fst snd].
  eexists _, _. split; [done|]. split; [|done]. split; cbn [basename_ count_ checkEveryN_ lastRoll_ file_].
  - exists [], now, []. eexists. split; [done|]. split; [done|]. split; [done|]. cbn [AppendFile.name_ AppendFile.writtenBytes_].
    split; [done|]. split; [|split; [done|by intros t ls' ?%elem_of_nil]].
    unfold AppendFile.contents. cbn. by rewrite lookup_insert_eq.
  - intros t ->%list_elem_of_singleton. done.
  - repeat constructor.
  - intros n Hn. rewrite lookup_insert_ne; [done|]. intros <-. apply Hn. by left.
  - lia.
Qed.

(** What is on the disk when the LogFile is gone. *)
Lemma dtor_files d0 l d segs :
  Inv d0 l d segs ->
  (forall t ls, (t, ls) ∈ segs -> dtor l d !! getLogFileName (basename_ l) t =
    Some (default [] (d0 !! getLogFileName (basename_ l) t) ++ concat ls)) /\
  (forall n, n ∉ map (getLogFileName (basename_ l)) (map fst segs) -> dtor l d !! n = d0 !! n).
Proof.
  intros HI. pose proof (fun closed time ls => closed_apart d0 l d segs closed time ls HI) as Hap. destruct HI.
  destruct i_file0 as (closed & time & ls & f & Hsegs & Hlast & Hf & Hname & Hcont & Hw & Hclosed).
  destruct (Hap closed time ls Hsegs) as [Htime Hne]. clear Hap. unfold dtor. rewrite Hf.
  unfold AppendFile.dtor, AppendFile.to_disk. unfold AppendFile.contents in Hcont. rewrite Hcont, Hname. split.
  - intros t ls' Hin. rewrite Hsegs in Hin. apply elem_of_app in Hin as [Hin|[= -> ->]%list_elem_of_singleton].
    + rewrite lookup_insert_ne by (by apply not_eq_sym, (Hne t ls')). by apply (Hclosed t ls').
    + by rewrite lookup_insert_eq.
  - intros n Hn. rewrite lookup_insert_ne; [by apply i_others0|]. intros <-. apply Hn.
    apply list_elem_of_In, (in_map (getLogFileName (basename_ l))), list_elem_of_In.
    rewrite Hsegs, map_app. apply elem_of_app. right. by left.
Qed.

(** ** Properties *)

(** C21: Whatever a client does (append, flush, roll), whenever the files are
    rolled and whatever the clock says, no line is lost, split or reordered: the files,
    in the order they were opened at strictly increasing times and with
    distinct names, hold all the lines in order behind what was there before, each
    line whole in one file, and no other file changes. *)
Theorem log_file_keeps_lines basename rollSize flushInterval checkEveryN now ops d0 :
  Init.Byte.x2f ∉ basename -> 0 < now <= Clock.last_second -> checkEveryN <= INT_MAX ->
  Forall op_ok ops -> zlen (concat (concat (map op_line ops))) <= INT64_MAX ->
  exists l d segs,
    (p ← ctor basename rollSize flushInterval checkEveryN now true d0; run ops (fst p) (snd p)) = Ok (l, d) /\
    concat (map snd segs) = concat (map op_line ops) /\
    StronglySorted Z.lt (map fst segs) /\ NoDup (map (getLogFileName basename) (map fst segs)) /\
    (forall t ls, (t, ls) ∈ segs -> dtor l d !! getLogFileName basename t =
      Some (default [] (d0 !! getLogFileName basename t) ++ concat ls)) /\
    (forall n, n ∉ map (getLogFileName basename) (map fst segs) -> dtor l d !! n = d0 !! n).
Proof.
  intros Hb Hnow HN Hops Hmax.
  destruct (ctor_inv basename rollSize flushInterval checkEveryN now d0 Hb Hnow HN) as (l0 & dd & -> & HI & Eb).
  cbn [mbind outcome_bind fst snd].
  destruct (log_run_inv ops d0 l0 dd [(now, [])] HI Hops) as (l & d & segs & Hr & HI' & Hb' & Hs); [exact Hmax|].
  exists l, d, segs. split; [done|]. split; [done|]. split; [by apply (i_order _ _ _ _ HI')|].
  destruct (dtor_files _ _ _ _ HI') as [H1 H2]. rewrite <- Eb, <- Hb'. split; [|done].
  assert (Hnd : forall ts, StronglySorted Z.lt ts -> (forall t, t ∈ ts -> 0 < t <= Clock.last_second) ->
    NoDup (map (getLogFileName (basename_ l)) ts)).
  { clear. induction 1 as [|t ts Hts IH Hlt]; intros Hr; cbn [map]; [apply NoDup_nil_2|].
    apply list.NoDup_cons. split; [|apply IH; intros; apply Hr; by right].
    intros (t' & E & Hin)%list_elem_of_In%in_map_iff. apply list_elem_of_In in Hin.
    rewrite list.Forall_forall in Hlt. specialize (Hlt t' Hin).
    apply name_inj in E; [lia| |]; [assert (0 < t' <= Clock.last_second) by (apply Hr; by right)|
      assert (0 < t <= Clock.last_second) by (apply Hr; by left)]; lia. }
  apply Hnd; [by apply (i_order _ _ _ _ HI')|by apply (i_times _ _ _ _ HI')].
Qed.

(** A file grows past the limit by at most one line before it is replaced,
    as long as the clock has moved on since the last roll; every checkEveryN-th
    line a file of an earlier day is replaced, and one that was not flushed for
    longer than flushInterval is flushed. *)
Theorem append_keeps_size logline e l d f :
  file_ l = Some f -> 0 <= AppendFile.writtenBytes_ f <= rollSize_ l ->
  AppendFile.writtenBytes_ f + zlen logline <= INT64_MAX ->
  op_ok (Append logline e) -> lastRoll_ l < e_roll e -> 0 <= count_ l < INT_MAX ->
  AppendFile.name_ f <> getLogFileName (basename_ l) (e_roll e) ->
  exists l' d' f', append logline e l d = Ok (l', d') /\ file_ l' = Some f' /\
    0 <= AppendFile.writtenBytes_ f' <= rollSize_ l /\
    (lastRoll_ l' = e_roll e /\ AppendFile.contents f' d' = default [] (d !! getLogFileName (basename_ l) (e_roll e)) \/
     lastRoll_ l' = lastRoll_ l /\ AppendFile.contents f' d' = AppendFile.contents f d ++ logline /\
     (checkEveryN_ l <= count_ l + 1 -> period (e_now e) = startOfPeriod_ l /\
        (flushInterval_ l < e_now e - lastFlush_ l -> d' !! AppendFile.name_ f = Some (AppendFile.contents f d ++ logline)))).
Proof.
  intros Hf Hw Hmax ((r & rs & Hrs & Hr & Hacc) & _ & Hopens) Hlast Hcnt Hname.
  destruct (AppendFile.append_ok logline r rs f d Hr) as (f' & d' & Ha & Hn & Hd & Hok & _); [lia|lia|].
  destruct (Hok (or_intror Hacc)) as [Hc Hb]. pose proof (zlen_nonneg logline).
  assert (Hroll : forall l2, basename_ l2 = basename_ l -> lastRoll_ l2 = lastRoll_ l -> file_ l2 = Some f' ->
    exists l' d2 f2, (p ← rollFile (e_roll e) true l2 d'; Ok (snd (fst p), snd p)) = Ok (l', d2) /\ file_ l' = Some f2 /\
      0 <= AppendFile.writtenBytes_ f2 <= rollSize_ l /\ lastRoll_ l' = e_roll e /\
      AppendFile.contents f2 d2 = default [] (d !! getLogFileName (basename_ l) (e_roll e))).
  { intros l2 E1 E2 E3. unfold rollFile. rewrite E1, E2, (proj2 (Z.ltb_lt _ _)), E3 by done.
    unfold AppendFile.ctor. cbn [assert mbind outcome_bind fst snd]. eexists _, _, _. split; [done|]. cbn [file_ lastRoll_].
    split; [done|]. cbn [AppendFile.writtenBytes_]. split; [lia|]. split; [done|].
    unfold AppendFile.contents, AppendFile.dtor, AppendFile.to_disk. cbn [AppendFile.name_ AppendFile.pending].
    rewrite lookup_insert_ne, lookup_insert_eq by congruence. rewrite app_nil_r. cbn. by rewrite Hd by congruence. }
  unfold append, append_unlocked, get_file. rewrite Hf, Hrs. cbn [mbind outcome_bind]. rewrite Ha, Hopens. cbn [mbind outcome_bind].
  change (rollSize_ (with_file f' l)) with (rollSize_ l). destruct (Z.ltb_spec (rollSize_ l) (AppendFile.writtenBytes_ f')) as [Hbig|Hsmall].
  { destruct (Hroll (with_file f' l)) as (l' & d2 & f2 & ? & ? & ? & ?); try done. exists l', d2, f2. auto. }
  change (count_ (with_file f' l)) with (count_ l). rewrite ck32_Ok by (unfold INT_MIN, INT_MAX in *; lia). cbn [mbind outcome_bind].
  change (checkEveryN_ (with_count (count_ l + 1) (with_file f' l))) with (checkEveryN_ l).
  change (count_ (with_count (count_ l + 1) (with_file f' l))) with (count_ l + 1).
  destruct (Z.leb_spec (checkEveryN_ l) (count_ l + 1)) as [Hle|Hgt].
  2: { eexists _, d', f'. split; [done|]. split; [done|]. split; [lia|]. right. split; [done|]. split; [done|]. lia. }
  set (l2 := with_count 0 (with_count (count_ l + 1) (with_file f' l))).
  destruct (Z.eqb_spec (period (e_now e)) (startOfPeriod_ l2)) as [Hp|Hp]; cbn [negb].
  2: { destruct (Hroll l2) as (l' & d2 & f2 & ? & ? & ? & ?); try done. exists l', d2, f2. auto. }
  destruct (Z.ltb_spec (flushInterval_ l2) (e_now e - lastFlush_ l2)) as [Hfl|Hfl].
  - destruct (AppendFile.contents_flush f' d') as [Hc1 Hc2]. eexists _, _, _. split; [done|]. split; [done|]. split; [cbn; lia|].
    right. split; [done|]. split; [by rewrite <- Hc, <- Hc1|]. intros _. split; [done|]. intros _. by rewrite <- Hc, <- Hn.
  - eexists _, d', f'. split; [done|]. split; [done|]. split; [lia|]. right. split; [done|]. split; [done|]. intros _. split; [done|].
    intros Hcontra. cbn in Hfl. lia.
Qed.

End LogFile.

(** ** A file of 10 bytes at most *)

Module LogFileDemo.

(** fwrite accepts [n] bytes and hands nothing to the kernel. *)
Definition accepts (n : Z) : list AppendFile.result := [AppendFile.mkResult n false 0].
Definition line (s : string) (t : Z) : op := Append (bs s) (mkEnv (accepts (zlen (bs s))) t t true).

(** Two lines fill the first file and three the second one; a third is begun. *)
Definition demo_ops : list op :=
  [line "hello," 1700000000; line "world" 1700000000; line "again" 1700000000; line "next" 1700000001; line "last" 1700000001].

Lemma demo_op_ok s t : t <= Clock.last_second -> op_ok (line s t).
Proof.
  intros Ht. split; [|done]. eexists _, _. split; [done|]. cbn [AppendFile.accepted]. split; [|done].
  split; [|done]. cbn [AppendFile.accepted]. pose proof (zlen_nonneg (bs s)). lia.
Qed.

Example demo_files :
  (p ← ctor (bs "host") 42 (bs "app") 10 3 1024 1699999999 true ∅;
   p ← run (bs "host") 42 demo_ops (fst p) (snd p);
   let d := dtor (fst p) (snd p) in
   Ok (d !! bs "app.20231114-221319.host.42.log", d !! bs "app.20231114-221320.host.42.log", size d)) =
  Ok (Some (bs "hello,world"), Some (bs "againnextlast"), 3%nat).
Proof. vm_compute. reflexivity. Qed.

Lemma log_file_keeps_lines_witness :
  exists l d segs,
    (p ← ctor (bs "host") 42 (bs "app") 10 3 1024 1699999999 true ∅; run (bs "host") 42 demo_ops (fst p) (snd p)) = Ok (l, d) /\
    concat (map snd segs) = [bs "hello,"; bs "world"; bs "again"; bs "next"; bs "last"] /\
    NoDup (map (getLogFileName (bs "host") 42 (bs "app")) (map fst segs)).
Proof.
  destruct (log_file_keeps_lines (bs "host") 42 (bs "app") 10 3 1024 1699999999 demo_ops ∅) as (l & d & segs & H1 & H2 & _ & H3 & _).
  - apply (bool_decide_eq_true_1 (Init.Byte.x2f ∉ bs "app")). vm_compute. reflexivity.
  - vm_compute. split; congruence.
  - vm_compute. congruence.
  - repeat constructor; apply demo_op_ok; vm_compute; congruence.
  - vm_compute. congruence.
  - exists l, d, segs. auto.
Defined.

(** A log file with "hello," in it, about to get one more line. *)
Definition one_line : outcome (t * AppendFile.disk) :=
  p ← ctor (bs "host") 42 (bs "app") 10 3 1024 1699999999 true ∅;
  run (bs "host") 42 [line "hello," 1700000000] (fst p) (snd p).
Definition one : t := match one_line with Ok p => fst p | Fault _ => mk [] 0 0 0 0 0 0 0 None end.
Definition one_file : AppendFile.t := AppendFile.mk (bs "app.20231114-221319.host.42.log") (bs "hello,") 6.

Lemma append_keeps_size_witness :
  exists l' d' f', append (bs "host") 42 (bs "world!") (mkEnv (accepts 6) 1700000000 1700000000 true) one ∅ = Ok (l', d') /\
    file_ l' = Some f' /\ 0 <= AppendFile.writtenBytes_ f' <= 10.
Proof.
  destruct (append_keeps_size (bs "host") 42 (bs "world!") (mkEnv (accepts 6) 1700000000 1700000000 true) one ∅ one_file)
    as (l' & d' & f' & H1 & H2 & H3 & _).
  - vm_compute. reflexivity.
  - vm_compute. split; congruence.
  - vm_compute. congruence.
  - apply (demo_op_ok "world!" 1700000000). vm_compute. congruence.
  - vm_compute. reflexivity.
  - vm_compute. split; congruence.
  - vm_compute. congruence.
  - exists l', d', f'. split; [exact H1|]. split; [exact H2|]. exact H3.
Defined.

End LogFileDemo.
End LogFile.
