(* ===== verification/Logging.v ===== *)
(** * Logging

    base/Logging.h and Logging.cc ([Module Logger]) with the cached thread id
    of base/CurrentThread.h and Thread.cc ([Module CurrentThread]): a Logger
    formats one line into a LogStream, beginning with a time that each thread caches
    by the second, and hands it to the output function when it is
    destroyed.  The clock, errno, the text of strerror_r and the kernel's thread id
    are arguments.  A line is as documented while it fits the stream; the cached
    time is the time of the line as long as the time zone is not changed. *)

From S2P Require Import Prelude Timestamp Calendar TimeZone TimeZoneFacts LogStream LogStreamFacts Clock.

Local Open Scope Z_scope.

Module CurrentThread.

(** The thread-local variables. *)
Record t := mk { t_cachedTid : Z; t_tidString : bytes; t_tidStringLength : Z; t_threadName : bytes }.

Definition initial : t := mk 0 [] 6 (bs "unknown").

(** "%5d " *)
Definition tid_text (tid : Z) : bytes := Date.pad 5 (dec tid) ++ bs " ".

Definition cacheTid (gettid : Z) (c : t) : t :=
  if t_cachedTid c =? 0
  then mk gettid (Timestamp.snprintf 32 (tid_text gettid)) (zlen (tid_text gettid)) (t_threadName c)
  else c.

Definition tid (gettid : Z) (c : t) : Z * t :=
  let c := if t_cachedTid c =? 0 then cacheTid gettid c else c in (t_cachedTid c, c).

Definition tidString (c : t) : bytes := t_tidString c.
Definition tidStringLength (c : t) : Z := t_tidStringLength c.
Definition name (c : t) : bytes := t_threadName c.
Definition isMainThread (gettid getpid : Z) (c : t) : bool * t :=
  let '(t, c) := tid gettid c in (t =? getpid, c).

End CurrentThread.

Module Logger.

(** ** Levels and source files *)

Inductive LogLevel := TRACE | DEBUG | INFO | WARN | ERROR | FATAL.

#[export] Instance LogLevel_eq_dec : EqDecision LogLevel.
Proof. solve_decision. Defined.

Definition level_number (l : LogLevel) : Z :=
  match l with TRACE => 0 | DEBUG => 1 | INFO => 2 | WARN => 3 | ERROR => 4 | FATAL => 5 end.

Definition LogLevelName (l : LogLevel) : bytes :=
  match l with
  | TRACE => bs "TRACE " | DEBUG => bs "DEBUG " | INFO => bs "INFO  "
  | WARN => bs "WARN  " | ERROR => bs "ERROR " | FATAL => bs "FATAL "
  end.

(** initLogLevel: which of the two environment variables are set. *)
Definition initLogLevel (env_trace env_debug : bool) : LogLevel :=
  if env_trace then TRACE else if env_debug then DEBUG else INFO.

(** What follows the last slash of a C string, if there is one. *)
Fixpoint strrchr_slash (s : bytes) : option bytes :=
  match s with
  | [] => None
  | c :: s' =>
      match strrchr_slash s' with
      | Some r => Some r
      | None => if decide (c = Init.Byte.x2f) then Some s' else None
      end
  end.

(** A C string ends at its first NUL. *)
Definition c_str (s : bytes) : bytes := take (find_byte NUL s) s.

(** class SourceFile: data_ is what the pointer points to. *)
Record SourceFile := mkSourceFile { data_ : bytes; size_ : Z }.

(** SourceFile(const char (&arr)[N]) of a literal of N - 1 characters *)
Definition SourceFile_array (arr : bytes) : SourceFile :=
  match strrchr_slash (c_str arr) with
  | Some r =>
      let skipped := zlen (c_str arr) - zlen r in
      mkSourceFile (drop (Z.to_nat skipped) arr) (zlen arr - skipped)
  | None => mkSourceFile arr (zlen arr)
  end.

(** SourceFile(const char* filename) *)
Definition SourceFile_c_str (filename : bytes) : SourceFile :=
  let data := default filename (strrchr_slash filename) in mkSourceFile data (zlen data).

(** ** State *)

(** The thread-local variables of Logging.cc, and those of CurrentThread. *)
Record thread := mkThread { current : CurrentThread.t; t_time : bytes; t_lastSecond : Z }.

Definition initial_thread : thread := mkThread CurrentThread.initial [] 0.

(** What the output and flush functions were called with. *)
Inductive event :=
  | Output (msg : bytes)
  | Flushed.

Record globals := mkGlobals { g_logLevel : LogLevel; g_logTimeZone : TimeZone.t; events : list event }.

Definition logLevel (g : globals) : LogLevel := g_logLevel g.
Definition setLogLevel (l : LogLevel) (g : globals) : globals := mkGlobals l (g_logTimeZone g) (events g).
Definition setTimeZone (tz : TimeZone.t) (g : globals) : globals := mkGlobals (g_logLevel g) tz (events g).
Definition emit (e : event) (g : globals) : globals := mkGlobals (g_logLevel g) (g_logTimeZone g) (events g ++ [e]).

(** Logger with its Impl *)
Record t := mk {
  time_ : Timestamp.t;
  stream_ : FixedBuffer.t;
  level_ : LogLevel;
  line_ : Z;
  basename_ : SourceFile;
}.

Definition with_stream (b : FixedBuffer.t) (l : t) : t := mk (time_ l) b (level_ l) (line_ l) (basename_ l).

(** ** Building a line *)

(** [stream_ << T(str, len)] *)
Definition insert_T (str : bytes) (len : Z) (b : FixedBuffer.t) : outcome FixedBuffer.t :=
  _ ← assert (zlen str =? len); FixedBuffer.append str b.

(** [stream_ << SourceFile] *)
Definition insert_SourceFile (f : SourceFile) (b : FixedBuffer.t) : outcome FixedBuffer.t :=
  s ← load (data_ f) 0 (size_ f); FixedBuffer.append s b.

(** "%4d%02d%02d %02d:%02d:%02d" *)
Definition second_text (dt : TimeZone.DateTime) : bytes :=
  Clock.date_text (TimeZone.year dt) (TimeZone.month dt) (TimeZone.day dt) ++ bs " " ++
  Clock.time_text (TimeZone.hour dt) (TimeZone.minute dt) (TimeZone.second dt).

(** The civil time of a second in the zone of the log. *)
Definition broken_down (g : globals) (seconds : Z) : outcome TimeZone.DateTime :=
  if TimeZone.valid (g_logTimeZone g)
  then p ← TimeZone.toLocalTime seconds (g_logTimeZone g); Ok (fst p)
  else TimeZone.toUtcTime seconds.

(** The refreshing of t_time *)
Definition cache_time (g : globals) (seconds : Z) (th : thread) : outcome thread :=
  if negb (seconds =? t_lastSecond th) then
    dt ← broken_down g seconds;
    let text := second_text dt in
    _ ← assert (zlen text =? 17);
    Ok (mkThread (current th) (Timestamp.snprintf 64 text) seconds)
  else Ok th.

Definition formatTime (g : globals) (th : thread) (l : t) : outcome (thread * t) :=
  let seconds := Z.quot (time_ l) Timestamp.kMicroSecondsPerSecond in
  let microseconds := i32 (Z.rem (time_ l) Timestamp.kMicroSecondsPerSecond) in
  th ← cache_time g seconds th;
  let zulu := negb (TimeZone.valid (g_logTimeZone g)) in
  us ← LogStream.Fmt (bs "." ++ Timestamp.dec0 6 microseconds ++ (if zulu then bs "Z " else bs " "));
  _ ← assert (zlen us =? (if zulu then 9 else 8));
  b ← insert_T (t_time th) 17 (stream_ l);
  b ← insert_T us (if zulu then 9 else 8) b;
  Ok (th, with_stream b l).

(** Impl::Impl; [strerror] is the text of savedErrno. *)
Definition Impl (g : globals) (th : thread) (now : Timestamp.t) (gettid : Z) (level : LogLevel)
    (savedErrno : Z) (strerror : bytes) (file : SourceFile) (line : Z) : outcome (thread * t) :=
  p ← formatTime g th (mk now LogStream.new level line file);
  let '(th, l) := p in
  let c := snd (CurrentThread.tid gettid (current th)) in
  let th := mkThread c (t_time th) (t_lastSecond th) in
  b ← insert_T (CurrentThread.tidString c) (CurrentThread.tidStringLength c) (stream_ l);
  b ← insert_T (LogLevelName level) 6 b;
  b ← (if negb (savedErrno =? 0)
       then LogStream.insert_all [LogStream.CString (Some strerror); LogStream.CString (Some (bs " (errno="));
              LogStream.Integer savedErrno; LogStream.CString (Some (bs ") "))] b
       else Ok b);
  Ok (th, with_stream b l).

Definition finish (l : t) : outcome t :=
  b ← LogStream.insert_all [LogStream.CString (Some (bs " - "))] (stream_ l);
  b ← insert_SourceFile (basename_ l) b;
  b ← LogStream.insert_all [LogStream.Char Init.Byte.x3a; LogStream.Integer (line_ l); LogStream.Char LF] b;
  Ok (with_stream b l).

(** ~Logger: the globals, and whether it aborted. *)
Definition dtor (g : globals) (l : t) : outcome (globals * bool) :=
  l ← finish l;
  msg ← FixedBuffer.toString (stream_ l);
  let g := emit (Output msg) g in
  if decide (level_ l = FATAL) then Ok (emit Flushed g, true) else Ok (g, false).

(** ** The macros *)

Inductive macro := LOG_TRACE | LOG_DEBUG | LOG_INFO | LOG_WARN | LOG_ERROR | LOG_FATAL | LOG_SYSERR | LOG_SYSFATAL.

(** The level of a macro, whether the level of the program can turn it off,
    whether it names the function and whether it reports errno. *)
Definition macro_level (x : macro) : LogLevel :=
  match x with
  | LOG_TRACE => TRACE | LOG_DEBUG => DEBUG | LOG_INFO => INFO | LOG_WARN => WARN
  | LOG_ERROR | LOG_SYSERR => ERROR | LOG_FATAL | LOG_SYSFATAL => FATAL
  end.
Definition macro_filtered (x : macro) : bool := match x with LOG_TRACE | LOG_DEBUG | LOG_INFO => true | _ => false end.
Definition macro_func (x : macro) : bool := match x with LOG_TRACE | LOG_DEBUG => true | _ => false end.
Definition macro_errno (x : macro) : bool := match x with LOG_SYSERR | LOG_SYSFATAL => true | _ => false end.

Definition enabled (x : macro) (g : globals) : bool :=
  negb (macro_filtered x) || (level_number (logLevel g) <=? level_number (macro_level x)).

(** Where a log statement stands, and what it finds when it runs. *)
Record site := mkSite { s_file : SourceFile; s_line : Z; s_func : bytes }.
Record moment := mkMoment { now : Timestamp.t; gettid : Z; errno : Z; strerror : bytes }.

(** [MACRO << args ...;] *)
Definition log (x : macro) (s : site) (args : list LogStream.arg) (m : moment) (th : thread) (g : globals) :
    outcome (thread * globals * bool) :=
  if enabled x g then
    p ← Impl g th (now m) (gettid m) (macro_level x) (if macro_errno x then errno m else 0) (strerror m) (s_file s) (s_line s);
    let '(th, l) := p in
    b ← (if macro_func x
         then LogStream.insert_all [LogStream.CString (Some (s_func s)); LogStream.Char Init.Byte.x20] (stream_ l)
         else Ok (stream_ l));
    b ← LogStream.insert_all args b;
    q ← dtor g (with_stream b l);
    Ok (th, fst q, snd q)
  else Ok (th, g, false).

(** ** Insertions that fit *)

Ltac args_ok :=
  rewrite ?list.Forall_cons, ?list.Forall_nil; cbn [arg_ok]; unfold INT_MIN, INT_MAX in *; repeat split; lia.

(** A buffer that holds [a] and has room for [room] bytes more. *)
Definition holds (b : FixedBuffer.t) (a : bytes) (room : Z) : Prop :=
  wf b /\ contents b = a /\ room + 48 <= FixedBuffer.avail b.

Lemma holds_insert b a room x :
  holds b a room -> arg_ok x -> zlen (text x) <= room ->
  exists b', LogStream.insert x b = Ok b' /\ holds b' (a ++ text x) (room - zlen (text x)).
Proof.
  intros (Hw & Hc & Hr) Hx Hl. destruct (insert_inserts x b Hx Hw) as (b' & Hi & Hz & Hw' & Hc' & Hcur).
  pose proof (zlen_nonneg (text x)).
  assert (Hf : fits (FixedBuffer.avail b) x = true).
  { unfold fits. destruct (numeric x); [apply Z.leb_le|apply Z.ltb_lt]; lia. }
  rewrite Hf in Hc', Hcur. exists b'. split; [done|]. split; [done|]. split; [by rewrite Hc', Hc|].
  unfold FixedBuffer.avail in *. rewrite Hz, Hcur. lia.
Qed.

Lemma holds_insert_all b a room l :
  holds b a room -> Forall arg_ok l -> zlen (concat (map text l)) <= room ->
  exists b', LogStream.insert_all l b = Ok b' /\ holds b' (a ++ concat (map text l)) (room - zlen (concat (map text l))).
Proof.
  intros Hb Hl. revert b a room Hb. induction Hl as [|x l Hx _ IH]; intros b a room Hb Hr; cbn [LogStream.insert_all map concat] in *.
  - exists b. rewrite app_nil_r, zlen_nil, Z.sub_0_r. done.
  - rewrite zlen_app in Hr. pose proof (zlen_nonneg (concat (map text l))).
    destruct (holds_insert b a room x Hb Hx) as (b1 & -> & Hb1); [lia|]. cbn [mbind outcome_bind].
    destruct (IH b1 _ _ Hb1) as (b' & -> & Hb'); [lia|]. exists b'. split; [done|].
    rewrite zlen_app. rewrite <- app_assoc in Hb'. by replace (room - (zlen (text x) + zlen (concat (map text l))))
      with (room - zlen (text x) - zlen (concat (map text l))) by lia.
Qed.

Lemma holds_T b a room str len :
  holds b a room -> zlen str = len -> len <= room ->
  exists b', insert_T str len b = Ok b' /\ holds b' (a ++ str) (room - len).
Proof.
  intros Hb Hlen Hr. unfold insert_T. rewrite assert_true by by apply Z.eqb_eq. cbn [mbind outcome_bind].
  destruct (holds_insert b a room (LogStream.Str str) Hb) as (b' & Hi & Hb'); [done|cbn; lia|].
  exists b'. cbn in Hi, Hb'. rewrite Hlen in Hb'. done.
Qed.

Lemma holds_SourceFile b a room f :
  holds b a room -> 0 <= size_ f -> size_ f <= zlen (data_ f) -> size_ f <= room ->
  exists b', insert_SourceFile f b = Ok b' /\ holds b' (a ++ take (Z.to_nat (size_ f)) (data_ f)) (room - size_ f).
Proof.
  intros Hb H0 Hs Hr. unfold insert_SourceFile. rewrite load_Ok by lia. cbn [mbind outcome_bind].
  change (Z.to_nat 0) with 0%nat. rewrite drop_0.
  assert (Hl : zlen (take (Z.to_nat (size_ f)) (data_ f)) = size_ f) by (unfold zlen in *; rewrite length_take; lia).
  destruct (holds_insert b a room (LogStream.Str (take (Z.to_nat (size_ f)) (data_ f))) Hb) as (b' & Hi & Hb'); [done|cbn; lia|].
  exists b'. cbn in Hi, Hb'. rewrite Hl in Hb'. done.
Qed.

Lemma holds_new room : room + 48 <= 4000 -> holds LogStream.new [] room.
Proof. intros Hr. split; [vm_compute; split; congruence|]. split; [done|]. exact Hr. Qed.

(** ** Times *)

(** What BreakTime computes is what gmtime_r gives. *)
Lemma second_text_gmtime t : 0 <= t <= Clock.last_second ->
  exists dt, TimeZone.toUtcTime t = Ok dt /\ zlen (second_text dt) = 17 /\
    let x := Clock.gmtime t in
    second_text dt = Clock.date_text (Clock.tm_year x + 1900) (Clock.tm_mon x + 1) (Clock.tm_mday x) ++ bs " " ++
                     Clock.time_text (Clock.tm_hour x) (Clock.tm_min x) (Clock.tm_sec x).
Proof.
  intros Ht. destruct (BreakTime_split t) as (h & m & k & Hb & Hh & Hm & Hk & Hsum).
  { unfold in_range, first_second, last_second, Clock.last_second in *.
    unfold Date.first_day, Date.kJulianDayOf1970_01_01, TimeZone.kSecondsPerDay. lia. }
  eexists. split; [exact Hb|]. pose proof (Clock.text_read_back t [] Ht) as (Hl & _). cbv zeta in *.
  unfold Clock.gmtime in *. cbn [Clock.tm_year Clock.tm_mon Clock.tm_mday Clock.tm_hour Clock.tm_min Clock.tm_sec] in *.
  change TimeZone.kSecondsPerDay with Clock.day_seconds in *. unfold second_text.
  cbn [TimeZone.year TimeZone.month TimeZone.day TimeZone.hour TimeZone.minute TimeZone.second].
  rewrite !Z.sub_add in *. set (s := t mod Clock.day_seconds) in *.
  replace (s / 3600) with h in * by dlia. replace (s mod 3600 / 60) with m in * by dlia. replace (s mod 60) with k in * by dlia.
  split; [|done]. unfold zlen. rewrite Hl. done.
Qed.

(** The second [seconds] is shown as [dt] in the zone of the log. *)
Definition shown (g : globals) (seconds : Z) (dt : TimeZone.DateTime) : Prop :=
  broken_down g seconds = Ok dt /\ zlen (second_text dt) = 17.

(** In UTC every second of the years 1970 to 9999 is shown; in a zone those
    whose local time is one of these. *)
Lemma shown_utc g seconds : g_logTimeZone g = None -> 0 <= seconds <= Clock.last_second -> exists dt, shown g seconds dt.
Proof.
  intros Hz Hs. destruct (second_text_gmtime seconds Hs) as (dt & Hdt & Hl & _). exists dt.
  unfold shown, broken_down. by rewrite Hz.
Qed.

Lemma shown_zone g seconds d lt :
  g_logTimeZone g = Some d -> TimeZone.findLocalTime seconds d = Ok lt ->
  0 <= seconds + TimeZone.utcOffset lt <= Clock.last_second -> exists dt, shown g seconds dt.
Proof.
  intros Hz Hf Hs. destruct (second_text_gmtime _ Hs) as (dt & Hdt & Hl & _). exists dt.
  unfold shown, broken_down. rewrite Hz. cbn [TimeZone.valid TimeZone.toLocalTime]. rewrite Hf. cbn [mbind outcome_bind].
  rewrite ck64_Ok by (unfold INT64_MIN, INT64_MAX, Clock.last_second in *; lia). cbn [mbind outcome_bind].
  unfold TimeZone.toUtcTime in Hdt. by rewrite Hdt.
Qed.

(** The cached time is the text of the cached second, unless nothing was cached
    yet; likewise for the thread id. *)
Definition time_cached (g : globals) (th : thread) : Prop :=
  t_lastSecond th = 0 \/ exists dt, shown g (t_lastSecond th) dt /\ t_time th = second_text dt.
Definition tid_cached (gettid : Z) (c : CurrentThread.t) : Prop :=
  CurrentThread.t_cachedTid c = 0 \/
  CurrentThread.t_cachedTid c = gettid /\ CurrentThread.t_tidString c = CurrentThread.tid_text gettid /\
  CurrentThread.t_tidStringLength c = zlen (CurrentThread.tid_text gettid).

Lemma cache_time_ok g seconds th dt :
  time_cached g th -> seconds <> 0 -> shown g seconds dt ->
  cache_time g seconds th = Ok (mkThread (current th) (second_text dt) seconds) /\
  time_cached g (mkThread (current th) (second_text dt) seconds).
Proof.
  intros Hc Hs [Hb Hl]. split; [|right; by exists dt]. unfold cache_time.
  destruct (Z.eqb_spec seconds (t_lastSecond th)) as [E|E]; cbn [negb].
  - destruct Hc as [Hc|(dt' & [Hb' Hl'] & Ht)]; [congruence|]. rewrite <- E, Hb in Hb'. injection Hb' as <-.
    destruct th. cbn in *. by subst.
  - rewrite Hb. cbn [mbind outcome_bind]. rewrite Hl. cbn. unfold Timestamp.snprintf.
    by rewrite take_ge by (unfold zlen in Hl; lia).
Qed.

Lemma pad_length w s : length (Date.pad w s) = Nat.max w (length s).
Proof. unfold Date.pad. rewrite length_app, length_replicate. lia. Qed.

Lemma tid_ok gettid c :
  0 < gettid <= INT_MAX -> tid_cached gettid c ->
  let c' := snd (CurrentThread.tid gettid c) in
  tid_cached gettid c' /\ CurrentThread.t_tidString c' = CurrentThread.tid_text gettid /\
  CurrentThread.t_tidStringLength c' = zlen (CurrentThread.tid_text gettid) /\ zlen (CurrentThread.tid_text gettid) <= 11.
Proof.
  intros Hg Hc. pose proof (dec_length gettid 10 ltac:(lia) ltac:(lia)) as Hd. unfold INT_MAX in Hg.
  change (10 ^ Z.of_nat 10) with 10000000000 in Hd. specialize (Hd ltac:(lia)).
  assert (Hl : (length (CurrentThread.tid_text gettid) <= 11)%nat).
  { unfold CurrentThread.tid_text. rewrite length_app, pad_length. cbn [length bs]. change (length (bs " ")) with 1%nat. lia. }
  unfold CurrentThread.tid, CurrentThread.cacheTid.
  destruct Hc as [Hc|(Hc & Hs & Hlen)].
  - rewrite Hc. cbn. unfold Timestamp.snprintf. rewrite take_ge by lia. split; [right; done|]. split; [done|]. split; [done|].
    unfold zlen. lia.
  - rewrite Hc, (proj2 (Z.eqb_neq _ _)) by lia. cbn. split; [right; done|]. split; [done|]. split; [done|]. unfold zlen. lia.
Qed.

(** ** One line *)

(** The bytes of a SourceFile *)
Definition file_text (f : SourceFile) : bytes := take (Z.to_nat (size_ f)) (data_ f).
Definition file_ok (f : SourceFile) : Prop := 0 <= size_ f <= zlen (data_ f).

Definition microseconds (m : moment) : Z := Z.rem (now m) Timestamp.kMicroSecondsPerSecond.
Definition seconds (m : moment) : Z := Z.quot (now m) Timestamp.kMicroSecondsPerSecond.

(** What stands before the message *)
Definition prefix (x : macro) (s : site) (m : moment) (dt : TimeZone.DateTime) (zulu : bool) : bytes :=
  second_text dt ++ (bs "." ++ Timestamp.dec0 6 (microseconds m) ++ (if zulu then bs "Z " else bs " ")) ++
  CurrentThread.tid_text (gettid m) ++ LogLevelName (macro_level x) ++
  (if macro_errno x && negb (errno m =? 0) then strerror m ++ bs " (errno=" ++ dec (errno m) ++ bs ") " else []) ++
  (if macro_func x then s_func s ++ bs " " else []).

(** " - file:line" *)
Definition suffix (s : site) : bytes :=
  bs " - " ++ file_text (s_file s) ++ bs ":" ++ dec (s_line s) ++ [LF].

Definition line_of (x : macro) (s : site) (args : list LogStream.arg) (m : moment) (dt : TimeZone.DateTime) (zulu : bool) : bytes :=
  prefix x s m dt zulu ++ concat (map text args) ++ suffix s.

(** The numbers are those of the machine. *)
Definition statement_ok (s : site) (args : list LogStream.arg) (m : moment) : Prop :=
  file_ok (s_file s) /\ Forall arg_ok args /\ INT_MIN <= s_line s <= INT_MAX /\ INT_MIN <= errno m <= INT_MAX /\
  0 < gettid m <= INT_MAX /\ 0 < seconds m /\ now m <= INT64_MAX.

Definition zulu (g : globals) : bool := negb (TimeZone.valid (g_logTimeZone g)).

Lemma zlen_bs_text (z : bool) us :
  0 <= us < 1000000 ->
  zlen (bs "." ++ Timestamp.dec0 6 us ++ (if z then bs "Z " else bs " ")) = (if z then 9 else 8).
Proof.
  intros Hus. destruct (Clock.dec0_fixed 6 us ltac:(lia) ltac:(lia)) as [Hl _].
  rewrite !zlen_app. unfold zlen at 2. rewrite Hl. by destruct z.
Qed.

Lemma microseconds_range m : 0 < seconds m -> 0 <= microseconds m < 1000000.
Proof.
  unfold seconds, microseconds, Timestamp.kMicroSecondsPerSecond. intros Hs.
  assert (0 <= now m) by (destruct (Z.neg_nonneg_cases (now m)); [|done];
    assert (Z.quot (now m) (1000 * 1000) <= 0) by (apply Z.quot_le_upper_bound; lia); lia).
  apply Z.rem_bound_pos; lia.
Qed.

Lemma formatTime_ok g th l dt m room :
  time_ l = now m -> 0 < seconds m -> time_cached g th -> shown g (seconds m) dt -> 26 <= room ->
  holds (stream_ l) [] room ->
  let th' := mkThread (current th) (second_text dt) (seconds m) in
  exists b, formatTime g th l = Ok (th', with_stream b l) /\ time_cached g th' /\
    holds b (second_text dt ++ bs "." ++ Timestamp.dec0 6 (microseconds m) ++ (if zulu g then bs "Z " else bs " "))
      (room - (if zulu g then 26 else 25)).
Proof.
  intros Ht Hs Hcache Hshown Hroom Hb th'. pose proof (microseconds_range m Hs) as Hus.
  destruct (cache_time_ok g (seconds m) th dt Hcache ltac:(lia) Hshown) as [Hc Hc']. unfold formatTime. rewrite Ht.
  fold (seconds m) (microseconds m). rewrite i32_small by (unfold INT_MIN, INT_MAX; lia). rewrite Hc. cbn [mbind outcome_bind t_time].
  fold (zulu g). pose proof (zlen_bs_text (zulu g) (microseconds m) Hus) as Hl.
  set (us := bs "." ++ Timestamp.dec0 6 (microseconds m) ++ (if zulu g then bs "Z " else bs " ")) in *.
  unfold LogStream.Fmt. rewrite assert_true by (rewrite Hl; by destruct (zulu g)). cbn [mbind outcome_bind].
  rewrite assert_true by (rewrite Hl; by destruct (zulu g)). cbn [mbind outcome_bind].
  destruct (holds_T (stream_ l) [] room (second_text dt) 17 Hb) as (b1 & -> & Hb1); [apply Hshown|lia|]. cbn [mbind outcome_bind].
  destruct (holds_T b1 _ _ us (if zulu g then 9 else 8) Hb1) as (b2 & -> & Hb2); [done|destruct (zulu g); lia|]. cbn [mbind outcome_bind].
  exists b2. split; [done|]. split; [done|]. cbn [app] in Hb2.
  replace (room - (if zulu g then 26 else 25)) with (room - 17 - (if zulu g then 9 else 8)) by (destruct (zulu g); lia). done.
Qed.

(** The constructor and the macro's function name *)
Lemma Impl_ok g th x s m dt room :
  statement_ok s [] m -> time_cached g th -> tid_cached (gettid m) (current th) -> shown g (seconds m) dt ->
  room + 48 <= 4000 -> zlen (prefix x s m dt (zulu g)) <= room -> 26 <= room ->
  exists th' l b, Impl g th (now m) (gettid m) (macro_level x) (if macro_errno x then errno m else 0) (strerror m) (s_file s) (s_line s) = Ok (th', l) /\
    (if macro_func x
     then LogStream.insert_all [LogStream.CString (Some (s_func s)); LogStream.Char Init.Byte.x20] (stream_ l)
     else Ok (stream_ l)) = Ok b /\
    level_ l = macro_level x /\ line_ l = s_line s /\ basename_ l = s_file s /\
    time_cached g th' /\ tid_cached (gettid m) (current th') /\
    holds b (prefix x s m dt (zulu g)) (room - zlen (prefix x s m dt (zulu g))).
Proof.
  intros (_ & _ & _ & Herr & Htid & Hsec & _) Htime Hc Hshown Hmax Hroom H26. unfold Impl.
  set (l0 := mk (now m) LogStream.new (macro_level x) (s_line s) (s_file s)).
  destruct (formatTime_ok g th l0 dt m room eq_refl Hsec Htime Hshown H26 (holds_new room Hmax)) as (b & -> & Htime' & Hb).
  cbn [mbind outcome_bind current t_time t_lastSecond]. 
  destruct (tid_ok (gettid m) (current th) Htid Hc) as (Hc' & Hts & Htl & Htlen).
  set (c := snd (CurrentThread.tid (gettid m) (current th))) in *.
  unfold CurrentThread.tidString, CurrentThread.tidStringLength. rewrite Hts, Htl.
  set (shown_time := second_text dt ++ bs "." ++ Timestamp.dec0 6 (microseconds m) ++ (if zulu g then bs "Z " else bs " ")) in *.
  set (e := if macro_errno x then errno m else 0).
  set (errs := if negb (e =? 0) then [LogStream.CString (Some (strerror m)); LogStream.CString (Some (bs " (errno="));
                 LogStream.Integer e; LogStream.CString (Some (bs ") "))] else []).
  set (funcs := if macro_func x then [LogStream.CString (Some (s_func s)); LogStream.Char Init.Byte.x20] else []).
  assert (Eprefix : prefix x s m dt (zulu g) = shown_time ++ CurrentThread.tid_text (gettid m) ++ LogLevelName (macro_level x) ++
    concat (map text errs) ++ concat (map text funcs)).
  { unfold prefix, shown_time, errs, funcs, e. rewrite <- !app_assoc. destruct (macro_errno x), (macro_func x); cbn [andb];
      try destruct (negb (errno m =? 0)); cbn; rewrite ?app_nil_r, <- ?app_assoc; done. }
  assert (Hshow : zlen shown_time = if zulu g then 26 else 25).
  { unfold shown_time. rewrite zlen_app, (proj2 Hshown), zlen_bs_text by by apply microseconds_range. by destruct (zulu g). }
  rewrite Eprefix, !zlen_app, Hshow in *. clear Eprefix.
  assert (Hlev : zlen (LogLevelName (macro_level x)) = 6) by by destruct x.
  pose proof (zlen_nonneg (CurrentThread.tid_text (gettid m))).
  pose proof (zlen_nonneg (concat (map text errs))). pose proof (zlen_nonneg (concat (map text funcs))).
  destruct (holds_T b _ _ (CurrentThread.tid_text (gettid m)) _ Hb eq_refl) as (b1 & Hi1 & Hb1); [destruct (zulu g); lia|].
  destruct (holds_T b1 _ _ (LogLevelName (macro_level x)) 6 Hb1 Hlev) as (b2 & Hi2 & Hb2); [destruct (zulu g); lia|].
  destruct (holds_insert_all b2 _ _ errs Hb2) as (b3 & Hi3 & Hb3);
    [unfold errs, e; destruct (macro_errno x); [destruct (negb (errno m =? 0))|]; repeat constructor; cbn; unfold INT_MIN, INT_MAX in *; lia|destruct (zulu g); lia|].
  destruct (holds_insert_all b3 _ _ funcs Hb3) as (b4 & Hi4 & Hb4); [unfold funcs; destruct (macro_func x); repeat constructor|destruct (zulu g); lia|].
  cbn [stream_ with_stream]. rewrite Hi1. cbn [mbind outcome_bind]. rewrite Hi2. cbn [mbind outcome_bind].
  exists (mkThread c (second_text dt) (seconds m)), (with_stream b3 l0), b4.
  split.
  { destruct (negb (e =? 0)) eqn:E; unfold errs in Hi3.
    - rewrite Hi3. cbn [mbind outcome_bind]. done.
    - injection Hi3 as <-. done. }
  split; [unfold funcs in Hi4; by destruct (macro_func x)|]. split; [done|]. split; [done|]. split; [done|].
  split; [exact Htime'|]. split; [exact Hc'|]. rewrite <- !app_assoc in Hb4. rewrite <- !app_assoc in *.
  destruct Hb4 as (Hw & Hcont & Hav). split; [done|]. split; [exact Hcont|]. destruct (zulu g); lia.
Qed.

Lemma toString_holds b a room : holds b a room -> FixedBuffer.toString b = Ok a.
Proof.
  intros ((H0 & H1) & Hc & _). unfold FixedBuffer.toString, FixedBuffer.length. rewrite load_Ok by lia.
  change (Z.to_nat 0) with 0%nat. by rewrite drop_0, <- Hc.
Qed.

Lemma zlen_file_text f : file_ok f -> zlen (file_text f) = size_ f.
Proof. intros [H0 H1]. unfold file_text, zlen in *. rewrite length_take. lia. Qed.

(** The destructor *)
Lemma dtor_ok g l a room s :
  basename_ l = s_file s -> line_ l = s_line s -> file_ok (s_file s) -> INT_MIN <= s_line s <= INT_MAX ->
  holds (stream_ l) a room -> zlen (suffix s) <= room ->
  dtor g l = Ok (if decide (level_ l = FATAL) then (emit Flushed (emit (Output (a ++ suffix s)) g), true)
                 else (emit (Output (a ++ suffix s)) g, false)).
Proof.
  intros Hf Hline Hfile Hrange Hb Hroom. unfold dtor, finish. rewrite Hf, Hline.
  assert (Hlen : zlen (suffix s) = 3 + (size_ (s_file s) + (1 + (zlen (dec (s_line s)) + 1)))).
  { unfold suffix. rewrite !zlen_app, (zlen_file_text _ Hfile). done. }
  pose proof (zlen_nonneg (dec (s_line s))). destruct Hfile as [Hf0 Hf1].
  pose proof (zlen_nonneg (suffix s)).
  destruct (holds_insert_all (stream_ l) a room [LogStream.CString (Some (bs " - "))] Hb) as (b1 & Hi1 & Hb1);
    [args_ok|change (3 <= room); lia|]. rewrite Hi1. cbn [mbind outcome_bind].
  destruct (holds_SourceFile b1 _ _ (s_file s) Hb1 Hf0 Hf1) as (b2 & Hi2 & Hb2); [change (size_ (s_file s) <= room - 3); lia|]. rewrite Hi2. cbn [mbind outcome_bind].
  destruct (holds_insert_all b2 _ _ [LogStream.Char Init.Byte.x3a; LogStream.Integer (s_line s); LogStream.Char LF] Hb2) as (b3 & Hi3 & Hb3);
    [args_ok| |].
  { cbn [map text concat]. rewrite !zlen_app. change (zlen [Init.Byte.x3a]) with 1. change (zlen [LF]) with 1.
    change (zlen (bs " - ")) with 3. rewrite !zlen_nil. lia. }
  rewrite Hi3. cbn [mbind outcome_bind stream_ with_stream]. rewrite (toString_holds _ _ _ Hb3). cbn [mbind outcome_bind level_ with_stream].
  unfold suffix, file_text. cbn [map text concat]. rewrite app_nil_r, <- !app_assoc. cbn [app]. case_decide; done.
Qed.

(** ** Properties *)

(** C37: A log statement that is not turned off writes, with one call of the
    output function, the time of the statement in the zone of the log (by second from
    the thread's cache, which holds some second of that zone or none), the thread id, the level, the
    errno or the function of the macros that show them, all the arguments, the
    source file and line, and a newline, as long as these fit the stream; the fatal
    ones then flush and abort; and the thread's caches are as good as before. *)
Theorem log_line x s args m th g dt :
  enabled x g = true -> statement_ok s args m -> time_cached g th -> tid_cached (gettid m) (current th) ->
  shown g (seconds m) dt -> zlen (line_of x s args m dt (zulu g)) + 48 <= 4000 ->
  exists th', log x s args m th g =
      Ok (th', (if decide (macro_level x = FATAL)
                then emit Flushed (emit (Output (line_of x s args m dt (zulu g))) g)
                else emit (Output (line_of x s args m dt (zulu g))) g), bool_decide (macro_level x = FATAL)) /\
    time_cached g th' /\ tid_cached (gettid m) (current th').
Proof.
  intros Hen Hok Htime Htid Hshown Hfit. pose proof Hok as (Hfile & Hargs & Hline & Herr & Hg & Hsec & Hnow).
  unfold line_of in *. set (p := prefix x s m dt (zulu g)) in *. set (a := concat (map text args)) in *.
  rewrite !zlen_app in Hfit. pose proof (zlen_nonneg a). pose proof (zlen_nonneg (suffix s)).
  assert (Hp : 26 <= 3952) by lia.
  destruct (Impl_ok g th x s m dt 3952) as (th' & l & b & H1 & H2 & Hlev & Hln & Hbase & Htime' & Htid' & Hb);
    [unfold statement_ok; rewrite list.Forall_nil; tauto|done|done|done|lia|fold p; lia|lia|]. fold p in Hb.
  unfold log. rewrite Hen, H1. cbn [mbind outcome_bind]. rewrite H2. cbn [mbind outcome_bind].
  destruct (holds_insert_all b p (3952 - zlen p) args Hb Hargs) as (b2 & -> & Hb2); [fold a; lia|]. cbn [mbind outcome_bind]. fold a in Hb2.
  rewrite (dtor_ok g (with_stream b2 l) (p ++ a) (3952 - zlen p - zlen a) s) by (done || lia).
  cbn [mbind outcome_bind level_ with_stream]. rewrite Hlev, <- app_assoc. exists th'.
  split; [|done]. case_decide; [rewrite bool_decide_eq_true_2 by done|rewrite bool_decide_eq_false_2 by done]; done.
Qed.

(** The time a thread caches by the second never shows: whenever the cache
    was filled in the zone that is in force, or never, formatTime writes what a thread
    that caches nothing writes. *)
Theorem cached_time_equivalent g th l dt m :
  time_ l = now m -> 0 < seconds m -> time_cached g th -> shown g (seconds m) dt -> holds (stream_ l) [] 26 ->
  exists b b', formatTime g th l = Ok (mkThread (current th) (second_text dt) (seconds m), with_stream b l) /\
    formatTime g (mkThread (current th) [] 0) l = Ok (mkThread (current th) (second_text dt) (seconds m), with_stream b' l) /\
    contents b = contents b'.
Proof.
  intros Ht Hs Hc Hshown Hb.
  destruct (formatTime_ok g th l dt m 26 Ht Hs Hc Hshown ltac:(lia) Hb) as (b & H1 & _ & (_ & Hb1 & _)).
  destruct (formatTime_ok g (mkThread (current th) [] 0) l dt m 26 Ht Hs ltac:(by left) Hshown ltac:(lia) Hb) as (b' & H2 & _ & (_ & Hb2 & _)).
  exists b, b'. split; [done|]. split; [done|]. by rewrite Hb1, Hb2.
Qed.

(** *** Source files *)

Lemma strrchr_slash_spec s :
  match strrchr_slash s with
  | Some r => exists dir, s = dir ++ Init.Byte.x2f :: r /\ Init.Byte.x2f ∉ r
  | None => Init.Byte.x2f ∉ s
  end.
Proof.
  induction s as [|c s IH]; cbn [strrchr_slash]; [apply not_elem_of_nil|].
  destruct (strrchr_slash s) as [r|].
  - destruct IH as (dir & -> & Hr). by exists (c :: dir).
  - case_decide as Hc; [subst; by exists []|]. apply not_elem_of_cons. split; [congruence|done].
Qed.

(** The name shown for a source file is what follows the last slash of its
    path, and the constructor for literals, which computes the length from the size
    of the array, agrees with the one for C strings on every path without a NUL. *)
Theorem source_file_basename path :
  NUL ∉ path ->
  SourceFile_array path = SourceFile_c_str path /\
  file_ok (SourceFile_c_str path) /\ Init.Byte.x2f ∉ file_text (SourceFile_c_str path) /\
  (file_text (SourceFile_c_str path) = path \/ exists dir, path = dir ++ Init.Byte.x2f :: file_text (SourceFile_c_str path)).
Proof.
  intros Hnul. unfold SourceFile_array, SourceFile_c_str, c_str, file_text, file_ok.
  rewrite find_byte_not_in, take_ge by done. pose proof (strrchr_slash_spec path) as Hs.
  destruct (strrchr_slash path) as [r|]; cbn [default from_option Datatypes.id data_ size_]; rewrite to_nat_zlen, take_ge by done.
  - destruct Hs as (dir & Hp & Hr). split; [|split; [pose proof (zlen_nonneg r); lia|split; [done|right; by exists dir]]].
    assert (Hl : zlen path = zlen dir + 1 + zlen r) by (rewrite Hp; unfold zlen; rewrite length_app; cbn [length]; lia).
    pose proof (zlen_nonneg dir). f_equal; [|lia].
    rewrite Hp. replace (Z.to_nat _) with (length dir + 1)%nat by (rewrite <- Hp; unfold zlen in *; lia).
    rewrite <- drop_drop. rewrite drop_app_length. done.
  - split; [done|]. split; [pose proof (zlen_nonneg path); lia|]. split; [done|by left].
Qed.

End Logger.

(** ** Lines *)

Module LoggingDemo.
Import Logger.

Definition here : site := mkSite (SourceFile_array (bs "src/server/main.cc")) 42 (bs "main").
(** 2023-11-14 22:13:20.000321 *)
Definition then_ : moment := mkMoment 1700000000000321 4242 2 (bs "No such file or directory").
Definition quiet : globals := mkGlobals INFO None [].
Definition dt : TimeZone.DateTime := TimeZone.mkDateTime 2023 11 14 22 13 20.

Lemma demo_shown : shown quiet (seconds then_) dt.
Proof. split; vm_compute; reflexivity. Qed.

Lemma demo_ok : statement_ok here [LogStream.Str (bs "n="); LogStream.Integer 7] then_.
Proof. split; [|split; [args_ok|]]; vm_compute; repeat split; congruence. Qed.

Lemma log_line_witness :
  exists th', log LOG_SYSERR here [LogStream.Str (bs "n="); LogStream.Integer 7] then_ initial_thread quiet =
    Ok (th', mkGlobals INFO None [Output (bs "20231114 22:13:20.000321Z  4242 ERROR No such file or directory (errno=2) n=7 - main.cc:42" ++ [LF])], false).
Proof.
  destruct (log_line LOG_SYSERR here [LogStream.Str (bs "n="); LogStream.Integer 7] then_ initial_thread quiet dt) as (th' & Hlog & _).
  - reflexivity.
  - exact demo_ok.
  - by left.
  - by left.
  - exact demo_shown.
  - vm_compute. congruence.
  - exists th'. rewrite Hlog. vm_compute. reflexivity.
Defined.

Lemma cached_time_equivalent_witness :
  let l := mk (now then_) LogStream.new INFO 42 (s_file here) in
  exists b b', formatTime quiet initial_thread l = Ok (mkThread CurrentThread.initial (second_text dt) 1700000000, with_stream b l) /\
    formatTime quiet (mkThread CurrentThread.initial [] 0) l = Ok (mkThread CurrentThread.initial (second_text dt) 1700000000, with_stream b' l) /\
    contents b = contents b'.
Proof.
  apply (cached_time_equivalent quiet initial_thread (mk (now then_) LogStream.new INFO 42 (s_file here)) dt then_);
    [reflexivity|reflexivity|by left|exact demo_shown|].
  apply holds_new. lia.
Defined.

Lemma source_file_basename_witness :
  NUL ∉ bs "src/server/main.cc" /\ SourceFile_array (bs "src/server/main.cc") = SourceFile_c_str (bs "src/server/main.cc").
Proof.
  assert (Hn : NUL ∉ bs "src/server/main.cc") by (apply (bool_decide_eq_true_1 (NUL ∉ bs "src/server/main.cc")); vm_compute; reflexivity).
  split; [exact Hn|]. apply (source_file_basename (bs "src/server/main.cc") Hn).
Defined.

(** A time zone that is set between two statements of one second does not
    show in the second one: the thread's cached time is still in the old zone (only the
    Z is gone); a second later the line is in the new zone. *)
Theorem zone_change_shows_late :
  (p ← log LOG_INFO here [] then_ initial_thread quiet;
   let '(th, g, _) := p in
   let g := setTimeZone (TimeZone.fixed (8 * 3600) (bs "CST")) g in
   p ← log LOG_INFO here [] then_ th g;
   let '(th, g, _) := p in
   p ← log LOG_INFO here [] (mkMoment (now then_ + 1000000) 4242 0 []) th g;
   Ok (events (snd (fst p)))) =
  Ok [Output (bs "20231114 22:13:20.000321Z  4242 INFO   - main.cc:42" ++ [LF]);
      Output (bs "20231114 22:13:20.000321  4242 INFO   - main.cc:42" ++ [LF]);
      Output (bs "20231115 06:13:21.000321  4242 INFO   - main.cc:42" ++ [LF])].
Proof. vm_compute. reflexivity. Qed.

(** A message that fills the stream loses its source file and its newline:
    what finish() appends is dropped piece by piece, so that the next line follows
    on the same line. *)
Theorem long_line_loses_newline :
  (p ← log LOG_WARN here [LogStream.Str (replicate 3961 Init.Byte.x61)] then_ initial_thread quiet;
   let '(th, g, _) := p in
   p ← log LOG_WARN here [LogStream.Str (bs "b")] then_ th g;
   Ok (events (snd (fst p)))) =
  Ok [Output (bs "20231114 22:13:20.000321Z  4242 WARN  " ++ replicate 3961 Init.Byte.x61);
      Output (bs "20231114 22:13:20.000321Z  4242 WARN  b - main.cc:42" ++ [LF])].
Proof. vm_compute. reflexivity. Qed.

End LoggingDemo.
