(* ===== verification/Thread.v ===== *)
(** * Threads

    base/Thread.h and Thread.cc: a Thread object, the thread that owns it and
    calls [start], [join] and the destructor, and the thread it creates, which
    writes [tid_] and counts [latch_] down through the pointers in its
    ThreadData.  The two run in any order; what the new thread does after the
    latch must not need the Thread object. *)

From S2P Require Import Prelude Timestamp Atomic LogStream Logging.

Local Open Scope Z_scope.

(** ** The thread-local variables *)

Module ThreadLocal.
Import CurrentThread.

Definition set_name (n : bytes) (c : t) : t := mk (t_cachedTid c) (t_tidString c) (t_tidStringLength c) n.

(** In the child of a fork: [gettid] is its own id. *)
Definition afterFork (gettid : Z) (c : t) : t :=
  snd (tid gettid (set_name (bs "main") (mk 0 (t_tidString c) (t_tidStringLength c) (t_threadName c)))).

(** The constructor of ThreadNameInitializer *)
Definition main_thread (gettid : Z) : t := snd (tid gettid (set_name (bs "main") initial)).

(** sleepUsec: the seconds and nanoseconds for nanosleep(2) *)
Definition sleepUsec (usec : Z) : Z * Z :=
  (Z.quot usec Timestamp.kMicroSecondsPerSecond, Z.rem usec Timestamp.kMicroSecondsPerSecond * 1000).

(** A child of a fork has its own id at once, and not that of its parent. *)
Theorem afterFork_own_tid gettid parent :
  gettid <> 0 ->
  tid gettid (afterFork gettid parent) = (gettid, afterFork gettid parent) /\
  t_tidString (afterFork gettid parent) = Timestamp.snprintf 32 (tid_text gettid) /\
  t_threadName (afterFork gettid parent) = bs "main".
Proof.
  intros Hg. unfold afterFork, tid, cacheTid, set_name. cbn. rewrite (proj2 (Z.eqb_neq gettid 0)) by done. done.
Qed.

Lemma afterFork_own_tid_witness :
  let parent := main_thread 1000 in
  tid 1001 (afterFork 1001 parent) = (1001, afterFork 1001 parent) /\
  t_tidString (afterFork 1001 parent) = Timestamp.snprintf 32 (tid_text 1001) /\
  t_threadName (afterFork 1001 parent) = bs "main".
Proof. apply (afterFork_own_tid 1001 (main_thread 1000)). lia. Defined.

End ThreadLocal.

Module Thread.

(** Where the new thread is in startThread, and how its function may end. *)
Inductive pc := SetTid | CountDown | SetName | Func | DeleteData | Exited.
Inductive ending := Returns | Throws.

#[global] Instance pc_eq_dec : EqDecision pc.
Proof. solve_decision. Defined.

(** What the owner of the Thread object is waiting for. *)
Inductive owner := Idle | InStart | InJoin | Gone.

#[global] Instance owner_eq_dec : EqDecision owner.
Proof. solve_decision. Defined.

(** The ThreadData: whether [tid_] and [latch_] still point to the Thread object. *)
Record ThreadData := mkData { name : bytes; tid_ptr : bool; latch_ptr : bool }.

(** The new thread, its thread-local variables and its ThreadData until that
    is deleted. *)
Record child := mkChild { at_ : pc; data : option ThreadData; current : CurrentThread.t }.

(** The members, the owner's position and the new thread; [detached]:
    pthread_detach was called. *)
Record t := mk {
  started_ : bool;
  joined_ : bool;
  tid_ : Z;
  name_ : bytes;
  latch_ : Z;
  own : owner;
  detached : bool;
  thread : option child;
}.

Definition set_thread (c : child) (s : t) : t :=
  mk (started_ s) (joined_ s) (tid_ s) (name_ s) (latch_ s) (own s) (detached s) (Some c).
Definition set_own (o : owner) (s : t) : t :=
  mk (started_ s) (joined_ s) (tid_ s) (name_ s) (latch_ s) o (detached s) (thread s).

(** setDefaultName, with the name and the new count *)
Definition setDefaultName (n : bytes) (numCreated_ : Z) : outcome (bytes * Z) :=
  '(num, numCreated_) ← AtomicIntegerT.incrementAndGet 32 numCreated_;
  Ok (match n with [] => Timestamp.snprintf 32 (bs "Thread" ++ dec num) | _ => n end, numCreated_).

Definition create (n : bytes) (numCreated_ : Z) : outcome (t * Z) :=
  '(n, numCreated_) ← setDefaultName n numCreated_;
  Ok (mk false false 0 n 1 Idle false None, numCreated_).

Section Run.
(** The id that the kernel gives the new thread. *)
Variable gettid : Z.

(** [start] up to the wait; [created]: pthread_create returned 0. *)
Definition start (created : bool) (s : t) : outcome t :=
  _ ← assert (negb (started_ s));
  if created
  then Ok (mk true (joined_ s) (tid_ s) (name_ s) (latch_ s) InStart (detached s)
             (Some (mkChild SetTid (Some (mkData (name_ s) true true)) CurrentThread.initial)))
  else Fault Aborted.      (* LOG_SYSFATAL *)

(** The rest of [start], once the latch is down. *)
Definition started (s : t) : outcome t :=
  if latch_ s <=? 0 then _ ← assert (0 <? tid_ s); Ok (set_own Idle s) else Ok s.

Definition join (s : t) : outcome t :=
  _ ← assert (started_ s);
  _ ← assert (negb (joined_ s));
  Ok (mk (started_ s) true (tid_ s) (name_ s) (latch_ s) InJoin (detached s) (thread s)).

(** pthread_join returns when the thread has ended. *)
Definition joined (s : t) : t :=
  match thread s with Some c => if decide (at_ c = Exited) then set_own Idle s else s | None => s end.

Definition destroy (s : t) : t :=
  mk (started_ s) (joined_ s) (tid_ s) (name_ s) (latch_ s) Gone (started_ s && negb (joined_ s)) (thread s).

(** A step of the new thread: a statement of runInThread or startThread.  The
    Thread object and the ThreadData must exist where they are used. *)
Definition object (s : t) : outcome unit := if decide (own s = Gone) then Fault OutOfBounds else Ok tt.

Definition thread_name (d : ThreadData) : bytes := match name d with [] => bs "muduoThread" | n => n end.

Definition child_step (e : ending) (c : child) (s : t) : outcome t :=
  match at_ c, data c with
  | SetTid, Some d =>
      let '(id, cur) := CurrentThread.tid gettid (current c) in
      _ ← object s;
      Ok (mk (started_ s) (joined_ s) id (name_ s) (latch_ s) (own s) (detached s)
            (Some (mkChild CountDown (Some (mkData (name d) false (latch_ptr d))) cur)))
  | CountDown, Some d =>
      _ ← object s;
      Ok (mk (started_ s) (joined_ s) (tid_ s) (name_ s) (latch_ s - 1) (own s) (detached s)
            (Some (mkChild SetName (Some (mkData (name d) (tid_ptr d) false)) (current c))))
  | SetName, Some d => Ok (set_thread (mkChild Func (data c) (ThreadLocal.set_name (thread_name d) (current c))) s)
  | Func, Some d =>
      match e with
      | Returns => Ok (set_thread (mkChild DeleteData (data c) (ThreadLocal.set_name (bs "finished") (current c))) s)
      | Throws => Fault Aborted       (* abort, or terminate after the rethrow *)
      end
  | DeleteData, Some d => Ok (set_thread (mkChild Exited None (current c)) s)
  | Exited, _ => Ok s
  | _, None => Fault OutOfBounds
  end.

Inductive label := Start (created : bool) | Join | Destroy | Owner | Child (e : ending).

(** [Owner]: the owner looks whether what it waits for has happened. *)
Definition step (l : label) (s : t) : outcome t :=
  match l with
  | Start created => if decide (own s = Idle) then start created s else Ok s
  | Join => if decide (own s = Idle) then join s else Ok s
  | Destroy => if decide (own s = Idle) then Ok (destroy s) else Ok s
  | Owner => match own s with InStart => started s | InJoin => Ok (joined s) | _ => Ok s end
  | Child e => match thread s with Some c => child_step e c s | None => Ok s end
  end.

Fixpoint run (ls : list label) (s : t) : outcome t :=
  match ls with [] => Ok s | l :: ls => s ← step l s; run ls s end.

(** ** The life of a thread *)

(** One start, at most one join after it, and a function that returns. *)
Definition intended (l : label) (s : t) : Prop :=
  match l with
  | Start created => own s = Idle -> started_ s = false /\ created = true
  | Join => own s = Idle -> started_ s = true /\ joined_ s = false
  | Destroy | Owner => True
  | Child e => e = Returns
  end.

Inductive reachable : t -> Prop :=
  | reach_new n num s num' : create n num = Ok (s, num') -> reachable s
  | reach_step l s s' : reachable s -> intended l s -> step l s = Ok s' -> reachable s'.

(** The latch is down once the thread is past it, and only then start is over. *)
Definition past (p : pc) : bool := match p with SetTid | CountDown => false | _ => true end.

Record inv (s : t) : Prop := {
  inv_thread : started_ s = true <-> is_Some (thread s);
  inv_latch : latch_ s = match thread s with Some c => if past (at_ c) then 0 else 1 | None => 1 end;
  inv_tid c : thread s = Some c -> at_ c <> SetTid -> tid_ s = gettid;
  inv_own c : thread s = Some c -> past (at_ c) = false -> own s = InStart;
  inv_data c : thread s = Some c -> (data c = None <-> at_ c = Exited);
  inv_cached c : thread s = Some c -> at_ c = SetTid -> current c = CurrentThread.initial;
  inv_waits : own s <> Idle -> own s <> Gone -> started_ s = true;
  inv_joined : joined_ s = true -> own s <> InJoin -> exists c, thread s = Some c /\ at_ c = Exited;
}.

Lemma inv_create n num s num' : create n num = Ok (s, num') -> inv s.
Proof.
  unfold create, setDefaultName. destruct (AtomicIntegerT.incrementAndGet 32 num) as [[a b]|]; cbn [mbind outcome_bind]; [|done].
  intros [= <- <-]. constructor; cbn; try done.
Qed.

Lemma own_step l s : (forall e, l <> Child e) -> inv s -> intended l s -> 0 < gettid -> exists s', step l s = Ok s' /\ inv s'.
Proof.
  intros Hl Hi Hint Hg. pose proof Hi as [H1 H2 H3 H4 H5 H6 H7 H8]. destruct l as [created| | | |e]; [..|by destruct (Hl e)]; cbn [step intended] in *.
  - case_decide as Ho; [|by exists s]. destruct (Hint Ho) as [Hs ->]. unfold start. rewrite Hs. cbn [negb assert mbind outcome_bind].
    assert (thread s = None) as Hn by (destruct (thread s); [|done]; assert (started_ s = true) by (apply H1; by eexists); congruence).
    rewrite Hn in *. eexists. split; [done|]. constructor; cbn; try done; try (by intros c [= <-]); try lia.
    intros Hj _. destruct (H8 Hj) as (c & Hc & _); [by rewrite Ho|done].
  - case_decide as Ho; [|by exists s]. destruct (Hint Ho) as [Hs Hj]. unfold join. rewrite Hs, Hj. cbn [negb assert mbind outcome_bind].
    eexists. split; [done|]. constructor; cbn; try done; [by rewrite <- H1, Hs|]. intros c Hc Hp. specialize (H4 c Hc Hp). congruence.
  - case_decide as Ho; [|by exists s]. eexists. split; [done|]. constructor; cbn; try done.
    + intros c Hc Hp. specialize (H4 c Hc Hp). congruence.
    + intros Hj _. apply H8; [done|congruence].
  - destruct (own s) eqn:Ho; try (by exists s).
    + unfold started. rewrite H2. destruct (H1) as [Hst _]. destruct (Hst (H7 ltac:(done) ltac:(done))) as [c Hc]. rewrite Hc in *.
      destruct (past (at_ c)) eqn:Hp; [|by exists s]. cbn [Z.leb Z.compare]. rewrite (H3 c eq_refl) by (by intros E; rewrite E in Hp).
      rewrite (proj2 (Z.ltb_lt _ _)) by done. cbn [assert mbind outcome_bind]. eexists. split; [done|]. unfold set_own.
      constructor; cbn; rewrite ?Hc; try done.
      * by rewrite Hp.
      * intros x [= <-]. congruence.
      * intros Hj _. apply (H8 Hj). congruence.
    + eexists. split; [done|]. unfold joined. destruct (thread s) as [c|] eqn:Hc; [|done]. case_decide as Hx; [|done].
      unfold set_own. constructor; cbn; rewrite ?Hc; try done.
      * intros x [= <-] Hp. by rewrite Hx in Hp.
      * intros _ _. by exists c.
Qed.

(** The new thread goes on. *)
Lemma inv_child s c c' tid latch :
  inv s -> thread s = Some c -> at_ c <> Exited -> at_ c' <> SetTid -> tid = gettid -> latch = (if past (at_ c') then 0 else 1) ->
  (past (at_ c') = false -> past (at_ c) = false) -> (data c' = None <-> at_ c' = Exited) ->
  inv (mk (started_ s) (joined_ s) tid (name_ s) latch (own s) (detached s) (Some c')).
Proof.
  intros [H1 H2 H3 H4 H5 H6 H7 H8] Hc Hx Hn Ht Hl Hp Hd. constructor; cbn; try done; try (intros x [= <-]; auto; done).
  - rewrite H1, Hc. by split; eexists.
  - intros x [= <-] Hpx. apply (H4 c Hc). auto.
  - intros Hj Ho. destruct (H8 Hj Ho) as (x & Hxc & Hxe). congruence.
Qed.

Lemma object_ok {s} : own s = InStart -> object s = Ok tt.
Proof. intros Ho. unfold object. by rewrite Ho, decide_False. Qed.

Lemma child_step_inv s : inv s -> exists s', step (Child Returns) s = Ok s' /\ inv s'.
Proof.
  intros Hi. pose proof Hi as [_ H2 H3 H4 H5 H6 _ _]. cbn [step]. destruct (thread s) as [c|] eqn:Hc; [|by exists s].
  unfold child_step. specialize (H4 c eq_refl). specialize (H5 c eq_refl). specialize (H3 c eq_refl). specialize (H6 c eq_refl).
  pose proof (inv_child s c) as Hstep. unfold set_thread.
  destruct (at_ c) eqn:Ha; [| | | | |by exists s]; (destruct (data c) as [d|] eqn:Hd; [|by destruct H5 as [H5 _]; specialize (H5 eq_refl)]).
  - rewrite (H6 eq_refl), (object_ok (H4 eq_refl)). unfold CurrentThread.tid, CurrentThread.cacheTid. cbn. eexists. split; [reflexivity|]. by apply Hstep.
  - rewrite (object_ok (H4 eq_refl)). cbn [mbind outcome_bind]. eexists. split; [reflexivity|].
    apply Hstep; try done; [by rewrite H3|by rewrite H2].
  - eexists. split; [reflexivity|]. apply Hstep; try done; by rewrite H3.
  - eexists. split; [reflexivity|]. apply Hstep; try done; by rewrite H3.
  - eexists. split; [reflexivity|]. apply Hstep; try done; by rewrite H3.
Qed.

Lemma thread_step_inv l s : inv s -> intended l s -> 0 < gettid -> exists s', step l s = Ok s' /\ inv s'.
Proof. intros Hi Hl Hg. destruct l; [..|cbn in Hl; subst; by apply child_step_inv]; by apply own_step. Qed.

Lemma thread_reachable_inv s : 0 < gettid -> reachable s -> inv s.
Proof.
  intros Hg. induction 1 as [n num s num' H|l s s' _ IH Hl H]; [by eapply inv_create|].
  destruct (thread_step_inv l s IH Hl Hg) as (s1 & H1 & Hi). congruence.
Qed.

(** C9: Whatever the order of the owner and the new thread: no assertion fails and
    neither the Thread object nor the ThreadData is used after it is gone, even
    when the object is destroyed as soon as start has returned; start returns
    only with the id of the new thread in tid_, and join only after the thread
    has ended and deleted its data. *)
Theorem thread_safe l s :
  0 < gettid -> reachable s -> intended l s ->
  (exists s', step l s = Ok s') /\
  (started_ s = true -> own s <> InStart -> tid_ s = gettid) /\
  (joined_ s = true -> own s <> InJoin -> exists c, thread s = Some c /\ at_ c = Exited /\ data c = None).
Proof.
  intros Hg Hr Hl. pose proof (thread_reachable_inv s Hg Hr) as Hi. split_and!.
  - destruct (thread_step_inv l s Hi Hl Hg) as (s' & Hs & _). by exists s'.
  - intros Hst Ho. apply (inv_thread _ Hi) in Hst as [c Hc]. apply (inv_tid _ Hi c Hc). intros E.
    by apply Ho, (inv_own _ Hi c Hc); rewrite E.
  - intros Hj Ho. destruct (inv_joined _ Hi Hj Ho) as (c & Hc & Hx). exists c. split; [done|]. split; [done|]. by apply (inv_data _ Hi c Hc).
Qed.

(** What the new thread still has to do. *)
Definition left_ (c : child) : nat :=
  match at_ c with SetTid => 5 | CountDown => 4 | SetName => 3 | Func => 2 | DeleteData => 1 | Exited => 0 end.

Lemma child_advances s c :
  inv s -> thread s = Some c -> at_ c <> Exited ->
  exists s' c', step (Child Returns) s = Ok s' /\ inv s' /\ thread s' = Some c' /\ left_ c = S (left_ c') /\ own s' = own s.
Proof.
  intros Hi Hc Hx. destruct (child_step_inv s Hi) as (s' & Hs & Hi'). exists s'.
  pose proof (inv_own _ Hi c Hc) as Ho. pose proof (inv_data _ Hi c Hc) as Hd. cbn [step] in *. rewrite Hc in Hs |- *. unfold child_step, left_ in *.
  destruct (at_ c) eqn:Ha; try done; (destruct (data c) as [d|]; [|by destruct Hd as [Hd _]; specialize (Hd eq_refl)]);
    try rewrite (object_ok (Ho eq_refl)) in Hs |- *; cbn in Hs |- *; injection Hs as <-; eexists; split_and!; (exact Hi' || reflexivity).
Qed.

Lemma child_runs_out k s c :
  inv s -> thread s = Some c -> left_ c = k ->
  exists s' c', run (replicate k (Child Returns)) s = Ok s' /\ inv s' /\ thread s' = Some c' /\ at_ c' = Exited /\ own s' = own s.
Proof.
  revert s c. induction k as [|k IH]; intros s c Hi Hc Hk; cbn [replicate run].
  - exists s, c. unfold left_ in Hk. by destruct (at_ c).
  - destruct (child_advances s c Hi Hc) as (s1 & c1 & Hs1 & Hi1 & Hc1 & Hl & Ho); [intros E; unfold left_ in Hk; by rewrite E in Hk|].
    rewrite Hs1. cbn [mbind outcome_bind]. destruct (IH s1 c1 Hi1 Hc1 ltac:(lia)) as (s' & c' & Hs' & Hi' & Hc' & Hx & Ho').
    exists s', c'. split_and!; try done. congruence.
Qed.

Lemma run_app ls k s s' : run ls s = Ok s' -> run (ls ++ k) s = run k s'.
Proof.
  revert s. induction ls as [|l ls IH]; intros s; cbn [run app]; [by intros [= ->]|].
  destruct (step l s); cbn [mbind outcome_bind]; [apply IH|done].
Qed.

(** start and join return: after at most five steps of the new thread, whose
    function returns, the owner goes on. *)
Theorem thread_waits_end s :
  0 < gettid -> reachable s -> own s = InStart \/ own s = InJoin ->
  exists n s', run (replicate n (Child Returns) ++ [Owner]) s = Ok s' /\ (n <= 5)%nat /\ own s' = Idle.
Proof.
  intros Hg Hr Ho. pose proof (thread_reachable_inv s Hg Hr) as Hi.
  assert (Hst : started_ s = true) by (apply (inv_waits _ Hi); destruct Ho; congruence).
  apply (inv_thread _ Hi) in Hst as [c Hc].
  destruct (child_runs_out (left_ c) s c Hi Hc eq_refl) as (s1 & c1 & Hs1 & Hi1 & Hc1 & Hx & Ho1).
  exists (left_ c). rewrite (run_app _ _ _ _ Hs1). cbn [run step].
  assert (Hlen : (left_ c <= 5)%nat) by (unfold left_; destruct (at_ c); lia).
  destruct Ho as [Ho|Ho]; rewrite Ho1, Ho.
  - unfold started. rewrite (inv_latch _ Hi1), Hc1, Hx. cbn [past Z.leb Z.compare]. rewrite (inv_tid _ Hi1 c1 Hc1) by (by rewrite Hx).
    rewrite (proj2 (Z.ltb_lt _ _)) by done. cbn [assert mbind outcome_bind]. eexists. split_and!; [done|done|reflexivity].
  - unfold joined. rewrite Hc1, decide_True by done. cbn [mbind outcome_bind]. eexists. split_and!; [done|done|reflexivity].
Qed.

End Run.

(** ** A thread at work *)

Definition demo : list label := [Start true; Child Returns; Child Returns; Owner; Child Returns; Destroy; Child Returns; Child Returns].

Definition started_demo : t :=
  mk true false 0 (bs "Thread1") 1 InStart false (Some (mkChild SetTid (Some (mkData (bs "Thread1") true true)) CurrentThread.initial)).

Lemma started_demo_reachable : reachable 7 started_demo.
Proof.
  destruct (create [] 0) as [[s n]|] eqn:E; [|by vm_compute in E]. apply (reach_step 7 (Start true) s); [by eapply reach_new| |].
  - vm_compute in E. injection E as <- <-. done.
  - vm_compute in E. injection E as <- <-. vm_compute. reflexivity.
Qed.

Lemma thread_safe_witness :
  (exists s', step 7 (Child Returns) started_demo = Ok s') /\
  (started_ started_demo = true -> own started_demo <> InStart -> tid_ started_demo = 7) /\
  (joined_ started_demo = true -> own started_demo <> InJoin -> exists c, thread started_demo = Some c /\ at_ c = Exited /\ data c = None).
Proof. apply (thread_safe 7 (Child Returns) started_demo); [lia|apply started_demo_reachable|reflexivity]. Defined.

Lemma thread_waits_end_witness :
  exists n s', run 7 (replicate n (Child Returns) ++ [Owner]) started_demo = Ok s' /\ (n <= 5)%nat /\ own s' = Idle.
Proof. apply (thread_waits_end 7 started_demo); [lia|apply started_demo_reachable|by left]. Defined.

(** The object may go while its thread still runs, detached. *)
Lemma demo_runs :
  match ('(s, _) ← create [] 41; run 7 demo s) with
  | Ok s => own s = Gone /\ detached s = true /\ name_ s = bs "Thread42" /\
            fmap at_ (thread s) = Some Exited /\ fmap (fun c => CurrentThread.name (current c)) (thread s) = Some (bs "finished")
  | Fault _ => False
  end.
Proof. vm_compute. by split_and!. Qed.

(** Joining a thread twice, or before it was started, fails an assertion. *)
Lemma join_misuse :
  ('(s, _) ← create [] 0; run 7 [Join] s) = Fault AssertFailed /\
  ('(s, _) ← create [] 0; run 7 ([Start true] ++ replicate 5 (Child Returns) ++ [Owner; Join; Owner; Join]) s) = Fault AssertFailed.
Proof. split; vm_compute; reflexivity. Qed.

End Thread.
