(* ===== verification/StackTrace.v ===== *)
(** * Stack traces and exceptions

    CurrentThread::stackTrace of base/CurrentThread.cc, which writes the frames
    of backtrace(3) with their C++ names, and base/Exception.h and
    Exception.cc, which keep such a text.  The texts of backtrace_symbols(3) and
    the demangler of the C++ library are arguments. *)

From S2P Require Import Prelude Monitor.

Module StackTrace.

Definition LPAR : byte := Init.Byte.x28.
Definition PLUS : byte := Init.Byte.x2b.

(** The scan of a frame's text: where [left_par] and [plus] point. *)
Fixpoint scan (i : nat) (s : bytes) (left_par plus : option nat) : option nat * option nat :=
  match s with
  | [] => (left_par, plus)
  | c :: s =>
      if decide (c = LPAR) then scan (S i) s (Some i) plus
      else if decide (c = PLUS) then scan (S i) s left_par (Some i)
      else scan (S i) s left_par plus
  end.

(** The C string at the beginning of some memory. *)
Definition c_str (m : bytes) : bytes := take (find_byte NUL m) m.

Section Demangle.
(** [abi::__cxa_demangle]: the name, or a status other than 0. *)
Variable cxa_demangle : bytes -> option bytes.

(** What is written for a frame: [*plus = '\0'] ends the name for the demangler
    and is undone. *)
Definition frame_text (demangle : bool) (s : bytes) : bytes :=
  match (if demangle then scan 0 s None None else (None, None)) with
  | (Some left_par, Some plus) =>
      match cxa_demangle (c_str (drop (S left_par) (<[plus := NUL]> s))) with
      | Some ret => take (S left_par) s ++ ret ++ drop plus s ++ [LF]
      | None => s ++ [LF]
      end
  | _ => s ++ [LF]
  end.

(** [strings]: the result of backtrace_symbols, the function itself first *)
Definition stackTrace (demangle : bool) (strings : option (list bytes)) : bytes :=
  match strings with Some frames => concat (map (frame_text demangle) (tail frames)) | None => [] end.

Lemma scan_app i s k lp pl :
  scan i (s ++ k) lp pl = let '(lp, pl) := scan i s lp pl in scan (i + length s) k lp pl.
Proof.
  revert i lp pl. induction s as [|c s IH]; intros i lp pl; cbn [app scan length]; [by rewrite Nat.add_0_r|].
  rewrite <- Nat.add_succ_comm. case_decide; [apply IH|]. case_decide; apply IH.
Qed.

Lemma scan_none i s lp pl : LPAR ∉ s -> PLUS ∉ s -> scan i s lp pl = (lp, pl).
Proof.
  revert i. induction s as [|c s IH]; intros i; [done|]. intros [H1 H2]%not_elem_of_cons [H3 H4]%not_elem_of_cons. cbn [scan].
  rewrite !decide_False by congruence. by apply IH.
Qed.

Lemma scan_no_left i s lp pl : LPAR ∉ s -> (scan i s lp pl).1 = lp.
Proof.
  revert i pl. induction s as [|c s IH]; intros i pl; [done|]. intros [H1 H2]%not_elem_of_cons. cbn [scan].
  rewrite decide_False by congruence. case_decide; by apply IH.
Qed.

(** The last parenthesis and the last plus sign are found. *)
Lemma scan_frame a m o :
  LPAR ∉ m -> LPAR ∉ o -> PLUS ∉ o ->
  scan 0 (a ++ LPAR :: m ++ PLUS :: o) None None = (Some (length a), Some (length a + 1 + length m)).
Proof.
  intros Hm Ho Ho'. rewrite scan_app. destruct (scan 0 a None None) as [lp pl]. cbn [scan]. rewrite decide_True by done.
  rewrite scan_app. pose proof (scan_no_left (S (0 + length a)) m (Some (0 + length a)) pl Hm) as Hl.
  destruct (scan (S (0 + length a)) m (Some (0 + length a)) pl) as [lp' pl']. cbn in Hl. subst lp'. cbn [scan].
  rewrite decide_False by done. rewrite decide_True by done. rewrite scan_none by done. f_equal. f_equal. lia.
Qed.

Lemma c_str_at m k : NUL ∉ m -> c_str (m ++ NUL :: k) = m.
Proof. intros Hm. unfold c_str. rewrite find_byte_app_r by done. apply take_app_length. Qed.

(** The texts around a name, cut where [stackTrace] cuts them *)
Lemma frame_cut a m o :
  let s := a ++ LPAR :: m ++ PLUS :: o in
  drop (S (length a)) (<[length a + 1 + length m := NUL]> s) = m ++ NUL :: o /\
  take (S (length a)) s = a ++ [LPAR] /\ drop (length a + 1 + length m) s = PLUS :: o.
Proof.
  cbn zeta. rewrite (cons_middle LPAR a), app_assoc. assert (length (a ++ [LPAR]) = S (length a)) as Hl by (rewrite length_app; cbn; lia).
  rewrite <- Hl. replace (length a + 1 + length m) with (length (a ++ [LPAR]) + length m) by lia. split_and!.
  - rewrite insert_app_r, drop_app_length. rewrite <- (Nat.add_0_r (length m)), insert_app_r. done.
  - apply take_app_length.
  - rewrite drop_app_add, drop_app_length. done.
Qed.

(** A frame "object(name+offset) [address]": the name is replaced by what the
    demangler makes of it, and the text is left as it is if that fails. *)
Theorem frame_demangled a m o :
  LPAR ∉ m -> NUL ∉ m -> LPAR ∉ o -> PLUS ∉ o ->
  frame_text true (a ++ LPAR :: m ++ PLUS :: o) =
    match cxa_demangle m with
    | Some ret => a ++ LPAR :: ret ++ PLUS :: o ++ [LF]
    | None => (a ++ LPAR :: m ++ PLUS :: o) ++ [LF]
    end.
Proof.
  intros Hm Hn Ho Ho'. unfold frame_text. rewrite scan_frame by done. destruct (frame_cut a m o) as (-> & -> & ->).
  rewrite c_str_at by done. destruct (cxa_demangle m); [|done]. by rewrite <- app_assoc.
Qed.

Definition newlines (s : bytes) : nat := count (fun c => bool_decide (c = LF)) s.

Lemma newlines_none s : LF ∉ s -> newlines s = 0.
Proof.
  unfold newlines. induction s as [|c s IH]; [done|]. intros [H1 H2]%not_elem_of_cons. cbn [count].
  rewrite bool_decide_eq_false_2 by congruence. by rewrite IH.
Qed.

Lemma newlines_app s k : newlines (s ++ k) = newlines s + newlines k.
Proof. apply count_app. Qed.

Lemma frame_newlines demangle s :
  LF ∉ s -> (forall m d, cxa_demangle m = Some d -> LF ∉ d) -> newlines (frame_text demangle s) = 1.
Proof.
  intros Hs Hd. unfold frame_text.
  assert (newlines (s ++ [LF]) = 1) as H1 by (rewrite newlines_app, newlines_none by done; done).
  destruct (if demangle then _ else _) as [[lp|] [pl|]]; try done. destruct (cxa_demangle _) as [d|] eqn:Ed; [|done].
  rewrite !newlines_app, (newlines_none d) by eauto.
  rewrite (newlines_none (take _ s)) by (intros Hx; apply Hs; by eapply subseteq_take).
  rewrite (newlines_none (drop _ s)) by (intros Hx; apply Hs; by eapply subseteq_drop). done.
Qed.

(** The trace has a line for every frame except that of [stackTrace] itself, in
    order; without a demangler that succeeds the lines are the texts
    themselves. *)
Theorem stack_trace_lines demangle self frames :
  (forall s, s ∈ frames -> LF ∉ s) -> (forall m d, cxa_demangle m = Some d -> LF ∉ d) ->
  newlines (stackTrace demangle (Some (self :: frames))) = length frames /\
  (demangle = false \/ (forall m, cxa_demangle m = None) ->
   stackTrace demangle (Some (self :: frames)) = concat (map (fun s => s ++ [LF]) frames)).
Proof.
  intros Hf Hd. cbn [stackTrace tail]. split.
  - induction frames as [|s frames IH]; [done|]. cbn [map concat length]. rewrite newlines_app, frame_newlines; [|apply Hf; left|done].
    rewrite IH; [done|]. intros x Hx. apply Hf. by right.
  - intros Hn. f_equal. apply map_ext. intros s. unfold frame_text. destruct Hn as [->|Hn]; [done|].
    destruct (if demangle then _ else _) as [[lp|] [pl|]]; try done. by rewrite Hn.
Qed.

End Demangle.

(** ** Exception *)

Record Exception := mkException { message_ : bytes; stack_ : bytes }.

(** The constructor, where the stack is as [strings] says *)
Definition exception (cxa_demangle : bytes -> option bytes) (msg : bytes) (strings : option (list bytes)) : Exception :=
  mkException msg (stackTrace cxa_demangle false strings).

Definition what (e : Exception) : bytes := c_str (message_ e ++ [NUL]).
Definition stackTrace_of (e : Exception) : bytes := c_str (stack_ e ++ [NUL]).

(** An exception gives back its message up to a NUL in it, and the frames as
    they are. *)
Theorem exception_texts cxa_demangle msg self frames :
  (NUL ∉ msg -> what (exception cxa_demangle msg (Some (self :: frames))) = msg) /\
  (forall a k, NUL ∉ a -> msg = a ++ NUL :: k -> what (exception cxa_demangle msg (Some (self :: frames))) = a) /\
  ((forall s, s ∈ frames -> NUL ∉ s) ->
   stackTrace_of (exception cxa_demangle msg (Some (self :: frames))) = concat (map (fun s => s ++ [LF]) frames)).
Proof.
  unfold what, stackTrace_of, exception. cbn [message_ stack_ stackTrace tail]. split_and!.
  - by apply c_str_at.
  - intros a k Ha ->. rewrite <- app_assoc. by apply c_str_at.
  - intros Hf. apply c_str_at. induction frames as [|s frames IH]; [by intros ?%elem_of_nil|]. cbn [map concat].
    intros [[Hx|Hx%list_elem_of_singleton]%elem_of_app|Hx]%elem_of_app; [by eapply Hf; [left|]|done|].
    apply IH; [|done]. intros y Hy. apply Hf. by right.
Qed.

(** ** At concrete inputs *)

(** A demangler that knows one name *)
Definition demo (m : bytes) : option bytes := if decide (m = bs "_ZN3Bar4testEv") then Some (bs "Bar::test()") else None.

Lemma demo_no_newline m d : demo m = Some d -> LF ∉ d.
Proof. unfold demo. case_decide; [|done]. intros [= <-]. refine (bool_decide_unpack _ _); vm_compute; exact I. Qed.

Lemma frame_demangled_witness :
  frame_text demo true (bs "bin/exception_test(_ZN3Bar4testEv+0x79) [0x401909]") =
    bs "bin/exception_test(Bar::test()+0x79) [0x401909]" ++ [LF].
Proof.
  refine (frame_demangled demo (bs "bin/exception_test") (bs "_ZN3Bar4testEv") (bs "0x79) [0x401909]") _ _ _ _);
    refine (bool_decide_unpack _ _); vm_compute; exact I.
Defined.

Lemma stack_trace_lines_witness :
  newlines (stackTrace demo true (Some [bs "self"; bs "bin/exception_test(_ZN3Bar4testEv+0x79) [0x401909]"; bs "bin/exception_test() [0x1]"])) = 2.
Proof.
  refine (proj1 (stack_trace_lines demo true (bs "self")
    [bs "bin/exception_test(_ZN3Bar4testEv+0x79) [0x401909]"; bs "bin/exception_test() [0x1]"] _ demo_no_newline)).
  intros s Hs. repeat (apply elem_of_cons in Hs as [->|Hs]; [refine (bool_decide_unpack _ _); vm_compute; exact I|]). by apply elem_of_nil in Hs.
Defined.

End StackTrace.
