(* ===== verification/ThreadData.v ===== *)
(** * Objects made on first use

    base/Singleton.h, base/ThreadLocal.h and base/ThreadLocalSingleton.h: one
    object for the process, made under pthread_once(3), or one for each thread,
    held in a pthread key whose destructor deletes it when the thread ends.
    Objects are numbers in the order of their creation. *)

From S2P Require Import Prelude.

(** ** One object for the process *)

Module Singleton.

(** Where a thread is in [instance()]: outside, at pthread_once, in [init],
    after it, or holding the reference. *)
Inductive pc := Out | AtOnce | InInit | AfterOnce | Got (obj : nat).

#[global] Instance pc_eq_dec : EqDecision pc.
Proof. solve_decision. Defined.

Inductive once := Never | Running | Finished.

(** [ponce_], [value_], how many objects were made and deleted, how many times
    [destroy] is registered with atexit(3), and the threads *)
Record t := mk { ponce_ : once; value_ : option nat; made : nat; deleted : list nat; atexit : nat; pcs : list pc }.

Definition new (threads : nat) : t := mk Never None 0 [] 0 (replicate threads Out).

Section Type_.
(** [has_no_destroy<T>::value] *)
Variable no_destroy : bool.

Definition goto (i : nat) (p : pc) (s : t) : t := mk (ponce_ s) (value_ s) (made s) (deleted s) (atexit s) (<[i := p]> (pcs s)).
Definition set_once (o : once) (s : t) : t := mk o (value_ s) (made s) (deleted s) (atexit s) (pcs s).

(** [init()] *)
Definition init (s : t) : t :=
  mk (ponce_ s) (Some (made s)) (S (made s)) (deleted s) (if no_destroy then atexit s else S (atexit s)) (pcs s).

(** [destroy()], with which atexit ends: [delete NULL] does nothing. *)
Definition destroy (s : t) : t :=
  mk (ponce_ s) None (made s) (match value_ s with Some v => deleted s ++ [v] | None => deleted s end) (atexit s) (pcs s).

(** Thread [i] goes on in a call of [instance()], or begins one. *)
Definition step (i : nat) (s : t) : outcome t :=
  match pcs s !! i with
  | Some Out => Ok (goto i AtOnce s)
  | Some AtOnce =>
      match ponce_ s with
      | Never => Ok (goto i InInit (set_once Running s))
      | Running => Ok s                                     (* waits for the thread in init *)
      | Finished => Ok (goto i AfterOnce s)
      end
  | Some InInit => Ok (goto i AfterOnce (set_once Finished (init s)))
  | Some AfterOnce =>
      match value_ s with
      | Some v => Ok (goto i (Got v) s)
      | None => Fault AssertFailed
      end
  | Some (Got _) => Ok (goto i Out s)
  | None => Ok s
  end.

Fixpoint run (order : list nat) (s : t) : outcome t :=
  match order with [] => Ok s | i :: order => s ← step i s; run order s end.

(** [exit]: the registered functions run. *)
Definition exit (s : t) : t := Nat.iter (atexit s) destroy s.

Record inv (s : t) : Prop := {
  inv_init i : pcs s !! i = Some InInit -> ponce_ s = Running;
  inv_one i j : pcs s !! i = Some InInit -> pcs s !! j = Some InInit -> i = j;
  inv_after i : (pcs s !! i = Some AfterOnce \/ exists v, pcs s !! i = Some (Got v)) -> ponce_ s = Finished;
  inv_got i v : pcs s !! i = Some (Got v) -> v = 0;
  inv_value : match ponce_ s with
              | Finished => value_ s = Some 0 /\ made s = 1 /\ atexit s = (if no_destroy then 0 else 1)
              | _ => value_ s = None /\ made s = 0 /\ atexit s = 0
              end;
  inv_deleted : deleted s = [];
}.

Lemma singleton_new_inv n : inv (new n).
Proof.
  constructor; cbn; try done; intros i; [|intros j|intros [Hi|[v Hi]]|intros v]; try (intros Hi);
    apply lookup_replicate in Hi as [Hi _]; done.
Qed.

(** A thread moves without touching the shared variables. *)
Lemma singleton_goto_inv i p q s :
  inv s -> pcs s !! i = Some p -> q <> InInit ->
  (q = AfterOnce -> ponce_ s = Finished) -> (forall v, q = Got v -> ponce_ s = Finished /\ v = 0) -> inv (goto i q s).
Proof.
  intros [H1 H2 H3 H4 H5 H6] Hi Hq Ha Hg. pose proof (lookup_lt_Some _ _ _ Hi) as Hlt.
  assert (forall j r, <[i := q]> (pcs s) !! j = Some r -> (j = i /\ r = q) \/ (j <> i /\ pcs s !! j = Some r)) as Hl.
  { intros j r. destruct (decide (i = j)) as [<-|Hne].
    - rewrite list_lookup_insert_eq by done. intros [= <-]. by left.
    - rewrite list_lookup_insert_ne by done. intros. right. split; [congruence|done]. }
  constructor; cbn; try done.
  - intros j [[_ <-]|[_ Hj]]%Hl; [done|by eapply H1].
  - intros j k [[_ <-]|[_ Hj]]%Hl [[_ Hk]|[_ Hk]]%Hl; try done. by apply H2.
  - intros j [[[_ <-]|[_ Hj]]%Hl|[v [[_ Hv]|[_ Hj]]%Hl]]; [by apply Ha|by eapply H3; left|by apply (Hg v)|by eapply H3; right; exists v].
  - intros j v [[_ Hv]|[_ Hj]]%Hl; [by apply (Hg v)|by eapply H4].
Qed.

Lemma singleton_step_inv i s : inv s -> exists s', step i s = Ok s' /\ inv s'.
Proof.
  intros Hinv. pose proof Hinv as [H1 H2 H3 H4 H5 H6]. unfold step. destruct (pcs s !! i) as [p|] eqn:Hi; [|eauto].
  pose proof (lookup_lt_Some _ _ _ Hi) as Hlt. destruct p as [| | | |v].
  - eexists. split; [done|]. by eapply singleton_goto_inv.
  - destruct (ponce_ s) eqn:Eo; [|eauto|eexists; split; [done|]; by eapply singleton_goto_inv].
    eexists. split; [done|].
    assert (forall j, pcs s !! j <> Some InInit) as Hno by (intros j Hj; by specialize (H1 j Hj)).
    constructor; cbn; try done.
    + intros j k Hj Hk. destruct (decide (i = j)) as [<-|]; [|rewrite list_lookup_insert_ne in Hj by done; by destruct (Hno j)].
      destruct (decide (i = k)) as [<-|]; [done|]. rewrite list_lookup_insert_ne in Hk by done. by destruct (Hno k).
    + intros j Hj. destruct (decide (i = j)) as [<-|Hne]; [rewrite list_lookup_insert_eq in Hj by done; destruct Hj as [[=]|[v [=]]]|].
      rewrite list_lookup_insert_ne in Hj by done. by specialize (H3 j Hj).
    + intros j v Hj. destruct (decide (i = j)) as [<-|Hne]; [by rewrite list_lookup_insert_eq in Hj|].
      rewrite list_lookup_insert_ne in Hj by done. by apply (H4 j).
  - specialize (H1 i Hi). rewrite H1 in H5. destruct H5 as (Hv & Hm & Hx). eexists. split; [done|].
    assert (forall j r, <[i := AfterOnce]> (pcs s) !! j = Some r -> (r = AfterOnce \/ pcs s !! j = Some r) /\ r <> InInit) as Hl.
    { intros j r. destruct (decide (i = j)) as [<-|Hne].
      - rewrite list_lookup_insert_eq by done. intros [= <-]. split; [by left|done].
      - rewrite list_lookup_insert_ne by done. intros Hj. split; [by right|]. intros ->. apply Hne. by eapply H2. }
    constructor; cbn; try done.
    + intros j [_ Hj]%Hl. done.
    + intros j k [_ Hj]%Hl. done.
    + intros j v [[Hj|Hj] _]%Hl; [done|by eapply H4].
    + rewrite Hm, Hx. done.
  - rewrite (H3 i (or_introl Hi)) in H5. destruct H5 as (-> & _ & _). eexists. split; [done|].
    eapply singleton_goto_inv; try done. intros v [= <-]. split; [|done]. apply (H3 i). by left.
  - eexists. split; [done|]. by eapply singleton_goto_inv.
Qed.

Lemma singleton_run_inv order s : inv s -> exists s', run order s = Ok s' /\ inv s'.
Proof.
  revert s. induction order as [|i order IH]; intros s Hs; cbn [run]; [eauto|].
  destruct (singleton_step_inv i s Hs) as (s1 & -> & Hs1). cbn [mbind outcome_bind]. by apply IH.
Qed.

(** Any number of threads that call [instance()] at the same time get the same
    object, made once; no assertion fails; and when the process exits that
    object is deleted once, unless T has a no_destroy, when it stays. *)
Theorem singleton_once order n :
  exists s, run order (new n) = Ok s /\ made s <= 1 /\ (forall i v, pcs s !! i = Some (Got v) -> v = 0 /\ value_ s = Some 0) /\
    (value_ (exit s) = if no_destroy then value_ s else None) /\
    deleted (exit s) = match value_ s with Some v => if no_destroy then [] else [v] | None => [] end.
Proof.
  destruct (singleton_run_inv order (new n) (singleton_new_inv n)) as (s & Hr & [H1 H2 H3 H4 H5 H6]). exists s.
  split; [done|]. unfold exit. destruct (ponce_ s) eqn:Eo; destruct H5 as (Hv & Hm & Hx); rewrite Hv, Hm, Hx.
  - split_and!; [lia| |cbn; rewrite Hv; by destruct no_destroy|cbn; by rewrite H6].
    intros i v Hi. discriminate (H3 i (or_intror (ex_intro _ v Hi))).
  - split_and!; [lia| |cbn; rewrite Hv; by destruct no_destroy|cbn; by rewrite H6].
    intros i v Hi. discriminate (H3 i (or_intror (ex_intro _ v Hi))).
  - split; [lia|]. split; [intros i v Hi; by rewrite (H4 i v Hi)|]. destruct no_destroy; cbn; by rewrite Hv, H6.
Qed.

End Type_.

(** A thread that calls [instance()] after exit has deleted the object fails
    the assertion that there is one. *)
Theorem instance_after_exit : run false [1; 1; 1] (exit (default (new 0) (match run false [0; 0; 0; 0] (new 2) with Ok s => Some s | _ => None end))) = Fault AssertFailed.
Proof. vm_compute. reflexivity. Qed.

End Singleton.

(** ** Objects that threads own *)

(** The objects made so far are those that the threads of [slots] own and those
    that were deleted, each once. *)
Definition owned (slots : gmap nat nat) (deleted : list nat) (made : nat) : Prop :=
  deleted ++ (map_to_list slots).*2 ≡ₚ seq 0 made.

Lemma owned_new slots deleted made i :
  slots !! i = None -> owned slots deleted made -> owned (<[i := made]> slots) deleted (S made).
Proof.
  intros Hi Ho. unfold owned in *. rewrite map_to_list_insert, fmap_cons, seq_S, <- Ho by done. cbn [snd Nat.add].
  rewrite <- Permutation_middle, (Permutation_app_comm _ [made]). done.
Qed.

Lemma owned_delete slots deleted made i v :
  slots !! i = Some v -> owned slots deleted made -> owned (delete i slots) (deleted ++ [v]) made.
Proof.
  intros Hi Ho. unfold owned in *. rewrite <- Ho, <- app_assoc. f_equiv.
  rewrite <- (insert_delete_id slots i v) at 2 by done. by rewrite map_to_list_insert by apply lookup_delete_eq.
Qed.

(** No two threads own the same object, and no owned object is deleted. *)
Lemma owned_distinct slots deleted made i j v :
  owned slots deleted made -> slots !! i = Some v -> (v ∉ deleted) /\ (slots !! j = Some v -> i = j).
Proof.
  intros Ho Hi. assert (NoDup (deleted ++ (map_to_list slots).*2)) as Hn by (unfold owned in Ho; rewrite Ho; apply NoDup_seq).
  apply list.NoDup_app in Hn as (_ & Hd & Hn).
  assert (forall k, slots !! k = Some v -> (k, v) ∈ map_to_list slots) as Hk by (intros k; by rewrite elem_of_map_to_list). split.
  - intros Hv. apply (Hd v Hv). apply list_elem_of_fmap. exists (i, v). auto.
  - intros Hj. destruct (decide (i = j)) as [|Hne]; [done|].
    rewrite <- (insert_delete_id slots i v) in Hn by done. rewrite map_to_list_insert in Hn by apply lookup_delete_eq.
    cbn in Hn. apply list.NoDup_cons in Hn as [Hn _]. destruct Hn. apply list_elem_of_fmap. exists (j, v). split; [done|].
    apply elem_of_map_to_list. by rewrite lookup_delete_ne.
Qed.

(** ** One object for each thread *)

Module ThreadLocalObject.

(** The key's values, which are not NULL, by thread; whether the key exists;
    the objects made and deleted *)
Record t := mk { slots : gmap nat nat; key : bool; made : nat; deleted : list nat }.

(** [ThreadLocal()] *)
Definition new : t := mk ∅ true 0 [].

(** [T& value()] in thread [i] *)
Definition value (i : nat) (s : t) : nat * t :=
  match slots s !! i with
  | Some v => (v, s)
  | None => (made s, mk (<[i := made s]> (slots s)) (key s) (S (made s)) (deleted s))
  end.

(** [destructor(x)] *)
Definition destructor (x : nat) (s : t) : t := mk (slots s) (key s) (made s) (deleted s ++ [x]).

(** Thread [i] ends: pthread resets its value and calls the destructor, as
    long as the key exists. *)
Definition thread_exit (i : nat) (s : t) : t :=
  if key s then
    match slots s !! i with
    | Some v => destructor v (mk (delete i (slots s)) (key s) (made s) (deleted s))
    | None => s
    end
  else s.

(** [~ThreadLocal()]: pthread_key_delete(3) calls no destructors. *)
Definition dtor (s : t) : t := mk (slots s) false (made s) (deleted s).

Inductive op := Value (i : nat) | ThreadExit (i : nat).

Definition step (o : op) (s : t) : t := match o with Value i => snd (value i s) | ThreadExit i => thread_exit i s end.
Definition run (os : list op) (s : t) : t := foldl (fun s o => step o s) s os.

Lemma local_run_owned os s :
  key s = true -> owned (slots s) (deleted s) (made s) ->
  let s' := run os s in key s' = true /\ owned (slots s') (deleted s') (made s').
Proof.
  revert s. induction os as [|o os IH]; intros s Hk Ho; [done|]. cbn [run foldl]. fold (run os (step o s)). apply IH; destruct o as [i|i]; cbn.
  - unfold value. by destruct (slots s !! i).
  - unfold thread_exit. rewrite Hk. by destruct (slots s !! i).
  - unfold value. destruct (slots s !! i) eqn:E; cbn; [done|by apply owned_new].
  - unfold thread_exit. rewrite Hk. destruct (slots s !! i) eqn:E; cbn; [by apply owned_delete|done].
Qed.

(** Each thread that asks for its value has an object of its own, gets the same
    one until it ends, and the object is deleted once, when it ends; no object
    is lost. *)
Theorem thread_local_objects os i :
  let s := run os new in let v := fst (value i s) in let s' := snd (value i s) in
  owned (slots s') (deleted s') (made s') /\ value i s' = (v, s') /\ (forall j, slots s' !! j = Some v -> j = i) /\
  (v ∉ deleted s') /\ deleted (thread_exit i s') = deleted s' ++ [v].
Proof.
  intros s v s'. destruct (local_run_owned (os ++ [Value i]) new eq_refl) as [Hk Ho]; [by vm_compute|].
  unfold run in Hk, Ho. rewrite foldl_app in Hk, Ho. change (key s' = true) in Hk. change (owned (slots s') (deleted s') (made s')) in Ho.
  assert (slots s' !! i = Some v) as Hv.
  { unfold s', v, value. destruct (slots s !! i) eqn:E; cbn; [done|apply lookup_insert_eq]. }
  split_and!; [done| | | |].
  - unfold value at 1. by rewrite Hv.
  - intros j Hj. symmetry. by eapply owned_distinct.
  - by eapply (owned_distinct _ _ _ i i).
  - unfold thread_exit. by rewrite Hk, Hv.
Qed.

(** When a ThreadLocal is destroyed before the threads that used it end, their
    objects are never deleted. *)
Theorem thread_local_leaks os exits :
  let s := run os new in
  let s' := foldl (fun s i => thread_exit i s) (dtor s) exits in
  made s' = made s /\ deleted s' = deleted s /\ slots s' = slots s.
Proof.
  intros s. assert (forall exits x, key x = false -> foldl (fun s i => thread_exit i s) x exits = x) as Hx.
  { induction exits0 as [|i l IH]; intros x Hk; [done|]. cbn. unfold thread_exit at 2. rewrite Hk. by apply IH. }
  cbv zeta. by rewrite Hx.
Qed.

End ThreadLocalObject.

Module ThreadLocalSingleton.

(** [t_value_] of each thread, the values of the deleter's key, and the objects
    made and deleted *)
Record t := mk { t_value_ : gmap nat nat; slots : gmap nat nat; made : nat; deleted : list nat }.

Definition new : t := mk ∅ ∅ 0 [].

(** [Deleter::set(newObj)] *)
Definition set (i newObj : nat) (s : t) : outcome t :=
  _ ← assert (bool_decide (slots s !! i = None));
  Ok (mk (t_value_ s) (<[i := newObj]> (slots s)) (made s) (deleted s)).

(** [T& instance()] in thread [i] *)
Definition instance (i : nat) (s : t) : outcome (nat * t) :=
  match t_value_ s !! i with
  | Some v => Ok (v, s)
  | None =>
      let v := made s in
      s ← set i v (mk (<[i := v]> (t_value_ s)) (slots s) (S v) (deleted s));
      Ok (v, s)
  end.

(** [T* pointer()] *)
Definition pointer (i : nat) (s : t) : option nat := t_value_ s !! i.

(** [destructor(obj)] in thread [i] *)
Definition destructor (i obj : nat) (s : t) : outcome t :=
  _ ← assert (bool_decide (t_value_ s !! i = Some obj));
  Ok (mk (delete i (t_value_ s)) (slots s) (made s) (deleted s ++ [obj])).

(** Thread [i] ends. *)
Definition thread_exit (i : nat) (s : t) : outcome t :=
  match slots s !! i with
  | Some v => destructor i v (mk (t_value_ s) (delete i (slots s)) (made s) (deleted s))
  | None => Ok s
  end.

Inductive op := Instance_ (i : nat) | ThreadExit (i : nat).

Definition step (o : op) (s : t) : outcome t :=
  match o with Instance_ i => snd <$> instance i s | ThreadExit i => thread_exit i s end.

Fixpoint run (os : list op) (s : t) : outcome t :=
  match os with [] => Ok s | o :: os => s ← step o s; run os s end.

Definition inv (s : t) : Prop := slots s = t_value_ s /\ owned (slots s) (deleted s) (made s).

Lemma tls_instance_inv i s : inv s -> exists s', instance i s = Ok (default (made s) (t_value_ s !! i), s') /\ inv s' /\
  pointer i s' = Some (default (made s) (t_value_ s !! i)).
Proof.
  intros [He Ho]. unfold instance, set, pointer. cbn [slots]. rewrite He in *. destruct (t_value_ s !! i) as [v|] eqn:E; cbn [default].
  - exists s. split_and!; try done. by split; [|rewrite He].
  - cbn [slots]. rewrite bool_decide_eq_true_2 by done. cbn. eexists. split; [done|]. split; [|apply lookup_insert_eq].
    split; cbn; [done|by apply owned_new].
Qed.

Lemma tls_step_inv o s : inv s -> exists s', step o s = Ok s' /\ inv s'.
Proof.
  intros Hi. destruct o as [i|i]; cbn [step].
  - destruct (tls_instance_inv i s Hi) as (s' & -> & Hi' & _). by exists s'.
  - destruct Hi as [He Ho]. unfold thread_exit, destructor. rewrite He in *. destruct (t_value_ s !! i) as [v|] eqn:E.
    + cbn [t_value_]. rewrite bool_decide_eq_true_2 by done. cbn. eexists. split; [done|]. split; cbn; [done|]. by apply owned_delete.
    + exists s. split; [done|]. split; [done|by rewrite He].
Qed.

(** [instance()] and the deleter agree in every order of calls and thread ends:
    no assertion fails, a thread has one object of its own from its first call of
    [instance()] on, and every object is deleted once, when its thread ends. *)
Theorem thread_singleton_safe os :
  exists s, run os new = Ok s /\ owned (t_value_ s) (deleted s) (made s) /\
    (forall i, exists s', instance i s = Ok (default (made s) (pointer i s), s') /\ pointer i s' = Some (default (made s) (pointer i s))).
Proof.
  assert (forall os s, inv s -> exists s', run os s = Ok s' /\ inv s') as Hrun.
  { induction os0 as [|o l IH]; intros s Hs; cbn [run]; [eauto|].
    destruct (tls_step_inv o s Hs) as (s1 & -> & Hs1). cbn [mbind outcome_bind]. by apply IH. }
  destruct (Hrun os new) as (s & Hr & Hi); [by split; vm_compute|]. exists s. split; [done|].
  split; [destruct Hi as [<- ?]; done|]. intros i. destruct (tls_instance_inv i s Hi) as (s' & He & _ & Hp).
  by exists s'.
Qed.

End ThreadLocalSingleton.
