(* ===== verification/PoolThreads.v ===== *)
(** * The threads of a thread pool

    base/ThreadPool.cc from [start] to the destructor: the worker threads in
    [runInThread], the callers of [run], and the owner, which creates the
    threads one by one, stops the pool and joins them.  The queue is the one of
    ThreadPool in Concurrency.v, where sleeping and waking are proved right: a
    [take] that blocks is here a step that changes nothing.  A Thread is started
    and joined as in Thread.v, so that [start] leaves it running and [join]
    waits for its end. *)

From S2P Require Import Prelude Timestamp Monitor Concurrency.

Import Monitor.

Module PoolThreads.

(** What a task or the callback may throw: an Exception with its texts, a
    std::exception, or anything else. *)
Inductive thrown := MuduoException (what stack : bytes) | StdException (what : bytes) | Unknown.
Inductive ending := Returns | Throws (e : thrown).

(** The handlers of [runInThread]: the lines on stderr, and whether the
    exception is thrown again rather than [abort] called. *)
Definition handlers (name : bytes) (e : thrown) : list bytes * bool :=
  let caught := bs "exception caught in ThreadPool " ++ name in
  match e with
  | MuduoException what stack => ([caught; bs "reason: " ++ what; bs "stack trace: " ++ stack], false)
  | StdException what => ([caught; bs "reason: " ++ what], false)
  | Unknown => ([bs "unknown " ++ caught], true)
  end.

Section Pool.
Context {Task : Type}.
(** A Task is a std::function, which may be empty. *)
Variable callable : Task -> bool.

(** A worker in [runInThread]: before [threadInitCallback_], at the condition of
    the loop, in [take], in a task, or after the loop. *)
Inductive pc := Init | AtLoop | Taking | Calling (task : Task) | Ended.

Record worker := mkWorker { wname : bytes; at_ : pc; joined_ : bool }.

(** The owner outside the pool, in [start] before thread [i] of [n] is made, in
    [stop] before the join of thread [i] or in it, or after the destructor;
    [dtor]: [stop] is called by the destructor. *)
Inductive owner := Idle | Starting (i n : nat) | Joining (dtor : bool) (i : nat) | InJoin (dtor : bool) (i : nat) | Destroyed.

(** The pool, the threads and the owner; written down are the tasks that [run]
    queued, those that workers called, with the worker's number, those that
    callers of [run] called themselves, and how often the callback was called. *)
Record t := mk {
  pool : @ThreadPool.t Task;
  name_ : bytes;
  threadInitCallback_ : bool;
  threads_ : list worker;
  own : owner;
  queued : list Task;
  called : list (nat * Task);
  inline : list Task;
  inits : nat;
}.

Definition new (name : bytes) (cb : bool) (max : nat) : t :=
  mk (ThreadPool.setMaxQueueSize max ThreadPool.new) name cb [] Idle [] [] [] 0.

Definition set_own (o : owner) (s : t) : t :=
  mk (pool s) (name_ s) (threadInitCallback_ s) (threads_ s) o (queued s) (called s) (inline s) (inits s).
Definition set_pool (p : ThreadPool.t) (s : t) : t :=
  mk p (name_ s) (threadInitCallback_ s) (threads_ s) (own s) (queued s) (called s) (inline s) (inits s).
Definition set_worker (i : nat) (w : worker) (s : t) : t :=
  mk (pool s) (name_ s) (threadInitCallback_ s) (<[i := w]> (threads_ s)) (own s) (queued s) (called s) (inline s) (inits s).
Definition init_called (s : t) : t :=
  mk (pool s) (name_ s) (threadInitCallback_ s) (threads_ s) (own s) (queued s) (called s) (inline s) (S (inits s)).
Definition goto (i : nat) (w : worker) (p : pc) (s : t) : t := set_worker i (mkWorker (wname w) p (joined_ w)) s.

Definition running (s : t) : bool := ThreadPool.running_ (pool s).

(** ** Operations *)

(** [start] up to its loop; [reserve] throws for a size above max_size(), as
    every negative number is. *)
Definition start (numThreads : Z) (s : t) : outcome t :=
  _ ← assert (match threads_ s with [] => true | _ => false end);
  if (numThreads <? 0)%Z then Fault LengthError
  else Ok (set_own (Starting 0 (Z.to_nat numThreads)) (set_pool (ThreadPool.start (pool s)) s)).

Definition thread_name (s : t) (i : nat) : bytes := name_ s ++ Timestamp.snprintf 32 (dec (Z.of_nat i + 1)).

(** One turn of the loop of [start], or what follows it; an exception that the
    callback throws here is one for the caller of [start]. *)
Definition start_one (i n : nat) (s : t) : outcome t :=
  if i <? n then
    Ok (set_own (Starting (S i) n)
          (mk (pool s) (name_ s) (threadInitCallback_ s) (threads_ s ++ [mkWorker (thread_name s i) Init false]) (own s)
             (queued s) (called s) (inline s) (inits s)))
  else Ok (set_own Idle (if (n =? 0) && threadInitCallback_ s then init_called s else s)).

(** [stop] up to the joins *)
Definition stop (dtor : bool) (s : t) : outcome t :=
  r ← ThreadPool.stop (pool s);
  match r with Done p _ _ => Ok (set_own (Joining dtor 0) (set_pool p s)) | Block => Ok s end.

Definition destroy (s : t) : outcome t := if running s then stop true s else Ok (set_own Destroyed s).

(** Thread [i]'s [join] is called, or all are joined. *)
Definition join_one (dtor : bool) (i : nat) (s : t) : outcome t :=
  match threads_ s !! i with
  | Some w => _ ← assert (negb (joined_ w)); Ok (set_own (InJoin dtor i) (set_worker i (mkWorker (wname w) (at_ w) true) s))
  | None => Ok (set_own (if dtor then Destroyed else Idle) s)
  end.

(** pthread_join returns when the thread has ended. *)
Definition joined (dtor : bool) (i : nat) (s : t) : outcome t :=
  match threads_ s !! i with
  | Some w => match at_ w with Ended => Ok (set_own (Joining dtor (S i)) s) | _ => Ok s end
  | None => Ok s
  end.

(** [run], in a thread that is not told apart *)
Definition run_ (task : Task) (s : t) : outcome t :=
  match ThreadPool.run_inline (match threads_ s with [] => true | _ => false end) task with
  | Some task => Ok (mk (pool s) (name_ s) (threadInitCallback_ s) (threads_ s) (own s) (queued s) (called s) (inline s ++ [task]) (inits s))
  | None =>
      r ← ThreadPool.run_task task (pool s);
      match r with
      | Done p _ (ThreadPool.Accepted true) =>
          Ok (mk p (name_ s) (threadInitCallback_ s) (threads_ s) (own s) (queued s ++ [task]) (called s) (inline s) (inits s))
      | Done p _ _ => Ok (set_pool p s)
      | Block => Ok s
      end
  end.

(** The pool must be there when a worker uses its members. *)
Definition alive (s : t) : outcome unit := match own s with Destroyed => Fault OutOfBounds | _ => Ok tt end.

(** The end of a call in [runInThread]: every handler ends the process, one of
    them through the handler of Thread::runInThread that throws again. *)
Definition after_call (e : ending) (s : t) : outcome t :=
  match e with Returns => Ok s | Throws _ => Fault Aborted end.

(** What [take] gave the worker *)
Definition take (i : nat) (w : worker) (s : t) : outcome t :=
  r ← ThreadPool.take (pool s);
  match r with
  | Block => Ok s
  | Done p _ ret =>
      match ThreadPool.worker_runs ret with
      | Some task =>
          if callable task
          then Ok (goto i w (Calling task)
                     (mk p (name_ s) (threadInitCallback_ s) (threads_ s) (own s) (queued s) (called s ++ [(i, task)]) (inline s) (inits s)))
          else Ok (goto i w AtLoop (set_pool p s))
      | None => Ok (goto i w AtLoop (set_pool p s))
      end
  end.

(** A step of [runInThread] *)
Definition runInThread (e : ending) (i : nat) (w : worker) (s : t) : outcome t :=
  match at_ w with
  | Init => _ ← alive s; if threadInitCallback_ s then after_call e (goto i w AtLoop (init_called s)) else Ok (goto i w AtLoop s)
  | AtLoop => _ ← alive s; Ok (goto i w (if ThreadPool.worker_goes_on (pool s) then Taking else Ended) s)
  | Taking => _ ← alive s; take i w s
  | Calling _ => after_call e (goto i w AtLoop s)
  | Ended => Ok s
  end.

Inductive label := Start (numThreads : Z) | Stop | Destroy | Run (task : Task) | Owner | Worker (i : nat) (e : ending).

Definition owner_step (s : t) : outcome t :=
  match own s with
  | Starting i n => start_one i n s
  | Joining dtor i => join_one dtor i s
  | InJoin dtor i => joined dtor i s
  | Idle | Destroyed => Ok s
  end.

Definition step (l : label) (s : t) : outcome t :=
  match l with
  | Start n => match own s with Idle => start n s | _ => Ok s end
  | Stop => match own s with Idle => stop false s | _ => Ok s end
  | Destroy => match own s with Idle => destroy s | _ => Ok s end
  | Run task => _ ← alive s; run_ task s
  | Owner => owner_step s
  | Worker i e => match threads_ s !! i with Some w => runInThread e i w s | None => Ok s end
  end.

Fixpoint run (ls : list label) (s : t) : outcome t :=
  match ls with [] => Ok s | l :: ls => s ← step l s; run ls s end.

(** ** What holds of every run *)

(** One start at a time of a pool without threads, a number of threads, at most
    one [stop] of a pool with threads, no [run] of a destroyed pool, and tasks
    that do not throw. *)
Definition intended (l : label) (s : t) : Prop :=
  match l with
  | Start n => own s = Idle -> (0 <= n)%Z /\ threads_ s = []
  | Stop => own s = Idle -> running s = true \/ threads_ s = []
  | Run _ => own s <> Destroyed
  | Destroy | Owner => True
  | Worker _ e => e = Returns
  end.

(** The first [k] threads are those joined and the first [e] have ended. *)
Definition upto (k e : nat) (ts : list worker) : Prop :=
  forall j w, ts !! j = Some w -> (joined_ w = true <-> j < k) /\ (j < e -> at_ w = Ended).

Definition ownership (o : owner) (running : bool) (ts : list worker) : Prop :=
  match o with
  | Idle => if running then upto 0 0 ts else upto (length ts) (length ts) ts
  | Starting i n => running = true /\ length ts = i /\ i <= n /\ upto 0 0 ts
  | Joining _ i => running = false /\ i <= length ts /\ upto i i ts
  | InJoin _ i => running = false /\ i < length ts /\ upto (S i) i ts
  | Destroyed => running = false /\ upto (length ts) (length ts) ts
  end.

(** The tasks taken off the queue are the first ones queued, and those of them
    that can be called are the ones called. *)
Definition fifo (s : t) : Prop :=
  exists taken, queued s = taken ++ ThreadPool.queue_ (pool s) /\ map snd (called s) = List.filter callable taken.

Record inv (s : t) : Prop := {
  inv_own : ownership (own s) (running s) (threads_ s);
  inv_fifo : fifo s;
  inv_name i w : threads_ s !! i = Some w -> wname w = thread_name s i;
}.

Inductive reachable (name : bytes) (cb : bool) (max : nat) : t -> Prop :=
  | reach_new : reachable name cb max (new name cb max)
  | reach_step l s s' : reachable name cb max s -> intended l s -> step l s = Ok s' -> reachable name cb max s'.

Lemma upto_nil k e : upto k e [].
Proof. by intros j w Hj. Qed.

Lemma upto_insert k e k' e' i w w' ts :
  ts !! i = Some w -> upto k e ts ->
  (joined_ w' = true <-> i < k') /\ (i < e' -> at_ w' = Ended) ->
  (forall j, j <> i -> (j < k' <-> j < k) /\ (j < e' -> j < e)) -> upto k' e' (<[i := w']> ts).
Proof.
  intros Hi Hu Hw Hj j x Hx. pose proof (lookup_lt_Some _ _ _ Hi). destruct (decide (i = j)) as [<-|Hne].
  - rewrite list_lookup_insert_eq in Hx by done. by injection Hx as <-.
  - rewrite list_lookup_insert_ne in Hx by done. destruct (Hu j x Hx) as [H1 H2], (Hj j (not_eq_sym Hne)) as [H3 H4].
    split; [by rewrite H3|auto].
Qed.

(** A worker that has not ended goes on. *)
Lemma upto_goto k e i w p ts :
  ts !! i = Some w -> at_ w <> Ended -> upto k e ts -> upto k e (<[i := mkWorker (wname w) p (joined_ w)]> ts).
Proof.
  intros Hi Hw Hu. eapply upto_insert; [done|exact Hu| |done]. destruct (Hu i w Hi) as [H1 H2]. split; [done|]. intros Hx. by destruct (Hw (H2 Hx)).
Qed.

Lemma ownership_goto o r i w p ts :
  ts !! i = Some w -> at_ w <> Ended -> ownership o r ts -> ownership o r (<[i := mkWorker (wname w) p (joined_ w)]> ts).
Proof.
  intros Hi Hw. destruct o, r; cbn [ownership]; rewrite ?length_insert; intros H;
    repeat match goal with H : _ /\ _ |- _ => destruct H end; repeat match goal with |- _ /\ _ => split end;
    try done; by apply upto_goto.
Qed.

Lemma goto_inv i w p s s' :
  inv s -> threads_ s !! i = Some w -> at_ w <> Ended ->
  own s' = own s -> running s' = running s -> threads_ s' = threads_ s -> name_ s' = name_ s -> fifo s' -> inv (goto i w p s').
Proof.
  intros [H1 H2 H3] Hi Hw E1 E2 E3 E4 Hf. constructor.
  - unfold running in *. cbn [goto set_worker own pool threads_]. rewrite E1, E2, E3. by apply ownership_goto.
  - done.
  - intros j x. unfold thread_name. cbn [goto set_worker threads_ name_]. rewrite E3, E4. intros Hx.
    pose proof (lookup_lt_Some _ _ _ Hi). destruct (decide (i = j)) as [<-|Hne].
    + rewrite list_lookup_insert_eq in Hx by done. injection Hx as <-. exact (H3 _ _ Hi).
    + rewrite list_lookup_insert_ne in Hx by done. exact (H3 _ _ Hx).
Qed.

(** A worker that has not ended finds the pool. *)
Lemma alive_ok i w s : inv s -> threads_ s !! i = Some w -> at_ w <> Ended -> alive s = Ok tt.
Proof.
  intros [H1 _ _] Hi Hw. unfold alive. destruct (own s); try done. destruct H1 as [_ Hu].
  destruct (Hu i w Hi) as [_ H]. destruct Hw. by apply H, (lookup_lt_Some _ _ _ Hi).
Qed.

Lemma take_inv i w s :
  inv s -> threads_ s !! i = Some w -> at_ w = Taking -> exists s', take i w s = Ok s' /\ inv s'.
Proof.
  intros Hinv Hi Ht. pose proof Hinv as [H1 (taken & Hq & Hc) H3]. assert (at_ w <> Ended) by congruence.
  unfold take, ThreadPool.take. destruct (ThreadPool.queue_ (pool s)) as [|x q] eqn:Eq.
  - destruct (ThreadPool.running_ (pool s)) eqn:Er; cbn [mbind outcome_bind ThreadPool.worker_runs]; eexists; (split; [done|]); [done|].
    apply (goto_inv i w AtLoop s); try done. exists taken. cbn [set_pool pool queued called]. by rewrite Eq.
  - cbn [mbind outcome_bind ThreadPool.worker_runs]. rewrite (cons_middle x taken q), app_assoc in Hq.
    destruct (callable x) eqn:Ex; eexists; (split; [done|]); apply (goto_inv i w _ s); try done; exists (taken ++ [x]);
      cbn [set_pool pool queued called ThreadPool.queue_]; (split; [done|]); rewrite ?map_app, List.filter_app; cbn [List.filter map snd]; rewrite Ex, Hc;
      by rewrite ?app_nil_r.
Qed.

Lemma worker_inv i w s :
  inv s -> threads_ s !! i = Some w -> exists s', runInThread Returns i w s = Ok s' /\ inv s'.
Proof.
  intros Hinv Hi. pose proof Hinv as [_ Hf _]. unfold runInThread.
  destruct (at_ w) eqn:Ew; [| | | |by exists s]; rewrite ?(alive_ok i w s) by (done || congruence); cbn [mbind outcome_bind after_call].
  - destruct (threadInitCallback_ s); eexists; (split; [done|]); apply (goto_inv i w AtLoop s); done || congruence.
  - eexists. split; [done|]. apply (goto_inv i w _ s); done || congruence.
  - by apply take_inv.
  - eexists. split; [done|]. apply (goto_inv i w _ s); done || congruence.
Qed.

Lemma inv_set_own o s : inv s -> ownership o (running s) (threads_ s) -> inv (set_own o s).
Proof. by intros [_ H2 H3] H; constructor. Qed.

Lemma start_one_inv i n s : inv s -> own s = Starting i n -> exists s', start_one i n s = Ok s' /\ inv s'.
Proof.
  intros [H1 H2 H3] Ho. rewrite Ho in H1. destruct H1 as (Hr & Hl & Hn & Hu). unfold start_one.
  destruct (Nat.ltb_spec i n); eexists; (split; [done|]).
  - constructor; cbn [set_own own pool threads_ running ownership name_]; [|done|].
    + unfold running in *. cbn. split_and!; [done|rewrite length_app, Hl; cbn; lia|lia|].
      intros j x [Hx|[_ [_ <-]%list_lookup_singleton_Some]]%lookup_app_Some; [exact (Hu _ _ Hx)|]. cbn. split; [split; [done|lia]|lia].
    + intros j x [Hx|[Hj [Hj' <-]%list_lookup_singleton_Some]]%lookup_app_Some; [exact (H3 _ _ Hx)|].
      assert (j = i) as -> by lia. done.
  - apply inv_set_own.
    + destruct (_ && _); constructor; cbn; try done; rewrite Ho; by split_and!.
    + cbn. destruct (_ && _); unfold running in *; cbn; rewrite Hr; exact Hu.
Qed.

Lemma join_inv dtor i s : inv s -> own s = Joining dtor i -> exists s', join_one dtor i s = Ok s' /\ inv s'.
Proof.
  intros Hinv Ho. pose proof Hinv as [H1 H2 H3]. rewrite Ho in H1. destruct H1 as (Hr & Hl & Hu). unfold join_one.
  destruct (threads_ s !! i) as [w|] eqn:Hi.
  - destruct (Hu i w Hi) as [Hw _]. destruct (joined_ w); [destruct Hw as [Hw _]; specialize (Hw eq_refl); lia|].
    cbn [negb assert mbind outcome_bind]. eexists. split; [done|].
    pose proof (lookup_lt_Some _ _ _ Hi). constructor; [|done|].
    + cbn [set_own own set_worker threads_ ownership]. unfold running in *. cbn. rewrite length_insert. split_and!; [done|done|].
      eapply upto_insert; [done|exact Hu|cbn; split; [split; [lia|done]|lia]|]. intros j Hj. split; [lia|done].
    + cbn [set_own set_worker threads_]. intros j x Hx. destruct (decide (i = j)) as [<-|Hne].
      * rewrite list_lookup_insert_eq in Hx by done. injection Hx as <-. exact (H3 _ _ Hi).
      * rewrite list_lookup_insert_ne in Hx by done. exact (H3 _ _ Hx).
  - apply lookup_ge_None in Hi. assert (i = length (threads_ s)) as -> by lia. eexists. split; [done|].
    apply inv_set_own; [done|]. destruct dtor; cbn; [by split|]. by rewrite Hr.
Qed.

Lemma joined_inv dtor i s : inv s -> own s = InJoin dtor i -> exists s', joined dtor i s = Ok s' /\ inv s'.
Proof.
  intros Hinv Ho. pose proof Hinv as [H1 H2 H3]. rewrite Ho in H1. destruct H1 as (Hr & Hl & Hu). unfold joined.
  destruct (threads_ s !! i) as [w|] eqn:Hi; [|by exists s]. destruct (at_ w) eqn:Hw; try (by exists s).
  eexists. split; [done|]. apply inv_set_own; [done|]. cbn. split_and!; [done|lia|]. intros j x Hx. destruct (Hu j x Hx) as [H4 H5].
  split; [done|]. intros Hj. destruct (decide (j = i)) as [->|Hne]; [congruence|apply H5; lia].
Qed.

Lemma stop_inv dtor s :
  inv s -> own s = Idle -> running s = true \/ threads_ s = [] -> exists s', stop dtor s = Ok s' /\ inv s'.
Proof.
  intros [H1 H2 H3] Ho Hr. rewrite Ho in H1. eexists. split; [done|]. constructor; [|done|done].
  cbn [set_own own set_pool threads_ ownership]. split_and!; [done|lia|]. destruct Hr as [Hr| ->]; [|apply upto_nil].
  cbn in H1. by rewrite Hr in H1.
Qed.

Lemma pool_run_inv task s : inv s -> exists s', run_ task s = Ok s' /\ inv s'.
Proof.
  intros [H1 (taken & Hq & Hc) H3]. unfold run_. destruct (threads_ s) eqn:Et; cbn [ThreadPool.run_inline].
  - eexists. split; [done|]. constructor; cbn; rewrite ?Et; try done. by exists taken.
  - unfold ThreadPool.run_task. destruct (ThreadPool.isFull (pool s)), (ThreadPool.running_ (pool s)) eqn:Er;
      cbn [andb negb assert mbind outcome_bind]; eexists; (split; [done|]); try (by constructor; rewrite ?Et; try done; exists taken).
    + constructor; cbn; unfold running in *; cbn; rewrite ?Et, ?Er in *; try done. by exists taken.
    + constructor; cbn; unfold running in *; cbn; rewrite ?Et, ?Er in *; try done. exists taken. cbn. by rewrite Hq, app_assoc.
    + constructor; cbn; unfold running in *; cbn; rewrite ?Et, ?Er in *; try done. by exists taken.
Qed.

Lemma pool_step_inv l s : inv s -> intended l s -> exists s', step l s = Ok s' /\ inv s'.
Proof.
  intros Hinv Hint. pose proof Hinv as [H1 H2 H3]. destruct l as [n| | |task| |i e]; cbn [step intended] in *.
  - destruct (own s) eqn:Ho; try (by exists s). destruct (Hint eq_refl) as [Hn Ht]. unfold start. rewrite Ht.
    cbn [assert mbind outcome_bind]. rewrite (proj2 (Z.ltb_ge _ _) Hn). eexists. split; [done|].
    constructor; cbn; rewrite ?Ht; try done. split_and!; [done|done|lia|apply upto_nil].
  - destruct (own s) eqn:Ho; try (by exists s). apply stop_inv; auto.
  - destruct (own s) eqn:Ho; try (by exists s). unfold destroy. destruct (running s) eqn:Hr; [apply stop_inv; auto|].
    eexists. split; [done|]. apply inv_set_own; [done|]. rewrite Hr. cbn. split; [done|]. exact H1.
  - unfold alive. destruct (own s) eqn:Ho; try done; by apply pool_run_inv.
  - unfold owner_step. destruct (own s) eqn:Ho; [by exists s|by apply start_one_inv|by apply join_inv|by apply joined_inv|by exists s].
  - subst e. destruct (threads_ s !! i) as [w|] eqn:Hi; [by apply worker_inv|by exists s].
Qed.

Lemma pool_new_inv name cb max : inv (new name cb max).
Proof. constructor; cbn; [apply upto_nil|by exists []|done]. Qed.

Lemma pool_reachable_inv name cb max s : reachable name cb max s -> inv s.
Proof.
  induction 1 as [|l s s' _ IH Hint Hs]; [apply pool_new_inv|]. destruct (pool_step_inv l s IH Hint) as (x & Hx & Hi). congruence.
Qed.

(** ** The end of the threads *)

(** How many steps a worker of a stopped pool needs at most. *)
Definition rank (p : pc) : nat := match p with Ended => 0 | AtLoop => 1 | Init | Calling _ => 2 | Taking => 3 end.
Definition worker_rank (j : nat) (s : t) : nat := match threads_ s !! j with Some w => rank (at_ w) | None => 0 end.

(** How many steps the owner needs when the threads have ended. *)
Definition owner_rank (s : t) : nat :=
  match own s with
  | Joining _ i => 2 * (length (threads_ s) - i) + 1
  | InJoin _ i => 2 * (length (threads_ s) - i)
  | _ => 0
  end.

(** The tasks that worker [j] called, and whether it may yet call one. *)
Definition calls (j : nat) (s : t) : nat := count (fun c => c.1 =? j) (called s).
Definition is_taking (w : worker) : bool := match at_ w with Taking => true | _ => false end.
Definition potential (j : nat) (s : t) : nat :=
  calls j s + match threads_ s !! j with Some w => Nat.b2n (is_taking w) | None => 0 end.

(** After [stop]: the owner is joining the threads or has done so. *)
Record stopping (dtor : bool) (s : t) : Prop := {
  stopping_inv : inv s;
  stopping_flag : running s = false;
  stopping_own : match own s with
                 | Joining d _ | InJoin d _ => d = dtor
                 | o => o = if dtor then Destroyed else Idle
                 end;
}.

(** What may happen meanwhile. *)
Definition meanwhile (dtor : bool) (l : label) : bool :=
  match l with Worker _ Returns | Owner => true | Run _ => negb dtor | _ => false end.

Definition steps_of (j : nat) (ls : list label) : nat :=
  count (fun l => match l with Worker i _ => i =? j | _ => false end) ls.

Record progress (l : label) (s s' : t) : Prop := {
  progress_threads : length (threads_ s') = length (threads_ s);
  progress_rank j : worker_rank j s' <= worker_rank j s - steps_of j [l];
  progress_called j : potential j s' <= potential j s;
}.

Lemma goto_progress e i w p s s' :
  threads_ s !! i = Some w -> threads_ s' = threads_ s -> rank p <= rank (at_ w) - 1 ->
  (forall j, j <> i -> calls j s' = calls j s) ->
  calls i s' + Nat.b2n (is_taking (mkWorker (wname w) p (joined_ w))) <= calls i s + Nat.b2n (is_taking w) ->
  progress (Worker i e) s (goto i w p s').
Proof.
  intros Hi Et Hr Ho Hc. pose proof (lookup_lt_Some _ _ _ Hi). constructor; cbn [goto set_worker threads_].
  - by rewrite length_insert, Et.
  - intros j. unfold worker_rank, steps_of. cbn [goto set_worker threads_ count]. rewrite Et, Nat.add_0_r. destruct (Nat.eqb_spec i j) as [<-|Hne].
    + rewrite list_lookup_insert_eq, Hi by done. exact Hr.
    + rewrite list_lookup_insert_ne by done. cbn. lia.
  - intros j. unfold potential. change (calls j (goto i w p s')) with (calls j s'). cbn [goto set_worker threads_]. rewrite Et.
    destruct (decide (i = j)) as [<-|Hne].
    + rewrite list_lookup_insert_eq, Hi by done. exact Hc.
    + rewrite list_lookup_insert_ne by done. by rewrite Ho.
Qed.

Local Ltac moved :=
  intros [= <-]; split_and!; try done; apply goto_progress; try done;
  repeat match goal with |- forall j, _ -> _ => let j := fresh "j" in intros j ?
    | E : at_ _ = _ |- _ => unfold is_taking; rewrite E; clear E end;
  unfold calls; cbn; rewrite ?count_app; cbn; rewrite ?Nat.eqb_refl, ?(proj2 (Nat.eqb_neq _ _)) by done; cbn; lia.

Lemma worker_progress i w s s' :
  running s = false -> threads_ s !! i = Some w -> runInThread Returns i w s = Ok s' ->
  progress (Worker i Returns) s s' /\ running s' = false /\ own s' = own s.
Proof.
  intros Hr Hi. unfold runInThread. destruct (at_ w) eqn:Ew; unfold alive.
  1-3: destruct (own s) eqn:Ho; cbn [mbind outcome_bind]; [..|done].
  all: try by (destruct (threadInitCallback_ s); moved).
  all: try by (unfold ThreadPool.worker_goes_on; unfold running in Hr; rewrite Hr; moved).
  all: try by moved.
  all: try by (unfold take, ThreadPool.take; unfold running in *; rewrite Hr; destruct (ThreadPool.queue_ (pool s));
    cbn [mbind outcome_bind ThreadPool.worker_runs]; [|destruct (callable _)]; moved).
  intros [= <-].
  split_and!; try done. constructor; [done| |done]. intros j. unfold steps_of. cbn [count]. destruct (Nat.eqb_spec i j) as [<-|]; cbn; [|lia].
  unfold worker_rank. rewrite Hi, Ew. cbn. lia.
Qed.

Lemma idle_progress l s s' :
  (forall j, steps_of j [l] = 0) -> length (threads_ s') = length (threads_ s) ->
  (forall j w, threads_ s !! j = Some w -> exists w', threads_ s' !! j = Some w' /\ at_ w' = at_ w) ->
  called s' = called s -> progress l s s'.
Proof.
  intros Hl Hlen Hw Hc. constructor; [done| |]; intros j; rewrite ?Hl, ?Nat.sub_0_r; unfold worker_rank, potential, calls; rewrite ?Hc;
    (destruct (threads_ s !! j) as [w|] eqn:Hj;
      [destruct (Hw j w Hj) as (w' & -> & E); unfold is_taking; rewrite E; lia|]);
    apply lookup_ge_None in Hj; by rewrite (proj2 (lookup_ge_None _ _)) by lia.
Qed.

Lemma run_progress task s s' :
  running s = false -> run_ task s = Ok s' -> progress (Run task) s s' /\ running s' = false /\ own s' = own s.
Proof.
  intros Hr. unfold run_. unfold running in *. destruct (threads_ s) eqn:Et; cbn [ThreadPool.run_inline].
  - intros [= <-]. split_and!; try done. apply idle_progress; cbn; rewrite ?Et; try done.
  - unfold ThreadPool.run_task. rewrite Hr, andb_false_r. cbn [negb mbind outcome_bind]. intros [= <-]. split_and!; try done.
    apply idle_progress; cbn; rewrite ?Et; try done. eauto.
Qed.

(** The owner goes on; when every thread has ended it does not wait. *)
Lemma owner_progress dtor s s' :
  stopping dtor s -> owner_step s = Ok s' ->
  progress Owner s s' /\ stopping dtor s' /\
  ((forall j, worker_rank j s = 0) -> owner_rank s' <= owner_rank s - 1).
Proof.
  intros [Hinv Hr Ho] Hs. destruct (pool_step_inv Owner s Hinv I) as (x & Hx & Hi). cbn [step] in Hx. rewrite Hs in Hx. injection Hx as <-.
  unfold owner_step in Hs. pose proof (inv_own s Hinv) as Hown. destruct (own s) as [|i n|d i|d i|] eqn:Eo; cbn [ownership] in Hown.
  1, 5: injection Hs as <-; split_and!; [by apply idle_progress; eauto|constructor; rewrite ?Eo; done|intros _; unfold owner_rank; rewrite Eo; lia].
  - destruct Hown as [Hown _]. congruence.
  - subst d. destruct Hown as (_ & Hl & _). unfold join_one in Hs. destruct (threads_ s !! i) as [w|] eqn:Ew.
    + destruct (joined_ w); [done|]. injection Hs as <-. pose proof (lookup_lt_Some _ _ _ Ew). split_and!; [|by constructor|].
      * apply idle_progress; cbn; rewrite ?length_insert; try done.
        -- intros j y Hj. destruct (decide (i = j)) as [<-|Hne]; [|rewrite list_lookup_insert_ne by done; eauto].
           rewrite list_lookup_insert_eq by done. eexists. split; [done|]. cbn. congruence.
      * intros _. unfold owner_rank. rewrite Eo. cbn. rewrite length_insert. lia.
    + injection Hs as <-. split_and!; [by apply idle_progress; eauto|by constructor; destruct dtor|].
      intros _. unfold owner_rank. rewrite Eo. cbn. destruct dtor; lia.
  - subst d. destruct Hown as (_ & Hl & _). unfold joined in Hs. destruct (lookup_lt_is_Some_2 _ _ Hl) as [w Ew]. rewrite Ew in Hs.
    destruct (at_ w) eqn:Ha; injection Hs as <-; split_and!; try (by apply idle_progress; eauto); try (by constructor; rewrite ?Eo);
      intros H0; specialize (H0 i); unfold worker_rank in H0; rewrite Ew, Ha in H0; cbn in H0; try lia.
    unfold owner_rank. rewrite Eo. cbn. lia.
Qed.

Lemma stopping_step dtor l s :
  stopping dtor s -> meanwhile dtor l = true -> (forall task, l = Run task -> own s <> Destroyed) ->
  exists s', step l s = Ok s' /\ progress l s s' /\ stopping dtor s'.
Proof.
  intros Hst Hl Hd. pose proof Hst as [Hinv Hr Ho]. destruct l as [n| | |task| |i [|e]]; try done.
  - destruct (pool_step_inv (Run task) s Hinv (Hd task eq_refl)) as (s' & Hs & Hi). exists s'. split; [done|]. cbn [step] in Hs.
    destruct (alive s) as [[]|]; [|done]. cbn [mbind outcome_bind] in Hs. destruct (run_progress task s s' Hr Hs) as (H1 & H2 & H3).
    split; [done|]. constructor; [done|done|by rewrite H3].
  - destruct (pool_step_inv Owner s Hinv I) as (s' & Hs & Hi). exists s'. split; [done|].
    by destruct (owner_progress dtor s s' Hst Hs) as (H1 & H2 & _).
  - destruct (pool_step_inv (Worker i Returns) s Hinv eq_refl) as (s' & Hs & Hi). exists s'. split; [done|]. cbn [step] in Hs.
    destruct (threads_ s !! i) as [w|] eqn:Hw.
    + destruct (worker_progress i w s s' Hr Hw Hs) as (H1 & H2 & H3). split; [done|]. constructor; [done|done|by rewrite H3].
    + injection Hs as <-. split; [|done]. constructor; try done. intros j. unfold steps_of. cbn [count].
      destruct (Nat.eqb_spec i j) as [<-|]; cbn; [|lia]. unfold worker_rank. rewrite Hw. lia.
Qed.

Lemma run_app_ok ls ks s s1 s2 : run ls s = Ok s1 -> run ks s1 = Ok s2 -> run (ls ++ ks) s = Ok s2.
Proof.
  revert s. induction ls as [|l ls IH]; intros s; cbn [run app].
  - by intros [= ->].
  - intros (x & -> & Hx)%bind_Ok Hk. cbn [mbind outcome_bind]. by apply IH.
Qed.

Lemma stopping_run dtor ls s :
  stopping dtor s -> forallb (meanwhile dtor) ls = true ->
  exists s', run ls s = Ok s' /\ stopping dtor s' /\ length (threads_ s') = length (threads_ s) /\
    (forall j, worker_rank j s' <= worker_rank j s - steps_of j ls) /\ (forall j, potential j s' <= potential j s).
Proof.
  revert s. induction ls as [|l ls IH]; intros s Hst Hls; cbn [run].
  - exists s. split_and!; try done. intros j. change (steps_of j []) with 0. by rewrite Nat.sub_0_r.
  - apply andb_prop in Hls as [Hl Hls]. destruct (stopping_step dtor l s Hst Hl) as (s1 & -> & [Hp1 Hp2 Hp3] & Hst1).
    { intros task -> Ho. destruct Hst as [_ _ Hst]. rewrite Ho in Hst. by destruct dtor. }
    cbn [mbind outcome_bind]. destruct (IH s1 Hst1 Hls) as (s' & Hs' & Hst' & H1 & H2 & H3).
    exists s'. split_and!; [done|done|lia| |intros j; by transitivity (potential j s1)]. intros j. specialize (H2 j). specialize (Hp2 j).
    replace (steps_of j (l :: ls)) with (steps_of j [l] + steps_of j ls) by (by symmetry; apply (count_app _ [l])). lia.
Qed.

Lemma owner_finishes dtor k s :
  stopping dtor s -> (forall j, worker_rank j s = 0) -> owner_rank s <= k ->
  exists s', run (replicate k Owner) s = Ok s' /\ stopping dtor s' /\ own s' = (if dtor then Destroyed else Idle) /\
    length (threads_ s') = length (threads_ s) /\ (forall j, potential j s' <= potential j s).
Proof.
  revert s. induction k as [|k IH]; intros s Hst Hw Hk; cbn [run replicate].
  - exists s. split_and!; try done. destruct Hst as [Hinv _ Ho]. pose proof (inv_own s Hinv) as Hown. unfold owner_rank in Hk.
    destruct (own s); cbn [ownership] in Hown; [by destruct dtor|by destruct dtor|lia|lia|by destruct dtor].
  - destruct (stopping_step dtor Owner s Hst eq_refl ltac:(done)) as (s1 & Hs1 & Hp & Hst1). rewrite Hs1. cbn [mbind outcome_bind].
    destruct (owner_progress dtor s s1 Hst Hs1) as (_ & _ & Hr). specialize (Hr Hw). destruct Hp as [Hp1 Hp2 Hp3].
    destruct (IH s1 Hst1) as (s' & H1 & H2 & H3 & H4 & H5); [|lia|exists s'; split_and!; try done; [lia|]; intros j; by transitivity (potential j s1)].
    intros j. specialize (Hp2 j). rewrite Hw in Hp2. lia.
Qed.

Lemma rank_le p : rank p <= 3.
Proof. destruct p; cbn; lia. Qed.

(** [intended], as a test, of every label of a run *)
Definition idle (s : t) : bool := match own s with Idle => true | _ => false end.
Definition no_threads (s : t) : bool := match threads_ s with [] => true | _ => false end.

Definition allowed (l : label) (s : t) : bool :=
  match l with
  | Start n => negb (idle s) || ((0 <=? n)%Z && no_threads s)
  | Stop => negb (idle s) || running s || no_threads s
  | Run _ => match own s with Destroyed => false | _ => true end
  | Destroy | Owner => true
  | Worker _ e => match e with Returns => true | Throws _ => false end
  end.

Fixpoint legal (ls : list label) (s : t) : bool :=
  match ls with
  | [] => true
  | l :: ls => allowed l s && match step l s with Ok s' => legal ls s' | Fault _ => false end
  end.

Lemma allowed_intended l s : allowed l s = true -> intended l s.
Proof.
  unfold allowed, idle, no_threads. destruct l as [n| | |task| |i [|e]]; cbn; try done.
  - intros H Ho. rewrite Ho in H. cbn in H. apply andb_prop in H as [H1%Z.leb_le H2]. split; [done|]. by destruct (threads_ s).
  - intros H Ho. rewrite Ho in H. cbn in H. apply orb_prop in H as [H|H]; [by left|right; by destruct (threads_ s)].
  - intros H Ho. by rewrite Ho in H.
Qed.

Lemma legal_reachable name cb max ls s s' :
  reachable name cb max s -> legal ls s = true -> run ls s = Ok s' -> reachable name cb max s'.
Proof.
  revert s. induction ls as [|l ls IH]; intros s Hs; cbn [legal run].
  - by intros _ [= <-].
  - intros [Ha Hl]%andb_prop. destruct (step l s) as [x|] eqn:Ex; [|done]. cbn [mbind outcome_bind]. apply IH; [|done].
    eapply reach_step; [exact Hs|by apply allowed_intended|exact Ex].
Qed.

(** No assertion of the pool or of its threads fails, no thread uses a pool
    that is gone and no exception is thrown, whatever the order of the steps of
    the owner, the workers and the callers; workers call, in the order of
    [run], the tasks taken off the queue; a destroyed pool has no thread left. *)
Theorem pool_threads_safe name cb max s :
  reachable name cb max s ->
  (forall l, intended l s -> returns (step l s)) /\ fifo s /\
  (forall i w, threads_ s !! i = Some w -> wname w = name_ s ++ Timestamp.snprintf 32 (dec (Z.of_nat i + 1))) /\
  (own s = Destroyed -> Forall (fun w => at_ w = Ended /\ joined_ w = true) (threads_ s)).
Proof.
  intros Hreach. pose proof (pool_reachable_inv _ _ _ _ Hreach) as Hinv. pose proof Hinv as [H1 H2 H3]. split_and!; [|done|exact H3|].
  - intros l Hl. destruct (pool_step_inv l s Hinv Hl) as (s' & Hs & _). by exists s'.
  - intros Ho. rewrite Ho in H1. destruct H1 as [_ Hu]. apply list.Forall_forall. intros w [i Hi]%list_elem_of_lookup.
    pose proof (lookup_lt_Some _ _ _ Hi). destruct (Hu i w Hi) as [Hj He]. split; [by apply He|by apply Hj].
Qed.

(** C12: [stop] and the destructor return: when every worker has got three steps,
    in whatever order with those of the others, the owner's next steps finish
    the joins.  Each worker calls at most one more task; the tasks still queued
    are not called any more. *)
Theorem stop_returns name cb max dtor ls s :
  reachable name cb max s -> own s = Idle -> running s = true -> forallb (meanwhile dtor) ls = true ->
  (forall j, j < length (threads_ s) -> 3 <= steps_of j ls) ->
  exists s', run ((if dtor then Destroy else Stop) :: ls ++ replicate (2 * length (threads_ s) + 1) Owner) s = Ok s' /\
    own s' = (if dtor then Destroyed else Idle) /\ length (threads_ s') = length (threads_ s) /\
    Forall (fun w => at_ w = Ended /\ joined_ w = true) (threads_ s') /\
    (forall j, calls j s' <= S (calls j s)) /\ fifo s'.
Proof.
  intros Hreach Ho Hr Hls Hn. pose proof (pool_reachable_inv _ _ _ _ Hreach) as Hinv.
  destruct (stop_inv dtor s Hinv Ho (or_introl Hr)) as (s0 & Hs0 & Hi0). pose proof Hs0 as [= E].
  assert (stopping dtor s0) as Hst by (by rewrite <- E in *; constructor).
  destruct (stopping_run dtor ls s0 Hst Hls) as (s1 & Hs1 & Hst1 & L1 & R1 & P1).
  assert (forall j, worker_rank j s1 = 0) as Hw.
  { intros j. specialize (R1 j). rewrite <- E in R1. unfold worker_rank in R1 at 2. cbn [set_own set_pool threads_] in R1.
    destruct (threads_ s !! j) as [w|] eqn:Hj; [|lia]. pose proof (rank_le (at_ w)). specialize (Hn j (lookup_lt_Some _ _ _ Hj)). lia. }
  destruct (owner_finishes dtor (2 * length (threads_ s) + 1) s1 Hst1 Hw) as (s' & Hs' & [[H1 H2 _] Hr' _] & Ho' & L2 & P2).
  { rewrite <- E in L1. cbn in L1. unfold owner_rank. destruct (own s1); lia. }
  exists s'. split_and!; [|done|by rewrite L2, L1, <- E| | |done].
  - cbn [run]. replace (step (if dtor then Destroy else Stop) s) with (Ok s0)
      by (destruct dtor; cbn [step]; rewrite Ho; [unfold destroy; rewrite Hr|]; by rewrite Hs0).
    cbn [mbind outcome_bind]. by eapply run_app_ok.
  - apply list.Forall_forall. intros w [i Hi]%list_elem_of_lookup. pose proof (lookup_lt_Some _ _ _ Hi). rewrite Ho' in H1.
    assert (upto (length (threads_ s')) (length (threads_ s')) (threads_ s')) as Hu
      by (destruct dtor; cbn in H1; [by destruct H1|by rewrite Hr' in H1]).
    destruct (Hu i w Hi) as [Hj He]. split; [by apply He|by apply Hj].
  - intros j. specialize (P1 j). specialize (P2 j). rewrite <- E in P1. change (potential j (set_own _ _)) with (potential j s) in P1.
    assert (calls j s' <= potential j s') by (unfold potential; lia).
    assert (potential j s <= S (calls j s)) by (unfold potential; destruct (threads_ s !! j) as [w|]; [destruct (is_taking w)|]; cbn; lia).
    lia.
Qed.

(** [run] on a stopped pool returns at once and queues nothing; without
    threads the caller calls the task, stopped or not. *)
Theorem run_stopped task s :
  (running s = false -> threads_ s <> [] -> run_ task s = Ok s) /\
  (threads_ s = [] -> exists s', run_ task s = Ok s' /\ inline s' = inline s ++ [task] /\ queued s' = queued s).
Proof.
  unfold run_, running. destruct s as [p n cb [|w ts] o q c il k]; cbn; split; try done.
  - intros _. by eexists.
  - intros Hr _. unfold ThreadPool.run_task. by rewrite Hr, andb_false_r.
Qed.

(** An exception out of a task or the callback of a worker ends the process,
    whatever its type, and its first line on stderr names the pool. *)
Theorem throwing_worker_aborts i w e ls s :
  threads_ s !! i = Some w -> own s <> Destroyed ->
  (at_ w = Init /\ threadInitCallback_ s = true) \/ (exists task, at_ w = Calling task) ->
  run (Worker i (Throws e) :: ls) s = Fault Aborted /\
  (exists pre, head (handlers (name_ s) e).1 = Some (pre ++ name_ s)) /\ ((handlers (name_ s) e).2 = true <-> e = Unknown).
Proof.
  intros Hi Ho Hw. split_and!.
  - cbn [run step]. rewrite Hi. unfold runInThread. destruct Hw as [[-> Hcb]|[task ->]]; [|done].
    unfold alive. destruct (own s); try done; cbn [mbind outcome_bind]; by rewrite Hcb.
  - destruct e; cbn [handlers fst head]; [by eexists|by eexists|]. eexists. by rewrite app_assoc.
  - by destruct e.
Qed.

(** A second [stop] joins a thread again, which the assertion in Thread::join
    forbids; the destructor of a stopped pool does not. *)
Theorem stop_twice_fails name cb max s :
  reachable name cb max s -> own s = Idle -> running s = false -> threads_ s <> [] ->
  run [Stop; Owner] s = Fault AssertFailed /\ (exists s', run [Destroy] s = Ok s' /\ own s' = Destroyed).
Proof.
  intros Hreach Ho Hr Ht. pose proof (inv_own _ (pool_reachable_inv _ _ _ _ Hreach)) as Hu. rewrite Ho, Hr in Hu. cbn [ownership] in Hu.
  destruct (threads_ s) as [|w ts] eqn:Et; [done|]. destruct (Hu 0 w eq_refl) as [[_ Hj] _]. specialize (Hj ltac:(cbn; lia)). split.
  - cbn [run step]. rewrite Ho. unfold stop, ThreadPool.stop. cbn [mbind outcome_bind owner_step own set_own].
    unfold owner_step, join_one. cbn [own set_own threads_ set_pool]. rewrite Et. cbn. by rewrite Hj.
  - cbn [run step]. rewrite Ho. unfold destroy. rewrite Hr. by eexists.
Qed.

End Pool.

(** ** A pool of two threads *)

Module PoolDemo.

(** Task 0 is an empty std::function. *)
Definition callable (n : nat) : bool := 0 <? n.

Definition both : list (@label nat) := [Worker 0 Returns; Worker 1 Returns].

(** Two threads are made, four tasks are queued; one worker is in the first
    task and the other one has skipped the second. *)
Definition script : list (@label nat) := [Start 2; Owner; Owner; Owner; Run 7; Run 0; Run 8; Run 9] ++ both ++ both ++ both.

Definition after (ls : list (@label nat)) : @t nat :=
  match run callable ls (new (bs "pool") true 0) with Ok s => s | Fault _ => new [] false 0 end.

Lemma after_reachable ls :
  legal callable ls (new (bs "pool") true 0) = true -> reachable callable (bs "pool") true 0 (after ls).
Proof.
  intros Hl. unfold after. destruct (run callable ls (new (bs "pool") true 0)) as [s|] eqn:Hr.
  - eapply legal_reachable; [apply reach_new|exact Hl|exact Hr].
  - exfalso. revert Hl Hr. generalize (@new nat (bs "pool") true 0). induction ls as [|l ls IH]; intros s; cbn [legal run]; [done|].
    intros [_ Hl]%andb_prop. destruct (step callable l s); [|done]. by apply IH.
Qed.

Lemma pool_threads_safe_witness :
  called (after script) = [(0, 7)] /\ map wname (threads_ (after script)) = [bs "pool1"; bs "pool2"] /\
  returns (step callable (Worker 0 Returns) (after script)) /\ fifo callable (after script).
Proof.
  pose proof (after_reachable script ltac:(vm_compute; reflexivity)) as Hr.
  destruct (pool_threads_safe callable _ _ _ _ Hr) as (Hs & Hf & _ & _).
  split; [vm_compute; reflexivity|]. split; [vm_compute; reflexivity|]. split; [exact (Hs (Worker 0 Returns) eq_refl)|exact Hf].
Defined.

(** While the owner waits, the first worker ends its task and the other one
    calls no further one. *)
Lemma stop_returns_witness :
  exists s', run callable (Stop :: (both ++ [Run 5] ++ both ++ both) ++ replicate 5 Owner) (after script) = Ok s' /\
    own s' = Idle /\ length (threads_ s') = 2 /\ calls 0 s' <= 2 /\ calls 1 s' <= 1.
Proof.
  pose proof (after_reachable script ltac:(vm_compute; reflexivity)) as Hr.
  destruct (stop_returns callable (bs "pool") true 0 false (both ++ [Run 5] ++ both ++ both) (after script) Hr) as (s' & H1 & H2 & H3 & _ & H5 & _);
    [vm_compute; reflexivity|vm_compute; reflexivity|reflexivity| |].
  - intros [|[|j]] Hj; [vm_compute; lia|vm_compute; lia|]. change (length (threads_ (after script))) with 2 in Hj. lia.
  - exists s'. split; [exact H1|]. split; [exact H2|]. split; [exact H3|]. split; [exact (H5 0)|exact (H5 1)].
Defined.

Lemma throwing_worker_aborts_witness :
  run callable [Worker 0 (Throws Unknown)] (after script) = Fault Aborted.
Proof.
  destruct (lookup_lt_is_Some_2 (threads_ (after script)) 0) as [w Hw]; [vm_compute; lia|].
  refine (proj1 (throwing_worker_aborts callable 0 w Unknown [] (after script) Hw _ _)).
  - vm_compute. discriminate.
  - right. exists 7. vm_compute in Hw. injection Hw as <-. reflexivity.
Defined.

Lemma stop_twice_fails_witness :
  let stopped := script ++ [Stop] ++ both ++ both ++ both ++ replicate 5 Owner in
  run callable [Stop; Owner] (after stopped) = Fault AssertFailed.
Proof.
  intros stopped. pose proof (after_reachable stopped ltac:(vm_compute; reflexivity)) as Hr.
  refine (proj1 (stop_twice_fails callable (bs "pool") true 0 (after stopped) Hr _ _ _)); [vm_compute; reflexivity..|vm_compute; discriminate].
Defined.

End PoolDemo.

End PoolThreads.
