(* ===== verification/ProcessInfo.v ===== *)
(** * What a process says about itself

    base/ProcessInfo.cc ([Module ProcessInfo]), and the pages made of it by
    net/inspect/ProcessInspector.cc and SystemInspector.cc: reading numbers and
    names out of the texts of /proc and printing them.  The texts, the entries of
    directories and the results of the system calls are arguments.
    Strings are std::string: one character behind the end reads as NUL. *)

From stdpp Require Import sorting.
From S2P Require Import Prelude Timestamp Calendar LogStream Clock.

Local Open Scope Z_scope.

(** ** The C library *)

Module Libc.

Definition isdigit (c : byte) : bool := (48 <=? byte.unsigned c) && (byte.unsigned c <=? 57).
Definition isspace (c : byte) : bool := (byte.unsigned c =? 32) || ((9 <=? byte.unsigned c) && (byte.unsigned c <=? 13)).

Fixpoint skip_spaces (s : bytes) : bytes :=
  match s with c :: s' => if isspace c then skip_spaces s' else s | [] => [] end.

(** The value of the digits at the front. *)
Fixpoint read_digits (acc : Z) (s : bytes) : Z :=
  match s with c :: s' => if isdigit c then read_digits (10 * acc + (byte.unsigned c - 48)) s' else acc | [] => acc end.

(** strtol(s, NULL, 10): what does not fit is clamped. *)
Definition strtol (s : bytes) : Z :=
  let s := skip_spaces s in
  let v := match s with
           | c :: s' =>
               if byte.unsigned c =? 45 then - read_digits 0 s'
               else if byte.unsigned c =? 43 then read_digits 0 s' else read_digits 0 s
           | [] => 0
           end in
  Z.max INT64_MIN (Z.min INT64_MAX v).

Definition atol (s : bytes) : Z := strtol s.
Definition atoi (s : bytes) : Z := i32 (strtol s).

(** [std::string::find(key)] and [rfind(c)] *)
Fixpoint find (key s : bytes) : option nat :=
  if decide (take (length key) s = key) then Some 0%nat
  else match s with [] => None | _ :: s' => option_map S (find key s') end.

Fixpoint rfind (c : byte) (s : bytes) : option nat :=
  match s with
  | [] => None
  | x :: s' => match rfind c s' with Some i => Some (S i) | None => if decide (x = c) then Some 0%nat else None end
  end.

(** [operator[]] on a const string *)
Definition at_ (s : bytes) (i : nat) : outcome byte :=
  match s !! i with Some c => Ok c | None => if (i =? length s)%nat then Ok NUL else Fault OutOfBounds end.

(** The C string at the front of a buffer. *)
Definition c_string (s : bytes) : bytes := take (find_byte NUL s) s.

(** printf's [%wd], [%-ws] and [%w.3f] *)
Definition right (w : nat) (s : bytes) : bytes := Date.pad w s.
Definition left (w : nat) (s : bytes) : bytes := s ++ replicate (w - length s) Init.Byte.x20.

End Libc.

Module ProcessInfo.
Import Libc.

(** The names of a directory's entries, through one of the filters. *)
Definition starts_with_digit (d_name : bytes) : bool := match d_name with c :: _ => isdigit c | [] => false end.

Definition fdDirFilter (d_name : bytes) (t_numOpenedFiles : Z) : Z :=
  if starts_with_digit d_name then t_numOpenedFiles + 1 else t_numOpenedFiles.
Definition taskDirFilter (d_name : bytes) (t_pids : list Z) : list Z :=
  if starts_with_digit d_name then t_pids ++ [atoi d_name] else t_pids.

Definition scanDir {A} (filter : bytes -> A -> A) (entries : list bytes) (a : A) : A :=
  fold_left (fun a d_name => filter d_name a) entries a.

Definition openedFiles (proc_self_fd : list bytes) : Z := scanDir fdDirFilter proc_self_fd 0.
Definition threads (proc_self_task : list bytes) : list Z := merge_sort Z.le (scanDir taskDirFilter proc_self_task []).

(** getrlimit(2) may fail. *)
Definition maxOpenFiles (rlim_cur : option Z) (proc_self_fd : list bytes) : Z :=
  match rlim_cur with Some n => i32 n | None => openedFiles proc_self_fd end.

Definition pidString (pid : Z) : bytes := Timestamp.snprintf 32 (dec pid).
Definition username (pw_name : option bytes) : bytes := default (bs "unknownuser") pw_name.
Definition hostname (gethostname : option bytes) : bytes :=
  match gethostname with Some n => take 255 n | None => bs "unknownhost" end.
Definition exePath (readlink : option bytes) : bytes := match readlink with Some n => take 1024 n | None => [] end.

Record CpuTime := mkCpuTime { userSeconds : double; systemSeconds : double }.

Definition cpuTime (times : option (Z * Z)) (clockTicksPerSecond : Z) : CpuTime :=
  match times with
  | Some (utime, stime) =>
      let hz := d_of_Z clockTicksPerSecond in mkCpuTime (d_div (d_of_Z utime) hz) (d_div (d_of_Z stime) hz)
  | None => mkCpuTime d_zero d_zero
  end.

(** procname(stat): the position of the name and its length, as a piece of [stat]. *)
Definition procname (stat : bytes) : option (nat * Z) :=
  match find [Init.Byte.x28] stat, rfind Init.Byte.x29 stat with
  | Some lp, Some rp => if (lp <? rp)%nat then Some (S lp, i32 (Z.of_nat (rp - lp - 1))) else None
  | _, _ => None
  end.

Definition piece_string (stat : bytes) (p : option (nat * Z)) : bytes :=
  match p with Some (pos, len) => take (Z.to_nat len) (drop pos stat) | None => [] end.

Definition procname_string (stat : bytes) : bytes := piece_string stat (procname stat).

Definition numThreads (status : bytes) : Z :=
  match find (bs "Threads:") status with Some pos => atoi (drop (pos + 8) status) | None => 0 end.

End ProcessInfo.

Module ProcessInspector.
Import Libc ProcessInfo.

(** "[days] days hh:mm:ss", the parts computed in [int] *)
Definition uptime (now start : Timestamp.t) (showMicroseconds : bool) : outcome bytes :=
  age ← ck64 (now - start);
  let seconds := i32 (Z.quot age Timestamp.kMicroSecondsPerSecond) in
  let days := Z.quot seconds 86400 in
  let hours := Z.quot (Z.rem seconds 86400) 3600 in
  let minutes := Z.quot (Z.rem seconds 3600) 60 in
  let text := dec days ++ bs " days " ++ Clock.time_text hours minutes (Z.rem seconds 60) in
  Ok (Timestamp.snprintf 256
        (if showMicroseconds
         then text ++ bs "." ++ Timestamp.dec0 6 (i32 (Z.rem age Timestamp.kMicroSecondsPerSecond)) else text)).

Definition getLong (procStatus key : bytes) : Z :=
  match find key procStatus with Some pos => atol (drop (pos + length key) procStatus) | None => 0 end.

(** The two loops of getProcessName, from a position; [fuel] is the length of
    the text and one more. *)
Fixpoint skip_tabs (fuel : nat) (s : bytes) (pos : nat) : outcome nat :=
  match fuel with
  | O => Fault OutOfFuel
  | S fuel => c ← at_ s pos; if decide (c = Init.Byte.x09) then skip_tabs fuel s (S pos) else Ok pos
  end.
Fixpoint end_of_line (fuel : nat) (s : bytes) (eol : nat) : outcome nat :=
  match fuel with
  | O => Fault OutOfFuel
  | S fuel => c ← at_ s eol; if decide (c = LF) then Ok eol else end_of_line fuel s (S eol)
  end.

Definition getProcessName (procStatus : bytes) : outcome bytes :=
  match find (bs "Name:") procStatus with
  | Some pos =>
      let fuel := (length procStatus + 2)%nat in
      pos ← skip_tabs fuel procStatus (pos + 5);
      eol ← end_of_line fuel procStatus pos;
      Ok (take (eol - pos) (drop pos procStatus))
  | None => Ok []
  end.

(** next(data): what follows the first blank of a piece that reaches to the
    end of its string. *)
Definition next (data : bytes) : bytes :=
  if (find_byte Init.Byte.x20 data <? length data)%nat then drop (S (find_byte Init.Byte.x20 data)) data else [].

Definition cpu_ticks (data : bytes) : Z * Z :=
  let data := Nat.iter 10 next data in (strtol data, strtol (next data)).

Definition getCpuTime (clockTicksPerSecond : Z) (data : bytes) : CpuTime :=
  let hz := d_of_Z clockTicksPerSecond in
  mkCpuTime (d_div (d_of_Z (fst (cpu_ticks data))) hz) (d_div (d_of_Z (snd (cpu_ticks data))) hz).

(** stringPrintf: through a buffer of 256 bytes *)
Definition stringPrintf (out text : bytes) : bytes := out ++ Timestamp.snprintf 256 text.

(** %.3f of kilobytes as mebibytes *)
Definition mebibytes (kb : Z) : bytes := LogStream.fixed 3 (d_div (d_of_Z kb) (d_of_Z 1024)).

(** What overview finds out about the process. *)
Record process := mkProcess {
  p_now : Timestamp.t; p_startTime : Timestamp.t; p_status : bytes; p_exePath : bytes; p_username : bytes;
  p_hostname : bytes; p_debug : bool; p_pid : Z; p_openedFiles : Z; p_maxOpenFiles : Z; p_cpuTime : CpuTime;
}.

Definition overview (p : process) : outcome bytes :=
  up ← uptime (p_now p) (p_startTime p) true;
  name ← getProcessName (p_status p);
  let result := bs "Page generated at " ++ Clock.toFormattedString true (p_now p) ++ bs " (UTC)" ++ [LF] ++
    bs "Started at " ++ Clock.toFormattedString true (p_startTime p) ++ bs " (UTC), up for " ++ up ++ [LF] ++
    name ++ bs " (" ++ p_exePath p ++ bs ") running as " ++ p_username p ++ bs " on " ++ p_hostname p ++ [LF] ++
    (if p_debug p then bs "WARNING: debug build!" ++ [LF] else []) in
  let result := stringPrintf result (bs "pid " ++ dec (p_pid p) ++ bs ", num of threads " ++
    dec (getLong (p_status p) (bs "Threads:")) ++ bs ", bits 64" ++ [LF]) in
  let result := stringPrintf (result ++ bs "Virtual memory: ") (mebibytes (getLong (p_status p) (bs "VmSize:")) ++ bs " MiB, ") in
  let result := stringPrintf (result ++ bs "RSS memory: ") (mebibytes (getLong (p_status p) (bs "VmRSS:")) ++ bs " MiB" ++ [LF]) in
  let result := stringPrintf result (bs "Opened files: " ++ dec (p_openedFiles p) ++ bs ", limit: " ++ dec (p_maxOpenFiles p) ++ [LF]) in
  Ok (stringPrintf result (bs "User time: " ++ right 12 (LogStream.fixed 3 (userSeconds (p_cpuTime p))) ++ bs "s" ++ [LF] ++
        bs "Sys time:  " ++ right 12 (LogStream.fixed 3 (systemSeconds (p_cpuTime p))) ++ bs "s" ++ [LF])).

Definition pid (pid : Z) : bytes := Timestamp.snprintf 32 (dec pid).
Definition procStatus (status : bytes) : bytes := status.
Definition openedFiles (n : Z) : bytes := Timestamp.snprintf 32 (dec n).

(** One row of the table of threads: the state stands two characters behind
    the name's closing parenthesis, the fields two behind the state. *)
Definition thread_row (clockTicksPerSecond tid : Z) (stat : bytes) : outcome bytes :=
  match procname stat with
  | None => Fault OutOfBounds      (* name.end() is a null pointer *)
  | Some (pos, len) =>
      let rp := (pos + Z.to_nat len)%nat in
      c ← at_ stat rp;
      _ ← assert (bool_decide (c = Init.Byte.x29));
      state ← at_ stat (rp + 2);
      if (length stat <? rp + 4)%nat then Fault OutOfBounds else
      let t := getCpuTime clockTicksPerSecond (drop (rp + 4) stat) in
      Ok (c_string (Timestamp.snprintf 256
            (right 5 (dec tid) ++ bs " " ++ left 16 (c_string (piece_string stat (Some (pos, len)))) ++ bs " " ++ [state] ++ bs " " ++
             right 12 (LogStream.fixed 3 (userSeconds t)) ++ bs " " ++ right 12 (LogStream.fixed 3 (systemSeconds t)) ++ [LF])))
  end.

(** threads: [stats] are the threads in order with their stat files, if they
    can be read. *)
Fixpoint thread_rows (clockTicksPerSecond : Z) (stats : list (Z * option bytes)) : outcome bytes :=
  match stats with
  | [] => Ok []
  | (_, None) :: stats => thread_rows clockTicksPerSecond stats
  | (tid, Some stat) :: stats =>
      row ← thread_row clockTicksPerSecond tid stat;
      rows ← thread_rows clockTicksPerSecond stats;
      Ok (row ++ rows)
  end.
Definition threads (clockTicksPerSecond : Z) (stats : list (Z * option bytes)) : outcome bytes :=
  rows ← thread_rows clockTicksPerSecond stats;
  Ok (bs "  TID NAME             S    User Time  System Time" ++ [LF] ++ rows).

End ProcessInspector.

Module SystemInspector.
Import Libc ProcessInspector.

(** The pages that are a file of /proc: what could be read of it. *)
Definition loadavg (file : bytes) : bytes := file.
Definition version (file : bytes) : bytes := file.
Definition cpuinfo (file : bytes) : bytes := file.
Definition meminfo (file : bytes) : bytes := file.
Definition stat (file : bytes) : bytes := file.

Record utsname := mkUtsname { nodename : bytes; machine : bytes; sysname : bytes; release : bytes; un_version : bytes }.

Record system := mkSystem { s_now : Timestamp.t; s_uname : option utsname; s_stat : bytes; s_loadavg : bytes; s_meminfo : bytes }.

(** "label %6ld MiB" of a number of kilobytes *)
Definition mib_line (label : bytes) (kb : Z) (result : bytes) : bytes :=
  stringPrintf result (label ++ right 6 (dec (Z.quot kb 1024)) ++ bs " MiB" ++ [LF]).

Definition overview (s : system) : outcome bytes :=
  let result := bs "Page generated at " ++ Clock.toFormattedString true (s_now s) ++ bs " (UTC)" ++ [LF] in
  let result := match s_uname s with
    | Some un =>
        let result := stringPrintf result (bs "Hostname: " ++ nodename un ++ [LF]) in
        let result := stringPrintf result (bs "Machine: " ++ machine un ++ [LF]) in
        stringPrintf result (bs "OS: " ++ sysname un ++ bs " " ++ release un ++ bs " " ++ un_version un ++ [LF])
    | None => result
    end in
  bootTime ← ck64 (Timestamp.kMicroSecondsPerSecond * getLong (s_stat s) (bs "btime "));
  up ← uptime (s_now s) bootTime false;
  let result := result ++ bs "Boot time: " ++ Clock.toFormattedString false bootTime ++ bs " (UTC)" ++ [LF] ++
    bs "Up time: " ++ up ++ [LF] in
  let result := stringPrintf result (bs "Processes created: " ++ dec (getLong (s_stat s) (bs "processes ")) ++ [LF]) in
  let result := stringPrintf result (bs "Loadavg: " ++ c_string (s_loadavg s) ++ [LF]) in
  let total_kb := getLong (s_meminfo s) (bs "MemTotal:") in
  let free_kb := getLong (s_meminfo s) (bs "MemFree:") in
  let buffers_kb := getLong (s_meminfo s) (bs "Buffers:") in
  let cached_kb := getLong (s_meminfo s) (bs "Cached:") in
  let result := mib_line (bs "Total Memory: ") total_kb result in
  let result := mib_line (bs "Free Memory:  ") free_kb result in
  let result := mib_line (bs "Buffers:      ") buffers_kb result in
  let result := mib_line (bs "Cached:       ") cached_kb result in
  u1 ← ck64 (total_kb - free_kb); u2 ← ck64 (u1 - buffers_kb); used ← ck64 (u2 - cached_kb);
  f1 ← ck64 (free_kb + buffers_kb); free ← ck64 (f1 + cached_kb);
  let result := mib_line (bs "Real Used:    ") used result in
  Ok (mib_line (bs "Real Free:    ") free result).

End SystemInspector.
