(* ===== verification/ProcessInfoFacts.v ===== *)
(** * Facts about the texts of /proc

    Numbers that the kernel printed in decimal are read back, the fields of
    /proc/self/task/[tid]/stat are found behind any thread name, and uptimes are
    divided correctly. *)

From S2P Require Import Prelude Timestamp Calendar LogStream Clock ProcessInfo.

Local Open Scope Z_scope.

Module ProcessFacts.
Import Libc.

(** ** Decimal numbers *)

Lemma isdigit_char d : 0 <= d < 10 -> isdigit (digit_char d) = true /\ byte.unsigned (digit_char d) = 48 + d /\ isspace (digit_char d) = false.
Proof.
  intros Hd. assert (d ∈ [0;1;2;3;4;5;6;7;8;9]) as Hin by (rewrite !elem_of_cons; lia).
  rewrite !elem_of_cons in Hin. destruct_or! Hin; try (subst; repeat split; reflexivity). by apply elem_of_nil in Hin.
Qed.

(** Digits are read until something else follows. *)
Definition stops (s : bytes) : Prop := match s with c :: _ => isdigit c = false | [] => True end.

Lemma read_digits_app acc ds rest :
  (forall d, d ∈ ds -> 0 <= d < 10) -> stops rest ->
  read_digits acc (map digit_char ds ++ rest) = fold_left (fun a d => 10 * a + d) ds acc.
Proof.
  intros Hd Hr. revert acc. induction ds as [|d ds IH]; intros acc.
  - destruct rest as [|c rest]; cbn in *; [done|]. by rewrite Hr.
  - cbn [map app read_digits fold_left]. destruct (isdigit_char d) as (-> & -> & _); [apply Hd; by left|].
    rewrite IH by (intros x Hx; apply Hd; by right). do 2 f_equal. lia.
Qed.

Lemma fold_undigits ds acc :
  fold_left (fun a d => 10 * a + d) (rev ds) acc = undigits 10 ds + 10 ^ Z.of_nat (length ds) * acc.
Proof.
  revert acc. induction ds as [|d ds IH]; intros acc; [cbn; lia|].
  cbn [rev undigits length]. rewrite fold_left_app. cbn [fold_left]. rewrite IH, Nat2Z.inj_succ, Z.pow_succ_r by lia. lia.
Qed.

Lemma digits_nonneg z : (forall d, d ∈ rev (digits (digit_fuel z) 10 z) -> 0 <= z -> 0 <= d < 10).
Proof. intros d Hd Hz. apply list_elem_of_In, in_rev, list_elem_of_In in Hd. by eapply digits_range, Hd. Qed.

(** strtol reads what printf's %d wrote, behind any white space. *)
Lemma skip_spaces_app blanks s :
  (forall c, c ∈ blanks -> isspace c = true) -> (match s with c :: _ => isspace c = false | [] => True end) ->
  skip_spaces (blanks ++ s) = s.
Proof.
  intros Hb Hs. induction blanks as [|c blanks IH]; cbn [app skip_spaces].
  - destruct s as [|c s]; cbn; [done|]. by rewrite Hs.
  - rewrite Hb by by left. apply IH. intros x Hx. apply Hb. by right.
Qed.

Lemma strtol_dec blanks v rest :
  (forall c, c ∈ blanks -> isspace c = true) -> INT64_MIN <= v <= INT64_MAX -> stops rest ->
  strtol (blanks ++ dec v ++ rest) = v.
Proof.
  intros Hb Hv Hr. unfold strtol. set (ds := digits (digit_fuel (Z.abs v)) 10 (Z.abs v)).
  assert (Hds : forall d, d ∈ rev ds -> 0 <= d < 10) by (intros d Hd; apply (digits_nonneg (Z.abs v)); [done|lia]).
  assert (Hval : fold_left (fun a d => 10 * a + d) (rev ds) 0 = Z.abs v).
  { rewrite fold_undigits, Z.mul_0_r, Z.add_0_r. apply undigits_digits; [lia|]. split; [lia|]. apply digit_fuel_enough. lia. }
  assert (Hne : rev ds <> []).
  { intros E. apply (f_equal (@rev Z)) in E. rewrite rev_involutive in E. revert E.
    apply digits_nonempty. unfold digit_fuel. lia. }
  unfold dec. fold ds. destruct (rev ds) as [|d l] eqn:El; [done|]. rewrite <- El in *.
  assert (Hhead : rev ds = d :: l) by done.
  destruct (isdigit_char d) as (Hd1 & Hd2 & Hd3); [apply Hds; rewrite Hhead; by left|].
  pose proof (Hds d) as Hdr. rewrite Hhead in Hdr. specialize (Hdr ltac:(by left)).
  destruct (Z.ltb_spec v 0) as [Hneg|Hpos].
  - change (bs "-") with [Init.Byte.x2d]. rewrite skip_spaces_app by done. cbn [app].
    change (byte.unsigned Init.Byte.x2d =? 45) with true. cbv iota.
    rewrite read_digits_app, Hval by done. unfold INT64_MIN, INT64_MAX in *. lia.
  - cbn [app]. rewrite skip_spaces_app; [|done|rewrite Hhead; exact Hd3].
    pose proof (read_digits_app 0 (rev ds) rest Hds Hr) as Hread. rewrite Hval in Hread. rewrite Hhead in *.
    cbn [map app] in *. rewrite Hd2, (proj2 (Z.eqb_neq (48 + d) 45)), (proj2 (Z.eqb_neq (48 + d) 43)) by lia.
    rewrite Hread. unfold INT64_MIN, INT64_MAX in *. lia.
Qed.

(** A decimal number consists of digits and perhaps a sign. *)
Lemma dec_bytes v c : c ∈ dec v -> isdigit c = true \/ c = Init.Byte.x2d.
Proof.
  unfold dec. intros [Hc|Hc]%elem_of_app.
  - right. destruct (v <? 0); [by apply list_elem_of_singleton in Hc|by apply elem_of_nil in Hc].
  - left. apply list_elem_of_In, in_map_iff in Hc as (d & <- & Hd). apply list_elem_of_In in Hd.
    apply isdigit_char. by apply (digits_nonneg (Z.abs v)); [|lia].
Qed.

(** ** Finding things *)

Lemma find_byte_sub c s t : c ∉ s -> find [c] (s ++ c :: t) = Some (length s).
Proof.
  induction s as [|x s IH]; intros Hc; cbn [app find length take].
  - by rewrite decide_True.
  - apply not_elem_of_cons in Hc as [Hx Hc]. rewrite decide_False by congruence. by rewrite IH.
Qed.

Lemma rfind_last c s t : c ∉ t -> rfind c (s ++ c :: t) = Some (length s).
Proof.
  intros Hc. assert (Hno : rfind c t = None).
  { induction t as [|x t IH]; [done|]. apply not_elem_of_cons in Hc as [Hx Hc]. cbn. by rewrite (IH Hc), decide_False. }
  induction s as [|x s IH]; cbn [app rfind length]; [by rewrite Hno, decide_True|]. by rewrite IH.
Qed.

Lemma next_app s t : Init.Byte.x20 ∉ s -> ProcessInspector.next (s ++ Init.Byte.x20 :: t) = t.
Proof.
  intros Hs. unfold ProcessInspector.next. rewrite find_byte_app_r by done.
  rewrite (proj2 (Nat.ltb_lt _ _)) by (rewrite length_app; cbn; lia).
  replace (S (length s)) with (length s + 1)%nat by lia. by rewrite <- drop_drop, drop_app_length.
Qed.

(** ** The stat file of a thread *)

(** proc(5): the id, the name in parentheses, the state, and numbers. *)
Definition stat_line (tid : Z) (name : bytes) (state : byte) (fields : list Z) : bytes :=
  dec tid ++ bs " (" ++ name ++ bs ") " ++ [state] ++ concat (map (fun f => bs " " ++ dec f) fields) ++ [LF].

Definition tail_of (fields : list Z) : bytes := concat (map (fun f => bs " " ++ dec f) fields) ++ [LF].

Lemma tail_no_paren fields : Init.Byte.x29 ∉ tail_of fields.
Proof.
  unfold tail_of. intros [Hc|Hc]%elem_of_app; [|by apply list_elem_of_singleton in Hc].
  induction fields as [|f fields IH]; cbn [map concat] in Hc; [by apply elem_of_nil in Hc|].
  apply elem_of_app in Hc as [[Hc|Hc]%elem_of_app|Hc]; [by apply list_elem_of_singleton in Hc| |by apply IH].
  apply dec_bytes in Hc as [Hc|Hc]; done.
Qed.

Lemma nth_field n fields :
  (n < length fields)%nat ->
  exists rest, Nat.iter n ProcessInspector.next (drop 1 (tail_of fields)) = dec (nth n fields 0) ++ rest /\ stops rest /\
    (ProcessInspector.next (dec (nth n fields 0) ++ rest) = drop 1 (tail_of (drop (S n) fields))).
Proof.
  assert (Hno : forall f, Init.Byte.x20 ∉ dec f) by (intros f Hin; by apply dec_bytes in Hin as [?|?]).
  assert (Htail : forall f fs, drop 1 (tail_of (f :: fs)) = dec f ++ tail_of fs).
  { intros f fs. unfold tail_of. cbn [map concat]. by rewrite <- !app_assoc. }
  assert (Hstop : forall fs, stops (tail_of fs)) by (intros []; done).
  assert (Hnext : forall f fs, ProcessInspector.next (dec f ++ tail_of fs) = drop 1 (tail_of fs)).
  { intros f [|f' fs].
    - change (tail_of []) with [LF]. unfold ProcessInspector.next. rewrite find_byte_not_in, Nat.ltb_irrefl; [done|].
      intros [Hin|Hin]%elem_of_app; [by apply (Hno f)|by apply list_elem_of_singleton in Hin].
    - change (tail_of (f' :: fs)) with (Init.Byte.x20 :: drop 1 (tail_of (f' :: fs))). by rewrite next_app. }
  induction n as [|n IH] in fields |- *; intros Hn.
  - destruct fields as [|f fs]; [cbn in Hn; lia|]. exists (tail_of fs). cbn [Nat.iter nat_rect nth]. rewrite Htail. split; [done|].
    split; [done|]. rewrite Hnext. done.
  - destruct (IH fields ltac:(lia)) as (rest & Hi & _ & Hx). change (Nat.iter (S n) ?f ?x) with (f (Nat.iter n f x)).
    rewrite Hi, Hx. destruct (lookup_lt_is_Some_2 fields (S n) Hn) as [f Hf]. rewrite (drop_S fields f (S n) Hf).
    rewrite (nth_lookup_Some fields (S n) 0 f Hf). exists (tail_of (drop (S (S n)) fields)). by rewrite Htail, Hnext.
Qed.

(** The name starts behind the first parenthesis and ends before the last one. *)
Lemma stat_line_shape tid name state fields :
  stat_line tid name state fields =
  (dec tid ++ [Init.Byte.x20]) ++ Init.Byte.x28 :: name ++ Init.Byte.x29 :: Init.Byte.x20 :: state :: tail_of fields.
Proof. unfold stat_line, tail_of. rewrite <- !app_assoc. cbn [app]. reflexivity. Qed.

Lemma procname_stat tid name state fields :
  zlen name <= INT_MAX -> state <> Init.Byte.x29 ->
  ProcessInfo.procname (stat_line tid name state fields) = Some (length (dec tid) + 2, zlen name)%nat.
Proof.
  intros Hlen Hst. unfold ProcessInfo.procname. rewrite stat_line_shape.
  assert (Hpre : Init.Byte.x28 ∉ dec tid ++ [Init.Byte.x20]).
  { intros [Hc|Hc]%elem_of_app; [by apply dec_bytes in Hc as [?|?]|by apply list_elem_of_singleton in Hc]. }
  rewrite (find_byte_sub _ _ _ Hpre).
  assert (Hpost : Init.Byte.x29 ∉ Init.Byte.x20 :: state :: tail_of fields).
  { rewrite !not_elem_of_cons. split_and!; [done|congruence|apply tail_no_paren]. }
  rewrite app_comm_cons, app_assoc, (rfind_last _ _ _ Hpost), !length_app. cbn [length].
  rewrite (proj2 (Nat.ltb_lt _ _)) by lia. do 2 f_equal; [lia|].
  rewrite i32_small; unfold zlen, INT_MIN, INT_MAX in *; lia.
Qed.

Lemma iter_next_S n x : Nat.iter (S n) ProcessInspector.next x = ProcessInspector.next (Nat.iter n ProcessInspector.next x).
Proof. reflexivity. Qed.

Lemma nth_in_range fields n :
  Forall (fun f => INT64_MIN <= f <= INT64_MAX) fields -> (n < length fields)%nat -> INT64_MIN <= nth n fields 0 <= INT64_MAX.
Proof. intros Hr Hn. rewrite list.Forall_forall in Hr. by apply Hr, list_elem_of_In, nth_In. Qed.

Lemma strtol_field v rest : INT64_MIN <= v <= INT64_MAX -> stops rest -> strtol (dec v ++ rest) = v.
Proof. intros Hv Hr. apply (strtol_dec []); [|done|done]. intros c Hc. by apply elem_of_nil in Hc. Qed.

Lemma ticks_at n fields :
  (S n < length fields)%nat -> Forall (fun f => INT64_MIN <= f <= INT64_MAX) fields ->
  let data := Nat.iter n ProcessInspector.next (drop 1 (tail_of fields)) in
  (strtol data, strtol (ProcessInspector.next data)) = (nth n fields 0, nth (S n) fields 0).
Proof.
  intros Hf Hr. destruct (nth_field n fields) as (r & E & Sr & _); [lia|].
  destruct (nth_field (S n) fields) as (r' & E' & Sr' & _); [lia|]. rewrite iter_next_S in E'.
  cbv zeta. rewrite E', E. f_equal; apply strtol_field; try done; apply nth_in_range; (done || lia).
Qed.

Lemma cpu_ticks_tail fields :
  (12 <= length fields)%nat -> Forall (fun f => INT64_MIN <= f <= INT64_MAX) fields ->
  ProcessInspector.cpu_ticks (drop 1 (tail_of fields)) = (nth 10 fields 0, nth 11 fields 0).
Proof. intros Hf Hr. exact (ticks_at 10 fields ltac:(lia) Hr). Qed.

(** What proc(5) puts in a thread's stat file is read back: the name, whatever
    it contains, and the fields 14 and 15, the times. *)
Theorem proc_stat_fields tid name state fields :
  zlen name <= INT_MAX -> state <> Init.Byte.x29 -> (12 <= length fields)%nat ->
  Forall (fun f => INT64_MIN <= f <= INT64_MAX) fields ->
  let stat := stat_line tid name state fields in
  let rp := (length (dec tid) + 2 + length name)%nat in
  ProcessInfo.procname_string stat = name /\
  stat !! rp = Some Init.Byte.x29 /\ stat !! (rp + 2)%nat = Some state /\
  ProcessInspector.cpu_ticks (drop (rp + 4) stat) = (nth 10 fields 0, nth 11 fields 0).
Proof.
  intros Hlen Hst Hf Hr stat rp.
  assert (Hstat : stat = (dec tid ++ [Init.Byte.x20; Init.Byte.x28]) ++ name ++ [Init.Byte.x29; Init.Byte.x20; state] ++ tail_of fields).
  { unfold stat. rewrite stat_line_shape, <- !app_assoc. reflexivity. }
  assert (Hpre : length (dec tid ++ [Init.Byte.x20; Init.Byte.x28]) = (length (dec tid) + 2)%nat) by (by rewrite length_app).
  assert (Hdrop : forall k, drop (rp + k) stat = drop k ([Init.Byte.x29; Init.Byte.x20; state] ++ tail_of fields)).
  { intros k. rewrite Hstat, app_assoc. apply drop_app_add'. unfold rp. rewrite length_app. lia. }
  assert (Hin : forall k, stat !! (rp + k)%nat = ([Init.Byte.x29; Init.Byte.x20; state] ++ tail_of fields) !! k).
  { intros k. rewrite <- (Nat.add_0_r (rp + k)), <- lookup_drop, Hdrop, lookup_drop. f_equal. lia. }
  split_and!.
  - unfold ProcessInfo.procname_string, ProcessInfo.piece_string.
    rewrite (procname_stat tid name state fields Hlen Hst : ProcessInfo.procname stat = _).
    rewrite Hstat, <- Hpre, drop_app_length. unfold zlen. by rewrite Nat2Z.id, take_app_length.
  - rewrite <- (Nat.add_0_r rp). by rewrite Hin.
  - by rewrite Hin.
  - rewrite Hdrop. change (drop 4 ([_; _; _] ++ ?t)) with (drop 1 t).
    by apply cpu_ticks_tail.
Qed.

Lemma proc_stat_fields_witness :
  let fields := [1; 42; 42; 0; -1; 4194304; 100; 0; 3; 0; 1234; 56; 0] in
  let stat := stat_line 4321 (bs "my (odd) name") Init.Byte.x53 fields in
  ProcessInfo.procname_string stat = bs "my (odd) name" /\
  stat !! 19%nat = Some Init.Byte.x29 /\ stat !! 21%nat = Some Init.Byte.x53 /\
  ProcessInspector.cpu_ticks (drop 23 stat) = (1234, 56).
Proof.
  apply (proc_stat_fields 4321 (bs "my (odd) name") Init.Byte.x53 [1; 42; 42; 0; -1; 4194304; 100; 0; 3; 0; 1234; 56; 0]).
  - vm_compute. congruence.
  - discriminate.
  - cbn. lia.
  - repeat constructor; vm_compute; congruence.
Defined.

(** ** The lines of the status file *)

(** A key is found at its first occurrence. *)
Lemma find_first key s t :
  key <> [] -> (forall i, (i < length s)%nat -> take (length key) (drop i (s ++ key ++ t)) <> key) ->
  find key (s ++ key ++ t) = Some (length s).
Proof.
  intros Hkey. induction s as [|x s IH]; intros Hno.
  - cbn [app length]. destruct key as [|k key]; [done|]. cbn [app find].
    rewrite decide_True; [done|]. change (k :: key ++ t) with ((k :: key) ++ t). by rewrite take_app_length.
  - cbn [app find length]. rewrite decide_False by (apply (Hno 0%nat); cbn; lia).
    rewrite IH; [done|]. intros i Hi. apply (Hno (S i)). cbn. lia.
Qed.

(** getLong finds the number that stands behind the key's first occurrence. *)
Theorem getLong_reads key s blanks v rest :
  key <> [] -> (forall i, (i < length s)%nat -> take (length key) (drop i (s ++ key ++ blanks ++ dec v ++ rest)) <> key) ->
  (forall c, c ∈ blanks -> isspace c = true) -> INT64_MIN <= v <= INT64_MAX -> stops rest ->
  ProcessInspector.getLong (s ++ key ++ blanks ++ dec v ++ rest) key = v.
Proof.
  intros Hkey Hno Hb Hv Hr. unfold ProcessInspector.getLong. rewrite find_first by done.
  rewrite app_assoc, <- length_app, drop_app_length. by apply strtol_dec.
Qed.

Lemma getLong_reads_witness :
  ProcessInspector.getLong (bs "Name: cat" ++ [LF] ++ bs "Threads:" ++ [Init.Byte.x09] ++ bs "17" ++ [LF]) (bs "Threads:") = 17.
Proof.
  apply (getLong_reads (bs "Threads:") (bs "Name: cat" ++ [LF]) [Init.Byte.x09] 17 [LF]).
  - discriminate.
  - intros i Hi. do 10 (destruct i as [|i]; [vm_compute; discriminate|]). cbn in Hi. lia.
  - intros c Hc. apply list_elem_of_singleton in Hc as ->. reflexivity.
  - vm_compute. split; congruence.
  - reflexivity.
Defined.

(** ** Uptimes *)

(** A duration in mixed radix. *)
Definition duration (d h m s us : Z) : Z := (((d * 24 + h) * 60 + m) * 60 + s) * 1000000 + us.

Lemma split_seconds sec :
  0 <= sec -> let d := Z.quot sec 86400 in let h := Z.quot (Z.rem sec 86400) 3600 in
  let m := Z.quot (Z.rem sec 3600) 60 in let s := Z.rem sec 60 in
  0 <= d <= sec /\ 0 <= h < 24 /\ 0 <= m < 60 /\ 0 <= s < 60 /\ sec = ((d * 24 + h) * 60 + m) * 60 + s.
Proof. intros Hs. cbv zeta. split_and!; dlia. Qed.

Lemma split_age age :
  0 <= age < 2147483648 * 1000000 -> let sec := Z.quot age 1000000 in let us := Z.rem age 1000000 in
  0 <= sec <= INT_MAX /\ 0 <= us < 1000000 /\ age = sec * 1000000 + us.
Proof. intros Ha. cbv zeta. unfold INT_MAX. split_and!; dlia. Qed.

Lemma time_text_length h m s : 0 <= h < 100 -> 0 <= m < 100 -> 0 <= s < 100 -> length (Clock.time_text h m s) = 8%nat.
Proof.
  intros Hh Hm Hs. unfold Clock.time_text. rewrite !length_app.
  destruct (Clock.dec0_fixed 2 h) as [-> _]; [lia|cbn; lia|]. destruct (Clock.dec0_fixed 2 m) as [-> _]; [lia|cbn; lia|].
  destruct (Clock.dec0_fixed 2 s) as [-> _]; [lia|cbn; lia|]. reflexivity.
Qed.

(** uptime divides a duration below 2^31 seconds into days, hours, minutes,
    seconds and microseconds, each below its radix, and prints all of them. *)
Theorem uptime_text now start :
  INT64_MIN <= now - start <= INT64_MAX -> 0 <= now - start < 2147483648 * 1000000 ->
  exists d h m s us,
    now - start = duration d h m s us /\ 0 <= h < 24 /\ 0 <= m < 60 /\ 0 <= s < 60 /\ 0 <= us < 1000000 /\
    ProcessInspector.uptime now start true =
      Ok (dec d ++ bs " days " ++ Clock.time_text h m s ++ bs "." ++ Timestamp.dec0 6 us) /\
    ProcessInspector.uptime now start false = Ok (dec d ++ bs " days " ++ Clock.time_text h m s).
Proof.
  intros Hr Ha. destruct (split_age (now - start) Ha) as (Hsec & Hus & Hage).
  destruct (split_seconds (Z.quot (now - start) 1000000)) as (Hd & Hh & Hm & Hs & Eq); [lia|].
  set (sec := Z.quot (now - start) 1000000) in *. set (us := Z.rem (now - start) 1000000) in *.
  exists (Z.quot sec 86400), (Z.quot (Z.rem sec 86400) 3600), (Z.quot (Z.rem sec 3600) 60), (Z.rem sec 60), us.
  split; [unfold duration; lia|]. split_and!; try lia.
  all: unfold ProcessInspector.uptime; rewrite ck64_Ok by (unfold INT64_MIN, INT64_MAX in *; lia); cbn [mbind outcome_bind].
  all: change Timestamp.kMicroSecondsPerSecond with 1000000; fold sec; fold us; rewrite !i32_small by (unfold INT_MIN, INT_MAX in *; lia).
  all: pose proof (dec_length (Z.quot sec 86400) 10 ltac:(lia) ltac:(lia) ltac:(unfold INT_MAX in *; lia)) as Hdl.
  all: pose proof (time_text_length (Z.quot (Z.rem sec 86400) 3600) (Z.quot (Z.rem sec 3600) 60) (Z.rem sec 60) ltac:(lia) ltac:(lia) ltac:(lia)) as Htl.
  all: destruct (Clock.dec0_fixed 6 us ltac:(lia) ltac:(change (10 ^ Z.of_nat 6) with 1000000; lia)) as [Hul _].
  all: unfold Timestamp.snprintf; rewrite take_ge; [by rewrite ?(app_assoc _ (bs ".")), <- ?app_assoc|rewrite !length_app; cbn; lia].
Qed.

Lemma uptime_text_witness :
  exists d h m s us,
    93784000005 = duration d h m s us /\ 0 <= h < 24 /\ 0 <= m < 60 /\ 0 <= s < 60 /\ 0 <= us < 1000000 /\
    ProcessInspector.uptime 193784000005 100000000000 true =
      Ok (dec d ++ bs " days " ++ Clock.time_text h m s ++ bs "." ++ Timestamp.dec0 6 us) /\
    ProcessInspector.uptime 193784000005 100000000000 false = Ok (dec d ++ bs " days " ++ Clock.time_text h m s).
Proof. apply (uptime_text 193784000005 100000000000); [vm_compute; split; congruence|lia]. Defined.

(** ** What the pages get wrong *)

(** Two differences a clock set back makes: the signs of all parts. *)
Lemma uptime_back : ProcessInspector.uptime 1000000 3000000 true = Ok (bs "0 days 00:00:-2.000000").
Proof. vm_compute. reflexivity. Qed.

(** A key is looked for in the whole text, the name of the process included. *)
Theorem getLong_key_in_name :
  let status := bs "Name:" ++ [Init.Byte.x09] ++ bs "Threads:99" ++ [LF] ++ bs "Threads: 4" ++ [LF] in
  ProcessInspector.getLong status (bs "Threads:") = 99 /\ ProcessInfo.numThreads status = 99.
Proof. vm_compute. split; reflexivity. Qed.

(** A status text that is cut inside its first line is read past its end. *)
Theorem getProcessName_unterminated : ProcessInspector.getProcessName (bs "Name: cat") = Fault OutOfBounds.
Proof. vm_compute. reflexivity. Qed.

End ProcessFacts.
