(* ===== verification/InetAddress.v ===== *)
(** * Internet addresses

    net/InetAddress.h and InetAddress.cc with the functions of net/SocketsOps.cc
    on addresses.  An InetAddress is a union of sockaddr_in and sockaddr_in6, 28
    bytes: the family, two bytes of port in network order at offset 2, and 24
    more, in which sin_addr is at 0, sin6_addr at 4 and sin6_scope_id at 20.
    The C library's inet_ntop and inet_pton are written out for IPv4 and are
    parameters for IPv6; gethostbyname_r, getsockname and getpeername return
    arguments. *)

From S2P Require Import Prelude NetBuffer Timestamp LogStream LogStreamFacts ProcessInfo.

Local Open Scope Z_scope.

Definition AF_INET : Z := 2.
Definition AF_INET6 : Z := 10.
Definition DOT : byte := Init.Byte.x2e.
Definition COLON_ : byte := Init.Byte.x3a.

(** ** inet_ntop(AF_INET) and inet_pton(AF_INET) *)

Module Inet.

Fixpoint join (sep : bytes) (l : list bytes) : bytes :=
  match l with [] => [] | [x] => x | x :: l => x ++ sep ++ join sep l end.

Definition ntop4 (a : bytes) : bytes := join [DOT] (map (fun b => dec (byte.unsigned b)) a).

(** Four numbers up to 255 between dots, without signs or leading zeros:
    [cur] is the number being read and [saw] whether it has a digit; [done]
    are the numbers before it and [octets] counts those begun. *)
Fixpoint pton4_loop (s : bytes) (cur : Z) (saw : bool) (octets : nat) (done : bytes) : option bytes :=
  match s with
  | [] => if (octets <? 4)%nat then None else Some (done ++ [byte.of_Z cur])
  | ch :: s =>
      if Libc.isdigit ch then
        let new := cur * 10 + (byte.unsigned ch - 48) in
        if saw && (cur =? 0) then None
        else if 255 <? new then None
        else if saw then pton4_loop s new true octets done
        else if (4 <? S octets)%nat then None else pton4_loop s new true (S octets) done
      else if bool_decide (ch = DOT) && saw then
        if (octets =? 4)%nat then None else pton4_loop s 0 false octets (done ++ [byte.of_Z cur])
      else None
  end.
Definition pton4 (s : bytes) : option bytes := pton4_loop s 0 false 0 [].

(** Any octet is read back. *)
Lemma pton4_octet b rest octets done :
  (octets < 4)%nat ->
  pton4_loop (dec (byte.unsigned b) ++ rest) 0 false octets done = pton4_loop rest (byte.unsigned b) true (S octets) done.
Proof.
  intros Ho. assert (Hlt : (4 <? S octets)%nat = false) by (apply Nat.ltb_ge; lia).
  destruct b; match goal with |- context [dec ?z] => let d := eval vm_compute in (dec z) in change (dec z) with d end;
    cbn -[Nat.ltb]; by rewrite Hlt.
Qed.

Lemma of_unsigned b : byte.of_Z (byte.unsigned b) = b.
Proof. apply byte.of_Z_unsigned. Qed.

Lemma pton4_ntop4 a : length a = 4%nat -> pton4 (ntop4 a) = Some a.
Proof.
  intros Ha. destruct a as [|b0 [|b1 [|b2 [|b3 [|]]]]]; try done. unfold ntop4, pton4. cbn [map join].
  rewrite pton4_octet by lia. cbn [app pton4_loop]. change (Libc.isdigit DOT) with false. cbn [bool_decide andb].
  rewrite pton4_octet by lia. cbn [app pton4_loop]. change (Libc.isdigit DOT) with false. cbn [bool_decide andb].
  rewrite pton4_octet by lia. cbn [app pton4_loop]. change (Libc.isdigit DOT) with false. cbn [bool_decide andb].
  rewrite <- (app_nil_r (dec (byte.unsigned b3))), pton4_octet by lia. cbn. by rewrite !of_unsigned.
Qed.

Lemma ntop4_length a : length a = 4%nat -> (length (ntop4 a) <= 15)%nat.
Proof.
  intros Ha. destruct a as [|b0 [|b1 [|b2 [|b3 [|]]]]]; try done. unfold ntop4. cbn [map join].
  assert (H : forall b, (length (dec (byte.unsigned b)) <= 3)%nat).
  { intros b. apply dec_length; [apply byte.unsigned_range|lia|]. pose proof (byte.unsigned_range b). lia. }
  rewrite !length_app. pose proof (H b0). pose proof (H b1). pose proof (H b2). pose proof (H b3). cbn. lia.
Qed.

(** The text has digits and dots only. *)
Lemma ntop4_bytes a c : c ∈ ntop4 a -> Libc.isdigit c = true \/ c = DOT.
Proof.
  unfold ntop4. intros Hc. assert (Hd : forall b, c ∈ dec (byte.unsigned b) -> Libc.isdigit c = true).
  { intros b. by destruct b; vm_compute; intros H; repeat (apply elem_of_cons in H as [->|H]; [reflexivity|]); apply elem_of_nil in H. }
  induction a as [|b [|b' a] IH]; cbn [map join] in *.
  - by apply elem_of_nil in Hc.
  - left. by apply (Hd b).
  - apply elem_of_app in Hc as [Hc|Hc]; [left; by apply (Hd b)|]. apply elem_of_app in Hc as [Hc|Hc]; [right; by apply list_elem_of_singleton in Hc|auto].
Qed.

End Inet.

(** ** InetAddress *)

Module InetAddress.
Import Inet.

Section Addresses.
Context {host : Host}.

(** inet_ntop(AF_INET6) and inet_pton(AF_INET6) *)
Variable inet_ntop6 : bytes -> bytes.
Variable inet_pton6 : bytes -> option bytes.

(** The union: [rest] is shared by the fields behind the port. *)
Record t := mk { sin_family : Z; sin_port : bytes; rest : bytes }.

Definition sin_addr (a : t) : bytes := take 4 (rest a).
Definition sin6_addr (a : t) : bytes := take 16 (drop 4 (rest a)).
Definition set_sin_addr (x : bytes) (a : t) : t := mk (sin_family a) (sin_port a) (x ++ drop 4 (rest a)).
Definition set_sin6_addr (x : bytes) (a : t) : t := mk (sin_family a) (sin_port a) (take 4 (rest a) ++ x ++ drop 20 (rest a)).

(** memZero of [addr_], 16 bytes, and of [addr6_], 28 bytes *)
Definition zero4 (a : t) : t := mk 0 [NUL; NUL] (replicate 12 NUL ++ drop 12 (rest a)).
Definition zero6 (a : t) : t := mk 0 [NUL; NUL] (replicate 24 NUL).

Definition port_bytes (port : Z) : bytes := sockets.mem_bytes 2 (sockets.hostToNetwork16 port).

(** sockets::fromIpPort: a text that cannot be read is only logged. *)
Definition fromIpPort4 (ip : bytes) (port : Z) (a : t) : t :=
  let a := mk AF_INET (port_bytes port) (rest a) in
  match pton4 ip with Some x => set_sin_addr x a | None => a end.
Definition fromIpPort6 (ip : bytes) (port : Z) (a : t) : t :=
  let a := mk AF_INET6 (port_bytes port) (rest a) in
  match inet_pton6 ip with Some x => set_sin6_addr x a | None => a end.

(** The constructors; [a] is the memory they find. *)
Definition in6addr_loopback : bytes := replicate 15 NUL ++ [Init.Byte.x01].
Definition in6addr_any : bytes := replicate 16 NUL.
Definition INADDR_ANY : Z := 0.
Definition INADDR_LOOPBACK : Z := 2130706433.   (* 127.0.0.1 *)

Definition of_port (portArg : Z) (loopbackOnly ipv6 : bool) (a : t) : t :=
  if ipv6 then
    let a := zero6 a in
    let a := set_sin6_addr (if loopbackOnly then in6addr_loopback else in6addr_any) (mk AF_INET6 (sin_port a) (rest a)) in
    mk (sin_family a) (port_bytes portArg) (rest a)
  else
    let a := zero4 a in
    let ip := if loopbackOnly then INADDR_LOOPBACK else INADDR_ANY in
    let a := set_sin_addr (sockets.mem_bytes 4 (sockets.hostToNetwork32 ip)) (mk AF_INET (sin_port a) (rest a)) in
    mk (sin_family a) (port_bytes portArg) (rest a).

Definition c_str (ip : bytes) : bytes := Libc.c_string ip.

Definition of_ip (ip : bytes) (portArg : Z) (ipv6 : bool) (a : t) : t :=
  if ipv6 || bool_decide (COLON_ ∈ c_str ip)
  then fromIpPort6 (c_str ip) portArg (zero6 a)
  else fromIpPort4 (c_str ip) portArg (zero4 a).

Definition family (a : t) : Z := sin_family a.
Definition portNetEndian (a : t) : Z := sockets.mem_int (sin_port a).
Definition port (a : t) : Z := sockets.networkToHost16 (portNetEndian a).
Definition ipv4NetEndian (a : t) : outcome Z := _ ← assert (family a =? AF_INET); Ok (sockets.mem_int (sin_addr a)).
Definition setSockAddrInet6 (addr6 a : t) : t := addr6.

(** sockets::toIp into a buffer of [size] bytes, which starts with NUL *)
Definition toIp_buf (size : Z) (a : t) : outcome bytes :=
  if sin_family a =? AF_INET then _ ← assert (16 <=? size); Ok (ntop4 (sin_addr a))
  else if sin_family a =? AF_INET6 then _ ← assert (46 <=? size); Ok (inet_ntop6 (sin6_addr a))
  else Ok [].

(** sockets::toIpPort: [text] so far and the port, into the rest of the buffer *)
Definition with_port (size : Z) (text sep : bytes) (a : t) : outcome bytes :=
  _ ← assert (zlen text <? size);
  Ok (text ++ Timestamp.snprintf (Z.to_nat (size - zlen text)) (sep ++ dec (port a))).
Definition toIpPort_buf (size : Z) (a : t) : outcome bytes :=
  if sin_family a =? AF_INET6 then
    ip ← toIp_buf (size - 1) a; with_port size (bs "[" ++ ip) (bs "]:") a
  else
    ip ← toIp_buf size a; with_port size ip (bs ":") a.

Definition toIp (a : t) : outcome bytes := toIp_buf 64 a.
Definition toIpPort (a : t) : outcome bytes := toIpPort_buf 64 a.

Definition setScopeId (scope_id : Z) (a : t) : t :=
  if family a =? AF_INET6 then mk (sin_family a) (sin_port a) (take 20 (rest a) ++ sockets.mem_bytes 4 scope_id) else a.

(** resolve: [he] are the family and the address that gethostbyname_r found. *)
Definition resolve (he : option (Z * bytes)) (out : t) : outcome (bool * t) :=
  match he with
  | Some (h_addrtype, h_addr) =>
      _ ← assert ((h_addrtype =? AF_INET) && (zlen h_addr =? 4));
      Ok (true, set_sin_addr h_addr out)
  | None => Ok (false, out)
  end.

(** sockets::isSelfConnect of the two ends of a socket *)
Definition isSelfConnect (localaddr peeraddr : t) : bool :=
  if sin_family localaddr =? AF_INET then
    bool_decide (sin_port localaddr = sin_port peeraddr) && bool_decide (sin_addr localaddr = sin_addr peeraddr)
  else if sin_family localaddr =? AF_INET6 then
    bool_decide (sin_port localaddr = sin_port peeraddr) && bool_decide (sin6_addr localaddr = sin6_addr peeraddr)
  else false.

(** ** Addresses and their texts *)

Definition wf (a : t) : Prop := length (sin_port a) = 2%nat /\ length (rest a) = 24%nat.

Lemma port_of_bytes p a : 0 <= p < 65536 -> sin_port a = port_bytes p -> port a = p.
Proof.
  intros Hp E. unfold port, portNetEndian. rewrite E. unfold sockets.networkToHost16, port_bytes, sockets.hostToNetwork16.
  rewrite <- (sockets.length_mem_bytes 2 (sockets.htobe 2 p)) at 1. rewrite sockets.htobe_mem_int, sockets.mem_bytes_htobe, sockets.be_combine_split.
  apply Z.mod_small. exact Hp.
Qed.

Lemma port_range a : length (sin_port a) = 2%nat -> 0 <= port a < 65536 /\ sin_port a = port_bytes (port a).
Proof.
  intros Hl. assert (E : port a = sockets.be_combine (sin_port a)).
  { unfold port, sockets.networkToHost16, portNetEndian. rewrite <- Hl at 1. apply sockets.htobe_mem_int. }
  split.
  - rewrite E. unfold sockets.be_combine. pose proof (LittleEndianList.le_combine_bound (rev (sin_port a))) as H.
    rewrite length_rev, Hl in H. exact H.
  - unfold port_bytes. rewrite E. unfold sockets.hostToNetwork16. rewrite sockets.mem_bytes_htobe, <- Hl. by rewrite sockets.be_split_combine.
Qed.

Lemma dec_port p : 0 <= p < 65536 -> (length (dec p) <= 5)%nat.
Proof. intros Hp. apply dec_length; [lia|lia|]. change (10 ^ Z.of_nat 5) with 100000. lia. Qed.

(** The texts of an IPv4 address fit their buffers. *)
Lemma texts4 a :
  wf a -> sin_family a = AF_INET ->
  toIp a = Ok (ntop4 (sin_addr a)) /\ toIpPort a = Ok (ntop4 (sin_addr a) ++ bs ":" ++ dec (port a)).
Proof.
  intros [Hp Hr] Hf. assert (Hl : length (sin_addr a) = 4%nat) by (unfold sin_addr; rewrite length_take; lia).
  pose proof (ntop4_length _ Hl) as Ht. destruct (port_range a Hp) as [Hpr _]. pose proof (dec_port _ Hpr) as Hd.
  unfold toIp, toIpPort, toIpPort_buf, toIp_buf. rewrite Hf. cbn [Z.eqb AF_INET AF_INET6 Pos.eqb]. cbn [assert Z.leb Z.compare Pos.compare Pos.compare_cont mbind outcome_bind].
  split; [done|]. unfold with_port. rewrite (proj2 (Z.ltb_lt _ _)) by (unfold zlen; lia). cbn [assert mbind outcome_bind].
  unfold Timestamp.snprintf. rewrite take_ge; [done|]. rewrite length_app. unfold zlen. change (length (bs ":")) with 1%nat. lia.
Qed.

Lemma no_nul s : NUL ∉ s -> c_str s = s.
Proof. intros H. unfold c_str, Libc.c_string. rewrite find_byte_not_in by done. by rewrite take_ge. Qed.

(** An IPv4 address made from text gives the text and the port back, and any
    IPv4 address is made again from its texts: the octets and the port, with
    the padding cleared. *)
Theorem ipv4_round_trip ip p init :
  length ip = 4%nat -> 0 <= p < 65536 -> wf init ->
  let a := of_ip (ntop4 ip) p false init in
  wf a /\ family a = AF_INET /\ sin_addr a = ip /\ port a = p /\
  toIp a = Ok (ntop4 ip) /\ toIpPort a = Ok (ntop4 ip ++ bs ":" ++ dec p) /\ drop 4 (take 12 (rest a)) = replicate 8 NUL.
Proof.
  intros Hip Hp [Hip0 Hr0] a.
  assert (Hn : NUL ∉ ntop4 ip) by (intros H; by apply ntop4_bytes in H as [?|?]).
  assert (Hc : COLON_ ∉ ntop4 ip) by (intros H; by apply ntop4_bytes in H as [?|?]).
  assert (Ea : a = mk AF_INET (port_bytes p) (ip ++ replicate 8 NUL ++ drop 12 (rest init))).
  { unfold a, of_ip. rewrite no_nul, bool_decide_eq_false_2 by done. cbn [orb]. unfold fromIpPort4. rewrite pton4_ntop4 by done. done. }
  assert (Hwf : wf a).
  { rewrite Ea. split; cbn [sin_port rest]; [apply sockets.length_mem_bytes|]. rewrite !length_app, length_replicate, length_drop. lia. }
  assert (Hadd : sin_addr a = ip) by (rewrite Ea; unfold sin_addr; cbn [rest]; by rewrite <- Hip, take_app_length).
  assert (Hport : port a = p) by (apply port_of_bytes; [done|by rewrite Ea]).
  destruct (texts4 a Hwf) as [T1 T2]; [by rewrite Ea|]. rewrite Hadd in T1, T2. rewrite Hport in T2.
  split_and!; try done; [by rewrite Ea|]. rewrite Ea. cbn [rest]. rewrite <- Hip at 1.
  destruct ip as [|? [|? [|? [|? [|]]]]]; try done.
Qed.

(** An address that cannot be read becomes the one of all interfaces. *)
Theorem bad_ip_is_any ip p init :
  wf init -> NUL ∉ ip -> COLON_ ∉ ip -> pton4 ip = None -> of_ip ip p false init = of_port p false false init.
Proof.
  intros [_ Hr] Hn Hc Hp. unfold of_ip, of_port. rewrite no_nul, bool_decide_eq_false_2 by done. cbn [orb]. unfold fromIpPort4. rewrite Hp.
  unfold zero4, set_sin_addr. cbn [rest sin_family sin_port]. f_equal. unfold INADDR_ANY, sockets.hostToNetwork32.
  rewrite sockets.mem_bytes_htobe. done.
Qed.

(** For two IPv4 ends a socket is connected to itself exactly when they print
    the same. *)
Theorem isSelfConnect_texts l r :
  wf l -> wf r -> family l = AF_INET -> family r = AF_INET ->
  (isSelfConnect l r = true <-> toIpPort l = toIpPort r).
Proof.
  intros Hl Hr Fl Fr. destruct (texts4 l Hl Fl) as [_ ->], (texts4 r Hr Fr) as [_ ->].
  unfold isSelfConnect. unfold family in *. rewrite Fl. cbn [Z.eqb AF_INET Pos.eqb]. rewrite andb_true_iff, !bool_decide_eq_true.
  destruct (port_range l (proj1 Hl)) as [Pl El], (port_range r (proj1 Hr)) as [Pr Er].
  assert (Hlen : forall a, wf a -> length (sin_addr a) = 4%nat) by (intros a [_ Ha]; unfold sin_addr; rewrite length_take; lia).
  assert (Hno : forall a, COLON_ ∉ ntop4 a) by (intros a H; by apply ntop4_bytes in H as [?|?]).
  split.
  - intros [E1 E2]. rewrite El, Er in E1. unfold port. unfold portNetEndian. rewrite E2. by rewrite El, E1, <- Er.
  - intros [= E]. change (bs ":" ++ ?x) with (COLON_ :: x) in E.
    assert (ntop4 (sin_addr l) = ntop4 (sin_addr r)) as Et.
    { apply (f_equal (fun s => take (find_byte COLON_ s) s)) in E. by rewrite !find_byte_app_r, !take_app_length in E by done. }
    rewrite Et in E. apply app_inv_head in E. injection E as E.
    split; [|by apply (f_equal pton4) in Et; rewrite !pton4_ntop4 in Et by auto; injection Et].
    rewrite El, Er. f_equal. by rewrite <- (undec_dec (port l)), E, undec_dec.
Qed.

(** What is relied on of the C library for IPv6: a text of at most 45
    characters with a colon, which is read back. *)
Hypothesis inet_ntop6_text : forall x, length x = 16%nat ->
  inet_pton6 (inet_ntop6 x) = Some x /\ (length (inet_ntop6 x) <= 45)%nat /\ NUL ∉ inet_ntop6 x /\ COLON_ ∈ inet_ntop6 x.

(** The same for IPv6, with brackets around the address. *)
Theorem ipv6_round_trip ip p init :
  length ip = 16%nat -> 0 <= p < 65536 ->
  let a := of_ip (inet_ntop6 ip) p false init in
  wf a /\ family a = AF_INET6 /\ sin6_addr a = ip /\ port a = p /\
  toIp a = Ok (inet_ntop6 ip) /\ toIpPort a = Ok (bs "[" ++ inet_ntop6 ip ++ bs "]:" ++ dec p).
Proof.
  intros Hip Hp a. destruct (inet_ntop6_text ip Hip) as (Hpt & Hlen & Hn & Hc).
  assert (Ea : a = mk AF_INET6 (port_bytes p) (replicate 4 NUL ++ ip ++ replicate 4 NUL)).
  { unfold a, of_ip. rewrite no_nul, bool_decide_eq_true_2 by done. cbn [orb]. unfold fromIpPort6. by rewrite Hpt. }
  assert (Hadd : sin6_addr a = ip) by (rewrite Ea; unfold sin6_addr; cbn [rest]; by rewrite (drop_app_length (replicate 4 NUL)), <- Hip, take_app_length).
  assert (Hport : port a = p) by (apply port_of_bytes; [done|by rewrite Ea]).
  assert (Hwf : wf a) by (rewrite Ea; split; cbn [sin_port rest]; [apply sockets.length_mem_bytes|by rewrite !length_app, Hip]).
  pose proof (dec_port p Hp) as Hd. assert (Hf : sin_family a = AF_INET6) by (by rewrite Ea).
  split_and!; try done; unfold toIp, toIpPort, toIpPort_buf, toIp_buf; rewrite Hf, Hadd;
    change (AF_INET6 =? AF_INET) with false; change (AF_INET6 =? AF_INET6) with true; cbv iota;
    [done|]. change (46 <=? 64 - 1) with true. cbn [assert mbind outcome_bind].
  unfold with_port. rewrite Hport. rewrite (proj2 (Z.ltb_lt _ _)) by (unfold zlen; rewrite length_app; cbn; lia).
  cbn [assert mbind outcome_bind]. unfold Timestamp.snprintf. rewrite take_ge; [by rewrite <- app_assoc|].
  unfold zlen. rewrite !length_app. change (length (bs "[")) with 1%nat. change (length (bs "]:")) with 2%nat. lia.
Qed.

(** [resolve] writes the address it found to the place of an IPv4 address: an
    IPv6 address stays what it was, though the result says true. *)
Theorem resolve_cases he out :
  wf out -> (match he with Some (ty, x) => ty = AF_INET /\ length x = 4%nat | None => True end) ->
  exists out', resolve he out = Ok (match he with Some _ => true | None => false end, out') /\ wf out' /\
    family out' = family out /\ port out' = port out /\
    (family out = AF_INET -> match he with Some (_, x) => sin_addr out' = x | None => out' = out end) /\
    (family out = AF_INET6 -> sin6_addr out' = sin6_addr out).
Proof.
  intros [Hp Hr] Hhe. destruct he as [[ty x]|]; cbn [resolve]; [|by exists out].
  destruct Hhe as [-> Hx]. unfold zlen. rewrite Hx. cbn [Z.eqb AF_INET Pos.eqb Z.of_nat Pos.of_succ_nat Pos.succ andb assert mbind outcome_bind].
  eexists. split; [done|]. unfold set_sin_addr. split; [split; cbn [sin_port rest]; [done|rewrite length_app, length_drop; lia]|].
  split_and!; try done.
  - intros _. unfold sin_addr. cbn [rest]. by rewrite <- Hx, take_app_length.
  - intros _. unfold sin6_addr. cbn [rest]. by destruct x as [|? [|? [|? [|? [|]]]]].
Qed.

End Addresses.

(** ** Addresses at work *)

Module InetDemo.

#[local] Instance x86 : Host := true.

(** An inet_ntop6 that writes all digits, and an inet_pton6 that reads them. *)
Definition hexdigit (n : Z) : byte := byte.of_Z (if n <? 10 then 48 + n else 87 + n).
Definition unhex (c : byte) : Z := if byte.unsigned c <? 58 then byte.unsigned c - 48 else byte.unsigned c - 87.
Definition hexbyte (b : byte) : bytes := [hexdigit (byte.unsigned b / 16); hexdigit (byte.unsigned b mod 16)].
Fixpoint ntop6 (x : bytes) : bytes :=
  match x with
  | a :: b :: ((_ :: _) as x') => hexbyte a ++ hexbyte b ++ [COLON_] ++ ntop6 x'
  | _ => concat (map hexbyte x)
  end.
Fixpoint unpairs (s : bytes) : option bytes :=
  match s with
  | [] => Some []
  | a :: b :: s => x ← unpairs s; Some (byte.of_Z (16 * unhex a + unhex b) :: x)
  | _ => None
  end.
Definition pton6 (s : bytes) : option bytes := unpairs (filter (fun c => c <> COLON_) s).

Lemma hexbyte_ok b :
  (exists x y, hexbyte b = [x; y] /\ byte.of_Z (16 * unhex x + unhex y) = b) /\ COLON_ ∉ hexbyte b /\ NUL ∉ hexbyte b.
Proof.
  split; [|by destruct b; split; apply (bool_decide_unpack _); vm_compute].
  unfold hexbyte. do 2 eexists. split; [done|]. by destruct b; vm_compute.
Qed.

(** Reading back what is written, pair by pair *)
Lemma filter_hexbyte b : filter (fun c => c <> COLON_) (hexbyte b) = hexbyte b.
Proof.
  destruct (hexbyte_ok b) as ((x & y & -> & _) & Hc & _). rewrite !not_elem_of_cons in Hc. destruct Hc as (H1 & H2 & _).
  by rewrite !filter_cons_True by congruence.
Qed.

Lemma unpairs_hexbyte b s x : unpairs s = Some x -> unpairs (hexbyte b ++ s) = Some (b :: x).
Proof. destruct (hexbyte_ok b) as ((h & l & -> & E) & _). intros Hs. cbn [app unpairs]. rewrite Hs. cbn [mbind option_bind]. by rewrite E. Qed.

Lemma inet_ntop6_text_demo x : length x = 16%nat ->
  pton6 (ntop6 x) = Some x /\ (length (ntop6 x) <= 45)%nat /\ NUL ∉ ntop6 x /\ COLON_ ∈ ntop6 x.
Proof.
  intros Hx. do 16 (destruct x as [|? x]; [done|]). destruct x; [|done]. clear Hx. cbn [ntop6 drop map concat].
  split; [|split; [|split]].
  - unfold pton6. rewrite !list.filter_app, !filter_hexbyte. cbn [filter list_filter].
    repeat (rewrite decide_False by (intros H; by apply H)). cbn [app].
    repeat (apply unpairs_hexbyte). done.
  - rewrite !length_app. cbn. lia.
  - rewrite !elem_of_app. intros H. destruct_or! H; try (by apply hexbyte_ok in H); try (by apply list_elem_of_singleton in H); by apply elem_of_nil in H.
  - rewrite !elem_of_app. right. right. left. by left.
Qed.

Definition memory : t := mk 7 [NUL; NUL] (replicate 24 Init.Byte.xcc).

Lemma ipv4_round_trip_witness :
  let ip := [Init.Byte.x7f; NUL; NUL; Init.Byte.x01] in
  let a := of_ip pton6 (ntop4 ip) 8080 false memory in
  wf a /\ family a = AF_INET /\ sin_addr a = ip /\ port a = 8080 /\
  toIp ntop6 a = Ok (ntop4 ip) /\ toIpPort ntop6 a = Ok (ntop4 ip ++ bs ":" ++ dec 8080) /\ drop 4 (take 12 (rest a)) = replicate 8 NUL.
Proof. apply (ipv4_round_trip ntop6 pton6 [Init.Byte.x7f; NUL; NUL; Init.Byte.x01] 8080 memory); [done|lia|done]. Defined.

Lemma ipv6_round_trip_witness :
  let a := of_ip pton6 (ntop6 in6addr_loopback) 443 false memory in
  wf a /\ family a = AF_INET6 /\ sin6_addr a = in6addr_loopback /\ port a = 443 /\
  toIp ntop6 a = Ok (ntop6 in6addr_loopback) /\ toIpPort ntop6 a = Ok (bs "[" ++ ntop6 in6addr_loopback ++ bs "]:" ++ dec 443).
Proof. apply (ipv6_round_trip ntop6 pton6 inet_ntop6_text_demo in6addr_loopback 443 memory); [done|lia]. Defined.

Lemma bad_ip_is_any_witness : of_ip pton6 (bs "127.0.1") 80 false memory = of_port 80 false false memory.
Proof.
  apply (bad_ip_is_any pton6 (bs "127.0.1") 80 memory); [done| | |vm_compute; reflexivity]; apply (bool_decide_unpack _); by vm_compute.
Defined.

Lemma isSelfConnect_texts_witness :
  let a := of_ip pton6 (bs "10.0.0.1") 80 false memory in
  isSelfConnect a a = true <-> toIpPort ntop6 a = toIpPort ntop6 a.
Proof. apply (isSelfConnect_texts ntop6); vm_compute; done. Defined.

Lemma resolve_cases_witness :
  let out := of_ip pton6 (ntop6 in6addr_loopback) 443 false memory in
  exists out', resolve (Some (AF_INET, [Init.Byte.x0a; NUL; NUL; Init.Byte.x01])) out = Ok (true, out') /\ wf out' /\
    family out' = family out /\ port out' = port out /\
    (family out = AF_INET -> sin_addr out' = [Init.Byte.x0a; NUL; NUL; Init.Byte.x01]) /\
    (family out = AF_INET6 -> sin6_addr out' = sin6_addr out).
Proof.
  apply (resolve_cases (Some (AF_INET, [Init.Byte.x0a; NUL; NUL; Init.Byte.x01])) (of_ip pton6 (ntop6 in6addr_loopback) 443 false memory)); [|done].
  vm_compute. done.
Defined.

End InetDemo.
End InetAddress.

(** ** Calls on sockets *)

Module Sockets.
Import InetAddress.

(** What the system calls return is an argument; [LOG_SYSFATAL] aborts. *)
Definition createNonblockingOrDie (sockfd : Z) : outcome Z := if sockfd <? 0 then Fault Aborted else Ok sockfd.
Definition bindOrDie (ret : Z) : outcome unit := if ret <? 0 then Fault Aborted else Ok tt.
Definition listenOrDie (ret : Z) : outcome unit := if ret <? 0 then Fault Aborted else Ok tt.

(** The values of Linux: EAGAIN, ECONNABORTED, EINTR, EPROTO, EPERM, EMFILE *)
Definition expected_errors : list Z := [11; 103; 4; 71; 1; 24].
Definition accept (connfd savedErrno : Z) : outcome Z :=
  if connfd <? 0 then (if decide (savedErrno ∈ expected_errors) then Ok connfd else Fault Aborted) else Ok connfd.

Definition getSocketError (ret optval errno : Z) : Z := if ret <? 0 then errno else optval.

(** getsockname(2) and getpeername(2) may fail and leave the zeroed address. *)
Definition zero_addr : t := mk 0 [NUL; NUL] (replicate 24 NUL).
Definition getLocalAddr (name : option t) : t := default zero_addr name.
Definition getPeerAddr (name : option t) : t := default zero_addr name.

(** isSelfConnect of a socket; without a local address it is false. *)
Definition isSelfConnect_fd (localname peername : option t) : bool :=
  isSelfConnect (getLocalAddr localname) (getPeerAddr peername).

Lemma isSelfConnect_unnamed peername : isSelfConnect_fd None peername = false.
Proof. reflexivity. Qed.

End Sockets.
