(* ===== verification/InspectorFacts.v ===== *)
(** * Facts about the inspector

    [split] gives the parts of a path; the two nested maps are one map from
    (module, command), whatever has been registered and removed; every request
    is answered by the entry of that map which its path names, and the page of
    "/" lists the whole map, sorted. *)

From stdpp Require Import sorting.
From S2P Require Import Prelude NetBuffer Http Timestamp ProcessInfo Inspector.

Local Open Scope Z_scope.

Module InspectorFacts.
Import Inspector.

(** ** Paths *)

(** The fields of a text between slashes, and those that are not empty. *)
Fixpoint fields (s : bytes) : list bytes :=
  match s with
  | [] => [[]]
  | c :: s => if decide (c = SLASH) then [] :: fields s
              else match fields s with f :: fs => (c :: f) :: fs | [] => [[c]]
                   end
  end.
Definition components (s : bytes) : list bytes := filter (fun f => f <> []) (fields s).

Lemma fields_app f s : SLASH ∉ f -> fields (f ++ SLASH :: s) = f :: fields s.
Proof.
  induction f as [|c f IH]; intros Hf; cbn [app fields]; [by rewrite decide_True|].
  apply not_elem_of_cons in Hf as [Hc Hf]. by rewrite decide_False, IH by congruence.
Qed.

Lemma fields_last f : SLASH ∉ f -> fields f = [f].
Proof.
  induction f as [|c f IH]; intros Hf; cbn [fields]; [done|].
  apply not_elem_of_cons in Hf as [Hc Hf]. by rewrite decide_False, IH by congruence.
Qed.

Lemma find_byte_split c s :
  (exists a b, s = a ++ c :: b /\ c ∉ a /\ find_byte c s = length a) \/ (c ∉ s /\ find_byte c s = length s).
Proof.
  destruct (decide (c ∈ s)) as [Hin|Hno]; [|right; split; [done|by apply find_byte_not_in]].
  apply list_elem_of_split_l in Hin as (a & b & -> & Ha). left. exists a, b. split_and!; [done|done|by apply find_byte_app_r].
Qed.

Lemma split_loop_components fuel s acc :
  (length s < fuel)%nat -> split_loop fuel s acc = Ok (acc ++ components s).
Proof.
  revert s acc. induction fuel as [|fuel IH]; intros s acc Hf; [lia|]. cbn [split_loop].
  destruct (find_byte_split SLASH s) as [(a & b & -> & Ha & ->)|[Hno ->]].
  - rewrite length_app in *. cbn [length] in *. rewrite (proj2 (Nat.ltb_lt _ _)) by lia.
    replace (drop (S (length a)) (a ++ SLASH :: b)) with b
      by (rewrite <- Nat.add_1_r, <- drop_drop, drop_app_length; done).
    rewrite take_app_length, IH by lia. unfold components. rewrite fields_app by done.
    destruct a as [|c a]; cbn [length Nat.ltb Nat.leb].
    + rewrite filter_cons_False by naive_solver; done.
    + rewrite filter_cons_True; [|done]. by rewrite <- app_assoc.
  - rewrite Nat.ltb_irrefl. unfold components. rewrite fields_last by done.
    destruct s as [|c s]; cbn [length Nat.ltb Nat.leb].
    + rewrite filter_cons_False by naive_solver. by rewrite app_nil_r.
    + by rewrite filter_cons_True by done.
Qed.

Lemma split_Ok s : split s = Ok (components s).
Proof. apply (split_loop_components _ s []). lia. Qed.

(** [split] returns the non-empty fields between the slashes of any text, in
    order, with slashes at the front, doubled or at the end. *)
Theorem split_components s : split s = Ok (filter (fun f => f <> []) (fields s)).
Proof. apply split_Ok. Qed.

(** A path made of components gives them back. *)
Theorem split_path cs :
  Forall (fun c => c <> [] /\ SLASH ∉ c) cs -> split (concat (map (cons SLASH) cs)) = Ok cs.
Proof.
  intros Hcs. rewrite split_Ok. f_equal. unfold components.
  assert (Hf : fields (concat (map (cons SLASH) cs)) = [] :: cs \/ cs = []).
  { induction Hcs as [|c cs [Hne Hc] Hcs IH]; [by right|]. left. cbn [map concat app fields]. rewrite decide_True by done.
    destruct IH as [IH| ->]; [|cbn; by rewrite app_nil_r, fields_last].
    f_equal. destruct cs as [|c' cs]; [cbn; by rewrite app_nil_r, fields_last|].
    cbn [map concat app fields] in *. rewrite decide_True in IH by done. injection IH as IH. by rewrite fields_app, IH. }
  destruct Hf as [-> | ->]; [|done]. rewrite filter_cons_False by naive_solver.
  induction Hcs as [|c cs [Hne Hc] Hcs IH]; [done|]. by rewrite filter_cons_True, IH.
Qed.

Lemma split_path_witness : split (bs "/proc/threads") = Ok [bs "proc"; bs "threads"].
Proof.
  apply (split_path [bs "proc"; bs "threads"]).
  repeat constructor; try discriminate; apply (bool_decide_unpack _); vm_compute; exact I.
Defined.

(** ** Maps in the order of their keys *)

#[local] Instance entry_le_total {A} : Total (@entry_le A).
Proof.
  intros [a va] [b vb]. unfold entry_le. cbn [fst].
  revert b. induction a as [|x a IH]; intros [|y b]; cbn; auto.
  destruct (N.ltb_spec (Byte.to_N x) (Byte.to_N y)), (N.ltb_spec (Byte.to_N y) (Byte.to_N x)); auto.
Qed.

Lemma bytes_le_refl a : HttpResponse.bytes_le a a = true.
Proof. by destruct (total (@entry_le unit) (a, tt) (a, tt)). Qed.

Lemma bytes_le_trans a b c : HttpResponse.bytes_le a b = true -> HttpResponse.bytes_le b c = true -> HttpResponse.bytes_le a c = true.
Proof.
  revert b c. induction a as [|x a IH]; intros [|y b] [|z c]; cbn; try done.
  repeat case_match; intros; try done; try (by eapply IH);
    repeat match goal with H : (_ <? _)%N = true |- _ => apply N.ltb_lt in H | H : (_ <? _)%N = false |- _ => apply N.ltb_ge in H end; try lia.
Qed.

#[local] Instance entry_le_trans {A} : Transitive (@entry_le A).
Proof. intros a b c. apply bytes_le_trans. Qed.

Lemma entries_perm {A} (m : gmap bytes A) : entries m ≡ₚ map_to_list m.
Proof. apply merge_sort_Permutation. Qed.

Lemma elem_of_entries {A} (m : gmap bytes A) k x : (k, x) ∈ entries m <-> m !! k = Some x.
Proof. rewrite entries_perm. apply elem_of_map_to_list. Qed.

Lemma entries_sorted {A} (m : gmap bytes A) : StronglySorted entry_le (entries m).
Proof. apply Sorted_StronglySorted; [apply _|]. apply Sorted_merge_sort, _. Qed.

Lemma entries_nodup {A} (m : gmap bytes A) : NoDup (fst <$> entries m).
Proof. rewrite entries_perm. apply NoDup_fst_map_to_list. Qed.

(** ** The registry *)

Section Registry.
Context {W : Type}.
Implicit Types (s : Inspector.t W).

(** What is promised: one map from module and command to callback and help. *)
Abbreviation registry := (gmap (bytes * bytes) (Callback W * bytes)).

Inductive op := OpAdd (module command : bytes) (cb : Callback W) (help : bytes) | OpRemove (module command : bytes).

Definition run_op s (o : op) : outcome (Inspector.t W) :=
  match o with OpAdd m c cb h => add s m c cb h | OpRemove m c => remove s m c end.
Fixpoint run_ops s (os : list op) : outcome (Inspector.t W) :=
  match os with [] => Ok s | o :: os => s ← run_op s o; run_ops s os end.

Definition spec_op (r : registry) (o : op) : registry :=
  match o with OpAdd m c cb h => <[(m, c) := (cb, h)]> r | OpRemove m c => delete (m, c) r end.

Definition callback_of s (m c : bytes) : option (Callback W) := modules_ s !! m ≫= fun l => l !! c.
Definition help_of s (m c : bytes) : option bytes := helps_ s !! m ≫= fun l => l !! c.

Definition represents s (r : registry) : Prop :=
  mutex_ s = false /\
  forall m c, callback_of s m c = fst <$> r !! (m, c) /\ help_of s m c = snd <$> r !! (m, c).

Lemma lookup_two_insert {A} (mm : gmap bytes (gmap bytes A)) m c x m' c' :
  (<[m := <[c := x]> (default ∅ (mm !! m))]> mm !! m' ≫= fun l => l !! c') =
  if decide ((m, c) = (m', c')) then Some x else mm !! m' ≫= fun l => l !! c'.
Proof.
  destruct (decide (m = m')) as [<-|Hm].
  - rewrite lookup_insert_eq. cbn [mbind option_bind]. destruct (decide (c = c')) as [<-|Hc].
    + rewrite lookup_insert_eq. by rewrite decide_True.
    + rewrite lookup_insert_ne by done. rewrite decide_False by congruence. by destruct (mm !! m).
  - rewrite lookup_insert_ne by done. by rewrite decide_False by congruence.
Qed.

Lemma lookup_two_delete {A} (mm : gmap bytes (gmap bytes A)) m c m' c' :
  (<[m := delete c (default ∅ (mm !! m))]> mm !! m' ≫= fun l => l !! c') =
  if decide ((m, c) = (m', c')) then None else mm !! m' ≫= fun l => l !! c'.
Proof.
  destruct (decide (m = m')) as [<-|Hm].
  - rewrite lookup_insert_eq. cbn [mbind option_bind]. destruct (decide (c = c')) as [<-|Hc].
    + rewrite lookup_delete_eq. by rewrite decide_True.
    + rewrite lookup_delete_ne by done. rewrite decide_False by congruence. by destruct (mm !! m).
  - rewrite lookup_insert_ne by done. by rewrite decide_False by congruence.
Qed.

Lemma represents_new q st : represents (mk ∅ ∅ false q st) ∅.
Proof. split; [done|]. intros m c. done. Qed.

Lemma registry_op_refines s r o : represents s r -> exists s', run_op s o = Ok s' /\ represents s' (spec_op r o).
Proof.
  intros [Hm Hr]. unfold callback_of, help_of in Hr. destruct o as [m c cb h|m c].
  - cbn [run_op]. unfold add, lock. rewrite Hm. cbn [mbind outcome_bind]. eexists. split; [done|].
    split; [done|]. intros m' c'. unfold callback_of, help_of. cbn [unlock with_mutex with_maps modules_ helps_ spec_op].
    unfold CommandList, HelpList in *. rewrite !lookup_two_insert. destruct (decide ((m, c) = (m', c'))) as [[= <- <-]|Hne].
    + by rewrite lookup_insert_eq.
    + rewrite lookup_insert_ne by done. apply Hr.
  - cbn [run_op]. unfold remove, lock. rewrite Hm. cbn [mbind outcome_bind with_mutex modules_ helps_].
    destruct (modules_ s !! m) as [l|] eqn:El; eexists; (split; [reflexivity|]); (split; [done|]); intros m' c';
      unfold callback_of, help_of; cbn [unlock with_mutex with_maps modules_ helps_ spec_op].
    + assert (l = default ∅ (modules_ s !! m)) as -> by (by rewrite El).
      unfold CommandList, HelpList in *. rewrite !lookup_two_delete.
      destruct (decide ((m, c) = (m', c'))) as [[= <- <-]|Hne]; [by rewrite lookup_delete_eq|].
      rewrite lookup_delete_ne by done. apply Hr.
    + destruct (decide ((m, c) = (m', c'))) as [[= <- <-]|Hne]; [|rewrite lookup_delete_ne by done; apply Hr].
      rewrite lookup_delete_eq. destruct (Hr m c) as [Hcb Hh]. rewrite El in *. cbn in Hcb.
      destruct (r !! (m, c)); [done|]. rewrite Hh. done.
Qed.

Lemma run_ops_refines os s r :
  represents s r -> exists s', run_ops s os = Ok s' /\ represents s' (fold_left spec_op os r).
Proof.
  revert s r. induction os as [|o os IH]; intros s r Hs; cbn [run_ops fold_left]; [by exists s|].
  destruct (registry_op_refines s r o Hs) as (s1 & -> & H1). cbn [mbind outcome_bind]. by apply IH.
Qed.

(** C36: Any registrations and removals on a new inspector succeed and leave the
    registry that the same operations on one map give: [modules_] and [helps_]
    have the same keys, a command registered again is replaced, the commands
    of other modules stay. *)
Theorem registry_refines os q st :
  exists s, run_ops (mk ∅ ∅ false q st) os = Ok s /\ represents s (fold_left spec_op os ∅).
Proof. apply run_ops_refines, represents_new. Qed.

(** ** Requests *)

(** The page of a callback that runs with [mutex_] held. *)
Definition page_of (p : script W) : outcome bytes := match p with Reply page => page | _ => Fault Deadlock end.

Lemma run_locked s p : mutex_ s = true -> run s p = (body ← page_of p; Ok (body, s)).
Proof. intros Hm. destruct p; cbn [run page_of]; [done| |]; unfold add, remove, lock; by rewrite Hm. Qed.

Lemma unlock_locked s : mutex_ s = false -> unlock (with_mutex s true) = s.
Proof. destruct s; cbn. by intros ->. Qed.

Lemma call_command_eq w s req resp m c args :
  mutex_ s = false ->
  call_command w s req resp m c args =
  match callback_of s m c with
  | Some (Some cb) => body ← page_of (cb w (HttpRequest.method_ req) args); Ok (Some (reply_200 resp (bs "text/plain") body), s)
  | _ => Ok (None, s)
  end.
Proof.
  intros Hm. unfold call_command, lock, callback_of. rewrite Hm. cbn [mbind outcome_bind with_mutex modules_].
  destruct (modules_ s !! m) as [l|]; cbn [mbind option_bind]; [|by rewrite unlock_locked].
  destruct (l !! c) as [[cb|]|]; [|by rewrite unlock_locked..]. rewrite run_locked by done.
  destruct (page_of _); cbn [mbind outcome_bind]; [by rewrite unlock_locked|done].
Qed.

(** What a request other than "/" is answered with. *)
Definition answer (r : registry) (w : W) (req : HttpRequest.t) (resp : HttpResponse.t) : outcome HttpResponse.t :=
  match components (HttpRequest.path_ req) with
  | [module] => Ok (if bool_decide (module = bs "favicon.ico")
                    then reply_200 resp (bs "image/png") Favicon.favicon else reply_404 resp)
  | module :: command :: args =>
      match r !! (module, command) with
      | Some (Some cb, _) => body ← page_of (cb w (HttpRequest.method_ req) args); Ok (reply_200 resp (bs "text/plain") body)
      | _ => Ok (reply_404 resp)
      end
  | [] => Ok (reply_404 resp)
  end.

(** C35: Every path but "/" is answered by the registry: the picture, the page of
    the command its first two components name, called with the method and the
    other components, or 404.  The registry stays; a callback that registers or
    removes a command waits for the lock its own request holds. *)
Theorem onRequest_answers s r w req resp :
  represents s r -> HttpRequest.path_ req <> [SLASH] ->
  onRequest w s req resp = (resp' ← answer r w req resp; Ok (resp', s)).
Proof.
  intros [Hm Hr] Hp. unfold onRequest, answer. rewrite bool_decide_eq_false_2, split_Ok by done. cbn [mbind outcome_bind].
  destruct (components (HttpRequest.path_ req)) as [|m [|c args]]; cbn [mbind outcome_bind default]; [done|by case_bool_decide|].
  rewrite call_command_eq by done. destruct (Hr m c) as [-> _].
  destruct (r !! (m, c)) as [[[cb|] h]|]; cbn [fmap option_fmap option_map fst mbind outcome_bind default]; [|done|done].
  by destruct (page_of _).
Qed.

(** ** The page of "/" *)

Definition row : Type := bytes * bytes * bytes.

Definition rows_of (module : bytes) (l : HelpList) : list row := map (fun ch => (module, fst ch, snd ch)) (entries l).
Definition rows (hs : gmap bytes HelpList) : list row :=
  concat (map (fun mh => rows_of (fst mh) (snd mh)) (entries hs)).
Definition row_line (x : row) : bytes := index_line (fst (fst x)) (snd (fst x)) (snd x).

(** By module, and by command within one. *)
Definition row_le (x y : row) : Prop :=
  HttpResponse.bytes_le (fst (fst x)) (fst (fst y)) = true /\
  (fst (fst x) = fst (fst y) -> HttpResponse.bytes_le (snd (fst x)) (snd (fst y)) = true).

Lemma index_page_rows s : index_page s = concat (map row_line (rows (helps_ s))).
Proof.
  unfold index_page, rows. induction (entries (helps_ s)) as [|[m l] ms IH]; [done|].
  cbn [map concat fst snd]. rewrite IH, map_app, concat_app. f_equal. unfold rows_of. rewrite map_map.
  f_equal. apply map_ext. by intros [c h].
Qed.

Lemma elem_of_rows hs m c h : (m, c, h) ∈ rows hs <-> hs !! m ≫= (fun l => l !! c) = Some h.
Proof.
  unfold rows. rewrite list_elem_of_In, in_concat. split.
  - intros (x & Hx & Hin). apply in_map_iff in Hx as ([m' l] & <- & Hm). apply list_elem_of_In, elem_of_entries in Hm.
    apply in_map_iff in Hin as ([c' h'] & [= -> -> ->] & Hc). apply list_elem_of_In, elem_of_entries in Hc. cbn in Hc.
    rewrite Hm. exact Hc.
  - intros Hl. destruct (hs !! m) as [l|] eqn:El; [|done]. cbn in Hl. exists (rows_of m l). split.
    + apply in_map_iff. exists (m, l). split; [done|]. by apply list_elem_of_In, elem_of_entries.
    + apply in_map_iff. exists (c, h). split; [done|]. by apply list_elem_of_In, elem_of_entries.
Qed.

Lemma rows_of_sorted m l : StronglySorted row_le (rows_of m l).
Proof.
  unfold rows_of. pose proof (entries_sorted l) as Hs. induction Hs as [|x xs Hs IH Hx]; cbn [map]; constructor; [done|].
  rewrite list.Forall_forall in Hx. apply list.Forall_forall. intros y Hy. apply list_elem_of_In, in_map_iff in Hy as (z & <- & Hz).
  apply list_elem_of_In, Hx in Hz. split; cbn; [apply bytes_le_refl|done].
Qed.

Lemma rows_sorted_of (ms : list (bytes * HelpList)) :
  StronglySorted entry_le ms -> NoDup (fst <$> ms) ->
  StronglySorted row_le (concat (map (fun mh => rows_of (fst mh) (snd mh)) ms)).
Proof.
  intros Hs Hnd. induction Hs as [|[m l] ms Hs IH Hx]; cbn [map concat]; [constructor|].
  cbn in Hnd. apply list.NoDup_cons in Hnd as [Hm Hnd]. apply StronglySorted_app. split_and!; [|apply rows_of_sorted|by apply IH].
  intros x y Hin Hy. apply list_elem_of_In, in_map_iff in Hin as (ch & <- & _).
  apply list_elem_of_In, in_concat in Hy as (r & Hr & Hy). apply in_map_iff in Hr as ([m' l'] & <- & Hm').
  apply in_map_iff in Hy as (ch' & <- & _). rewrite list.Forall_forall in Hx.
  split; cbn; [apply (Hx (m', l')); by apply list_elem_of_In|].
  intros ->. exfalso. apply Hm. apply list_elem_of_fmap. exists (m', l'). split; [done|by apply list_elem_of_In].
Qed.

Lemma rows_nodup_of (ms : list (bytes * HelpList)) :
  NoDup (fst <$> ms) -> NoDup (concat (map (fun mh => rows_of (fst mh) (snd mh)) ms)).
Proof.
  intros Hnd. induction ms as [|[m l] ms IH]; cbn [map concat]; [constructor|].
  cbn in Hnd. apply list.NoDup_cons in Hnd as [Hm Hnd]. apply list.NoDup_app. split_and!; [|intros x Hx Hy|by apply IH].
  - unfold rows_of. pose proof (entries_nodup l) as Hc. apply (NoDup_fmap_2_strong (fun ch => (m, ch.1, ch.2))).
    + intros [c h] [c' h'] _ _ [=]. by subst.
    + by apply NoDup_fmap_1 in Hc.
  - apply list_elem_of_In, in_map_iff in Hx as (ch & <- & _).
    apply list_elem_of_In, in_concat in Hy as (r & Hr & Hy). apply in_map_iff in Hr as ([m' l'] & <- & Hm').
    apply in_map_iff in Hy as (ch' & [= E1 E2 E3] & _). cbn in E1. subst m'. apply Hm, list_elem_of_fmap.
    exists (m, l'). split; [done|by apply list_elem_of_In].
Qed.

(** The page of "/" has one line for every registered command, with its help,
    and no other; they are in the order of the modules and of the commands of
    a module. *)
Theorem index_lists_registry s r w req resp :
  represents s r -> HttpRequest.path_ req = [SLASH] ->
  exists rs, onRequest w s req resp = Ok (reply_200 resp (bs "text/plain") (concat (map row_line rs)), s) /\
    rs ≡ₚ map (fun kv => (fst (fst kv), snd (fst kv), snd (snd kv))) (map_to_list r) /\ StronglySorted row_le rs.
Proof.
  intros [Hm Hr] Hp. exists (rows (helps_ s)). split_and!.
  - unfold onRequest, lock. rewrite bool_decide_eq_true_2, Hm by done. cbn [mbind outcome_bind].
    rewrite unlock_locked by done. by rewrite <- index_page_rows.
  - apply NoDup_Permutation.
    + apply rows_nodup_of, entries_nodup.
    + pose proof (NoDup_map_to_list r) as Hnd. apply (NoDup_fmap_2_strong (fun kv => (kv.1.1, kv.1.2, kv.2.2))); [|done].
      intros [[m c] [cb h]] [[m' c'] [cb' h']] H1 H2 [=]. subst. apply elem_of_map_to_list in H1, H2. congruence.
    + intros [[m c] h]. rewrite elem_of_rows. destruct (Hr m c) as [_ Hh]. unfold help_of in Hh. rewrite Hh.
      rewrite list_elem_of_In, in_map_iff. split.
      * intros E. destruct (r !! (m, c)) as [[cb h']|] eqn:Er; [|done]. injection E as ->. exists ((m, c), (cb, h)).
        split; [done|]. by apply list_elem_of_In, elem_of_map_to_list.
      * intros ([[m' c'] [cb h']] & [= -> -> ->] & Hin). apply list_elem_of_In, elem_of_map_to_list in Hin. by rewrite Hin.
  - apply rows_sorted_of; [apply entries_sorted|apply entries_nodup].
Qed.

(** ** The constructor *)

Definition registration (x : bytes * bytes * Callback W * bytes) : op :=
  let '(module, command, cb, help) := x in OpAdd module command cb help.

Lemma add_all_ops s commands : add_all s commands = run_ops s (map registration commands).
Proof.
  revert s. induction commands as [|[[[m c] cb] h] commands IH]; intros s; [done|]. cbn [add_all map run_ops run_op registration].
  destruct (add s m c cb h); cbn [mbind outcome_bind]; [apply IH|done].
Qed.

Lemma run_op_started s o s' : run_op s o = Ok s' -> server_started_ s' = server_started_ s.
Proof.
  destruct o; cbn [run_op]; unfold add, remove, lock; destruct (mutex_ s); cbn [mbind outcome_bind]; try done;
    intros [= <-]; [done|]. cbn. by destruct (modules_ s !! _).
Qed.

Lemma run_ops_started s os s' : run_ops s os = Ok s' -> server_started_ s' = server_started_ s.
Proof.
  revert s. induction os as [|o os IH]; intros s; cbn [run_ops]; [by intros [= <-]|].
  destruct (run_op s o) as [s1|e] eqn:E; cbn [mbind outcome_bind]; [|done].
  intros H. rewrite <- (run_op_started _ _ _ E). by apply IH.
Qed.

(** A first inspector made by the main thread has the commands of its parts
    registered and its start queued; another thread or a second inspector
    fails an assertion. *)
Theorem new_inspector commands isMainThread g_globalInspector :
  if isMainThread && negb g_globalInspector
  then exists s, new commands isMainThread g_globalInspector = Ok s /\ start_queued_ s = true /\ server_started_ s = false /\
         represents s (fold_left spec_op (map registration commands) ∅)
  else new commands isMainThread g_globalInspector = Fault AssertFailed.
Proof.
  unfold new. destruct isMainThread, g_globalInspector; cbn [andb negb assert mbind outcome_bind]; try done.
  rewrite add_all_ops. destruct (run_ops_refines (map registration commands) _ ∅ (represents_new false false)) as (s & E & Hr).
  rewrite E. cbn [mbind outcome_bind]. eexists. split; [done|]. split; [done|]. split; [|exact Hr].
  cbn. by rewrite (run_ops_started _ _ _ E).
Qed.

End Registry.
(** ** An inspector at work *)

Module InspectorDemo.

Definition world : Commands.world :=
  Commands.mkWorld
    (ProcessInspector.mkProcess 0 0 (bs "Threads: 3") [] [] [] true 4711 5 1024 (ProcessInfo.mkCpuTime d_zero d_zero))
    100 [(7, Some (bs "7 (io) S 1 42 42 0 -1 64 100 0 3 0 250 50 0" ++ [LF])); (8, None)]
    (SystemInspector.mkSystem 0 None [] [] []) (fun path => bs "contents of " ++ path).

Definition request (path : bytes) : HttpRequest.t := HttpRequest.setPath HttpRequest.new path.
Definition response : HttpResponse.t := HttpResponse.new false.
Definition commands := Commands.ProcessInspector_registerCommands ++ Commands.SystemInspector_registerCommands.
Definition registered := fold_left spec_op (map registration commands) ∅.

(** What a new inspector answers. *)
Definition get (path : bytes) : outcome (HttpResponse.HttpStatusCode * bytes) :=
  s ← Commands.inspector true false;
  '(resp, _) ← onRequest world s (request path) response;
  Ok (HttpResponse.statusCode_ resp, HttpResponse.body_ resp).

Lemma get_pages :
  get (bs "/proc/pid") = Ok (HttpResponse.k200Ok, bs "4711") /\
  get (bs "//sys/loadavg/and/more") = Ok (HttpResponse.k200Ok, bs "contents of /proc/loadavg") /\
  get (bs "/proc/threads") = Ok (HttpResponse.k200Ok, bs "  TID NAME             S    User Time  System Time" ++ [LF] ++
                                                      bs "    7 io               S        2.500        0.500" ++ [LF]) /\
  get (bs "/proc") = Ok (HttpResponse.k404NotFound, []) /\
  get (bs "/proc/nothing") = Ok (HttpResponse.k404NotFound, []).
Proof. split_and!; vm_compute; reflexivity. Qed.

Lemma onRequest_answers_witness :
  exists s, run_ops (mk ∅ ∅ false true false) (map registration commands) = Ok s /\
    onRequest world s (request (bs "/proc/pid")) response =
    (resp' ← answer registered world (request (bs "/proc/pid")) response; Ok (resp', s)).
Proof.
  destruct (run_ops_refines (map registration commands) _ ∅ (represents_new true false)) as (s & E & Hr).
  exists s. split; [exact E|]. apply (onRequest_answers s registered); [exact Hr|discriminate].
Defined.

Lemma index_lists_registry_witness :
  exists s rs, run_ops (mk ∅ ∅ false true false) (map registration commands) = Ok s /\
    onRequest world s (request [SLASH]) response = Ok (reply_200 response (bs "text/plain") (concat (map row_line rs)), s) /\
    rs ≡ₚ map (fun kv => (fst (fst kv), snd (fst kv), snd (snd kv))) (map_to_list registered) /\ StronglySorted row_le rs.
Proof.
  destruct (run_ops_refines (map registration commands) _ ∅ (represents_new true false)) as (s & E & Hr).
  destruct (index_lists_registry s registered world (request [SLASH]) response Hr eq_refl) as (rs & H1 & H2 & H3).
  exists s, rs. split_and!; [exact E|exact H1|exact H2|exact H3].
Defined.

(** A command that registers another one never returns. *)
Lemma registering_command_deadlocks :
  (s ← add (mk ∅ ∅ false false true) (bs "a") (bs "b") (Some (fun (_ : unit) _ _ => CallAdd (bs "a") (bs "c") None [] (Reply (Ok [])))) [];
   onRequest tt s (request (bs "/a/b")) response) = Fault Deadlock.
Proof. vm_compute. reflexivity. Qed.

End InspectorDemo.
End InspectorFacts.
