(* ===== verification/StringPiece.v ===== *)
(** * StringPiece

    base/StringPiece.h: a pointer and a length that name bytes of somebody
    else's object.  Memory is a map from objects to their bytes, a pointer an
    object and an offset into it, and nothing checks that the piece stays
    inside the object: [memcmp] on a piece that does not is a fault.
    The comparisons are those of the byte strings the pieces name. *)

From S2P Require Import Prelude.

Local Open Scope Z_scope.

Module StringPiece.

(** ** Memory *)

Definition memory : Type := gmap Z bytes.

(** A [const char*]: NULL, or an offset into an object. *)
Inductive pointer :=
  | NULL
  | Ptr (obj off : Z).

#[export] Instance pointer_eq_dec : EqDecision pointer.
Proof. solve_decision. Defined.

(** [p + n]; nothing may be added to a null pointer but 0. *)
Definition advance (p : pointer) (n : Z) : outcome pointer :=
  match p with
  | NULL => if n =? 0 then Ok NULL else Fault OutOfBounds
  | Ptr o off => Ok (Ptr o (off + n))
  end.

(** The [n] bytes from [p]; none are touched when [n] is 0. *)
Definition read (m : memory) (p : pointer) (n : Z) : outcome bytes :=
  if n =? 0 then Ok [] else
  match p with
  | NULL => Fault OutOfBounds
  | Ptr o off => match m !! o with Some d => load d off n | None => Fault OutOfBounds end
  end.

(** [strlen]: the object must contain a NUL at or after the pointer. *)
Definition strlen (m : memory) (p : pointer) : outcome Z :=
  match p with
  | NULL => Fault OutOfBounds
  | Ptr o off =>
      match m !! o with
      | Some d =>
          if (0 <=? off) && (off + Z.of_nat (find_byte NUL (drop (Z.to_nat off) d)) <? zlen d)
          then Ok (Z.of_nat (find_byte NUL (drop (Z.to_nat off) d))) else Fault OutOfBounds
      | None => Fault OutOfBounds
      end
  end.

(** The sign of [memcmp]'s result: the first byte that differs, as
    [unsigned char]. *)
Fixpoint memcmp_bytes (a b : bytes) : Z :=
  match a, b with
  | x :: a', y :: b' =>
      if byte.unsigned x <? byte.unsigned y then -1
      else if byte.unsigned y <? byte.unsigned x then 1
      else memcmp_bytes a' b'
  | _, _ => 0
  end.

(** The third argument is a [size_t]: a negative [int] becomes huge. *)
Definition memcmp (m : memory) (p q : pointer) (n : Z) : outcome Z :=
  a ← read m p (u64 n); b ← read m q (u64 n); Ok (memcmp_bytes a b).

(** ** class StringArg *)

Definition StringArg : Type := pointer.
Definition StringArg_c_str (a : StringArg) : pointer := a.

(** ** class StringPiece *)

Record t := mk { ptr_ : pointer; length_ : Z }.

Definition default : t := mk NULL 0.
Definition of_c_str (m : memory) (str : pointer) : outcome t :=
  n ← strlen m str; Ok (mk str (i32 n)).
(** A [std::string] of [size] bytes whose [data()] is [data]. *)
Definition of_string (data : pointer) (size : Z) : t := mk data (i32 size).
Definition of_range (offset : pointer) (len : Z) : t := mk offset len.

Definition data (s : t) : pointer := ptr_ s.
Definition size (s : t) : Z := length_ s.
Definition empty (s : t) : bool := length_ s =? 0.
Definition begin (s : t) : pointer := ptr_ s.
Definition end_ (s : t) : outcome pointer := advance (ptr_ s) (length_ s).

Definition clear (s : t) : t := mk NULL 0.
Definition set_range (s : t) (buffer : pointer) (len : Z) : t := mk buffer len.
Definition set_c_str (m : memory) (s : t) (str : pointer) : outcome t :=
  n ← strlen m str; Ok (mk str (i32 n)).

Definition index (m : memory) (s : t) (i : Z) : outcome byte :=
  p ← advance (ptr_ s) i;
  d ← read m p 1;
  match d with [b] => Ok b | _ => Fault OutOfBounds end.

Definition remove_prefix (s : t) (n : Z) : outcome t :=
  p ← advance (ptr_ s) n; l ← ck32 (length_ s - n); Ok (mk p l).
Definition remove_suffix (s : t) (n : Z) : outcome t :=
  l ← ck32 (length_ s - n); Ok (mk (ptr_ s) l).

Definition equal (m : memory) (s x : t) : outcome bool :=
  if length_ s =? length_ x
  then r ← memcmp m (ptr_ s) (ptr_ x) (length_ s); Ok (r =? 0) else Ok false.
Definition not_equal (m : memory) (s x : t) : outcome bool :=
  b ← equal m s x; Ok (negb b).

(** STRINGPIECE_BINARY_PREDICATE(cmp, auxcmp) *)
Definition binary_predicate (cmp auxcmp : Z -> Z -> bool) (m : memory) (s x : t) : outcome bool :=
  r ← memcmp m (ptr_ s) (ptr_ x) (if length_ s <? length_ x then length_ s else length_ x);
  Ok (auxcmp r 0 || ((r =? 0) && cmp (length_ s) (length_ x))).

Definition lt := binary_predicate Z.ltb Z.ltb.
Definition le := binary_predicate Z.leb Z.ltb.
Definition ge := binary_predicate Z.geb Z.gtb.
Definition gt := binary_predicate Z.gtb Z.gtb.

Definition compare (m : memory) (s x : t) : outcome Z :=
  r ← memcmp m (ptr_ s) (ptr_ x) (if length_ s <? length_ x then length_ s else length_ x);
  Ok (if r =? 0 then
        if length_ s <? length_ x then -1
        else if length_ x <? length_ s then 1 else r
      else r).

(** [string(data(), size())]: a negative size is a huge [size_t]. *)
Definition as_string (m : memory) (s : t) : outcome bytes :=
  if length_ s <? 0 then Fault LengthError else read m (ptr_ s) (length_ s).
Definition CopyToString (m : memory) (s : t) : outcome bytes :=
  if length_ s <? 0 then Fault LengthError else read m (ptr_ s) (length_ s).

Definition starts_with (m : memory) (s x : t) : outcome bool :=
  if length_ x <=? length_ s
  then r ← memcmp m (ptr_ s) (ptr_ x) (length_ x); Ok (r =? 0) else Ok false.

(** ** What a piece names *)

(** The piece [s] names the bytes [a]. *)
Definition denotes (m : memory) (s : t) (a : bytes) : Prop :=
  length_ s = zlen a /\ zlen a <= INT_MAX /\
  (a = [] \/ exists o d off, ptr_ s = Ptr o off /\ m !! o = Some d /\ 0 <= off /\
     off + zlen a <= zlen d /\ take (length a) (drop (Z.to_nat off) d) = a).

(** The lexicographic order of byte strings, as a comparison. *)
Fixpoint lex (a b : bytes) : comparison :=
  match a, b with
  | [], [] => Eq
  | [], _ => Lt
  | _, [] => Gt
  | x :: a', y :: b' =>
      match byte.unsigned x ?= byte.unsigned y with Eq => lex a' b' | c => c end
  end.

Definition sign (c : comparison) : Z := match c with Lt => -1 | Eq => 0 | Gt => 1 end.

(** ** Lemmas *)

Lemma byte_unsigned_inj x y : byte.unsigned x = byte.unsigned y -> x = y.
Proof. intros H. by rewrite <- (byte.of_Z_unsigned x), H, byte.of_Z_unsigned. Qed.

Lemma lex_eq a b : lex a b = Eq <-> a = b.
Proof.
  revert b. induction a as [|x a IH]; intros [|y b]; cbn [lex]; try done.
  destruct (Z.compare_spec (byte.unsigned x) (byte.unsigned y)) as [E| |].
  - rewrite IH. apply byte_unsigned_inj in E as ->. naive_solver.
  - split; [done|]. intros [= -> ->]. lia.
  - split; [done|]. intros [= -> ->]. lia.
Qed.

Lemma lex_antisym a b : lex b a = CompOpp (lex a b).
Proof.
  revert b. induction a as [|x a IH]; intros [|y b]; cbn [lex]; try done.
  rewrite Z.compare_antisym. destruct (byte.unsigned x ?= byte.unsigned y); [apply IH|done|done].
Qed.

Lemma lex_trans a b c : lex a b = Lt -> lex b c = Lt -> lex a c = Lt.
Proof.
  revert b c. induction a as [|x a IH]; intros [|y b] [|z c]; cbn [lex]; try done.
  destruct (Z.compare_spec (byte.unsigned x) (byte.unsigned y)); try done;
    destruct (Z.compare_spec (byte.unsigned y) (byte.unsigned z)); try done;
    destruct (Z.compare_spec (byte.unsigned x) (byte.unsigned z)); try done; try lia.
  apply IH.
Qed.

(** The three-way comparison of [memcmp] on the common length, then the lengths. *)
Lemma memcmp_lex a b :
  sign (lex a b) =
  let n := Nat.min (length a) (length b) in
  let r := memcmp_bytes (take n a) (take n b) in
  if r =? 0 then if zlen a <? zlen b then -1 else if zlen b <? zlen a then 1 else 0 else r.
Proof.
  revert b. induction a as [|x a IH]; intros [|y b]; try done.
  cbn [lex length Nat.min take memcmp_bytes]. cbv zeta in *.
  destruct (Z.compare_spec (byte.unsigned x) (byte.unsigned y));
    repeat case_cmp; cbn [sign]; try lia.
  all: rewrite IH; unfold zlen in *; cbn [length] in *; repeat case_cmp; lia.
Qed.

Lemma memcmp_bytes_range a b : memcmp_bytes a b = -1 \/ memcmp_bytes a b = 0 \/ memcmp_bytes a b = 1.
Proof. revert b. induction a as [|x a IH]; intros [|y b]; cbn [memcmp_bytes]; auto. repeat case_cmp; auto. Qed.

Lemma memcmp_bytes_eq a b : length a = length b -> memcmp_bytes a b = 0 <-> a = b.
Proof.
  revert b. induction a as [|x a IH]; intros [|y b]; cbn [memcmp_bytes length]; try done. intros [= Hl].
  repeat case_cmp; try (split; [done|]; intros [= -> ->]; lia).
  rewrite IH by done. assert (x = y) as -> by (apply byte_unsigned_inj; lia). naive_solver.
Qed.

Lemma denotes_length m s a : denotes m s a -> length_ s = zlen a.
Proof. by intros [? _]. Qed.

(** A prefix of what a piece names is read from its pointer. *)
Lemma read_denotes m s a n :
  denotes m s a -> 0 <= n <= zlen a -> read m (ptr_ s) n = Ok (take (Z.to_nat n) a).
Proof.
  intros (_ & _ & [->|(o & d & off & -> & Hd & Ho & Hl & Ht)]) Hn; unfold read.
  - change (zlen []) with 0 in Hn. assert (n = 0) as -> by lia. done.
  - destruct (Z.eqb_spec n 0) as [->|]; [by rewrite take_0|].
    rewrite Hd, load_Ok by lia. f_equal. rewrite <- Ht at 1.
    rewrite take_take. f_equal. unfold zlen in *. lia.
Qed.

Lemma memcmp_denotes m s x a b n :
  denotes m s a -> denotes m x b -> 0 <= n <= zlen a -> n <= zlen b ->
  memcmp m (ptr_ s) (ptr_ x) n = Ok (memcmp_bytes (take (Z.to_nat n) a) (take (Z.to_nat n) b)).
Proof.
  intros Hs Hx Hn Hn'. unfold memcmp.
  assert (zlen a <= INT_MAX) by apply Hs. unfold INT_MAX in *. rewrite u64_small by lia.
  rewrite (read_denotes m s a), (read_denotes m x b) by (done || lia). done.
Qed.

(** The common length, as the code computes it. *)
Lemma memcmp_common m s x a b :
  denotes m s a -> denotes m x b ->
  memcmp m (ptr_ s) (ptr_ x) (if length_ s <? length_ x then length_ s else length_ x) =
  let n := Nat.min (length a) (length b) in Ok (memcmp_bytes (take n a) (take n b)).
Proof.
  intros Hs Hx. rewrite (denotes_length _ _ _ Hs), (denotes_length _ _ _ Hx).
  pose proof (zlen_nonneg a). pose proof (zlen_nonneg b).
  erewrite memcmp_denotes by (done || case_cmp; lia). cbv zeta. do 2 f_equal;
    f_equal; unfold zlen in *; case_cmp; lia.
Qed.

Lemma compare_sign m s x a b :
  denotes m s a -> denotes m x b -> compare m s x = Ok (sign (lex a b)).
Proof.
  intros Hs Hx. unfold compare. rewrite (memcmp_common m s x a b) by done. cbn [mbind outcome_bind].
  f_equal. rewrite memcmp_lex, (denotes_length _ _ _ Hs), (denotes_length _ _ _ Hx). cbv zeta.
  repeat case_cmp; lia.
Qed.

Lemma binary_predicate_sign cmp auxcmp m s x a b :
  denotes m s a -> denotes m x b ->
  (forall r u v, r = -1 \/ r = 0 \/ r = 1 ->
    auxcmp r 0 || ((r =? 0) && cmp u v) =
    cmp (if r =? 0 then if u <? v then -1 else if v <? u then 1 else 0 else r) 0) ->
  binary_predicate cmp auxcmp m s x = Ok (cmp (sign (lex a b)) 0).
Proof.
  intros Hs Hx Hc. unfold binary_predicate. rewrite (memcmp_common m s x a b) by done. cbn [mbind outcome_bind].
  f_equal. rewrite Hc by apply memcmp_bytes_range.
  rewrite memcmp_lex, (denotes_length _ _ _ Hs), (denotes_length _ _ _ Hx). done.
Qed.

Ltac solve_cmp :=
  let r := fresh in let u := fresh in let v := fresh in let E := fresh in
  intros r u v E; rewrite ?Z.geb_leb, ?Z.gtb_ltb;
  destruct (Z.ltb_spec u v), (Z.ltb_spec v u); destruct E as [E|[E|E]]; rewrite E; simpl;
  repeat case_cmp; done || lia.

Lemma equal_denotes m s x a b :
  denotes m s a -> denotes m x b -> equal m s x = Ok (bool_decide (a = b)).
Proof.
  intros Hs Hx. unfold equal. rewrite (denotes_length _ _ _ Hs), (denotes_length _ _ _ Hx).
  pose proof (zlen_nonneg a). destruct (Z.eqb_spec (zlen a) (zlen b)) as [E|E].
  - rewrite (memcmp_denotes m s x a b) by (done || lia). cbn [mbind outcome_bind]. f_equal.
    rewrite !take_ge by (unfold zlen in *; lia). apply eq_bool_prop_intro.
    rewrite Is_true_true, Z.eqb_eq, memcmp_bytes_eq by (unfold zlen in *; lia). by rewrite bool_decide_spec.
  - f_equal. symmetry. apply bool_decide_eq_false_2. by intros ->.
Qed.

(** A part of what a piece names is named by the moved pointer. *)
Lemma denotes_part m s a i k p :
  denotes m s a -> 0 <= i -> 0 <= k -> i + k <= zlen a -> advance (ptr_ s) i = Ok p ->
  denotes m (mk p k) (take (Z.to_nat k) (drop (Z.to_nat i) a)).
Proof.
  intros (_ & Hmax & Hp) Hi Hk Hik Hadv.
  assert (Hlen : zlen (take (Z.to_nat k) (drop (Z.to_nat i) a)) = k).
  { unfold zlen in *. rewrite length_take, length_drop. lia. }
  split; [by rewrite Hlen|]. split; [lia|].
  destruct Hp as [->|(o & d & off & Hs & Hd & Ho & Hl & Ht)]; [left; by rewrite drop_nil, take_nil|].
  rewrite Hs in Hadv. injection Hadv as <-. right. exists o, d, (off + i).
  split; [done|]. split; [done|]. split; [lia|]. split; [lia|].
  rewrite <- Ht at 2. rewrite skipn_firstn_comm, drop_drop, take_take.
  rewrite <- (Nat2Z.id (length (take _ (drop _ a)))). fold (zlen (take (Z.to_nat k) (drop (Z.to_nat i) a))).
  rewrite Hlen. f_equal; [unfold zlen in *; lia|]. f_equal. lia.
Qed.

Lemma advance_denotes m s a i :
  denotes m s a -> 0 <= i <= zlen a -> exists p, advance (ptr_ s) i = Ok p.
Proof.
  intros (_ & _ & [->|(o & d & off & -> & _)]) Hi; [|by eexists].
  change (zlen []) with 0 in Hi. assert (i = 0) as -> by lia.
  destruct (ptr_ s); by eexists.
Qed.

Lemma ck32_piece m s a n :
  denotes m s a -> 0 <= n <= zlen a -> ck32 (length_ s - n) = Ok (zlen a - n).
Proof.
  intros (Hl & Hmax & _) Hn. rewrite Hl, ck32_Ok; [done|]. unfold INT_MIN, INT_MAX in *. lia.
Qed.

Lemma index_denotes m s a i c :
  denotes m s a -> a !! i = Some c -> index m s (Z.of_nat i) = Ok c.
Proof.
  intros Hs Hc. pose proof (lookup_lt_Some _ _ _ Hc) as Hlt.
  destruct (advance_denotes m s a (Z.of_nat i) Hs) as [p Hp]; [unfold zlen; lia|].
  assert (Hd : denotes m (mk p 1) [c]).
  { pose proof (denotes_part m s a (Z.of_nat i) 1 p Hs) as H. unfold zlen in H.
    rewrite Nat2Z.id in H. rewrite (drop_S a c i Hc) in H. apply H; lia || done. }
  unfold index. rewrite Hp. cbn [mbind outcome_bind].
  pose proof (read_denotes m (mk p 1) [c] 1 Hd ltac:(done)) as Hr. cbn [ptr_] in Hr. by rewrite Hr.
Qed.

Lemma starts_with_denotes m s x a b :
  denotes m s a -> denotes m x b -> starts_with m s x = Ok (bool_decide (b `prefix_of` a)).
Proof.
  intros Hs Hx. unfold starts_with. rewrite (denotes_length _ _ _ Hs), (denotes_length _ _ _ Hx).
  pose proof (zlen_nonneg b). destruct (Z.leb_spec (zlen b) (zlen a)) as [E|E].
  - rewrite (memcmp_denotes m s x a b) by (done || lia). cbn [mbind outcome_bind]. f_equal.
    rewrite to_nat_zlen, (take_ge b) by done. apply eq_bool_prop_intro.
    rewrite Is_true_true, Z.eqb_eq, bool_decide_spec, memcmp_bytes_eq
      by (rewrite length_take; unfold zlen in *; lia).
    split; [intros <-; apply prefix_take|]. intros [k ->]. apply take_app_length.
  - f_equal. symmetry. apply bool_decide_eq_false_2. intros Hp%prefix_length. unfold zlen in *. lia.
Qed.

(** ** Properties *)

(** For pieces that name byte strings, whatever objects they point
    into, ==, <, <=, >=, > and compare() are equality and lexicographic
    order of the strings' unsigned bytes: the two-step comparison by memcmp on the
    common length and then by length is equivalent to the order of strings. *)
Theorem pieces_compare_as_strings m s x a b :
  denotes m s a -> denotes m x b ->
  equal m s x = Ok (bool_decide (a = b)) /\
  not_equal m s x = Ok (negb (bool_decide (a = b))) /\
  lt m s x = Ok (bool_decide (lex a b = Lt)) /\
  le m s x = Ok (bool_decide (lex a b <> Gt)) /\
  ge m s x = Ok (bool_decide (lex a b <> Lt)) /\
  gt m s x = Ok (bool_decide (lex a b = Gt)) /\
  compare m s x = Ok (sign (lex a b)).
Proof.
  intros Hs Hx. unfold not_equal, lt, le, ge, gt.
  rewrite (equal_denotes m s x a b), (compare_sign m s x a b) by done.
  rewrite (binary_predicate_sign Z.ltb Z.ltb m s x a b Hs Hx) by solve_cmp.
  rewrite (binary_predicate_sign Z.leb Z.ltb m s x a b Hs Hx) by solve_cmp.
  rewrite (binary_predicate_sign Z.geb Z.gtb m s x a b Hs Hx) by solve_cmp.
  rewrite (binary_predicate_sign Z.gtb Z.gtb m s x a b Hs Hx) by solve_cmp.
  by destruct (lex a b).
Qed.

(** A piece made of a C string names the bytes before its NUL; removing
    a prefix or a suffix that is there names the rest, the indexing operator
    gives the bytes, as_string() and CopyToString() copy them, and starts_with()
    decides the prefix order: the pieces are well formed and stay so. *)
Theorem pieces_well_formed m s x a b n :
  denotes m s a -> denotes m x b -> 0 <= n <= zlen a ->
  as_string m s = Ok a /\ CopyToString m s = Ok a /\
  (exists s', remove_prefix s n = Ok s' /\ denotes m s' (drop (Z.to_nat n) a)) /\
  (exists s', remove_suffix s n = Ok s' /\ denotes m s' (take (Z.to_nat (zlen a - n)) a)) /\
  (forall i c, a !! i = Some c -> index m s (Z.of_nat i) = Ok c) /\
  starts_with m s x = Ok (bool_decide (b `prefix_of` a)) /\
  empty s = bool_decide (a = []) /\ size s = zlen a.
Proof.
  intros Hs Hx Hn. assert (Hl : length_ s = zlen a) by apply Hs. pose proof (zlen_nonneg a).
  assert (Hread : read m (ptr_ s) (length_ s) = Ok a).
  { rewrite Hl, (read_denotes m s a) by (done || lia). by rewrite take_ge by (unfold zlen; lia). }
  unfold as_string, CopyToString, remove_prefix, remove_suffix.
  rewrite (ck32_piece m s a n), (proj2 (Z.ltb_ge _ _)) by (done || lia).
  destruct (advance_denotes m s a n Hs Hn) as [p Hp]. rewrite Hp.
  split; [done|]. split; [done|]. split.
  { eexists. split; [done|]. pose proof (denotes_part m s a n (zlen a - n) p Hs) as H1.
    rewrite (take_ge (drop _ _)) in H1 by (rewrite length_drop; unfold zlen; lia). apply H1; done || lia. }
  split.
  { eexists. split; [done|]. apply (denotes_part m s a 0 (zlen a - n) (ptr_ s) Hs); try lia.
    destruct (ptr_ s); cbn; [done|]. by rewrite Z.add_0_r. }
  split; [intros; by apply (index_denotes m s a)|]. split; [by apply starts_with_denotes|].
  split; [|done]. unfold empty. rewrite Hl. unfold zlen. by destruct a.
Qed.

(** "GET" inside the object 1 and "GETX" in the object 2. *)
Definition demo_memory : memory := {[ 1 := bs "xGET /" ; 2 := bs "GETX" ]}.
Definition demo_get : t := mk (Ptr 1 1) 3.
Definition demo_getx : t := mk (Ptr 2 0) 4.

Lemma demo_get_denotes : denotes demo_memory demo_get (bs "GET").
Proof. split; [done|]. split; [vm_compute; congruence|]. right. by exists 1, (bs "xGET /"), 1. Qed.

Lemma demo_getx_denotes : denotes demo_memory demo_getx (bs "GETX").
Proof. split; [done|]. split; [vm_compute; congruence|]. right. by exists 2, (bs "GETX"), 0. Qed.

Lemma pieces_compare_as_strings_witness :
  compare demo_memory demo_get demo_getx = Ok (-1) /\ lt demo_memory demo_get demo_getx = Ok true.
Proof.
  pose proof (pieces_compare_as_strings demo_memory demo_get demo_getx _ _
                demo_get_denotes demo_getx_denotes) as (_ & _ & H & _ & _ & _ & H').
  exact (conj H' H).
Defined.

Lemma pieces_well_formed_witness :
  as_string demo_memory demo_get = Ok (bs "GET") /\
  starts_with demo_memory demo_getx demo_get = Ok true.
Proof.
  split.
  - apply (pieces_well_formed demo_memory demo_get demo_getx (bs "GET") (bs "GETX") 0
             demo_get_denotes demo_getx_denotes). split; vm_compute; congruence.
  - apply (pieces_well_formed demo_memory demo_getx demo_get (bs "GETX") (bs "GET") 0
             demo_getx_denotes demo_get_denotes). split; vm_compute; congruence.
Defined.

End StringPiece.
