(* ===== verification/Rpc.v ===== *)
(** * Remote procedure calls

    net/protorpc/RpcChannel ([Module RpcChannel]) and RpcServer ([RpcServer]).
    The calls are numbered by a counter of Atomic.v.  The messages of net/protorpc/rpc.proto are values here; their framing is
    the codec of Codec.v.  The generated classes of the user's services are
    parameters: a [Protobuf] is the class Message with its serialization, a
    [Service] what the channel asks of a service and its descriptor.
    A [world] is the process around the channels: the messages and closures on
    the heap, the service calls whose closure has not run yet, what was
    handed to the codec, and which closures have run. *)

From S2P Require Import Prelude Atomic.

Local Open Scope Z_scope.

(** ** What the generated code provides *)

(** class google::protobuf::Message *)
Class Protobuf := {
  Message : Type;
  SerializeAsString : Message -> bytes;
  (** Whether the bytes could be parsed, and the message afterwards. *)
  ParseFromString : bytes -> Message -> bool * Message;
}.

(** class google::protobuf::MethodDescriptor: its service's full name and its name. *)
Record MethodDescriptor := Method { service_full_name : bytes; name : bytes }.

(** class google::protobuf::Service with its descriptor. *)
Record Service `{Protobuf} := mkService {
  full_name : bytes;
  FindMethodByName : bytes -> option MethodDescriptor;
  RequestPrototype : MethodDescriptor -> Message;
  ResponsePrototype : MethodDescriptor -> Message;
}.

(** ** net/protorpc/rpc.proto *)

Inductive MessageType := REQUEST | RESPONSE | ERROR.

Inductive ErrorCode :=
  | NO_ERROR | WRONG_PROTO | NO_SERVICE | NO_METHOD | INVALID_REQUEST | INVALID_RESPONSE | TIMEOUT.

#[export] Instance MessageType_eq_dec : EqDecision MessageType.
Proof. solve_decision. Defined.

#[export] Instance ErrorCode_eq_dec : EqDecision ErrorCode.
Proof. solve_decision. Defined.

(** [id] is a fixed64; an absent string reads as the empty one. *)
Record RpcMessage := mkRpcMessage {
  type_ : MessageType;
  id : Z;
  service : bytes;
  method : bytes;
  request : bytes;
  response : option bytes;
  error : option ErrorCode;
}.

Module RpcChannel.
Section RpcChannel.

Context `{Protobuf}.

(** ** The process *)

(** struct OutstandingCall; the pointers are heap addresses, 0 is NULL. *)
Record OutstandingCall := Outstanding { out_response : Z; out_done : Z }.

(** A call of service->CallMethod whose closure has not run: the closure is
    NewCallback(this, &RpcChannel::doneCallback, response, id). *)
Record ServiceCall := mkServiceCall {
  sc_this : Z;
  sc_method : MethodDescriptor;
  sc_request : Message;
  sc_response : Z;
  sc_id : Z;
}.

(** [runs] lists the closures run, each with the response it found. *)
Record world := mkWorld {
  messages : gmap Z Message;
  closures : gset Z;
  fresh : Z;
  calls : list ServiceCall;
  sent : list (Z * RpcMessage);
  runs : list (Z * option Message);
}.

Definition with_messages f w := mkWorld (f (messages w)) (closures w) (fresh w) (calls w) (sent w) (runs w).
Definition with_closures f w := mkWorld (messages w) (f (closures w)) (fresh w) (calls w) (sent w) (runs w).
Definition with_calls f w := mkWorld (messages w) (closures w) (fresh w) (f (calls w)) (sent w) (runs w).
Definition with_sent f w := mkWorld (messages w) (closures w) (fresh w) (calls w) (f (sent w)) (runs w).
Definition with_runs f w := mkWorld (messages w) (closures w) (fresh w) (calls w) (sent w) (f (runs w)).

(** [new]: a message that nobody else points to. *)
Definition new_message (m : Message) (w : world) : Z * world :=
  (fresh w, mkWorld (<[fresh w := m]> (messages w)) (closures w) (fresh w + 1) (calls w) (sent w) (runs w)).
Definition new_closure (w : world) : Z * world :=
  (fresh w, mkWorld (messages w) ({[fresh w]} ∪ closures w) (fresh w + 1) (calls w) (sent w) (runs w)).

(** [delete] on a pointer that is not NULL needs a live object. *)
Definition delete_message (p : Z) (w : world) : outcome world :=
  if p =? 0 then Ok w else
  match messages w !! p with
  | Some _ => Ok (with_messages (delete p) w)
  | None => Fault OutOfBounds
  end.
Definition delete_closure (p : Z) (w : world) : outcome world :=
  if p =? 0 then Ok w else
  if bool_decide (p ∈ closures w) then Ok (with_closures (fun c => c ∖ {[p]}) w) else Fault OutOfBounds.

(** [done->Run()]: the closure runs once and deletes itself. *)
Definition Run (p r : Z) (w : world) : outcome world :=
  if bool_decide (p ∈ closures w)
  then Ok (with_runs (fun l => l ++ [(p, messages w !! r)]) (with_closures (fun c => c ∖ {[p]}) w))
  else Fault OutOfBounds.

(** ** class RpcChannel *)

(** [services_] tells whether the channel points to the map of services. *)
Record t := mk {
  conn_ : Z;
  id_ : Z;
  outstandings_ : gmap Z OutstandingCall;
  services_ : bool;
}.

Definition ctor : t := mk 0 AtomicIntegerT.initial ∅ false.
Definition ctor_conn (conn : Z) : t := mk conn AtomicIntegerT.initial ∅ false.
Definition setConnection (conn : Z) (c : t) : t := mk conn (id_ c) (outstandings_ c) (services_ c).
Definition setServices (services : bool) (c : t) : t := mk (conn_ c) (id_ c) (outstandings_ c) services.
Definition with_outstandings f c := mk (conn_ c) (id_ c) (f (outstandings_ c)) (services_ c).

(** The destructor deletes what is outstanding, in the order of the map. *)
Fixpoint delete_outstandings (l : list (Z * OutstandingCall)) (w : world) : outcome world :=
  match l with
  | [] => Ok w
  | (_, out) :: l =>
      w ← delete_message (out_response out) w;
      w ← delete_closure (out_done out) w;
      delete_outstandings l w
  end.
Definition dtor (c : t) (w : world) : outcome world :=
  delete_outstandings (map_to_list (outstandings_ c)) w.

(** [codec_.send(conn_, message)] *)
Definition codec_send (c : t) (message : RpcMessage) (w : world) : outcome world :=
  if conn_ c =? 0 then Fault OutOfBounds
  else Ok (with_sent (fun l => l ++ [(conn_ c, message)]) w).

(** A call in progress in some thread: the number it got, its message and
    the entry for the table. *)
Record frame := mkFrame { f_id : Z; f_message : RpcMessage; f_out : OutstandingCall }.

(** CallMethod up to the mutex: the counter is atomic. *)
Definition CallMethod_id (m : MethodDescriptor) (req : Message) (response done : Z) (c : t) : outcome (frame * t) :=
  p ← AtomicIntegerT.incrementAndGet 64 (id_ c);
  let message := mkRpcMessage REQUEST (u64 (fst p)) (service_full_name m) (name m) (SerializeAsString req) None None in
  Ok (mkFrame (fst p) message (Outstanding response done), mk (conn_ c) (snd p) (outstandings_ c) (services_ c)).

(** The critical section. *)
Definition CallMethod_insert (f : frame) (c : t) : t := with_outstandings <[f_id f := f_out f]> c.

Definition CallMethod_send (f : frame) (c : t) (w : world) : outcome world := codec_send c (f_message f) w.

(** The whole of CallMethod, when no other thread comes between. *)
Definition CallMethod (m : MethodDescriptor) (req : Message) (response done : Z) (c : t) (w : world) : outcome (t * world) :=
  p ← CallMethod_id m req response done c;
  let c := CallMethod_insert (fst p) (snd p) in
  w ← CallMethod_send (fst p) c w; Ok (c, w).

(** The nested conditions of the REQUEST branch: an error, or the service, the
    method and the parsed request. *)
Definition find_request (services : gmap bytes Service) (c : t) (message : RpcMessage) :
    ErrorCode + (Service * MethodDescriptor * Message) :=
  if services_ c then
    match services !! service message with
    | Some svc =>
        match FindMethodByName svc (method message) with
        | Some m =>
            let '(parsed, req) := ParseFromString (request message) (RequestPrototype svc m) in
            if parsed then inr (svc, m, req) else inl INVALID_REQUEST
        | None => inl NO_METHOD
        end
    | None => inl NO_SERVICE
    end
  else inl NO_SERVICE.

Definition error_message (id : Z) (e : ErrorCode) : RpcMessage :=
  mkRpcMessage RESPONSE id [] [] [] None (Some e).

(** [out.response->ParseFromString(bytes)] *)
Definition parse_into (p : Z) (bytes : bytes) (w : world) : outcome world :=
  match messages w !! p with
  | Some m => Ok (with_messages <[p := snd (ParseFromString bytes m)]> w)
  | None => Fault OutOfBounds
  end.

Definition onResponse (message : RpcMessage) (c : t) (w : world) : outcome (t * world) :=
  let id := i64 (id message) in
  _ ← assert (bool_decide (is_Some (response message)) || bool_decide (is_Some (error message)));
  let out := default (Outstanding 0 0) (outstandings_ c !! id) in
  let c := with_outstandings (delete id) c in
  if out_response out =? 0 then Ok (c, w) else
  w ← (match response message with Some b => parse_into (out_response out) b w | None => Ok w end);
  w ← (if out_done out =? 0 then Ok w else Run (out_done out) (out_response out) w);
  w ← delete_message (out_response out) w;
  Ok (c, w).

Definition onRequest (services : gmap bytes Service) (this : Z) (message : RpcMessage) (c : t) (w : world) : outcome (t * world) :=
  match find_request services c message with
  | inl e => w ← codec_send c (error_message (id message) e) w; Ok (c, w)
  | inr (svc, m, req) =>
      let '(response, w) := new_message (ResponsePrototype svc m) w in
      Ok (c, with_calls (fun l => l ++ [mkServiceCall this m req response (i64 (id message))]) w)
  end.

Definition onRpcMessage (services : gmap bytes Service) (this conn : Z) (message : RpcMessage) (c : t) (w : world) : outcome (t * world) :=
  _ ← assert (conn =? conn_ c);
  match type_ message with
  | RESPONSE => onResponse message c w
  | REQUEST => onRequest services this message c w
  | ERROR => Ok (c, w)
  end.

(** RpcChannel::doneCallback *)
Definition doneCallback (response id : Z) (c : t) (w : world) : outcome world :=
  match messages w !! response with
  | Some m =>
      w ← codec_send c (mkRpcMessage RESPONSE (u64 id) [] [] [] (Some (SerializeAsString m)) None) w;
      delete_message response w
  | None => Fault OutOfBounds
  end.

(** The service of the [k]th call has filled in [reply] and runs its closure. *)
Definition answer (k : nat) (sc : ServiceCall) (reply : Message) (c : t) (w : world) : outcome world :=
  match messages w !! sc_response sc with
  | Some _ =>
      doneCallback (sc_response sc) (sc_id sc) c
        (with_calls (delete k) (with_messages <[sc_response sc := reply]> w))
  | None => Fault OutOfBounds
  end.

End RpcChannel.
End RpcChannel.

(** ** net/protorpc/RpcServer *)

Module RpcServer.
Section RpcServer.

Context `{Protobuf}.

(** [channels] are the live channels by address, [context] and [callback] what
    the connections hold of them: the context owns its channel (a
    shared_ptr), the message callback has the raw pointer. *)
Record t := mk {
  services_ : gmap bytes Service;
  channels : gmap Z RpcChannel.t;
  context : gmap Z Z;
  callback : gmap Z Z;
  process : RpcChannel.world;
}.

Definition registerService (svc : Service) (s : t) : t :=
  mk (<[full_name svc := svc]> (services_ s)) (channels s) (context s) (callback s) (process s).

(** [conn->setContext(RpcChannelPtr())]: the last owner of the channel is gone. *)
Definition reset_context (conn : Z) (s : t) : outcome t :=
  match context s !! conn with
  | Some this =>
      match channels s !! this with
      | Some c =>
          w ← RpcChannel.dtor c (process s);
          Ok (mk (services_ s) (delete this (channels s)) (delete conn (context s)) (callback s) w)
      | None => Fault OutOfBounds
      end
  | None => Ok s
  end.

Definition onConnection (conn : Z) (connected : bool) (s : t) : outcome t :=
  if connected then
    let w := process s in
    let this := RpcChannel.fresh w in
    let w := RpcChannel.mkWorld (RpcChannel.messages w) (RpcChannel.closures w) (this + 1)
               (RpcChannel.calls w) (RpcChannel.sent w) (RpcChannel.runs w) in
    let channel := RpcChannel.setServices true (RpcChannel.ctor_conn conn) in
    s ← reset_context conn
          (mk (services_ s) (<[this := channel]> (channels s)) (context s) (<[conn := this]> (callback s)) w);
    Ok (mk (services_ s) (channels s) (<[conn := this]> (context s)) (callback s) (process s))
  else reset_context conn s.

(** A message for the channel that the connection's callback points to. *)
Definition onMessage (conn : Z) (message : RpcMessage) (s : t) : outcome t :=
  match callback s !! conn with
  | Some this =>
      match channels s !! this with
      | Some c =>
          p ← RpcChannel.onRpcMessage (services_ s) this conn message c (process s);
          Ok (mk (services_ s) (<[this := fst p]> (channels s)) (context s) (callback s) (snd p))
      | None => Fault OutOfBounds
      end
  | None => Ok s
  end.

(** A service runs the closure of a call: doneCallback of the channel it was
    made by. *)
Definition answer (k : nat) (reply : Message) (s : t) : outcome t :=
  match RpcChannel.calls (process s) !! k with
  | Some sc =>
      match channels s !! RpcChannel.sc_this sc with
      | Some c =>
          w ← RpcChannel.answer k sc reply c (process s);
          Ok (mk (services_ s) (channels s) (context s) (callback s) w)
      | None => Fault OutOfBounds
      end
  | None => Ok s
  end.

End RpcServer.
End RpcServer.

(** ** Two processes, one channel each, over one connection *)

Module RpcPeers.
Section RpcPeers.

Context `{Protobuf}.
Import RpcChannel.

(** A call that was made: what was called, the pointers of the caller and the
    response object as it was; and a call that a service answered. *)
Record CallRecord := mkCall {
  c_method : MethodDescriptor; c_request : Message; c_response : Z; c_done : Z; c_init : option Message }.
Record Answer := mkAnswer { a_call : ServiceCall; a_reply : Message }.

(** [entering] calls have their number, [sending] ones are in the table and
    their message is not handed over yet; [made] and [answered] are the history. *)
Record side := mkSide {
  chan : RpcChannel.t;
  heap : world;
  services : gmap bytes Service;
  entering : list frame;
  sending : list frame;
  made : list CallRecord;
  answered : list Answer;
}.

Record sys := mkSys { left : side; right : side; up : bool }.

(** What can happen next, at one of the sides: a thread makes a call, with or
    without a response object and a closure; it goes through the critical
    section; it sends; a message of the other side arrives; a service
    answers; the connection goes down. *)
Inductive label :=
  | Call (m : MethodDescriptor) (req : Message) (init : option Message) (callback : bool)
  | Insert (k : nat)
  | Send (k : nat)
  | Deliver
  | Reply (k : nat) (reply : Message)
  | Down.

Definition on_heap (w : world) (d : side) : side :=
  mkSide (chan d) w (services d) (entering d) (sending d) (made d) (answered d).

(** The caller allocates its response object and its closure. *)
Definition alloc (init : option Message) (callback : bool) (w : world) : Z * Z * world :=
  let '(r, w) := match init with Some m => new_message m w | None => (0, w) end in
  let '(p, w) := if callback then new_closure w else (0, w) in (r, p, w).

Definition call (m : MethodDescriptor) (req : Message) (init : option Message) (callback : bool) (d : side) : outcome side :=
  let '(r, p, w) := alloc init callback (heap d) in
  x ← CallMethod_id m req r p (chan d);
  Ok (mkSide (snd x) w (services d) (entering d ++ [fst x]) (sending d)
        (made d ++ [mkCall m req r p init]) (answered d)).

Definition insert_call (k : nat) (d : side) : side :=
  match entering d !! k with
  | Some f => mkSide (CallMethod_insert f (chan d)) (heap d) (services d) (delete k (entering d))
                (sending d ++ [f]) (made d) (answered d)
  | None => d
  end.

Definition send_call (k : nat) (d : side) : outcome side :=
  match sending d !! k with
  | Some f =>
      w ← CallMethod_send f (chan d) (heap d);
      Ok (mkSide (chan d) w (services d) (entering d) (delete k (sending d)) (made d) (answered d))
  | None => Ok d
  end.

Definition receive (message : RpcMessage) (d : side) : outcome side :=
  x ← onRpcMessage (services d) 0 (conn_ (chan d)) message (chan d) (heap d);
  Ok (mkSide (fst x) (snd x) (services d) (entering d) (sending d) (made d) (answered d)).

Definition reply_call (k : nat) (reply : Message) (d : side) : outcome side :=
  match calls (heap d) !! k with
  | Some sc =>
      w ← answer k sc reply (chan d) (heap d);
      Ok (mkSide (chan d) w (services d) (entering d) (sending d) (made d) (answered d ++ [mkAnswer sc reply]))
  | None => Ok d
  end.

(** What is sent on a connection that is down is dropped. *)
Definition drop_sent (d : side) : side := on_heap (with_sent (fun _ => []) (heap d)) d.
Definition flush (s : sys) : sys :=
  if up s then s else mkSys (drop_sent (left s)) (drop_sent (right s)) false.

Definition step_left (l : label) (s : sys) : outcome sys :=
  match l with
  | Call m req init callback => d ← call m req init callback (left s); Ok (mkSys d (right s) (up s))
  | Insert k => Ok (mkSys (insert_call k (left s)) (right s) (up s))
  | Send k => d ← send_call k (left s); Ok (flush (mkSys d (right s) (up s)))
  | Deliver =>
      match sent (heap (right s)) with
      | (_, message) :: rest =>
          d ← receive message (left s);
          Ok (flush (mkSys d (on_heap (with_sent (fun _ => rest) (heap (right s))) (right s)) (up s)))
      | [] => Ok s
      end
  | Reply k reply => d ← reply_call k reply (left s); Ok (flush (mkSys d (right s) (up s)))
  | Down => Ok (flush (mkSys (left s) (right s) false))
  end.

Definition swap (s : sys) : sys := mkSys (right s) (left s) (up s).

(** [true] is a step of the left side. *)
Definition step (x : bool * label) (s : sys) : outcome sys :=
  if fst x then step_left (snd x) s else s ← step_left (snd x) (swap s); Ok (swap s).

Fixpoint run (ls : list (bool * label)) (s : sys) : outcome sys :=
  match ls with [] => Ok s | x :: ls => s ← step x s; run ls s end.

(** Two fresh channels on the connection, each with its services. *)
Definition start (services : option (gmap bytes Service)) : side :=
  mkSide (setServices (bool_decide (is_Some services)) (ctor_conn 1)) (mkWorld ∅ ∅ 1 [] [] [])
    (default ∅ services) [] [] [] [].
Definition init (l r : option (gmap bytes Service)) : sys := mkSys (start l) (start r) true.

End RpcPeers.
End RpcPeers.
