(* ===== verification/RpcFacts.v ===== *)
(** * Facts about remote procedure calls

    Two processes with a channel each ([RpcPeers] of Rpc.v): whatever the
    threads, the services and the network do, a call is executed at most once by the
    service it names, its closure runs at most once, with the reply to that very
    call, and nothing is freed twice.  The state of the calls in one direction is
    seen through a [caller] and a [callee], the parts of the two processes it
    lives in; each step of the system is a move of one call between them. *)

From S2P Require Import Prelude Atomic Rpc.

Local Open Scope Z_scope.

Module RpcFacts.
Section RpcFacts.

Context `{Protobuf}.
Import RpcChannel RpcPeers.

(** ** The two ends of the calls in one direction *)

Record caller := mkCaller {
  r_entering : list frame;
  r_sending : list frame;
  r_requests : list RpcMessage;
  r_made : list CallRecord;
  r_id : Z;
  r_table : gmap Z OutstandingCall;
  r_runs : list (Z * option Message);
}.

Record callee := mkCallee {
  e_calls : list ServiceCall;
  e_responses : list RpcMessage;
  e_answered : list Answer;
  e_find : RpcMessage -> ErrorCode + (Service * MethodDescriptor * Message);
}.

Definition of_type (ty : MessageType) (l : list (Z * RpcMessage)) : list RpcMessage :=
  filter (fun m => type_ m = ty) (map snd l).

#[local] Arguments of_type : simpl never.

Definition caller_of (d : side) : caller :=
  mkCaller (entering d) (sending d) (of_type REQUEST (sent (heap d))) (made d) (id_ (chan d))
    (outstandings_ (chan d)) (runs (heap d)).
Definition callee_of (d : side) : callee :=
  mkCallee (calls (heap d)) (of_type RESPONSE (sent (heap d))) (answered d)
    (find_request (services d) (chan d)).

Definition call_at (made : list CallRecord) (i : Z) : option CallRecord :=
  if 1 <=? i then made !! Z.to_nat (i - 1) else None.
Abbreviation call_of a i := (call_at (r_made a) i).

Definition request_message (i : Z) (c : CallRecord) : RpcMessage :=
  mkRpcMessage REQUEST (u64 i) (service_full_name (c_method c)) (name (c_method c))
    (SerializeAsString (c_request c)) None None.
Definition reply_message (i : Z) (reply : Message) : RpcMessage :=
  mkRpcMessage RESPONSE (u64 i) [] [] [] (Some (SerializeAsString reply)) None.
Definition out_of (c : CallRecord) : OutstandingCall := Outstanding (c_response c) (c_done c).

(** The callee took the call [i] for its service call [sc]. *)
Definition accepted (b : callee) (i : Z) (c : CallRecord) (sc : ServiceCall) : Prop :=
  sc_id sc = i /\
  exists svc, e_find b (request_message i c) = inr (svc, sc_method sc, sc_request sc).

(** The message [m] answers the call [i]. *)
Definition response_ok (b : callee) (i : Z) (c : CallRecord) (m : RpcMessage) : Prop :=
  (exists r, r ∈ e_answered b /\ accepted b i c (a_call r) /\ m = reply_message i (a_reply r)) \/
  (exists e, e_find b (request_message i c) = inl e /\ m = error_message (u64 i) e).

(** The closure of the call [i] saw [seen] in its response object. *)
Definition result_ok (b : callee) (i : Z) (c : CallRecord) (seen : option Message) : Prop :=
  (exists r m0, r ∈ e_answered b /\ accepted b i c (a_call r) /\ c_init c = Some m0 /\
     seen = Some (snd (ParseFromString (SerializeAsString (a_reply r)) m0))) \/
  (exists e, e_find b (request_message i c) = inl e /\ seen = c_init c).

Definition msg_ids (l : list RpcMessage) : list Z := map (fun m => i64 (id m)) l.

(** The calls in the table, by where they are: about to be sent, on the wire,
    with a service, answered, lost. *)
Definition pending (a : caller) (b : callee) (lost : list Z) : list Z :=
  map f_id (r_sending a) ++ msg_ids (r_requests a) ++ map sc_id (e_calls b) ++
  msg_ids (e_responses b) ++ lost.

Definition frame_ok (a : caller) (f : frame) : Prop :=
  exists c, call_of a (f_id f) = Some c /\ f_message f = request_message (f_id f) c /\ f_out f = out_of c.

Record Dir (a : caller) (b : callee) (lost fin : list Z) : Prop := {
  d_ids : map f_id (r_entering a) ++ pending a b lost ++ fin ≡ₚ seqZ 1 (r_id a);
  d_made : zlen (r_made a) = r_id a;
  d_max : r_id a <= INT64_MAX;
  d_entering : forall f, f ∈ r_entering a -> frame_ok a f;
  d_sending : forall f, f ∈ r_sending a -> frame_ok a f;
  d_requests : forall m, m ∈ r_requests a ->
    exists i c, call_of a i = Some c /\ m = request_message i c;
  d_calls : forall sc, sc ∈ e_calls b ->
    exists c, call_of a (sc_id sc) = Some c /\ accepted b (sc_id sc) c sc;
  d_responses : forall m, m ∈ e_responses b ->
    exists i c, call_of a i = Some c /\ response_ok b i c m;
  d_answered : forall r, r ∈ e_answered b ->
    sc_id (a_call r) ∈ msg_ids (e_responses b) ++ lost ++ fin /\
    exists c, call_of a (sc_id (a_call r)) = Some c /\ accepted b (sc_id (a_call r)) c (a_call r);
  d_once : NoDup (map (fun r => sc_id (a_call r)) (e_answered b));
  d_table : forall i o, r_table a !! i = Some o <->
    i ∈ pending a b lost /\ exists c, call_of a i = Some c /\ o = out_of c;
  d_runs : forall p seen, (p, seen) ∈ r_runs a ->
    exists i c, i ∈ fin /\ call_of a i = Some c /\ c_done c = p /\ p <> 0 /\ result_ok b i c seen;
  d_fin : forall i c, i ∈ fin -> call_of a i = Some c -> c_response c <> 0 -> c_done c <> 0 ->
    c_done c ∈ map fst (r_runs a);
}.

(** ** Numbers *)

Lemma call_of_range a b lost fin i c :
  Dir a b lost fin -> call_of a i = Some c -> 1 <= i <= r_id a /\ i64 (u64 i) = i.
Proof.
  intros HD Hc. unfold call_at in Hc. destruct (Z.leb_spec 1 i); [|done].
  apply lookup_lt_Some in Hc. pose proof (d_made _ _ _ _ HD). pose proof (d_max _ _ _ _ HD).
  unfold zlen, INT64_MAX in *.
  split; [lia|]. rewrite u64_small, i64_small by (unfold INT64_MIN, INT64_MAX in *; lia). done.
Qed.

Lemma call_of_exists a b lost fin i :
  Dir a b lost fin -> 1 <= i <= r_id a -> exists c, call_of a i = Some c.
Proof.
  intros HD Hi. unfold call_at. rewrite (proj2 (Z.leb_le _ _)) by lia.
  apply lookup_lt_is_Some. pose proof (d_made _ _ _ _ HD). unfold zlen in *. lia.
Qed.

(** Every number is in one place. *)
Lemma ids_NoDup a b lost fin :
  Dir a b lost fin -> NoDup (map f_id (r_entering a) ++ pending a b lost ++ fin).
Proof. intros HD. rewrite (d_ids _ _ _ _ HD). apply NoDup_seqZ. Qed.

Lemma ids_range a b lost fin i :
  Dir a b lost fin -> i ∈ map f_id (r_entering a) ++ pending a b lost ++ fin -> 1 <= i <= r_id a.
Proof. intros HD. rewrite (d_ids _ _ _ _ HD), elem_of_seqZ. lia. Qed.

(** A call that a service still has to answer was not answered. *)
Lemma ids_apart a b lost fin i :
  Dir a b lost fin ->
  i ∈ map f_id (r_entering a) ++ map f_id (r_sending a) ++ msg_ids (r_requests a) ++ map sc_id (e_calls b) ->
  i ∈ msg_ids (e_responses b) ++ lost ++ fin -> False.
Proof.
  intros HD. pose proof (ids_NoDup _ _ _ _ HD) as Hnd. unfold pending in Hnd.
  assert (Hnd' : NoDup ((map f_id (r_entering a) ++ map f_id (r_sending a) ++ msg_ids (r_requests a) ++
    map sc_id (e_calls b)) ++ msg_ids (e_responses b) ++ lost ++ fin)) by (by rewrite <- !app_assoc in *).
  apply list.NoDup_app in Hnd' as (_ & Hd & _). exact (Hd i).
Qed.

(** ** Moves of a call *)

Ltac dir := unfold pending in *; cbn [r_entering r_sending r_requests r_made r_id r_table r_runs
  e_calls e_responses e_answered e_find] in *.

(** Nothing but the place of the calls changes. *)
Lemma move a b lost fin sending requests calls responses lost' :
  Dir a b lost fin ->
  let a' := mkCaller (r_entering a) sending requests (r_made a) (r_id a) (r_table a) (r_runs a) in
  let b' := mkCallee calls responses (e_answered b) (e_find b) in
  pending a' b' lost' ≡ₚ pending a b lost ->
  (forall f, f ∈ sending -> f ∈ r_sending a) ->
  (forall m, m ∈ requests -> exists i c, call_of a i = Some c /\ m = request_message i c) ->
  (forall sc, sc ∈ calls -> exists c, call_of a (sc_id sc) = Some c /\ accepted b (sc_id sc) c sc) ->
  (forall m, m ∈ responses -> exists i c, call_of a i = Some c /\ response_ok b i c m) ->
  (forall i, i ∈ msg_ids (e_responses b) ++ lost -> i ∈ msg_ids responses ++ lost') ->
  Dir a' b' lost' fin.
Proof.
  intros HD a' b' Hp Hs Hr Hc Hresp Hl. destruct HD.
  assert (Hin : forall i, i ∈ msg_ids (e_responses b) ++ lost ++ fin -> i ∈ msg_ids responses ++ lost' ++ fin).
  { intros i. specialize (Hl i). rewrite !elem_of_app in *. tauto. }
  split; try done; subst a' b'; dir; eauto.
  - by rewrite Hp.
  - intros r Hr'. destruct (d_answered0 r Hr') as [? ?]. eauto.
  - intros i o. by rewrite d_table0, Hp.
Qed.

Lemma call_of_lt a i c : call_of a i = Some c -> 1 <= i <= zlen (r_made a).
Proof.
  unfold call_at. destruct (Z.leb_spec 1 i); [|done]. intros Hl%lookup_lt_Some. unfold zlen. lia.
Qed.

(** A new call gets the next number. *)
Lemma dir_call a b lost fin c f :
  Dir a b lost fin -> r_id a + 1 <= INT64_MAX ->
  f = mkFrame (r_id a + 1) (request_message (r_id a + 1) c) (out_of c) ->
  Dir (mkCaller (r_entering a ++ [f]) (r_sending a) (r_requests a) (r_made a ++ [c]) (r_id a + 1) (r_table a) (r_runs a))
    b lost fin.
Proof.
  intros HD Hmax Hf. set (a' := mkCaller _ _ _ _ _ _ _).
  assert (Hid : 0 <= r_id a) by (rewrite <- (d_made _ _ _ _ HD); apply zlen_nonneg).
  assert (Hold : forall i c', call_of a i = Some c' -> call_of a' i = Some c').
  { intros i c'. unfold call_at. case_match; [|done]. apply lookup_app_l_Some. }
  assert (Hnew : call_of a' (r_id a + 1) = Some c).
  { unfold call_at. rewrite (proj2 (Z.leb_le _ _)) by lia. cbn [a' r_made].
    apply list_lookup_middle. rewrite <- (d_made _ _ _ _ HD). unfold zlen. lia. }
  assert (Hframe : forall g, frame_ok a g -> frame_ok a' g) by (intros g (c' & ? & ?); exists c'; auto).
  assert (Hback : forall i c', call_of a' i = Some c' -> i <= r_id a -> call_of a i = Some c').
  { intros i c'. unfold call_at. case_match eqn:E; [|done]. apply Z.leb_le in E. cbn [a' r_made]. intros Hc Hi.
    rewrite lookup_app_l in Hc; [done|]. pose proof (d_made _ _ _ _ HD). unfold zlen in *. lia. }
  pose proof (fun i => ids_range a b lost fin i HD) as Hrange. destruct HD. split; subst a'; dir; try done.
  - rewrite seqZ_app, map_app by lia.
    rewrite <- d_ids0, (Z.add_comm 1 (r_id a)), seqZ_cons by lia. subst f. cbn [map f_id].
    solve_Permutation.
  - rewrite zlen_app, d_made0. done.
  - intros g [Hg| ->%list_elem_of_singleton]%elem_of_app; [eauto|]. exists c. subst f. done.
  - eauto.
  - intros m Hm. destruct (d_requests0 m Hm) as (i & c' & ? & ?). eauto.
  - intros sc Hsc. destruct (d_calls0 sc Hsc) as (c' & ? & ?). eauto.
  - intros m Hm. destruct (d_responses0 m Hm) as (i & c' & ? & ?). eauto.
  - intros r Hr. destruct (d_answered0 r Hr) as (? & c' & ? & ?). eauto.
  - intros i o. rewrite d_table0. split; intros (? & c' & ? & ?); split; eauto; exists c'; split; auto. apply Hback; [done|]. apply Hrange. rewrite !elem_of_app in *. tauto.
  - intros q seen Hq. destruct (d_runs0 q seen Hq) as (i & c' & ? & ? & ?). exists i, c'. auto.
  - intros i c' Hi Hc'. apply (d_fin0 i); [done|]. apply Hback; [done|]. apply Hrange. rewrite !elem_of_app. tauto.
Qed.

(** A call enters the table. *)
Lemma dir_insert a b lost fin k f :
  Dir a b lost fin -> r_entering a !! k = Some f ->
  Dir (mkCaller (delete k (r_entering a)) (r_sending a ++ [f]) (r_requests a) (r_made a) (r_id a)
         (<[f_id f := f_out f]> (r_table a)) (r_runs a)) b lost fin.
Proof.
  intros HD Hk. pose proof (delete_Permutation _ _ _ Hk) as Hperm.
  pose proof (ids_NoDup _ _ _ _ HD) as Hnd.
  destruct (d_entering _ _ _ _ HD f) as (c & Hc & Hm & Ho); [by eapply list_elem_of_lookup_2|].
  rewrite Hperm in Hnd. cbn [map app] in Hnd. apply list.NoDup_cons in Hnd as [Hnew _].
  assert (Hpend : pending (mkCaller (delete k (r_entering a)) (r_sending a ++ [f]) (r_requests a)
    (r_made a) (r_id a) (<[f_id f := f_out f]> (r_table a)) (r_runs a)) b lost ≡ₚ f_id f :: pending a b lost).
  { dir. rewrite map_app. cbn [map]. solve_Permutation. }
  destruct HD. split; try done.
  - rewrite Hpend. dir. rewrite Hperm in d_ids0. cbn [map] in d_ids0. rewrite <- d_ids0. solve_Permutation.
  - intros g Hg. apply (d_entering0 g). cbn in Hg. apply list_elem_of_In in Hg.
    rewrite Hperm. right. by apply list_elem_of_In.
  - intros g [Hg| ->%list_elem_of_singleton]%elem_of_app; [by apply d_sending0|]. by exists c.
  - intros i o. rewrite Hpend, elem_of_cons. cbn [r_table]. destruct (decide (i = f_id f)) as [->|Hne].
    + rewrite lookup_insert_eq. split.
      * intros [= <-]. split; [by left|]. by exists c.
      * intros (_ & c' & Hc' & ->). f_equal. rewrite Ho. unfold call_at in *. cbn [r_made] in Hc'. congruence.
    + rewrite lookup_insert_ne by done. rewrite d_table0. unfold call_at. clear -Hne; naive_solver.
Qed.

(** A service answers. *)
Lemma dir_reply a b lost fin k sc reply :
  Dir a b lost fin -> e_calls b !! k = Some sc ->
  Dir a (mkCallee (delete k (e_calls b)) (e_responses b ++ [reply_message (sc_id sc) reply])
           (e_answered b ++ [mkAnswer sc reply]) (e_find b)) lost fin.
Proof.
  intros HD Hk. pose proof (delete_Permutation _ _ _ Hk) as Hperm.
  pose proof (fun i => ids_apart _ _ _ _ i HD) as Hnd.
  destruct (d_calls _ _ _ _ HD sc) as (c & Hc & Hacc); [by eapply list_elem_of_lookup_2|].
  destruct (call_of_range _ _ _ _ _ _ HD Hc) as [_ Hi].
  set (b' := mkCallee _ _ _ _).
  assert (Hids : msg_ids (e_responses b') = msg_ids (e_responses b) ++ [sc_id sc]).
  { unfold msg_ids. cbn [b' e_responses]. rewrite map_app. cbn [map reply_message id]. by rewrite Hi. }
  assert (Hpend : pending a b' lost ≡ₚ pending a b lost).
  { unfold pending. rewrite Hids. cbn [b' e_calls].
    rewrite (Permutation_map sc_id Hperm). cbn [map]. solve_Permutation. }
  destruct HD. split; try done; dir.
  - by rewrite Hpend.
  - intros sc' Hsc'. apply (d_calls0 sc'). rewrite Hperm. by right.
  - intros m [Hm| ->%list_elem_of_singleton]%elem_of_app.
    + destruct (d_responses0 m Hm) as (i & c' & Hc' & Hr). exists i, c'. split; [done|].
      destruct Hr as [(r & Hr & ?)|Hr]; [left|by right]. exists r. split; [|done]. cbn. by apply elem_of_app; left.
    + exists (sc_id sc), c. split; [done|]. left. exists (mkAnswer sc reply). split; [|done].
      apply elem_of_app. right. by left.
  - intros r [Hr| ->%list_elem_of_singleton]%elem_of_app; fold b'; rewrite Hids, !elem_of_app.
    + destruct (d_answered0 r Hr) as [Hin ?]. rewrite !elem_of_app in Hin. split; [tauto|done].
    + split; [left; right; by left|]. by exists c.
  - unfold b'. cbn [e_answered]. rewrite map_app. cbn [map a_call]. apply list.NoDup_app. split; [done|]. split; [|apply NoDup_singleton].
    intros i Hin ->%list_elem_of_singleton. apply list_elem_of_In, in_map_iff in Hin as (r & Hr & Hin).
    apply list_elem_of_In in Hin. destruct (d_answered0 r Hin) as [Hin' _]. rewrite Hr in Hin'.
    apply (Hnd (sc_id sc)); [|done]. rewrite !elem_of_app. do 3 right.
    apply list_elem_of_In, in_map, list_elem_of_In. by eapply list_elem_of_lookup_2.
  - intros i o. by rewrite d_table0, Hpend.
  - intros p seen Hp. destruct (d_runs0 p seen Hp) as (i & c' & ? & ? & ? & ? & Hr).
    exists i, c'. do 4 (split; [done|]). destruct Hr as [(r & m0 & Hr & ?)|Hr]; [left|by right].
    exists r, m0. split; [|done]. cbn. by apply elem_of_app; left.
Qed.

(** A response completes its call. *)
Definition completed (a : caller) (i : Z) (runs : list (Z * option Message)) : caller :=
  mkCaller (r_entering a) (r_sending a) (r_requests a) (r_made a) (r_id a) (delete i (r_table a)) runs.

Definition ran (a : caller) (b : callee) (i : Z) (c : CallRecord) (runs : list (Z * option Message)) : Prop :=
  (runs = r_runs a /\ (c_response c = 0 \/ c_done c = 0)) \/
  (exists seen, runs = r_runs a ++ [(c_done c, seen)] /\ c_done c <> 0 /\ result_ok b i c seen).

Lemma response_call a b lost fin m rest :
  Dir a b lost fin -> e_responses b = m :: rest ->
  exists i c, call_of a i = Some c /\ i64 (id m) = i /\ r_table a !! i = Some (out_of c) /\
    response_ok b i c m /\ i ∉ fin.
Proof.
  intros HD Hm. destruct (d_responses _ _ _ _ HD m) as (i & c & Hc & Hr); [rewrite Hm; by left|].
  destruct (call_of_range _ _ _ _ _ _ HD Hc) as [_ Hi]. exists i, c.
  assert (Hid : i64 (id m) = i) by (destruct Hr as [(? & _ & _ & ->)|(? & _ & ->)]; exact Hi).
  assert (Hin : i ∈ msg_ids (e_responses b)) by (rewrite Hm; unfold msg_ids; cbn [map]; rewrite Hid; by left).
  repeat split; [done|done| |done|].
  - apply (d_table _ _ _ _ HD). unfold pending. rewrite !elem_of_app. split; [tauto|]. by exists c.
  - intros Hf. pose proof (ids_NoDup _ _ _ _ HD) as Hnd. apply list.NoDup_app in Hnd as (_ & _ & Hnd).
    apply list.NoDup_app in Hnd as (_ & Hnd & _). apply (Hnd i); [|done].
    unfold pending. rewrite !elem_of_app. tauto.
Qed.

Lemma dir_response a b lost fin m rest i c runs :
  Dir a b lost fin -> e_responses b = m :: rest -> call_of a i = Some c -> i64 (id m) = i ->
  ran a b i c runs ->
  Dir (completed a i runs) (mkCallee (e_calls b) rest (e_answered b) (e_find b)) lost (fin ++ [i]).
Proof.
  intros HD Hm Hc Hid Hrun. set (b' := mkCallee _ _ _ _).
  assert (Hpend : pending a b lost ≡ₚ i :: pending (completed a i runs) b' lost).
  { unfold pending. rewrite Hm. unfold msg_ids. cbn. rewrite Hid. solve_Permutation. }
  assert (Hnd : i ∉ pending (completed a i runs) b' lost).
  { pose proof (ids_NoDup _ _ _ _ HD) as Hnd. apply list.NoDup_app in Hnd as (_ & _ & Hnd).
    apply list.NoDup_app in Hnd as (Hnd & _). rewrite Hpend in Hnd. by apply list.NoDup_cons in Hnd as [? _]. }
  destruct HD. split; try done.
  - rewrite Hpend in d_ids0. cbn [completed r_entering r_id]. rewrite <- d_ids0. solve_Permutation.
  - intros m' Hm'. apply (d_responses0 m'). rewrite Hm. by right.
  - intros r Hr. destruct (d_answered0 r Hr) as [Hin ?]. split; [|done].
    rewrite Hm in Hin. cbn in Hin. rewrite Hid in Hin. revert Hin. cbn [b' e_responses].
    rewrite elem_of_cons, !elem_of_app, list_elem_of_singleton. unfold msg_ids. tauto.
  - intros j o. cbn [completed r_table]. destruct (decide (j = i)) as [->|Hne].
    + rewrite lookup_delete_eq. split; [done|]. by intros [? _].
    + rewrite lookup_delete_ne, d_table0, Hpend, elem_of_cons by done. unfold call_at. naive_solver.
  - intros p seen Hp. cbn [completed r_runs] in Hp.
    assert (Hcases : (p, seen) ∈ r_runs a \/ p = c_done c /\ c_done c <> 0 /\ result_ok b i c seen).
    { destruct Hrun as [[-> _]|(seen' & -> & Hne & Hres)]; [by left|].
      apply elem_of_app in Hp as [?|[= -> ->]%list_elem_of_singleton]; [by left|by right]. }
    destruct Hcases as [Hold|(-> & Hne & Hres)].
    + destruct (d_runs0 p seen Hold) as (j & c' & ? & ?). exists j, c'. split; [|done]. apply elem_of_app; by left.
    + exists i, c. split; [apply elem_of_app; right; by left|]. done.
  - intros j c' [Hj| ->%list_elem_of_singleton]%elem_of_app Hc' H1 H2; cbn [completed r_runs].
    + destruct Hrun as [[-> _]|(seen' & -> & _)]; [|rewrite map_app, elem_of_app; left]; by apply (d_fin0 j).
    + assert (c' = c) as -> by (unfold call_at in *; cbn in Hc'; congruence).
      destruct Hrun as [[_ [?|?]]|(seen' & -> & _)]; [done|done|]. rewrite map_app, elem_of_app. right. by left.
Qed.

(** The moves along the wire, and a connection that goes down. *)
Lemma dir_send a b lost fin k f :
  Dir a b lost fin -> r_sending a !! k = Some f ->
  Dir (mkCaller (r_entering a) (delete k (r_sending a)) (r_requests a ++ [f_message f]) (r_made a) (r_id a)
         (r_table a) (r_runs a)) b lost fin.
Proof.
  intros HD Hk. pose proof (delete_Permutation _ _ _ Hk) as Hperm.
  destruct (d_sending _ _ _ _ HD f) as (c & Hc & Hm & _); [by eapply list_elem_of_lookup_2|].
  destruct (call_of_range _ _ _ _ _ _ HD Hc) as [_ Hi].
  destruct b. apply (move a _ lost fin (delete k (r_sending a)) (r_requests a ++ [f_message f]) _ _ lost HD).
  - dir. rewrite (Permutation_map f_id Hperm). unfold msg_ids. rewrite map_app, Hm. cbn [map request_message id].
    rewrite Hi. solve_Permutation.
  - intros g Hg. rewrite Hperm. by right.
  - intros m [Hin| ->%list_elem_of_singleton]%elem_of_app; [by apply (d_requests _ _ _ _ HD)|]. eauto.
  - apply (d_calls _ _ _ _ HD).
  - apply (d_responses _ _ _ _ HD).
  - done.
Qed.

Lemma request_call a b lost fin m rest :
  Dir a b lost fin -> r_requests a = m :: rest ->
  exists i c, call_of a i = Some c /\ m = request_message i c /\ i64 (u64 i) = i.
Proof.
  intros HD Hm. destruct (d_requests _ _ _ _ HD m) as (i & c & Hc & ->); [rewrite Hm; by left|].
  exists i, c. split; [done|]. split; [done|]. by apply (call_of_range _ _ _ _ _ _ HD Hc).
Qed.

Definition on_wire (a : caller) (requests : list RpcMessage) : caller :=
  mkCaller (r_entering a) (r_sending a) requests (r_made a) (r_id a) (r_table a) (r_runs a).

Lemma dir_accept a b lost fin m rest svc sc :
  Dir a b lost fin -> r_requests a = m :: rest ->
  e_find b m = inr (svc, sc_method sc, sc_request sc) -> sc_id sc = i64 (id m) ->
  Dir (on_wire a rest) (mkCallee (e_calls b ++ [sc]) (e_responses b) (e_answered b) (e_find b)) lost fin.
Proof.
  intros HD Hm Hf Hid. destruct (request_call _ _ _ _ _ _ HD Hm) as (i & c & Hc & -> & Hi).
  apply (move a b lost fin (r_sending a) rest _ _ lost HD).
  - dir. unfold msg_ids. rewrite Hm, map_app. cbn. rewrite Hid. cbn. solve_Permutation.
  - done.
  - intros m' Hm'. apply (d_requests _ _ _ _ HD). rewrite Hm. by right.
  - intros sc' [Hin| ->%list_elem_of_singleton]%elem_of_app; [by apply (d_calls _ _ _ _ HD)|].
    rewrite Hid. cbn. rewrite Hi. exists c. split; [done|]. split; [by rewrite Hid|]. eauto.
  - apply (d_responses _ _ _ _ HD).
  - done.
Qed.

Lemma dir_refuse a b lost fin m rest e :
  Dir a b lost fin -> r_requests a = m :: rest -> e_find b m = inl e ->
  Dir (on_wire a rest) (mkCallee (e_calls b) (e_responses b ++ [error_message (id m) e]) (e_answered b) (e_find b)) lost fin.
Proof.
  intros HD Hm Hf. destruct (request_call _ _ _ _ _ _ HD Hm) as (i & c & Hc & -> & Hi).
  apply (move a b lost fin (r_sending a) rest _ _ lost HD).
  - dir. unfold msg_ids. rewrite Hm, map_app. cbn. solve_Permutation.
  - done.
  - intros m' Hm'. apply (d_requests _ _ _ _ HD). rewrite Hm. by right.
  - apply (d_calls _ _ _ _ HD).
  - intros m' [Hin| ->%list_elem_of_singleton]%elem_of_app; [by apply (d_responses _ _ _ _ HD)|].
    exists i, c. split; [done|]. right. by exists e.
  - intros j. unfold msg_ids. rewrite map_app, !elem_of_app. tauto.
Qed.

Lemma dir_drop a b lost fin :
  Dir a b lost fin ->
  Dir (on_wire a []) (mkCallee (e_calls b) [] (e_answered b) (e_find b))
    (msg_ids (r_requests a) ++ msg_ids (e_responses b) ++ lost) fin.
Proof.
  intros HD. apply (move a b lost fin (r_sending a) [] _ [] _ HD); try done.
  - dir. cbn. solve_Permutation.
  - by intros m ?%elem_of_nil.
  - apply (d_calls _ _ _ _ HD).
  - by intros m ?%elem_of_nil.
  - intros i. rewrite !elem_of_app. tauto.
Qed.

(** ** The heap of one process *)

Definition nonzero (l : list Z) : list Z := filter (fun p => p <> 0) l.

(** The response objects that exist or existed. *)
Definition pointers (w : world) (made : list CallRecord) : list Z :=
  nonzero (map c_response made) ++ map sc_response (calls w).

Record Mem (w : world) (made : list CallRecord) (fin : list Z) : Prop := {
  m_fresh : 1 <= fresh w;
  m_range : forall p, p ∈ pointers w made -> 1 <= p < fresh w;
  m_nodup : NoDup (pointers w made);
  m_done_range : forall p, p ∈ nonzero (map c_done made) -> 1 <= p < fresh w;
  m_done_nodup : NoDup (nonzero (map c_done made));
  m_call : forall i c, call_at made i = Some c ->
    (c_response c = 0 <-> c_init c = None) /\
    (i ∉ fin -> (c_response c <> 0 -> messages w !! c_response c = c_init c) /\
                (c_done c <> 0 -> c_done c ∈ closures w));
  m_calls : forall sc, sc ∈ calls w -> is_Some (messages w !! sc_response sc);
  m_live : forall p, is_Some (messages w !! p) ->
    (exists i c, call_at made i = Some c /\ i ∉ fin /\ c_response c = p /\ p <> 0) \/ p ∈ map sc_response (calls w);
  m_runs : NoDup (map fst (runs w));
  m_runs_range : forall p, p ∈ map fst (runs w) -> p ∉ closures w /\ p < fresh w;
}.

Lemma call_at_elem made i c : call_at made i = Some c -> c ∈ made.
Proof. unfold call_at. case_match; [|done]. apply list_elem_of_lookup_2. Qed.

Lemma elem_nonzero {A} (f : A -> Z) l x : x ∈ l -> f x <> 0 -> f x ∈ nonzero (map f l).
Proof.
  intros Hx Hf. apply list_elem_of_filter. split; [done|]. by apply list_elem_of_In, in_map, list_elem_of_In.
Qed.

Lemma nonzero_app l k : nonzero (l ++ k) = nonzero l ++ nonzero k.
Proof. apply list.filter_app. Qed.

(** Two calls with the same pointer are the same call. *)
Lemma nonzero_inj (f : CallRecord -> Z) made i j c c' :
  NoDup (nonzero (map f made)) -> call_at made i = Some c -> call_at made j = Some c' ->
  f c = f c' -> f c <> 0 -> i = j.
Proof.
  intros Hnd Hi Hj Hf Hne. unfold call_at in *.
  destruct (Z.leb_spec 1 i), (Z.leb_spec 1 j); try done.
  assert (Hinj : forall l n m x y, NoDup (nonzero (map f l)) -> l !! n = Some x -> l !! m = Some y ->
    f x = f y -> f x <> 0 -> n = m).
  { clear. induction l as [|z l IH]; intros n m x y Hnd Hn Hm Hxy Hx; [by destruct n|].
    unfold nonzero in Hnd. cbn [map] in Hnd. rewrite list.filter_cons in Hnd.
    assert (Hl : NoDup (nonzero (map f l))) by (case_decide; [by apply list.NoDup_cons in Hnd as [_ ?]|done]).
    assert (Hz : forall k y', l !! k = Some y' -> f y' <> 0 -> f z <> f y').
    { intros k y' Hk Hy Hzy. rewrite decide_True in Hnd by congruence.
      apply list.NoDup_cons in Hnd as [Hnin _]. apply Hnin. rewrite Hzy.
      apply elem_nonzero; [by eapply list_elem_of_lookup_2|done]. }
    destruct n as [|n], m as [|m]; cbn in Hn, Hm; [done| | |].
    - injection Hn as ->. by destruct (Hz m y Hm ltac:(congruence)).
    - injection Hm as ->. by destruct (Hz n x Hn Hx).
    - f_equal. by eapply (IH n m x y). }
  assert (Z.to_nat (i - 1) = Z.to_nat (j - 1)) by (by eapply (Hinj made _ _ c c')). lia.
Qed.

(** [new] and the bookkeeping of a service call. *)
Lemma mem_accept w made fin m this mt req id :
  Mem w made fin ->
  Mem (with_calls (fun l => l ++ [mkServiceCall this mt req (fst (new_message m w)) id])
         (snd (new_message m w))) made fin.
Proof.
  intros HM. destruct HM. assert (Hno : fresh w ∉ pointers w made) by (intros Hp; apply m_range0 in Hp; lia).
  assert (Hptr : forall x, pointers (with_calls (fun l => l ++ [x]) (snd (new_message m w))) made =
    pointers w made ++ [sc_response x]).
  { intros x. unfold pointers. cbn. by rewrite map_app, app_assoc. }
  assert (Hfree : forall p, p ∈ pointers w made -> p <> fresh w) by (intros p Hp ->; done).
  split; try rewrite Hptr; cbn; try done.
  - lia.
  - intros p [Hp| ->%list_elem_of_singleton]%elem_of_app; [apply m_range0 in Hp|]; cbn; lia.
  - apply list.NoDup_app. split; [done|]. split; [|apply NoDup_singleton].
    by intros p Hp ->%list_elem_of_singleton.
  - intros p Hp. apply m_done_range0 in Hp. lia.
  - intros i c Hc. destruct (m_call0 i c Hc) as [? Hlive]. split; [done|]. intros Hi.
    destruct (Hlive Hi) as [Hr ?]. split; [|done]. intros Hne. rewrite lookup_insert_ne; [by apply Hr|].
    intros E. apply (Hfree (c_response c)); [|done]. apply elem_of_app. left.
    apply elem_nonzero; [by eapply call_at_elem|done].
  - intros sc [Hsc| ->%list_elem_of_singleton]%elem_of_app; [|by rewrite lookup_insert_eq].
    rewrite lookup_insert_ne; [by apply m_calls0|]. intros E. apply (Hfree (sc_response sc)); [|done].
    apply elem_of_app. right. by apply list_elem_of_In, in_map, list_elem_of_In.
  - intros p. rewrite map_app, elem_of_app. destruct (decide (p = fresh w)) as [->|Hne].
    + intros _. right. right. cbn. by left.
    + rewrite lookup_insert_ne by done. intros Hp. destruct (m_live0 p Hp) as [?|?]; [by left|by right; left].
  - intros p Hp. destruct (m_runs_range0 p Hp). split; [done|lia].
Qed.

(** A service's closure deletes the response it was given. *)
Lemma mem_reply w made fin k sc reply :
  Mem w made fin -> calls w !! k = Some sc ->
  Mem (with_messages (delete (sc_response sc))
         (with_calls (delete k) (with_messages <[sc_response sc := reply]> w))) made fin.
Proof.
  intros HM Hk. pose proof (delete_Permutation _ _ _ Hk) as Hperm. destruct HM.
  assert (Hptr : pointers w made ≡ₚ sc_response sc :: nonzero (map c_response made) ++ map sc_response (delete k (calls w))).
  { unfold pointers. rewrite (Permutation_map sc_response Hperm). cbn [map]. solve_Permutation. }
  assert (Hnd : NoDup (pointers w made)) by done. rewrite Hptr in Hnd. apply list.NoDup_cons in Hnd as [Hno Hnd].
  assert (Hdel : forall p, p <> sc_response sc -> delete (sc_response sc) (<[sc_response sc := reply]> (messages w)) !! p = messages w !! p).
  { intros p Hp. by rewrite lookup_delete_ne, lookup_insert_ne. }
  rewrite elem_of_app in Hno.
  split; cbn; try done.
  - intros p Hp. apply m_range0. rewrite Hptr. right. exact Hp.
  - intros i c Hc. destruct (m_call0 i c Hc) as [? Hlive]. split; [done|]. intros Hi.
    destruct (Hlive Hi) as [Hr ?]. split; [|done]. intros Hne. rewrite Hdel; [by apply Hr|].
    intros E. apply Hno. left. rewrite <- E. apply elem_nonzero; [by eapply call_at_elem|done].
  - intros sc' Hsc'. rewrite Hdel.
    + apply m_calls0. rewrite Hperm. by right.
    + intros E. apply Hno. right. rewrite <- E. by apply list_elem_of_In, in_map, list_elem_of_In.
  - intros p. destruct (decide (p = sc_response sc)) as [->|Hne]; [rewrite lookup_delete_eq; by intros [??]|].
    rewrite Hdel by done. intros Hp. destruct (m_live0 p Hp) as [?|Hin]; [by left|right].
    rewrite (Permutation_map sc_response Hperm) in Hin. apply elem_of_cons in Hin as [?|?]; done.
Qed.

(** A pointer that is NULL or new. *)
Definition null_or_new (w w' : world) (p : Z) : Prop := p = 0 \/ fresh w <= p < fresh w'.

Lemma nonzero_new (f : CallRecord -> Z) w w' made c :
  null_or_new w w' (f c) -> 1 <= fresh w <= fresh w' ->
  (forall p, p ∈ nonzero (map f made) -> 1 <= p < fresh w) -> NoDup (nonzero (map f made)) ->
  NoDup (nonzero (map f (made ++ [c]))) /\
  forall p, p ∈ nonzero (map f (made ++ [c])) -> (p ∈ nonzero (map f made) \/ p = f c /\ fresh w <= p) /\ 1 <= p < fresh w'.
Proof.
  intros Hp Hw Hr Hnd. rewrite map_app, nonzero_app. cbn [map]. unfold nonzero at 2 4.
  rewrite !list.filter_cons, !list.filter_nil. destruct (decide (f c <> 0)) as [Hne|He].
  - destruct Hp as [?|Hp]; [done|]. split.
    + apply list.NoDup_app. split; [done|]. split; [|apply NoDup_singleton].
      intros p Hin%Hr ->%list_elem_of_singleton. lia.
    + intros p [Hin| ->%list_elem_of_singleton]%elem_of_app; [|split; [right|]; lia].
      split; [by left|]. apply Hr in Hin. lia.
  - rewrite app_nil_r. split; [done|]. intros p Hin. split; [by left|]. apply Hr in Hin. lia.
Qed.

Lemma call_at_snoc made c i c' :
  call_at (made ++ [c]) i = Some c' -> call_at made i = Some c' \/ i = zlen made + 1 /\ c' = c.
Proof.
  unfold call_at. destruct (Z.leb_spec 1 i); [|done]. intros Hc.
  destruct (decide (Z.to_nat (i - 1) < length made)%nat).
  - left. by rewrite lookup_app_l in Hc.
  - right. rewrite lookup_app_r in Hc by lia.
    destruct (Z.to_nat (i - 1) - length made)%nat eqn:E; [|by destruct n0]. injection Hc as <-.
    unfold zlen. split; [lia|done].
Qed.

Lemma call_at_old made c i c' : call_at made i = Some c' -> call_at (made ++ [c]) i = Some c'.
Proof. unfold call_at. case_match; [|done]. apply lookup_app_l_Some. Qed.

Lemma call_at_new made c : call_at (made ++ [c]) (zlen made + 1) = Some c.
Proof.
  unfold call_at. pose proof (zlen_nonneg made). rewrite (proj2 (Z.leb_le _ _)) by lia.
  apply list_lookup_middle. unfold zlen. lia.
Qed.

(** A call allocates its response and its closure. *)
Lemma mem_call w w' made fin c :
  Mem w made fin -> zlen made + 1 ∉ fin -> fresh w <= fresh w' ->
  null_or_new w w' (c_response c) -> null_or_new w w' (c_done c) ->
  (c_response c = 0 <-> c_init c = None) ->
  messages w' = match c_init c with Some m => <[c_response c := m]> (messages w) | None => messages w end ->
  closures w' = (if c_done c =? 0 then closures w else {[c_done c]} ∪ closures w) ->
  calls w' = calls w -> runs w' = runs w -> Mem w' (made ++ [c]) fin.
Proof.
  intros HM Hfin Hf Hr Hd Hinit Hm Hcl Hcalls Hruns.
  assert (Hold : forall p, p < fresh w -> messages w' !! p = messages w !! p).
  { intros p Hp. rewrite Hm. destruct (c_init c); [|done]. rewrite lookup_insert_ne; [done|].
    destruct Hr as [Hr|Hr]; [|lia]. by apply Hinit in Hr. }
  destruct HM.
  assert (Hlt : forall i c', call_at made i = Some c' -> c_response c' <> 0 -> c_response c' < fresh w).
  { intros i c' Hc Hne. apply m_range0, elem_of_app. left. apply elem_nonzero; [by eapply call_at_elem|done]. }
  assert (Hsc : forall sc, sc ∈ calls w -> 1 <= sc_response sc < fresh w).
  { intros sc Hsc. apply m_range0, elem_of_app. right. by apply list_elem_of_In, in_map, list_elem_of_In. }
  assert (Hnd : NoDup (nonzero (map c_response made))) by by apply list.NoDup_app in m_nodup0 as [? _].
  destruct (nonzero_new c_response w w' made c) as [Hn1 Hn2]; [done|lia| |done|].
  { intros p Hp. apply m_range0, elem_of_app. by left. }
  destruct (nonzero_new c_done w w' made c) as [Hd1 Hd2]; [done|lia|done|done|].
  split; unfold pointers; rewrite ?Hcalls, ?Hruns; try done.
  - lia.
  - intros p [Hp|Hp]%elem_of_app; [by apply Hn2|]. assert (1 <= p < fresh w); [|lia].
    apply m_range0, elem_of_app. by right.
  - apply list.NoDup_app in m_nodup0 as (_ & Hdis & Hnd2). apply list.NoDup_app. split; [done|]. split; [|done].
    intros p Hp Hin. destruct (Hn2 p Hp) as [[Hp'|[_ Hge]] _]; [by apply (Hdis p)|].
    assert (1 <= p < fresh w); [|lia]. apply m_range0, elem_of_app. by right.
  - apply Hd2.
  - intros i c' [Hc|[-> ->]]%call_at_snoc.
    + destruct (m_call0 i c' Hc) as [? Hlive]. split; [done|]. intros Hi. destruct (Hlive Hi) as [H1 H2]. split.
      * intros Hne. rewrite Hold by (by eapply Hlt). by apply H1.
      * intros Hne. rewrite Hcl. case_match; [by apply H2|]. apply elem_of_union. right. by apply H2.
    + split; [done|]. intros _. split.
      * intros Hne. rewrite Hm. destruct (c_init c) eqn:E; [apply lookup_insert_eq|]. by apply proj2 in Hinit; rewrite Hinit in Hne.
      * intros Hne. rewrite Hcl, (proj2 (Z.eqb_neq _ _)) by done. set_solver.
  - intros sc Hin. rewrite Hold by (by apply Hsc). by apply m_calls0.
  - intros p Hp. destruct (c_init c) as [m|] eqn:E; [destruct (decide (p = c_response c)) as [->|Hne]|].
    + left. exists (zlen made + 1), c. split; [apply call_at_new|]. split; [done|]. split; [done|]. naive_solver.
    + rewrite Hm, lookup_insert_ne in Hp by done. destruct (m_live0 p Hp) as [(i & c' & ? & ?)|?]; [left|by right].
      exists i, c'. split; [by apply call_at_old|done].
    + rewrite Hm in Hp. destruct (m_live0 p Hp) as [(i & c' & ? & ?)|?]; [left|by right].
      exists i, c'. split; [by apply call_at_old|done].
  - intros p Hp. destruct (m_runs_range0 p Hp). split; [|lia]. rewrite Hcl. case_match eqn:E; [done|].
    apply Z.eqb_neq in E. destruct Hd as [?|Hd]; [done|]. set_unfold. intros [?|?]; [lia|done].
Qed.

(** A call is over: its response is gone and its closure may have run. *)
Lemma mem_finish w w' made fin i c :
  Mem w made fin -> call_at made i = Some c -> i ∉ fin ->
  fresh w' = fresh w -> calls w' = calls w ->
  (forall p, p <> c_response c -> messages w' !! p = messages w !! p) ->
  (if decide (c_response c = 0) then messages w' = messages w else messages w' !! c_response c = None) ->
  (runs w' = runs w /\ closures w' = closures w) \/
  (exists seen, runs w' = runs w ++ [(c_done c, seen)] /\ c_done c <> 0 /\ closures w' = closures w ∖ {[c_done c]}) ->
  Mem w' made (fin ++ [i]).
Proof.
  intros HM Hc Hi Hf Hcalls Hm Hr Hrun. destruct HM.
  assert (Hresp : NoDup (nonzero (map c_response made))) by by apply list.NoDup_app in m_nodup0 as [? _].
  assert (Hnot : forall j, j ∉ fin ++ [i] -> j ∉ fin /\ j <> i).
  { intros j Hj. rewrite elem_of_app, list_elem_of_singleton in Hj. tauto. }
  split; unfold pointers; rewrite ?Hf, ?Hcalls; try done.
  - intros j c' Hc'. destruct (m_call0 j c' Hc') as [? Hlive]. split; [done|].
    intros [Hj Hne]%Hnot. destruct (Hlive Hj) as [H1 H2]. split.
    + intros Hnz. rewrite Hm; [by apply H1|]. intros E. apply Hne. by eapply (nonzero_inj c_response made j i c' c).
    + intros Hnz. destruct Hrun as [[_ ->]|(seen & _ & _ & ->)]; [by apply H2|].
      apply elem_of_difference. split; [by apply H2|]. intros E%elem_of_singleton. apply Hne.
      by eapply (nonzero_inj c_done made j i c' c).
  - intros sc Hsc. destruct (decide (c_response c = 0)) as [E|Hne]; [rewrite Hr; by apply m_calls0|].
    rewrite Hm; [by apply m_calls0|]. intros E. apply list.NoDup_app in m_nodup0 as (_ & Hdis & _).
    apply (Hdis (c_response c)); [apply elem_nonzero; [by eapply call_at_elem|done]|].
    rewrite <- E. by apply list_elem_of_In, in_map, list_elem_of_In.
  - intros p Hp. assert (Hp' : is_Some (messages w !! p) /\ (p <> 0 -> p <> c_response c)).
    { destruct (decide (c_response c = 0)) as [E|Hne]; [rewrite Hr in Hp; split; [done|congruence]|].
      destruct (decide (p = c_response c)) as [->|]; [rewrite Hr in Hp; by destruct Hp|].
      by rewrite <- Hm. }
    destruct Hp' as [Hp' Hne]. destruct (m_live0 p Hp') as [(j & c' & Hj & Hjf & <- & Hnz)|?]; [left|by right].
    exists j, c'. split; [done|]. split; [|done]. rewrite elem_of_app, list_elem_of_singleton.
    intros [?| ->]; [done|]. apply Hne; [done|]. congruence.
  - destruct Hrun as [[-> _]|(seen & -> & Hnz & _)]; [done|]. rewrite map_app. apply list.NoDup_app.
    split; [done|]. split; [|apply NoDup_singleton]. intros p Hp ->%list_elem_of_singleton. cbn in Hp.
    destruct (m_runs_range0 _ Hp) as [Hno _]. apply Hno. by apply (m_call0 i c Hc).
  - intros p Hp. destruct Hrun as [[E ->]|(seen & E & Hnz & ->)]; rewrite E in Hp; [by apply m_runs_range0|].
    rewrite map_app in Hp. apply elem_of_app in Hp as [Hp| ->%list_elem_of_singleton].
    + destruct (m_runs_range0 p Hp). split; [set_solver|done].
    + split; [set_solver|]. cbn [fst]. apply m_done_range0, (elem_nonzero c_done); [by eapply call_at_elem|done].
Qed.

(** A response for an outstanding call: the call is over, nothing fails. *)
Lemma onResponse_ok message c ch w made fin i :
  Mem w made fin -> call_at made i = Some c -> i ∉ fin ->
  outstandings_ ch !! i = Some (out_of c) -> i64 (id message) = i ->
  is_Some (response message) \/ is_Some (error message) ->
  exists w', onResponse message ch w = Ok (with_outstandings (delete i) ch, w') /\
    Mem w' made (fin ++ [i]) /\ calls w' = calls w /\ sent w' = sent w /\
    (runs w' = runs w /\ (c_response c = 0 \/ c_done c = 0) \/
     exists m0, c_init c = Some m0 /\ c_done c <> 0 /\
       runs w' = runs w ++ [(c_done c, Some (match response message with
         Some b => snd (ParseFromString b m0) | None => m0 end))]).
Proof.
  intros HM Hc Hi Ho Hid Has. unfold onResponse. rewrite assert_true.
  2: { apply orb_true_iff. rewrite !bool_decide_eq_true. done. }
  cbn [mbind outcome_bind]. rewrite Hid, Ho. cbn [default from_option Datatypes.id out_of out_response out_done].
  pose proof (m_call _ _ _ HM i c Hc) as [Hinit Hlive]. destruct (Hlive Hi) as [Hresp Hdone].
  destruct (Z.eqb_spec (c_response c) 0) as [E|Hne].
  { eexists. split; [done|]. split; [|by auto 10]. apply (mem_finish w w made fin i c); try done; [by rewrite decide_True|by left]. }
  specialize (Hresp Hne). destruct (c_init c) as [m0|] eqn:Em; [|by destruct Hne; apply Hinit].
  set (seen := match response message with Some b => snd (ParseFromString b m0) | None => m0 end).
  assert (Hparse : exists w1, match response message with Some b => parse_into (c_response c) b w | None => Ok w end = Ok w1 /\
    w1 = with_messages (fun _ => messages w1) w /\ messages w1 !! c_response c = Some seen /\
    forall p, p <> c_response c -> messages w1 !! p = messages w !! p).
  { unfold seen. destruct (response message) as [b|].
    - unfold parse_into. rewrite Hresp. eexists. split; [done|]. split; [done|]. cbn.
      split; [apply lookup_insert_eq|]. intros p Hp. by apply lookup_insert_ne.
    - exists w. destruct w; done. }
  destruct Hparse as (w1 & -> & Hw1 & Hseen & Hother). cbn [mbind outcome_bind].
  assert (Hrun : exists w2, (if c_done c =? 0 then Ok w1 else Run (c_done c) (c_response c) w1) = Ok w2 /\
    messages w2 = messages w1 /\ fresh w2 = fresh w /\ calls w2 = calls w /\ sent w2 = sent w /\
    (runs w2 = runs w /\ closures w2 = closures w /\ c_done c = 0 \/
     runs w2 = runs w ++ [(c_done c, Some seen)] /\ c_done c <> 0 /\ closures w2 = closures w ∖ {[c_done c]})).
  { rewrite Hw1. destruct (Z.eqb_spec (c_done c) 0) as [E|E].
    - eexists. split; [done|]. cbn. auto 10.
    - unfold Run. cbn [closures with_messages]. rewrite bool_decide_eq_true_2 by auto.
      eexists. split; [done|]. cbn. rewrite Hseen. auto 10. }
  destruct Hrun as (w2 & -> & Hm2 & Hf2 & Hc2 & Hs2 & Hr2). cbn [mbind outcome_bind].
  unfold delete_message. rewrite (proj2 (Z.eqb_neq _ _)), Hm2, Hseen by done.
  eexists. split; [done|]. split.
  - apply (mem_finish w (with_messages (delete (c_response c)) w2) made fin i c HM Hc Hi Hf2 Hc2); cbn [messages with_messages closures runs].
    + intros p Hp. rewrite lookup_delete_ne, Hm2 by done. by apply Hother.
    + rewrite decide_False by done. apply lookup_delete_eq.
    + destruct Hr2 as [(-> & -> & _)|(-> & Hnz & ->)]; [by left|right]. by exists (Some seen).
  - split; [done|]. split; [done|]. cbn. destruct Hr2 as [(-> & _ & ?)|(-> & ? & _)]; [auto|]. eauto.
Qed.

(** ** The two processes *)

(** The calls of the process [p] that the process [q] serves. *)
Definition half (p q : side) (up : bool) : Prop :=
  exists lost fin, Dir (caller_of p) (callee_of q) lost fin /\ Mem (heap p) (made p) fin /\
    (up = true -> lost = []) /\ conn_ (chan p) <> 0.

Definition Inv0 (s : sys) : Prop := half (left s) (right s) (up s) /\ half (right s) (left s) (up s).

Definition Inv (s : sys) : Prop :=
  Inv0 s /\ (up s = false -> sent (heap (left s)) = [] /\ sent (heap (right s)) = []).

Definition numbered (n : Z) (s : sys) : Prop := id_ (chan (left s)) <= n /\ id_ (chan (right s)) <= n.

Lemma of_type_snoc ty l x :
  of_type ty (l ++ [x]) = of_type ty l ++ (if decide (type_ (snd x) = ty) then [snd x] else []).
Proof.
  unfold of_type. rewrite map_app, list.filter_app. cbn [map]. rewrite list.filter_cons, list.filter_nil. done.
Qed.

Lemma of_type_cons ty l x :
  of_type ty (x :: l) = (if decide (type_ (snd x) = ty) then [snd x] else []) ++ of_type ty l.
Proof. unfold of_type. cbn [map]. rewrite list.filter_cons. by case_decide. Qed.

(** What was sent does not matter to the heap. *)
Lemma mem_sent f w made fin : Mem w made fin -> Mem (with_sent f w) made fin.
Proof. intros []. by split. Qed.

Lemma half_drop p q up : half p q up -> half (drop_sent p) (drop_sent q) false.
Proof.
  intros (lost & fin & HD & HM & _ & Hc). exists (msg_ids (r_requests (caller_of p)) ++ msg_ids (e_responses (callee_of q)) ++ lost), fin.
  split; [exact (dir_drop _ _ _ _ HD)|]. split; [by apply mem_sent|]. done.
Qed.

Lemma flush_inv s : Inv0 s -> Inv (flush s).
Proof.
  intros [Hl Hr]. unfold flush. destruct (up s) eqn:E; [by split; [split; rewrite E|congruence]|].
  split; [|done]. split; by eapply half_drop.
Qed.

Lemma inv_swap s : Inv s -> Inv (swap s).
Proof. intros [[H1 H2] H3]. split; [by split|]. intros Hu. cbn. destruct (H3 Hu). done. Qed.

(** The calls of one side do not depend on what the other one does as a caller. *)
Lemma half_callee p q q' up : half p q up -> callee_of q' = callee_of q -> half p q' up.
Proof. intros (lost & fin & HD & ?) E. exists lost, fin. by rewrite E. Qed.

(** The allocations of a call are what [mem_call] asks for. *)
Lemma alloc_mem init callback w made fin m req r p w' :
  Mem w made fin -> zlen made + 1 ∉ fin -> alloc init callback w = (r, p, w') ->
  Mem w' (made ++ [mkCall m req r p init]) fin /\ calls w' = calls w /\ sent w' = sent w /\ runs w' = runs w.
Proof.
  intros HM Hfin Ha. pose proof (m_fresh _ _ _ HM). unfold alloc, new_message, new_closure in Ha.
  destruct init as [m0|], callback; injection Ha as <- <- <-; (split; [|done]);
    eapply mem_call; try done; cbn; unfold null_or_new; cbn; try lia; rewrite ?Z.eqb_refl;
    try (rewrite (proj2 (Z.eqb_neq _ _)) by lia); try done; split; done || lia.
Qed.

(** A thread makes a call. *)
Lemma half_call p q up m req init callback :
  half p q up -> id_ (chan p) < INT64_MAX ->
  exists p', call m req init callback p = Ok p' /\ half p' q up /\ id_ (chan p') = id_ (chan p) + 1 /\
    callee_of p' = callee_of p /\ sent (heap p') = sent (heap p).
Proof.
  intros (lost & fin & HD & HM & Hup & Hconn) Hid.
  pose proof (d_made _ _ _ _ HD) as Hl. cbn in Hl. pose proof (zlen_nonneg (made p)).
  assert (Hfin : zlen (made p) + 1 ∉ fin).
  { intros Hin. assert (zlen (made p) + 1 <= id_ (chan p)); [|lia].
    apply (ids_range _ _ _ _ _ HD). rewrite !elem_of_app. tauto. }
  unfold call. destruct (alloc init callback (heap p)) as [[r d] w'] eqn:Ha.
  destruct (alloc_mem _ _ _ _ _ m req _ _ _ HM Hfin Ha) as (HM' & Hc & Hs & Hr).
  unfold CallMethod_id. rewrite AtomicIntegerT.incrementAndGet_Ok by (unfold INT64_MAX in *; lia).
  cbn [mbind outcome_bind fst snd]. eexists. split; [done|].
  split; [|unfold callee_of; cbn; rewrite Hc, Hs; done].
  exists lost, fin. split; [|done]. unfold caller_of. cbn. rewrite Hs, Hr.
  by apply (dir_call (caller_of p) _ lost fin (mkCall m req r d init)); [|cbn; lia|].
Qed.

Lemma half_insert p q up k :
  half p q up -> half (insert_call k p) q up /\ id_ (chan (insert_call k p)) = id_ (chan p).
Proof.
  intros Hh. unfold insert_call. destruct (entering p !! k) as [f|] eqn:Hk; [|done]. split; [|done].
  destruct Hh as (lost & fin & HD & ?). exists lost, fin. split; [|done].
  by apply (dir_insert (caller_of p) _ lost fin k f).
Qed.

Lemma half_send p q up k :
  half p q up ->
  exists p', send_call k p = Ok p' /\ half p' q up /\ id_ (chan p') = id_ (chan p) /\ callee_of p' = callee_of p.
Proof.
  intros Hh. unfold send_call. destruct (sending p !! k) as [f|] eqn:Hk; [|by exists p].
  destruct Hh as (lost & fin & HD & HM & Hup & Hconn).
  assert (Hty : type_ (f_message f) = REQUEST).
  { destruct (d_sending _ _ _ _ HD f) as (c & _ & -> & _); [by eapply list_elem_of_lookup_2|done]. }
  unfold CallMethod_send, codec_send. rewrite (proj2 (Z.eqb_neq _ _)) by done. cbn [mbind outcome_bind].
  eexists. split; [done|]. split; [|split; [done|]].
  - exists lost, fin. split; [|split; [by apply mem_sent|done]].
    unfold caller_of. cbn. rewrite of_type_snoc. cbn. rewrite Hty. by apply (dir_send (caller_of p)).
  - unfold callee_of. cbn. rewrite of_type_snoc. cbn. rewrite Hty. cbn. by rewrite app_nil_r.
Qed.

Definition pair (p q : side) (up : bool) : Prop := half p q up /\ half q p up.

(** A service answers. *)
Lemma pair_reply p q up k reply :
  pair p q up -> exists p', reply_call k reply p = Ok p' /\ pair p' q up /\ id_ (chan p') = id_ (chan p).
Proof.
  intros [Hp Hq]. unfold reply_call. destruct (calls (heap p) !! k) as [sc|] eqn:Hk; [|by exists p].
  destruct Hp as (lost & fin & HD & HM & Hup & Hconn).
  destruct Hq as (lost' & fin' & HD' & HM' & Hup' & Hconn').
  destruct (m_calls _ _ _ HM sc) as [m0 Hm0]; [by eapply list_elem_of_lookup_2|].
  assert (Hne : sc_response sc <> 0).
  { assert (1 <= sc_response sc); [|lia]. apply (m_range _ _ _ HM). unfold pointers. apply elem_of_app. right.
    apply list_elem_of_In, in_map, list_elem_of_In. by eapply list_elem_of_lookup_2. }
  unfold answer, doneCallback. rewrite Hm0. cbn [messages with_messages with_calls].
  rewrite lookup_insert_eq. unfold codec_send. rewrite (proj2 (Z.eqb_neq _ _)) by done.
  cbn [mbind outcome_bind]. unfold delete_message. rewrite (proj2 (Z.eqb_neq _ _)) by done.
  cbn [messages with_messages with_calls with_sent]. rewrite lookup_insert_eq. cbn [mbind outcome_bind].
  eexists. split; [done|]. split; [|done]. split.
  - exists lost, fin. unfold caller_of. cbn. rewrite of_type_snoc. cbn. rewrite app_nil_r.
    split; [exact HD|]. split; [|done].
    exact (mem_sent (fun l => l ++ [(conn_ (chan p), reply_message (sc_id sc) reply)]) _ _ _
      (mem_reply _ _ _ k sc reply HM Hk)).
  - exists lost', fin'. unfold callee_of. cbn. rewrite of_type_snoc. cbn.
    split; [|done]. by apply (dir_reply _ (callee_of p)).
Qed.

(** A request arrives. *)
Lemma pair_request p q up conn m rest :
  pair p q up -> sent (heap q) = (conn, m) :: rest -> type_ m = REQUEST ->
  exists p', receive m p = Ok p' /\ pair p' (on_heap (with_sent (fun _ => rest) (heap q)) q) up /\
    id_ (chan p') = id_ (chan p).
Proof.
  intros [Hp Hq] Hs Hty.
  destruct Hp as (lost & fin & HD & HM & Hup & Hconn).
  destruct Hq as (lost' & fin' & HD' & HM' & Hup' & Hconn').
  assert (Hreq : r_requests (caller_of q) = m :: of_type REQUEST rest).
  { cbn. rewrite Hs, of_type_cons. cbn. by rewrite Hty. }
  assert (Hcallee : callee_of (on_heap (with_sent (fun _ => rest) (heap q)) q) = callee_of q).
  { unfold callee_of. cbn. rewrite Hs, of_type_cons. cbn. by rewrite Hty. }
  unfold receive, onRpcMessage. rewrite Z.eqb_refl, Hty. cbn [assert mbind outcome_bind]. unfold onRequest.
  destruct (find_request (services p) (chan p) m) as [e|[[svc mt] req]] eqn:Hf.
  - unfold codec_send. rewrite (proj2 (Z.eqb_neq _ _)) by done. cbn [mbind outcome_bind fst snd].
    eexists. split; [done|]. split; [|done]. split.
    + exists lost, fin. rewrite Hcallee. unfold caller_of. cbn. rewrite of_type_snoc. cbn. rewrite app_nil_r.
      split; [exact HD|]. split; [by apply mem_sent|done].
    + exists lost', fin'. split; [|split; [by apply mem_sent|done]].
      unfold callee_of. cbn. rewrite of_type_snoc. cbn. by apply (dir_refuse (caller_of q) (callee_of p)).
  - cbn [new_message mbind outcome_bind fst snd]. eexists. split; [done|]. split; [|done]. split.
    + exists lost, fin. rewrite Hcallee. split; [exact HD|]. split; [|done].
      by apply (mem_accept (heap p)).
    + exists lost', fin'. split; [|split; [by apply mem_sent|done]].
      by apply (dir_accept (caller_of q) (callee_of p) lost' fin' m (of_type REQUEST rest) svc).
Qed.

(** A response arrives. *)
Lemma pair_response p q up conn m rest :
  pair p q up -> sent (heap q) = (conn, m) :: rest -> type_ m = RESPONSE ->
  exists p', receive m p = Ok p' /\ pair p' (on_heap (with_sent (fun _ => rest) (heap q)) q) up /\
    id_ (chan p') = id_ (chan p).
Proof.
  intros [Hp Hq] Hs Hty.
  destruct Hp as (lost & fin & HD & HM & Hup & Hconn).
  destruct Hq as (lost' & fin' & HD' & HM' & Hup' & Hconn').
  assert (Hresp : e_responses (callee_of q) = m :: of_type RESPONSE rest).
  { cbn. rewrite Hs, of_type_cons. cbn. by rewrite Hty. }
  destruct (response_call _ _ _ _ _ _ HD Hresp) as (i & c & Hc & Hid & Ho & Hok & Hi).
  assert (Has : is_Some (response m) \/ is_Some (error m)).
  { destruct Hok as [(? & _ & _ & ->)|(? & _ & ->)]; [left|right]; by eexists. }
  destruct (onResponse_ok m c (chan p) (heap p) (made p) fin i HM Hc Hi Ho Hid Has)
    as (w' & Hr & HM2 & Hc2 & Hs2 & Hrun).
  unfold receive, onRpcMessage. rewrite Z.eqb_refl, Hty. cbn [assert mbind outcome_bind].
  rewrite Hr. cbn [mbind outcome_bind fst snd]. eexists. split; [done|]. split; [|done]. split.
  - exists lost, (fin ++ [i]). split; [|done]. unfold caller_of, callee_of. cbn. rewrite Hs2.
    apply (dir_response (caller_of p) (callee_of q) lost fin m (of_type RESPONSE rest) i c (runs w')); try done.
    destruct Hrun as [Hrun|(m0 & Em & Hne & Hrun)]; [by left|right]. eexists. split; [exact Hrun|]. split; [done|].
    destruct Hok as [(r & Hin & Hacc & ->)|(e & Hf & ->)]; [left|right]; cbn.
    + by exists r, m0.
    + by exists e.
  - exists lost', fin'. unfold caller_of, callee_of. cbn. rewrite Hs2, Hc2. split; [|split; [by apply mem_sent|done]].
    unfold caller_of in HD'. rewrite Hs, of_type_cons in HD'. cbn in HD'. rewrite Hty in HD'. exact HD'.
Qed.

(** A message of a type that is not used is read and forgotten. *)
Lemma pair_other p q up conn m rest :
  pair p q up -> sent (heap q) = (conn, m) :: rest -> type_ m = ERROR ->
  exists p', receive m p = Ok p' /\ pair p' (on_heap (with_sent (fun _ => rest) (heap q)) q) up /\
    id_ (chan p') = id_ (chan p).
Proof.
  intros [Hp Hq] Hs Hty. unfold receive, onRpcMessage. rewrite Z.eqb_refl, Hty. cbn [assert mbind outcome_bind fst snd].
  eexists. split; [done|]. split; [|done]. split.
  - refine (half_callee _ q _ _ Hp _). unfold callee_of. cbn. rewrite Hs, of_type_cons. cbn. by rewrite Hty.
  - destruct Hq as (lost & fin & HD & HM & ?). exists lost, fin. split; [|split; [by apply mem_sent|done]].
    unfold caller_of in *. rewrite Hs, of_type_cons in HD. cbn in HD. rewrite Hty in HD. exact HD.
Qed.

Lemma pair_deliver p q up conn m rest :
  pair p q up -> sent (heap q) = (conn, m) :: rest ->
  exists p', receive m p = Ok p' /\ pair p' (on_heap (with_sent (fun _ => rest) (heap q)) q) up /\
    id_ (chan p') = id_ (chan p).
Proof.
  destruct (type_ m) eqn:Hty; intros Hp Hs;
    [by eapply pair_request|by eapply pair_response|by eapply pair_other].
Qed.

Lemma inv_up_or_flushed s s' :
  Inv s -> Inv0 s' -> up s' = up s -> sent (heap (left s')) = sent (heap (left s)) ->
  sent (heap (right s')) = sent (heap (right s)) -> Inv s'.
Proof. intros [_ Hs] H0 Hu H1 H2. split; [done|]. by rewrite Hu, H1, H2. Qed.

Lemma step_left_ok l s n :
  Inv s -> numbered n s -> n < INT64_MAX ->
  exists s', step_left l s = Ok s' /\ Inv s' /\ numbered (n + 1) s'.
Proof.
  intros HI [Hn1 Hn2] Hmax. pose proof HI as [[Hl Hr] _].
  assert (Hnum : forall p q u, id_ (chan p) = id_ (chan (left s)) -> id_ (chan q) = id_ (chan (right s)) ->
    numbered (n + 1) (flush (mkSys p q u)) /\ numbered (n + 1) (mkSys p q u)).
  { intros p q u E1 E2. split; unfold flush, numbered; destruct u; cbn; lia. }
  destruct l as [m req init cb|k|k| |k reply|]; unfold step_left.
  - destruct (half_call _ (right s) _ m req init cb Hl) as (p' & -> & Hp & Hid & Hcal & Hs); [lia|].
    eexists. split; [done|]. split; [|unfold numbered; cbn; lia].
    apply (inv_up_or_flushed s); try done. split; cbn; [done|]. by apply (half_callee _ (left s)).
  - destruct (half_insert _ (right s) _ k Hl) as [Hp Hid]. eexists. split; [done|].
    split; [|by apply Hnum].
    assert (Hsame : heap (insert_call k (left s)) = heap (left s) /\ callee_of (insert_call k (left s)) = callee_of (left s)).
    { unfold insert_call. by case_match. }
    destruct Hsame as [Hheap Hcal]. apply (inv_up_or_flushed s); try done; cbn; [|by rewrite Hheap].
    split; cbn; [done|]. by apply (half_callee _ (left s)).
  - destruct (half_send _ (right s) _ k Hl) as (p' & -> & Hp & Hid & Hcal).
    eexists. split; [done|]. split; [|by apply Hnum]. apply flush_inv. split; cbn; [done|].
    by apply (half_callee _ (left s)).
  - destruct (sent (heap (right s))) as [|[conn m] rest] eqn:Hs; [exists s; split; [done|]; split; [done|unfold numbered; lia]|].
    destruct (pair_deliver (left s) (right s) (up s) conn m rest) as (p' & -> & Hp & Hid); [done|done|].
    eexists. split; [done|]. split; [|by apply Hnum]. apply flush_inv. exact Hp.
  - destruct (pair_reply (left s) (right s) (up s) k reply) as (p' & -> & Hp & Hid); [done|].
    eexists. split; [done|]. split; [|by apply Hnum]. apply flush_inv. exact Hp.
  - eexists. split; [done|]. split; [|by apply Hnum]. apply flush_inv. split; cbn.
    + destruct Hl as (lost & fin & ? & ? & ? & ?). by exists lost, fin.
    + destruct Hr as (lost & fin & ? & ? & ? & ?). by exists lost, fin.
Qed.

Lemma step_ok x s n :
  Inv s -> numbered n s -> n < INT64_MAX ->
  exists s', step x s = Ok s' /\ Inv s' /\ numbered (n + 1) s'.
Proof.
  intros HI Hn Hmax. unfold step. destruct (fst x); [by apply step_left_ok|].
  destruct (step_left_ok (snd x) (swap s) n) as (s' & -> & HI' & Hn'); [by apply inv_swap|by destruct Hn|done|].
  eexists. split; [done|]. split; [by apply inv_swap|by destruct Hn'].
Qed.

Lemma run_ok ls s n :
  Inv s -> numbered n s -> n + zlen ls <= INT64_MAX ->
  exists s', run ls s = Ok s' /\ Inv s'.
Proof.
  revert s n. induction ls as [|x ls IH]; intros s n HI Hn Hmax; [by exists s|].
  unfold zlen in *. cbn [length run] in *. destruct (step_ok x s n HI Hn) as (s' & -> & HI' & Hn'); [lia|].
  apply (IH s' (n + 1)); [done|done|lia].
Qed.

Lemma start_half sp sq : half (start sp) (start sq) true.
Proof.
  exists [], []. split; [|split; [|done]].
  - split; try done; cbn; try (by intros ? ?%elem_of_nil); try (by intros ? ? ?%elem_of_nil); try constructor.
    + by rewrite lookup_empty.
    + by intros [?%elem_of_nil _].
  - assert (Hno : forall i, call_at [] i = None) by (intros i; unfold call_at; by case_match).
    split; try done; cbn; try (by intros ? ?%elem_of_nil); try apply NoDup_nil_2.
    + intros i c. by rewrite Hno.
    + intros p Hp. rewrite lookup_empty in Hp. by destruct Hp.
Qed.

Lemma init_inv l r : Inv (init l r).
Proof. split; [|done]. split; apply start_half. Qed.

(** ** What the calls of [p] served by [q] come to *)

Definition matched (p q : side) : Prop :=
  (** a closure runs at most once, a call is answered at most once *)
  NoDup (map fst (runs (heap p))) /\
  NoDup (map (fun r => sc_id (a_call r)) (answered q)) /\
  (** what is answered was called: the service, the method and the request are its own *)
  (forall r, r ∈ answered q -> exists c,
    call_at (made p) (sc_id (a_call r)) = Some c /\ accepted (callee_of q) (sc_id (a_call r)) c (a_call r)) /\
  (** a closure that ran sees the reply to its own call *)
  (forall d seen, (d, seen) ∈ runs (heap p) -> exists i c,
    call_at (made p) i = Some c /\ c_done c = d /\ result_ok (callee_of q) i c seen) /\
  (** the destructor frees what is outstanding *)
  (exists w, dtor (chan p) (heap p) = Ok w).

Definition quiet (s : sys) : Prop :=
  forall d, d = left s \/ d = right s ->
    entering d = [] /\ sending d = [] /\ calls (heap d) = [] /\ sent (heap d) = [].

(** Every call of [p] that has a response object and a closure has run it, and
    nothing is left behind. *)
Definition settled (p : side) : Prop :=
  outstandings_ (chan p) = ∅ /\ messages (heap p) = ∅ /\
  forall i c, call_at (made p) i = Some c -> c_response c <> 0 -> c_done c <> 0 ->
    c_done c ∈ map fst (runs (heap p)).

(** The entries still to be deleted are live, and no two share a pointer. *)
Lemma delete_outstandings_ok l w :
  (forall i o, (i, o) ∈ l -> (out_response o <> 0 -> is_Some (messages w !! out_response o)) /\
     (out_done o <> 0 -> out_done o ∈ closures w)) ->
  NoDup (nonzero (map (fun x => out_response (snd x)) l)) -> NoDup (nonzero (map (fun x => out_done (snd x)) l)) ->
  exists w', delete_outstandings l w = Ok w'.
Proof.
  revert w. induction l as [|[i o] l IH]; intros w Hl Hr Hd; [by exists w|].
  destruct (Hl i o) as [H1 H2]; [by left|]. cbn [delete_outstandings].
  assert (Hno : forall f : Z * OutstandingCall -> Z, NoDup (nonzero (map f ((i, o) :: l))) ->
    NoDup (nonzero (map f l)) /\ forall x, x ∈ l -> f (i, o) <> 0 -> f x <> f (i, o)).
  { intros f Hf. unfold nonzero in Hf. cbn [map] in Hf. rewrite list.filter_cons in Hf.
    case_decide as Hz; [|by split]. apply list.NoDup_cons in Hf as [Hf ?]. split; [done|].
    intros x Hx _ E. apply Hf. rewrite <- E. apply elem_nonzero; [done|congruence]. }
  destruct (Hno _ Hr) as [Hr' Hr2], (Hno _ Hd) as [Hd' Hd2]. cbn [snd] in *.
  assert (Hw1 : exists w1, delete_message (out_response o) w = Ok w1 /\ closures w1 = closures w /\
    forall p, (out_response o <> 0 -> p <> out_response o) -> messages w1 !! p = messages w !! p).
  { unfold delete_message. destruct (Z.eqb_spec (out_response o) 0) as [E|E]; [by exists w|].
    destruct (H1 E) as [m ->]. eexists. split; [done|]. split; [done|]. intros p Hp. cbn.
    apply lookup_delete_ne. by apply not_eq_sym, Hp. }
  destruct Hw1 as (w1 & -> & Hc1 & Hm1). cbn [mbind outcome_bind].
  assert (Hw2 : exists w2, delete_closure (out_done o) w1 = Ok w2 /\ messages w2 = messages w1 /\
    forall p, (out_done o <> 0 -> p <> out_done o) -> p ∈ closures w -> p ∈ closures w2).
  { unfold delete_closure. rewrite Hc1. destruct (Z.eqb_spec (out_done o) 0) as [E|E]; [exists w1; by rewrite Hc1|].
    rewrite bool_decide_eq_true_2 by auto. eexists. split; [done|]. split; [done|]. cbn. rewrite Hc1. set_solver. }
  destruct Hw2 as (w2 & -> & Hm2 & Hc2). cbn [mbind outcome_bind].
  apply IH; [|done|done]. intros j o' Hin. destruct (Hl j o') as [H3 H4]; [by right|]. rewrite Hm2. split.
  - intros Hz. rewrite Hm1; [auto|]. intros Hz'. by apply (Hr2 (j, o')).
  - intros Hz. apply Hc2; [|auto]. intros Hz'. by apply (Hd2 (j, o')).
Qed.

(** The pointers of distinct calls are distinct. *)
Lemma nonzero_table (f : CallRecord -> Z) (g : OutstandingCall -> Z) made l :
  NoDup (nonzero (map f made)) -> (forall c, g (out_of c) = f c) -> NoDup (map fst l) ->
  (forall i o, (i, o) ∈ l -> exists c, call_at made i = Some c /\ o = out_of c) ->
  NoDup (nonzero (map (fun x => g (snd x)) l)).
Proof.
  intros Hm Hg. induction l as [|[i o] l IH]; intros Hnd Hl; [apply NoDup_nil_2|].
  cbn [map fst] in Hnd. apply list.NoDup_cons in Hnd as [Hi Hnd].
  assert (IHl : NoDup (nonzero (map (fun x => g (snd x)) l))) by (apply IH; [done|]; intros; apply Hl; by right).
  unfold nonzero. cbn [map snd]. rewrite list.filter_cons. case_decide as Hz; [|done].
  apply list.NoDup_cons. split; [|done]. intros [_ Hin]%list_elem_of_filter.
  apply list_elem_of_In, in_map_iff in Hin as ([j o'] & Heq & Hin). apply list_elem_of_In in Hin. cbn in Heq.
  destruct (Hl i o) as (c & Hc & ->); [by left|]. destruct (Hl j o') as (c' & Hc' & ->); [by right|].
  rewrite !Hg in *. apply Hi. rewrite (nonzero_inj f made i j c c'); try done.
  by apply list_elem_of_In, (in_map fst), list_elem_of_In in Hin.
Qed.

Lemma half_dtor p q up : half p q up -> exists w, dtor (chan p) (heap p) = Ok w.
Proof.
  intros (lost & fin & HD & HM & _). unfold dtor.
  assert (Hl : forall i o, (i, o) ∈ map_to_list (outstandings_ (chan p)) ->
    i ∉ fin /\ exists c, call_at (made p) i = Some c /\ o = out_of c).
  { intros i o Hin%elem_of_map_to_list. apply (d_table _ _ _ _ HD) in Hin as [Hin Hc]. split; [|done].
    intros Hf. pose proof (ids_NoDup _ _ _ _ HD) as Hnd. apply list.NoDup_app in Hnd as (_ & _ & Hnd).
    apply list.NoDup_app in Hnd as (_ & Hnd & _). by apply (Hnd i). }
  apply delete_outstandings_ok.
  - intros i o Hin. destruct (Hl i o Hin) as (Hf & c & Hc & ->).
    destruct (m_call _ _ _ HM i c Hc) as [Hinit Hlive]. destruct (Hlive Hf) as [H1 H2]. split; [|done].
    cbn. intros Hz. rewrite H1 by done. destruct (c_init c) eqn:E; [by eexists|]. by destruct Hz; apply Hinit.
  - apply (nonzero_table c_response out_response (made p)); [|done|apply NoDup_fst_map_to_list|by intros i o [_ ?]%Hl].
    pose proof (m_nodup _ _ _ HM) as Hnd. by apply list.NoDup_app in Hnd as [? _].
  - apply (nonzero_table c_done out_done (made p)); [|done|apply NoDup_fst_map_to_list|by intros i o [_ ?]%Hl].
    by apply (m_done_nodup _ _ _ HM).
Qed.

Lemma half_matched p q up : half p q up -> matched p q.
Proof.
  intros Hh. pose proof (half_dtor _ _ _ Hh) as Hdtor.
  destruct Hh as (lost & fin & HD & HM & _). split; [by apply (m_runs _ _ _ HM)|]. split; [by apply (d_once _ _ _ _ HD)|]. split.
  - intros r Hr. destruct (d_answered _ _ _ _ HD r Hr) as [_ ?]. done.
  - split; [|done]. intros d seen Hd. destruct (d_runs _ _ _ _ HD d seen Hd) as (i & c & ? & ? & ? & ? & ?). by exists i, c.
Qed.

Lemma half_settled p q :
  half p q true -> entering p = [] -> sending p = [] -> sent (heap p) = [] -> calls (heap q) = [] ->
  sent (heap q) = [] -> calls (heap p) = [] -> settled p.
Proof.
  intros (lost & fin & HD & HM & Hup & _) He Hs Hw Hc Hw' Hc'. rewrite (Hup eq_refl) in HD.
  assert (Hpend : pending (caller_of p) (callee_of q) [] = []).
  { unfold pending. cbn. by rewrite Hs, Hw, Hc, Hw'. }
  assert (Hall : forall i c, call_at (made p) i = Some c -> i ∈ fin).
  { intros i c Hi. destruct (call_of_range _ _ _ _ _ _ HD Hi) as [Hr _].
    assert (Hin : i ∈ seqZ 1 (r_id (caller_of p))) by (apply elem_of_seqZ; lia).
    rewrite <- (d_ids _ _ _ _ HD), Hpend in Hin. cbn in Hin. by rewrite He in Hin. }
  split; [|split].
  - apply map_empty. intros i. destruct (outstandings_ (chan p) !! i) as [o|] eqn:E; [|done].
    apply (d_table _ _ _ _ HD) in E as [E _]. rewrite Hpend in E. by apply elem_of_nil in E.
  - apply map_empty. intros a. destruct (messages (heap p) !! a) as [m|] eqn:E; [|done].
    destruct (m_live _ _ _ HM a) as [(i & c & Hi & Hf & _)|Hin]; [by eexists| |].
    + destruct Hf. by eapply Hall.
    + rewrite Hc' in Hin. by apply elem_of_nil in Hin.
  - intros i c Hi. apply (d_fin _ _ _ _ HD i c); [by eapply Hall|done].
Qed.

(** ** Properties *)

(** C13: Two RpcChannels over a connection, any number of threads calling,
    any services answering later or never, the connection going down at any
    time: no assertion of onRpcMessage fails and no message or closure is used
    after it was freed, a call is answered at most once, by the service and method it
    names and with its own request, and the closure of a call runs at most once
    and finds the reply to this very call in its response object (or the
    object as it was, when the peer refused the call); a channel may be destroyed
    at any time. *)
Theorem rpc_calls_matched l r ls :
  zlen ls <= INT64_MAX ->
  exists s, run ls (init l r) = Ok s /\ matched (left s) (right s) /\ matched (right s) (left s).
Proof.
  intros Hls. destruct (run_ok ls (init l r) 0) as (s & Hr & [[Hl Hr'] _]); [apply init_inv|done|lia|].
  exists s. split; [done|]. split; by eapply half_matched.
Qed.

(** C14: As long as the connection is up no call is lost: when the threads are
    through, the messages delivered and the services have answered, every call
    that had a response object and a closure has run it, the tables of outstanding
    calls are empty and every response object has been freed. *)
Theorem rpc_calls_settle l r ls s :
  zlen ls <= INT64_MAX -> run ls (init l r) = Ok s -> up s = true -> quiet s ->
  settled (left s) /\ settled (right s).
Proof.
  intros Hls Hrun Hup Hq. destruct (run_ok ls (init l r) 0) as (s' & Hr & [[Hl Hr'] _]); [apply init_inv|done|lia|].
  rewrite Hrun in Hr. injection Hr as <-. rewrite Hup in Hl, Hr'.
  destruct (Hq (left s)) as (? & ? & ? & ?); [by left|].
  destruct (Hq (right s)) as (? & ? & ? & ?); [by right|].
  split; by eapply half_settled.
Qed.

(** What a channel does with a message, branch by branch: a request is
    answered with NO_SERVICE, NO_METHOD or INVALID_REQUEST, or else handed to the
    service and answered by nobody but its closure; a response for a call that is not
    outstanding changes nothing but the table, and one that carries neither a
    response nor an error fails an assertion. *)
Theorem onRpcMessage_cases services this m c w :
  conn_ c <> 0 ->
  let result := onRpcMessage services this (conn_ c) m c w in
  let refused e := result = Ok (c, with_sent (fun l => l ++ [(conn_ c, error_message (id m) e)]) w) in
  (type_ m = REQUEST ->
    (services_ c = false \/ services !! service m = None -> refused NO_SERVICE) /\
    (forall svc, services_ c = true -> services !! service m = Some svc ->
      (FindMethodByName svc (method m) = None -> refused NO_METHOD) /\
      (forall mt req, FindMethodByName svc (method m) = Some mt ->
        (ParseFromString (request m) (RequestPrototype svc mt) = (false, req) -> refused INVALID_REQUEST) /\
        (ParseFromString (request m) (RequestPrototype svc mt) = (true, req) ->
          exists w', result = Ok (c, w') /\ sent w' = sent w /\
            calls w' = calls w ++ [mkServiceCall this mt req (fresh w) (i64 (id m))] /\
            messages w' !! fresh w = Some (ResponsePrototype svc mt))))) /\
  (type_ m = RESPONSE ->
    (response m = None -> error m = None -> result = Fault AssertFailed) /\
    (is_Some (response m) \/ is_Some (error m) -> outstandings_ c !! i64 (id m) = None -> result = Ok (with_outstandings (delete (i64 (id m))) c, w))) /\
  (type_ m = ERROR -> result = Ok (c, w)).
Proof.
  intros Hc result refused. subst result refused. cbv beta zeta. unfold onRpcMessage. rewrite Z.eqb_refl. cbn [assert mbind outcome_bind].
  assert (Hno : forall e, find_request services c m = inl e ->
    onRequest services this m c w = Ok (c, with_sent (fun l => l ++ [(conn_ c, error_message (id m) e)]) w)).
  { intros e He. unfold onRequest, codec_send. by rewrite He, (proj2 (Z.eqb_neq _ _)). }
  split; [|split]; intros ->; cbv iota.
  - split.
    { intros Hn. apply Hno. unfold find_request. destruct Hn as [->| ->]; [done|by destruct (services_ c)]. }
    intros svc Hs Hsvc. split.
    { intros Hm. apply Hno. unfold find_request. by rewrite Hs, Hsvc, Hm. }
    intros mt req Hm. split; intros Hp.
    { apply Hno. unfold find_request. by rewrite Hs, Hsvc, Hm, Hp. }
    unfold onRequest, find_request. rewrite Hs, Hsvc, Hm, Hp. cbn. eexists. split; [done|]. cbn.
    by rewrite lookup_insert_eq.
  - unfold onResponse. split.
    + by intros -> ->.
    + intros Has Hn. rewrite assert_true by (rewrite orb_true_iff, !bool_decide_eq_true; done).
      cbn [mbind outcome_bind]. by rewrite Hn.
  - done.
Qed.

(** *** RpcServer *)

Lemma delete_outstandings_calls l w w' : delete_outstandings l w = Ok w' -> calls w' = calls w.
Proof.
  revert w. induction l as [|[i o] l IH]; intros w Hd; cbn [delete_outstandings] in Hd; [by injection Hd as <-|].
  apply bind_Ok in Hd as (w1 & H1 & Hd). apply bind_Ok in Hd as (w2 & H2 & Hd). rewrite (IH _ Hd).
  unfold delete_message, delete_closure in *.
  repeat case_match; simplify_eq; done.
Qed.

(** A service that answers after the connection of the call has gone
    down runs doneCallback of a channel that was destroyed: onConnection resets the
    context, the only owner of the channel, while the closures of the calls in
    progress keep its raw pointer. *)
Theorem answer_after_down conn this c k sc reply s s' :
  RpcServer.context s !! conn = Some this -> RpcServer.channels s !! this = Some c ->
  calls (RpcServer.process s) !! k = Some sc -> sc_this sc = this ->
  RpcServer.onConnection conn false s = Ok s' ->
  RpcServer.answer k reply s' = Fault OutOfBounds.
Proof.
  intros Hctx Hch Hk Hthis Hdown. unfold RpcServer.onConnection, RpcServer.reset_context in Hdown.
  rewrite Hctx, Hch in Hdown. apply bind_Ok in Hdown as (w & Hd & Hs). injection Hs as <-.
  unfold RpcServer.answer. cbn. rewrite (delete_outstandings_calls _ _ _ Hd), Hk, Hthis, lookup_delete_eq. done.
Qed.

End RpcFacts.

(** ** A run *)

Module RpcDemo.
Import RpcChannel RpcPeers.

(** Messages that are their own serialization, and a service with one method. *)
#[export] Instance raw : Protobuf := {|
  Message := bytes; SerializeAsString := fun m => m; ParseFromString := fun b _ => (true, b) |}.

Definition echo : MethodDescriptor := Method (bs "echo.EchoService") (bs "Echo").
Definition EchoService : Service := mkService raw (bs "echo.EchoService")
  (fun n => if decide (n = bs "Echo") then Some echo else None) (fun _ => []) (fun _ => []).
Definition services : gmap bytes Service := {[ bs "echo.EchoService" := EchoService ]}.

(** A call that is answered, and one of a method that does not exist. *)
Definition calls_two : list (bool * label) :=
  [(true, Call echo (bs "hello") (Some []) true); (true, Insert 0); (true, Send 0); (false, Deliver);
   (true, Call (Method (bs "echo.EchoService") (bs "None")) (bs "?") (Some (bs "old")) true);
   (false, Reply 0 (bs "HELLO")); (true, Insert 0); (true, Send 0); (true, Deliver); (false, Deliver); (true, Deliver)].

Definition after_two : outcome sys := run calls_two (init None (Some services)).

Example runs_two :
  (s ← after_two; Ok (runs (heap (left s)))) = Ok [(2, Some (bs "HELLO")); (4, Some (bs "old"))].
Proof. by vm_compute. Qed.

Lemma rpc_calls_matched_witness :
  exists s, after_two = Ok s /\ matched (left s) (right s) /\ matched (right s) (left s).
Proof. apply (rpc_calls_matched None (Some services) calls_two). vm_compute. congruence. Defined.

Definition end_of_two : sys := match after_two with Ok s => s | Fault _ => init None None end.

Lemma rpc_calls_settle_witness :
  after_two = Ok end_of_two /\ settled (left end_of_two) /\ settled (right end_of_two).
Proof.
  assert (Hrun : after_two = Ok end_of_two) by (vm_compute; reflexivity).
  split; [exact Hrun|].
  apply (rpc_calls_settle None (Some services) calls_two end_of_two);
    [vm_compute; congruence|exact Hrun|vm_compute; reflexivity|].
  intros d [E|E]; subst d; (split; [|split; [|split]]); vm_compute; reflexivity.
Defined.

Definition request_echo : RpcMessage := mkRpcMessage REQUEST 1 (bs "echo.EchoService") (bs "Echo") (bs "hi") None None.

Lemma onRpcMessage_cases_witness :
  onRpcMessage services 0 1 request_echo (ctor_conn 1) (mkWorld ∅ ∅ 1 [] [] []) =
  Ok (ctor_conn 1, mkWorld ∅ ∅ 1 [] [(1, error_message 1 NO_SERVICE)] []).
Proof.
  apply (onRpcMessage_cases services 0 request_echo (ctor_conn 1) (mkWorld ∅ ∅ 1 [] [] []));
    [done|reflexivity|by left].
Defined.

(** A server with a connection whose request is with the service. *)
Definition busy_server : outcome RpcServer.t :=
  s ← RpcServer.onConnection 7 true
        (RpcServer.registerService EchoService (RpcServer.mk ∅ ∅ ∅ ∅ (mkWorld ∅ ∅ 1 [] [] [])));
  RpcServer.onMessage 7 request_echo s.
Definition busy : RpcServer.t :=
  match busy_server with Ok s => s | Fault _ => RpcServer.mk ∅ ∅ ∅ ∅ (mkWorld ∅ ∅ 1 [] [] []) end.
Definition busy_down : RpcServer.t :=
  match RpcServer.onConnection 7 false busy with Ok s => s | Fault _ => busy end.

Lemma answer_after_down_witness :
  RpcServer.onConnection 7 false busy = Ok busy_down /\ RpcServer.answer 0 (bs "HI") busy_down = Fault OutOfBounds.
Proof.
  assert (Hdown : RpcServer.onConnection 7 false busy = Ok busy_down) by (vm_compute; reflexivity).
  split; [exact Hdown|].
  apply (@answer_after_down raw 7 1 (setServices true (ctor_conn 7)) 0 (@mkServiceCall raw 1 echo (bs "hi") 2 1) (bs "HI") busy busy_down);
    [vm_compute; reflexivity|vm_compute; reflexivity|vm_compute; reflexivity|reflexivity|exact Hdown].
Defined.

End RpcDemo.
End RpcFacts.
